(* ===== verification/_CoqProject ===== *)
-Q . S2P
Prelude.v
Qser.v
QserLib.v
QserVarint.v
LogicalType.v
GoFmt.v
Values.v
ValuesFacts.v
Vector.v
Chunk.v
CodecGood.v
CodecTypes.v
CodecSafe.v
Codectest.v
RoundtripCells.v
CodecRoundtrip.v
Messages.v
Client.v
Stream.v
Interpolate.v
Json.v
TypeName.v
Corpus.v
Rows.v
RowsTyped.v
Driver.v
WireText.v
Quacktest.v
Bouncer.v
BouncerSteps.v
BouncerCount.v
Proxied.v
