(* ===== verification/Prelude.v ===== *)
(** * duckcall verified: the Go client of DuckDB's Quack protocol

    duckcall is a Go library and its tools.  Package [internal/qser] is the
    binary framing; [codec] decodes DuckDB's serialized types, vectors, chunks
    and result bodies; [wire] speaks one HTTP POST per message (handshake,
    prepare, fetch, disconnect, with retries and redaction); the root package
    streams a result's chunks through concurrent fetch workers; [driver] offers
    all of that to database/sql; [cmd/quackbouncer] is a pooling proxy that
    speaks the protocol on both sides; [internal/quacktest] is the in-process
    server the tests run against and [codec/codectest] the encoder it uses.

    This development is a shallow embedding of all of these: every function
    that computes, and every operation that changes state, is an executable
    definition translated from the Go code, under the name it has there where
    Rocq allows it.  Concurrency is kept as step relations whose steps are the
    atomic sections of the code.

    ** How the model reads

    A Go function that returns a value and an error is a function to [outcome]:
    [Ok], [Err] with an error of an inductive type per package, or [Panic] for
    index and slice expressions out of range, nil dereferences, failed type
    assertions and calls to panic.  Integers are [Z] with each conversion
    written out ([u8 .. u64], [i8 .. i64]); bytes and strings are lists of
    [Byte.byte]; floats are their IEEE bit patterns.  A method with a receiver
    that it changes returns the receiver's next state.  [let!] sequences
    outcomes, [let*] and [let?] sequence reader computations.  Go maps are
    [gmap]s, except where the order of their iteration shows, which is then
    quantified over or a sorted list, as in the code.

    What lies outside the repository is an argument: net/url's parse
    ([url_scheme] of Client, [parse] of Driver), strconv.FormatFloat of finite
    floats ([formatFloat]) and the verb %g ([fmt_g]), strconv.Quote ([Quote]),
    time.ParseDuration, os.Getenv, the text of a context's error ([ctx_text]),
    the random connection id ([vid]), and above all the network: an HTTP
    exchange is given by an [http_reply], what net/http hands back for one
    POST, and a [world] gives one per attempt of the handshake.  The only
    hypotheses on such parameters are that FormatFloat of a finite float writes
    a JSON number (Rows, RowsTyped), and that the endpoint behind the proxy
    answers messages with messages (class [LawfulEndpoint] of Proxied, which
    the fake server is an instance of).

    ** The files

    - Prelude: outcomes, machine integers, bytes, tactics, list lemmas.
    - Qser: internal/qser/qser.go.  Module [Reader]: buffer, offset and sticky
      error; Module [Writer]: the bytes each call appends; the predicates
      [good], [yields] and [parses] on reader computations.  QserLib: their
      laws, method by method, and the tactics the decoders are verified with.
      QserVarint: the integer codings against a reference reading of LEB128.
    - LogicalType, TypeName: codec/logicaltype.go, its decoder and its String.
    - GoFmt: strconv's and fmt's decimal verbs and the functions of package
      strings that the repository calls.
    - Values, ValuesFacts: codec/values.go, the value types and what their
      accessors and renderings keep.
    - Vector: codec/chunk.go, every vector encoding.  Chunk: its chunks and
      accessors, result.go, codec.go, versions.go.
    - CodecGood, CodecTypes, CodecSafe: what holds of the decoders on any input.
    - Codectest: codec/codectest/codectest.go, the encoder.  RoundtripCells,
      CodecRoundtrip: the decoders against the encoder.
    - Messages: wire/messages.go.  Client: wire/client.go, config.go, errors.go,
      retry.go, versions.go.  WireText: the error texts of wire and qser.
    - Stream: duckcall.go.  [Dial] and [Query] are functions; the iterator of
      [Result.Chunks] is the relation [step] on the record [stream].
    - Interpolate: driver/interpolate.go.  Json, Rows: driver/rows.go and the
      part of encoding/json it calls.  RowsTyped: codec and rows composed.
      Driver: driver/driver.go and dsn.go.
    - Quacktest: internal/quacktest/quacktest.go, a record [Server] and a
      function per handler; and client, stream and server composed.
    - Bouncer: cmd/quackbouncer/pool.go, proxy.go, metrics.go and main.go up to
      the listening socket, a record [proxy] and a function per handler, with upstream
      clients shared through a store.  BouncerSteps: the interleavings of the
      handlers.  BouncerCount: totality and the request counter.  Proxied: the
      proxy in front of an endpoint.
    - Corpus: the captured and malformed payloads of testdata/corpus, evaluated.

    Interfaces between components: the decoders are verified against [good],
    [yields] and [parses], never against the loops of the reader; [typed]
    (CodecTypes) is what the codec promises the driver, and [rendered] (Rows)
    is proved from it; [Endpoint] and [LawfulEndpoint] (Proxied) are what the
    proxy asks of the server behind it.

    ** What the theorems show

    - Safety of decoding, on any bytes: [CodecSafe.decode_safe],
      [CodecSafe.chunk_value_total], [CodecSafe.truncation_rejected],
      [TypeName.type_string_total].
    - Round trips and references: [CodecRoundtrip.chunk_roundtrip],
      [prepare_roundtrip] and [fetch_roundtrip] for every type tree the encoder
      represents; [Messages.envelope_roundtrip] and [bodies_roundtrip];
      [QserVarint.varint_reference]; [ValuesFacts.values_exact];
      [Rows.json_text_exact].
    - The stream: [Stream.stream_complete] (a silent end is a complete one),
      [Stream.stream_prefix] (order and no duplicate at every moment),
      [Stream.stream_ends] (every run is finite and none blocks, so that no
      goroutine leaks), [Stream.query_sound].
    - The client: [Client.connect_sound], [retry_total], [call_spec],
      [query_ids_sequential], [closed_is_final], [errors_redacted].
    - Placeholders: [Interpolate.interpolate_spec], [tokens_grammar] (the index
      scan is the lexical grammar), [string_literal_isolated] (no injection).
    - database/sql: [RowsTyped.decoded_rows_typed], [Rows.nested_as_json],
      [rows_drain], [scalar_exact]; [Driver.bad_conn_only_expired],
      [conn_close_spec], [dsn_spec].
    - Servers: [Quacktest.served_query_complete] (the server's fetches are the
      registered batches, and the stream over them can end silently and then
      is complete) and [add_result_splits]; [Proxied.proxy_refines] (a virtual connection is as good as the session
      behind it), [BouncerSteps.sessions_exclusive], [Bouncer.forward_transparent]
      (on every path, errors included), [connect_needs_token],
      [dead_session_recycled], [BouncerCount.requests_counted] (every request
      returns, without a panic).

    ** Bounds and fuel

    - Types and vectors recurse on the levels left under the source's own bound,
      [S maxTypeDepth] = 65; running out is the source's depth error.
    - A varint is at most ten bytes; the writer's loops get ten turns, enough
      for 64 bits at seven bits a byte ([QserVarint.varint_reference]).
    - [retry] gets one turn per attempt it may make; that it
      returns is [Client.retry_total]; that [Connect] and the proxy's handlers
      do, without a condition, is in [Client.Connect_returns] and
      [BouncerCount.requests_counted].
    - [interpolate] and its scan get as many turns as the query has bytes, and
      each turn consumes one at least ([Interpolate.interpolate_spec]).
    - Splitting a table into chunks gets a turn per row, each taking one row at
      least ([Quacktest.add_result_splits]); [Rows.Next] recurses on the chunks
      left; trimming a string gets its length.
    - The stream has no fuel: its runs are bounded by the measure [work].

    ** Not modelled

    Memory exhaustion, and the sizes of buffers a process cannot hold.  The
    parsing of flags, the log and the listening socket of quackbouncer, and the
    listener of quacktest (httptest): they keep no state of the program.  The sleep of
    quacktest's FetchDelay, which changes no state.  The registration of the
    driver in init and the interface assertions.  The tests and scripts. *)

From stdpp Require Export base list numbers option strings.
From Stdlib Require Export ZArith Lia Bool.
From Stdlib.Strings Require Byte.

#[global] Open Scope Z_scope.

Abbreviation byte := Byte.byte.

(** ** Outcomes of Go calls *)

(** A Go function returning [(T, error)] returns a value, returns a non-nil
    error, or panics.  The value that accompanies a non-nil error is not kept:
    every caller in the repository tests the error first. *)
Inductive outcome (E A : Type) : Type :=
  | Ok (a : A)
  | Err (e : E)
  | Panic.
Arguments Ok {E A} a.
Arguments Err {E A} e.
Arguments Panic {E A}.

Definition is_ok {E A} (o : outcome E A) : bool :=
  match o with Ok _ => true | _ => false end.

(** Sequencing of fallible pure code: errors and panics propagate. *)
Definition obind {E A B} (o : outcome E A) (k : A -> outcome E B) : outcome E B :=
  match o with
  | Ok a => k a
  | Err e => Err e
  | Panic => Panic
  end.

Declare Scope go_scope.
Delimit Scope go_scope with go.
#[global] Open Scope go_scope.

Notation "'let!' x ':=' o 'in' k" := (obind o (fun x => k))
  (at level 10, x pattern, o at level 100, k at level 200) : go_scope.

(** ** Tactics *)

(** Case analysis on the scrutinee of the first [match] of the goal or of a
    hypothesis, keeping the equation. *)
Ltac dmatch :=
  match goal with
  | |- context [match ?x with _ => _ end] => destruct x eqn:?
  | H : context [match ?x with _ => _ end] |- _ => destruct x eqn:?
  end.

(** Boolean comparisons of integers to propositions. *)
Ltac zify_bools :=
  repeat match goal with
  | H : (_ && _)%bool = true |- _ => apply andb_true_iff in H; destruct H
  | H : (_ || _)%bool = false |- _ => apply orb_false_iff in H; destruct H
  | H : negb _ = true |- _ => apply negb_true_iff in H
  | H : negb _ = false |- _ => apply negb_false_iff in H
  | H : (_ <? _) = true |- _ => apply Z.ltb_lt in H
  | H : (_ <? _) = false |- _ => apply Z.ltb_ge in H
  | H : (_ <=? _) = true |- _ => apply Z.leb_le in H
  | H : (_ <=? _) = false |- _ => apply Z.leb_gt in H
  | H : (_ =? _) = true |- _ => apply Z.eqb_eq in H
  | H : (_ =? _) = false |- _ => apply Z.eqb_neq in H
  end.

Ltac blia := zify_bools; lia.

(** ** Bytes *)

(** The value of a byte ([uint8] in Go) and the truncating conversion to it. *)
Definition ub (b : byte) : Z := Z.of_N (Byte.to_N b).

Definition bz (z : Z) : byte := default Byte.x00 (Byte.of_N (Z.to_N (z mod 256))).

#[global] Instance byte_eq_dec : EqDecision byte := Byte.byte_eq_dec.

Lemma ub_range b : 0 <= ub b < 256.
Proof. unfold ub. pose proof (Byte.to_N_bounded b). lia. Qed.

Lemma ub_bz z : ub (bz z) = z mod 256.
Proof.
  unfold ub, bz. pose proof (Z.mod_pos_bound z 256 ltac:(lia)).
  destruct (Byte.of_N _) as [b|] eqn:E; simpl.
  - apply Byte.to_of_N in E. rewrite E. lia.
  - apply Byte.of_N_None_iff in E. lia.
Qed.

Lemma bz_ub b : bz (ub b) = b.
Proof.
  unfold bz, ub. pose proof (Byte.to_N_bounded b).
  rewrite Z.mod_small by lia. by rewrite N2Z.id, Byte.of_to_N.
Qed.

Lemma ub_inj a b : ub a = ub b -> a = b.
Proof. intros H. by rewrite <- (bz_ub a), <- (bz_ub b), H. Qed.

Lemma ub_bz_small z : 0 <= z < 256 -> ub (bz z) = z.
Proof. intros. rewrite ub_bz. by apply Z.mod_small. Qed.

(** Go [string] and [[]byte] contents. *)
Abbreviation bytes := (list byte).

(** String literals of the source. *)
Definition str (s : String.string) : bytes := String.list_byte_of_string s.

#[global] Instance outcome_eq_dec {E A} `{EqDecision E, EqDecision A} :
  EqDecision (outcome E A).
Proof. solve_decision. Defined.

(** ** Machine integers *)

(** Conversions to [uintW] and [intW]: reduction modulo [2^W]. *)
Definition uwrap (w z : Z) : Z := z mod 2 ^ w.
Definition swrap (w z : Z) : Z := (z + 2 ^ (w - 1)) mod 2 ^ w - 2 ^ (w - 1).

Abbreviation u8 := (uwrap 8).
Abbreviation u16 := (uwrap 16).
Abbreviation u32 := (uwrap 32).
Abbreviation u64 := (uwrap 64).
Abbreviation i8 := (swrap 8).
Abbreviation i16 := (swrap 16).
Abbreviation i32 := (swrap 32).
Abbreviation i64 := (swrap 64).

Definition in_u (w z : Z) : Prop := 0 <= z < 2 ^ w.
Definition in_s (w z : Z) : Prop := - 2 ^ (w - 1) <= z < 2 ^ (w - 1).

Definition in_ub (w z : Z) : bool := (0 <=? z) && (z <? 2 ^ w).
Definition in_sb (w z : Z) : bool := (- 2 ^ (w - 1) <=? z) && (z <? 2 ^ (w - 1)).

Lemma in_ub_spec w z : in_ub w z = true <-> in_u w z.
Proof. unfold in_ub, in_u. rewrite andb_true_iff, Z.leb_le, Z.ltb_lt. done. Qed.

Lemma in_sb_spec w z : in_sb w z = true <-> in_s w z.
Proof. unfold in_sb, in_s. rewrite andb_true_iff, Z.leb_le, Z.ltb_lt. done. Qed.

Lemma pow_half w : 0 < w -> 2 ^ w = 2 * 2 ^ (w - 1) /\ 0 < 2 ^ (w - 1).
Proof.
  intros. split; [|apply Z.pow_pos_nonneg; lia].
  rewrite <- Z.pow_succ_r by lia. f_equal; lia.
Qed.

Lemma uwrap_in w z : 0 <= w -> in_u w (uwrap w z).
Proof. intros. apply Z.mod_pos_bound, Z.pow_pos_nonneg; lia. Qed.

Lemma swrap_in w z : 0 < w -> in_s w (swrap w z).
Proof.
  intros Hw. destruct (pow_half w Hw) as [E P]. unfold in_s, swrap.
  pose proof (Z.mod_pos_bound (z + 2 ^ (w - 1)) (2 ^ w) ltac:(lia)). lia.
Qed.

Lemma uwrap_small w z : in_u w z -> uwrap w z = z.
Proof. apply Z.mod_small. Qed.

Lemma swrap_small w z : 0 < w -> in_s w z -> swrap w z = z.
Proof.
  intros Hw H. destruct (pow_half w Hw) as [E P]. unfold in_s, swrap in *.
  rewrite Z.mod_small by lia. lia.
Qed.

(** A signed value survives a round trip through the unsigned type. *)
Lemma swrap_uwrap w z : 0 < w -> swrap w (uwrap w z) = swrap w z.
Proof. intros. unfold swrap, uwrap. by rewrite Zplus_mod_idemp_l. Qed.

Lemma uwrap_swrap w z : 0 < w -> uwrap w (swrap w z) = uwrap w z.
Proof.
  intros Hw. unfold swrap, uwrap. rewrite Zminus_mod_idemp_l. f_equal; lia.
Qed.

Lemma swrap_shift w z k : swrap w (z + k * 2 ^ w) = swrap w z.
Proof.
  unfold swrap. replace (z + k * 2 ^ w + 2 ^ (w - 1)) with (z + 2 ^ (w - 1) + k * 2 ^ w) by lia.
  by rewrite Z_mod_plus_full.
Qed.

(** ** Bit operations as arithmetic *)

Lemma lor_shiftl_add a b s :
  0 <= s -> 0 <= a < 2 ^ s -> Z.lor a (Z.shiftl b s) = a + b * 2 ^ s.
Proof.
  intros Hs Ha. rewrite <- Z.add_nocarry_lor; [by rewrite Z.shiftl_mul_pow2|].
  apply Z.bits_inj'. intros n Hn. rewrite Z.land_spec, Z.bits_0.
  destruct (Z.lt_ge_cases n s).
  - rewrite Z.shiftl_spec_low by lia. apply andb_false_r.
  - rewrite <- (Z.mod_small a (2 ^ s)) by lia.
    by rewrite Z.mod_pow2_bits_high by lia.
Qed.

Lemma lor_mul_add a b s :
  0 <= s -> 0 <= a < 2 ^ s -> Z.lor a (b * 2 ^ s) = a + b * 2 ^ s.
Proof. intros. rewrite <- (Z.shiftl_mul_pow2 b s) at 1 by done. by apply lor_shiftl_add. Qed.

Lemma land_127 z : Z.land z 127 = z mod 128.
Proof. apply (Z.land_ones z 7). lia. Qed.

(** The test of one bit, as [b&mask != 0] in the source. *)
Lemma land_pow2_testbit z n : 0 <= n -> (Z.land z (2 ^ n) =? 0) = negb (Z.testbit z n).
Proof.
  intros Hn. destruct (Z.testbit z n) eqn:E; simpl.
  - apply Z.eqb_neq. intros H. apply (f_equal (fun x => Z.testbit x n)) in H.
    rewrite Z.land_spec, E, Z.pow2_bits_true, Z.bits_0 in H by lia. done.
  - apply Z.eqb_eq. apply Z.bits_inj'. intros m Hm.
    rewrite Z.land_spec, Z.bits_0. destruct (decide (n = m)) as [->|].
    + by rewrite E.
    + rewrite Z.pow2_bits_false by lia. apply andb_false_r.
Qed.

Lemma testbit_top z n : 0 <= n -> 0 <= z < 2 ^ (n + 1) -> Z.testbit z n = (2 ^ n <=? z).
Proof.
  intros Hn Hz. rewrite Z.pow_add_r, Z.pow_1_r in Hz by lia.
  assert (0 < 2 ^ n) by (apply Z.pow_pos_nonneg; lia).
  destruct (2 ^ n <=? z) eqn:E; zify_bools.
  - apply Z.testbit_true; [lia|].
    replace (z / 2 ^ n) with 1; [done|]. apply Z.div_unique with (z - 2 ^ n); lia.
  - apply Z.testbit_false; [lia|]. by rewrite Z.div_small by lia.
Qed.

(** ** Little-endian words *)

(** [binary.LittleEndian.AppendUintN] for [8*n] bits: the bytes it appends. *)
Fixpoint le_bytes (n : nat) (z : Z) : bytes :=
  match n with
  | O => []
  | S n => bz z :: le_bytes n (z / 256)
  end.

(** [binary.LittleEndian.UintN] of exactly the bytes given. *)
Fixpoint le_int (l : bytes) : Z :=
  match l with
  | [] => 0
  | b :: l => ub b + 256 * le_int l
  end.

Lemma length_le_bytes n z : length (le_bytes n z) = n.
Proof. revert z. induction n; intros; simpl; auto. Qed.

Lemma le_int_bytes n z : le_int (le_bytes n z) = z mod 2 ^ (8 * Z.of_nat n).
Proof.
  revert z. induction n as [|n IH]; intros z; [by rewrite Z.mod_1_r|].
  simpl. rewrite ub_bz, IH.
  replace (8 * Z.of_nat (S n)) with (8 + 8 * Z.of_nat n) by lia.
  rewrite Z.pow_add_r by lia. change (2 ^ 8) with 256.
  rewrite Z.rem_mul_r by (try apply Z.pow_nonzero; lia). lia.
Qed.

Lemma le_int_range l : in_u (8 * Z.of_nat (length l)) (le_int l).
Proof.
  unfold in_u. induction l as [|b l IH]; [simpl; lia|].
  replace (8 * Z.of_nat (length (b :: l))) with (8 + 8 * Z.of_nat (length l)) by (simpl length; lia).
  rewrite Z.pow_add_r by lia. change (2 ^ 8) with 256.
  pose proof (ub_range b). cbn [le_int]. lia.
Qed.

Lemma le_bytes_int l : le_bytes (length l) (le_int l) = l.
Proof.
  induction l as [|b l IH]; [done|]. cbn [length le_bytes le_int].
  pose proof (ub_range b). f_equal.
  - apply ub_inj. rewrite ub_bz. rewrite Z.add_mod, Z.mul_comm, Z.mod_mul by lia.
    rewrite Z.add_0_r, Z.mod_mod by lia. apply Z.mod_small; lia.
  - replace ((ub b + 256 * le_int l) / 256) with (le_int l); [done|].
    apply Z.div_unique with (ub b); lia.
Qed.

Lemma le_bytes_uwrap n z : le_bytes n (uwrap (8 * Z.of_nat n) z) = le_bytes n z.
Proof.
  rewrite <- (le_bytes_int (le_bytes n z)), length_le_bytes, le_int_bytes. done.
Qed.

#[global] Opaque le_bytes le_int.

(** ** Boolean predicates on lists *)

Lemma forallb_Forall_eq {A} (f : A -> bool) (l : list A) :
  forallb f l = true <-> Forall (fun x => f x = true) l.
Proof.
  rewrite forallb_forall, Forall_forall. split; intros H x Hx; apply H; by apply list_elem_of_In.
Qed.
