(* ===== verification/Qser.v ===== *)
(** * internal/qser: the framing every Quack message rides in

    [Reader] is the cursor of [qser.go] with its sticky error; its methods are
    functions from a reader to a result and the reader they leave behind.  A
    [Writer] only ever appends to its buffer, so a writer method is modelled by
    the bytes it appends and a sequence of calls by concatenation.

    The second half is the library the decoders above it are verified with:
    [good] (a reader computation stays inside its buffer, leaves a failed
    reader alone, and is not fooled by a truncated buffer), [yields] (a
    postcondition on the result) and [parses] (it reads exactly a given byte
    string back), each with its composition lemmas. *)

From S2P Require Import Prelude.

(** ** Data *)

Definition EndID : Z := 0xFFFF.

(** The sticky errors: [ErrTruncated], [ErrOverflow], and the framing error
    [End] reports. *)
Inductive qerr : Type :=
  | ErrTruncated
  | ErrOverflow
  | EUnexpectedField (id : Z).

#[global] Instance qerr_eq_dec : EqDecision qerr.
Proof. solve_decision. Defined.

Record hugeint := Hugeint { Upper : Z; Lower : Z }.

#[global] Instance hugeint_eq_dec : EqDecision hugeint.
Proof. solve_decision. Defined.

Definition OptionalIdxAbsent : Z := 2 ^ 64 - 1.

Record reader := mkReader { buf : bytes; off : nat; err : option qerr }.

Definition NewReader (b : bytes) : reader := mkReader b 0 None.

(** A call of a reader method, and a decoder built from such calls. *)
Definition M (A : Type) : Type := reader -> A * reader.

Definition ret {A} (a : A) : M A := fun r => (a, r).

Definition bind {A B} (m : M A) (k : A -> M B) : M B :=
  fun r => let '(a, r1) := m r in k a r1.

(** Decoders that also return a Go error: [dbind] is the caller's
    [if err != nil { return err }]. *)
Definition D (E A : Type) : Type := M (outcome E A).

Definition dret {E A} (a : A) : D E A := ret (Ok a).
Definition dfail {E A} (e : E) : D E A := ret (Err e).
Definition dpanic {E A} : D E A := ret Panic.
Definition dlift {E A} (o : outcome E A) : D E A := ret o.

Definition dbind {E A B} (m : D E A) (k : A -> D E B) : D E B :=
  bind m (fun o => match o with
                   | Ok a => k a
                   | Err e => ret (Err e)
                   | Panic => ret Panic
                   end).

Notation "'let*' x ':=' m 'in' k" := (bind m (fun x => k))
  (at level 10, x pattern, m at level 100, k at level 200) : go_scope.
Notation "'let?' x ':=' m 'in' k" := (dbind m (fun x => k))
  (at level 10, x pattern, m at level 100, k at level 200) : go_scope.

(** [for range n] with a body that yields one element per turn. *)
Fixpoint drepeat {E A} (n : nat) (body : D E A) : D E (list A) :=
  match n with
  | O => dret []
  | S n => let? a := body in let? l := drepeat n body in dret (a :: l)
  end.

Fixpoint mrepeat {A} (n : nat) (body : M A) : M (list A) :=
  match n with
  | O => ret []
  | S n => let* a := body in let* l := mrepeat n body in ret (a :: l)
  end.

(** [for i, x := range l] with a body that yields one element per turn. *)
Fixpoint dmap {E A B} (body : A -> D E B) (l : list A) : D E (list B) :=
  match l with
  | [] => dret []
  | x :: l => let? y := body x in let? ys := dmap body l in dret (y :: ys)
  end.

(** ** The reader *)

Module Reader.

Definition Err : M (option qerr) := fun r => (err r, r).

Definition remaining (r : reader) : Z := Z.of_nat (length (buf r)) - Z.of_nat (off r).
Definition Remaining : M Z := fun r => (remaining r, r).

Definition rest (r : reader) : bytes := drop (off r) (buf r).
Definition Rest : M bytes := fun r => (rest r, r).

Definition failed (r : reader) : bool := match err r with Some _ => true | None => false end.

Definition fail (e : qerr) (r : reader) : reader :=
  match err r with
  | None => mkReader (buf r) (off r) (Some e)
  | Some _ => r
  end.

Definition advance (n : nat) (r : reader) : reader := mkReader (buf r) (off r + n) (err r).

Definition PeekID : M Z := fun r =>
  if failed r then (EndID, r)
  else if remaining r <? 2 then (EndID, fail ErrTruncated r)
  else (le_int (take 2 (rest r)), r).

Definition TryField (id : Z) : M bool := fun r =>
  let '(p, r) := PeekID r in
  if negb (p =? id) || failed r then (false, r)
  else (true, advance 2 r).

Definition End_ : M unit := fun r =>
  let '(id, r) := PeekID r in
  if failed r then (tt, r)
  else if negb (id =? EndID) then (tt, fail (EUnexpectedField id) r)
  else (tt, advance 2 r).

Definition Take (n : Z) : M bytes := fun r =>
  if failed r then ([], r)
  else if (n <? 0) || (remaining r <? n) then ([], fail ErrTruncated r)
  else (take (Z.to_nat n) (rest r), advance (Z.to_nat n) r).

(** [encoding/binary.Uvarint]: the value and the bytes read, 0 for a buffer
    that ends too early, negative for a value past 64 bits. *)
Fixpoint binary_Uvarint (l : bytes) (i x s : Z) : Z * Z :=
  match l with
  | [] => (0, 0)
  | b :: l =>
      if i =? 10 then (0, - (i + 1))
      else if ub b <? 128 then
        if (i =? 9) && (1 <? ub b) then (0, - (i + 1))
        else (Z.lor x (u64 (Z.shiftl (ub b) s)), i + 1)
      else binary_Uvarint l (i + 1) (Z.lor x (u64 (Z.shiftl (Z.land (ub b) 127) s))) (s + 7)
  end.

Definition Uvarint : M Z := fun r =>
  if failed r then (0, r)
  else
    let '(v, n) := binary_Uvarint (rest r) 0 0 0 in
    if n =? 0 then (0, fail ErrTruncated r)
    else if n <? 0 then (0, fail ErrOverflow r)
    else (v, advance (Z.to_nat n) r).

(** The loop of [Svarint]; [l] is [r.buf[r.off:]], the bytes left to read. *)
Fixpoint svarint_loop (l : bytes) (i v shift : Z) (r : reader) : Z * reader :=
  match l with
  | [] => (0, fail ErrTruncated r)
  | b :: l =>
      if i =? 10 then (0, fail ErrOverflow r)
      else
        let r := advance 1 r in
        let v := if shift <? 64 then Z.lor v (u64 (Z.shiftl (Z.land (ub b) 127) shift)) else v in
        let shift := shift + 7 in
        if Z.land (ub b) 128 =? 0 then
          let v := if (shift <? 64) && negb (Z.land (ub b) 64 =? 0)
                   then Z.lor v (u64 (Z.shiftl (2 ^ 64 - 1) shift)) else v in
          (i64 v, r)
        else svarint_loop l (i + 1) v shift r
  end.

Definition Svarint : M Z := fun r =>
  if failed r then (0, r) else svarint_loop (rest r) 0 0 0 r.

Definition Bool : M bool :=
  let* b := Take 1 in
  ret (match b with [x] => negb (ub x =? 0) | _ => false end).

Definition Bytes : M bytes :=
  let* n := Uvarint in
  let* e := Err in
  match e with
  | Some _ => ret []
  | None => fun r =>
      if remaining r <? n then ([], fail ErrTruncated r) else Take n r
  end.

Definition String_ : M bytes := Bytes.

Definition ListCount : M Z :=
  let* n := Uvarint in
  let* e := Err in
  match e with
  | Some _ => ret 0
  | None => fun r =>
      if remaining r <? n then (0, fail ErrTruncated r) else (n, r)
  end.

Definition Present : M bool := Bool.

Definition HugeintVal : M hugeint :=
  let* hi := Svarint in
  let* lo := Uvarint in
  ret (Hugeint hi lo).

Definition OptionalIdx : M Z := Uvarint.

End Reader.

(** ** The writer *)

Module Writer.

Definition Field (id : Z) : bytes := le_bytes 2 id.
Definition End_ : bytes := Field EndID.

(** [encoding/binary.AppendUvarint]; ten groups of seven bits cover a
    [uint64], so the fuel [Uvarint] starts with is never used up. *)
Fixpoint append_uvarint (fuel : nat) (x : Z) : bytes :=
  match fuel with
  | O => []
  | S fuel =>
      if 128 <=? x then bz (Z.lor x 128) :: append_uvarint fuel (Z.shiftr x 7)
      else [bz x]
  end.

Definition Uvarint (v : Z) : bytes := append_uvarint 10 v.

Fixpoint svarint_loop (fuel : nat) (v : Z) : bytes :=
  match fuel with
  | O => []
  | S fuel =>
      let b := Z.land v 127 in
      let v := Z.shiftr v 7 in
      if ((v =? 0) && (Z.land b 64 =? 0)) || ((v =? -1) && negb (Z.land b 64 =? 0))
      then [bz b]
      else bz (Z.lor b 128) :: svarint_loop fuel v
  end.

Definition Svarint (v : Z) : bytes := svarint_loop 10 v.

Definition Bool (b : bool) : bytes := if b then [bz 1] else [bz 0].

Definition BytesVal (b : bytes) : bytes := Uvarint (Z.of_nat (length b)) ++ b.

Definition String_ (s : bytes) : bytes := BytesVal s.

Definition Raw (b : bytes) : bytes := b.

Definition HugeintVal (h : hugeint) : bytes := Svarint (Upper h) ++ Uvarint (Lower h).

Definition FieldUvarint (id v : Z) : bytes := Field id ++ Uvarint v.
Definition FieldSvarint (id v : Z) : bytes := Field id ++ Svarint v.
Definition FieldBool (id : Z) (b : bool) : bytes := Field id ++ Bool b.
Definition FieldString (id : Z) (s : bytes) : bytes := Field id ++ String_ s.
Definition FieldBytes (id : Z) (b : bytes) : bytes := Field id ++ BytesVal b.
Definition FieldHugeint (id : Z) (h : hugeint) : bytes := Field id ++ HugeintVal h.

End Writer.

(** [if r.TryField(id) { x = m() }] with [dflt] the value [x] has before. *)
Definition optField {A} (id : Z) (m : M A) (dflt : A) : M A :=
  let* p := Reader.TryField id in
  if p then m else ret dflt.

(** ** Reader computations that behave *)

Definition in_bounds (r : reader) : Prop := (off r <= length (buf r))%nat.

(** [r'] reads a truncation of the buffer of [r], from the same position. *)
Definition truncates (r' r : reader) : Prop :=
  buf r' `prefix_of` buf r /\ off r' = off r /\ err r' = err r /\ in_bounds r'.

(** What every method and decoder guarantees whatever bytes it is given:
    the buffer is only read, the cursor stays inside it and never moves back,
    a reader that has failed is left as it is, and on a truncated buffer the
    computation either sets the sticky error or does what it does on the
    whole buffer. *)
Record good {A} (m : M A) : Prop := Good {
  good_buf : forall r, buf (snd (m r)) = buf r;
  good_bounds : forall r, in_bounds r ->
    in_bounds (snd (m r)) /\ (off r <= off (snd (m r)))%nat;
  good_sticky : forall r e, err r = Some e -> snd (m r) = r;
  good_trunc : forall r' r, truncates r' r ->
    err (snd (m r')) <> None \/
    (fst (m r') = fst (m r) /\ truncates (snd (m r')) (snd (m r)))
}.

(** [Q] holds of the result, from any reader. *)
Definition yields {A} (m : M A) (Q : A -> Prop) : Prop := forall r, Q (fst (m r)).

(** A value satisfies [Q]; a panic never happens. *)
Definition okP {E A} (Q : A -> Prop) (o : outcome E A) : Prop :=
  match o with Ok a => Q a | Err _ => True | Panic => False end.

Definition dyields {E A} (m : D E A) (Q : A -> Prop) : Prop := yields m (okP Q).

(** [r] has not failed and its unread bytes are [l]. *)
Definition reading (r : reader) (l : bytes) : Prop :=
  err r = None /\ in_bounds r /\ Reader.rest r = l.

(** On input [w] followed by [tl], [m] returns [a] and consumes exactly [w]. *)
Definition parses {A} (m : M A) (w : bytes) (a : A) (tl : bytes) : Prop :=
  forall r, reading r (w ++ tl) -> m r = (a, Reader.advance (length w) r).

(** The next field id of [tl] is there and differs from [id]. *)
Definition other_field (id : Z) (tl : bytes) : Prop :=
  (2 <= length tl)%nat /\ le_int (take 2 tl) <> id.

Create HintDb qser.
