(* ===== verification/QserLib.v ===== *)
(** * Verification library for reader computations

    Composition lemmas for [good], [yields] and [parses], the facts about every
    method of the reader, and the tactics that apply them to a decoder. *)

From S2P Require Import Prelude Qser.

Import Reader.

(** ** [good]: composition *)

Lemma truncates_refl r : in_bounds r -> truncates r r.
Proof. by repeat split. Qed.

Lemma truncates_advance r' r n :
  truncates r' r -> Z.of_nat n <= remaining r' -> truncates (advance n r') (advance n r).
Proof.
  intros (Hp & Ho & He & Hb) Hn. unfold truncates, in_bounds, advance, remaining in *.
  simpl. repeat split; try done; lia.
Qed.

Lemma truncates_remaining r' r : truncates r' r -> remaining r' <= remaining r.
Proof.
  intros (Hp & Ho & _). apply prefix_length in Hp. unfold remaining. lia.
Qed.

Lemma rest_length r : in_bounds r -> Z.of_nat (length (rest r)) = remaining r.
Proof. unfold in_bounds, rest, remaining. rewrite length_drop. lia. Qed.

Lemma truncates_rest r' r : truncates r' r -> rest r' `prefix_of` rest r.
Proof.
  intros (Hp & Ho & _ & Hb). destruct Hp as [l Hl]. unfold rest. rewrite Ho, Hl.
  unfold in_bounds in Hb. rewrite drop_app_le by lia. by exists l.
Qed.

Lemma truncates_take r' r n :
  truncates r' r -> (Z.of_nat n <= remaining r') -> take n (rest r') = take n (rest r).
Proof.
  intros Ht Hn. destruct (truncates_rest _ _ Ht) as [l ->].
  rewrite take_app_le; [done|]. destruct Ht as (_ & _ & _ & Hb).
  pose proof (rest_length r' Hb). lia.
Qed.

Lemma fail_err e r : err (fail e r) <> None.
Proof. unfold fail. destruct (err r) eqn:E; simpl; congruence. Qed.

Lemma fail_buf e r : buf (fail e r) = buf r.
Proof. unfold fail. by destruct (err r). Qed.

Lemma fail_off e r : off (fail e r) = off r.
Proof. unfold fail. by destruct (err r). Qed.

Lemma fail_in_bounds e r : in_bounds r -> in_bounds (fail e r).
Proof. unfold in_bounds. by rewrite fail_buf, fail_off. Qed.

Lemma advance_in_bounds n r : Z.of_nat n <= remaining r -> in_bounds (advance n r).
Proof. unfold in_bounds, remaining, advance. simpl. lia. Qed.

Lemma good_ret {A} (a : A) : good (ret a).
Proof. split; unfold ret; simpl; auto. Qed.

Lemma good_bind {A B} (m : M A) (k : A -> M B) :
  good m -> (forall a, good (k a)) -> good (bind m k).
Proof.
  intros Hm Hk. split; unfold bind; intros.
  - pose proof (good_buf _ Hm r) as H. destruct (m r) as [a r1]; simpl in *.
    by rewrite (good_buf _ (Hk a)).
  - pose proof (good_bounds _ Hm r H) as [H1 H2]. destruct (m r) as [a r1]; simpl in *.
    pose proof (good_bounds _ (Hk a) r1 H1) as [H3 H4]. split; [done|lia].
  - pose proof (good_sticky _ Hm r e H) as H1. destruct (m r) as [a r1]; simpl in *.
    subst. eapply good_sticky; eauto.
  - pose proof (good_trunc _ Hm r' r H) as H1.
    destruct (m r') as [a' r1'], (m r) as [a r1]; simpl in *.
    destruct H1 as [H1|[-> H1]]; [|by apply good_trunc].
    left. destruct (err r1') eqn:E; [|done].
    by rewrite (good_sticky _ (Hk a') _ _ E), E.
Qed.

Lemma good_dbind {E A B} (m : D E A) (k : A -> D E B) :
  good m -> (forall a, good (k a)) -> good (dbind m k).
Proof.
  intros Hm Hk. apply good_bind; [done|]. intros [a|e|]; auto using good_ret.
Qed.

Lemma good_drepeat {E A} n (m : D E A) : good m -> good (drepeat n m).
Proof.
  intros Hm. induction n; simpl; [apply good_ret|].
  repeat (apply good_dbind; [done|intros]). apply good_ret.
Qed.

Lemma good_mrepeat {A} n (m : M A) : good m -> good (mrepeat n m).
Proof.
  intros Hm. induction n; simpl; [apply good_ret|].
  repeat (apply good_bind; [done|intros]). apply good_ret.
Qed.

Lemma good_dmap {E A B} (f : A -> D E B) l :
  (forall x, x ∈ l -> good (f x)) -> good (dmap f l).
Proof.
  intros Hf. induction l as [|x l IH]; simpl; [apply good_ret|].
  apply good_dbind; [apply Hf; left|]. intros y. apply good_dbind; [|intros; apply good_ret].
  apply IH. intros. apply Hf. by right.
Qed.

#[export] Hint Resolve good_ret good_bind good_dbind good_drepeat good_mrepeat : qser.

(** ** [good]: the reader's methods *)

Ltac reader_cases :=
  repeat (simpl; match goal with
  | |- context [match ?x with _ => _ end] => destruct x eqn:?
  end).

Lemma failed_true r : failed r = true <-> err r <> None.
Proof. unfold failed. destruct (err r); split; congruence. Qed.

Lemma failed_false r : failed r = false <-> err r = None.
Proof. unfold failed. destruct (err r); split; congruence. Qed.

(** A step that either leaves the reader, fails it, or advances it within the
    remaining bytes. *)
Inductive moves (r : reader) : reader -> Prop :=
  | moves_stay : moves r r
  | moves_fail e : moves r (fail e r)
  | moves_advance n : err r = None -> Z.of_nat n <= remaining r -> moves r (advance n r)
  | moves_advance_fail n e : err r = None -> Z.of_nat n <= remaining r ->
      moves r (fail e (advance n r)).

Lemma good_by_moves {A} (m : M A) :
  (forall r, moves r (snd (m r))) ->
  (forall r' r, truncates r' r -> err r = None ->
     err (snd (m r')) <> None \/
     (fst (m r') = fst (m r) /\ truncates (snd (m r')) (snd (m r)))) ->
  good m.
Proof.
  intros Hm Ht. split.
  - intros r. destruct (Hm r); rewrite ?fail_buf; done.
  - intros r Hb. destruct (Hm r); rewrite ?fail_off;
      [ | | | ]; (split; [auto using fail_in_bounds, advance_in_bounds|simpl; lia]).
  - intros r e He. destruct (Hm r) as [|e'| |]; try congruence.
    unfold fail. by rewrite He.
  - intros r' r Htr. destruct (err r) as [e|] eqn:He; [|auto].
    left. destruct (Hm r'); destruct Htr as (_ & _ & He' & _); try congruence.
    unfold fail. rewrite He', He. congruence.
Qed.

Lemma good_Err : good Err.
Proof.
  apply good_by_moves; intros; simpl; [constructor|].
  right. split; [|done]. by destruct H as (_ & _ & -> & _).
Qed.

Lemma good_PeekID : good PeekID.
Proof.
  apply good_by_moves; unfold PeekID.
  - intros r. reader_cases; constructor.
  - intros r' r Ht He. pose proof (truncates_remaining _ _ Ht).
    assert (He' : err r' = None) by (destruct Ht as (_ & _ & -> & _); done).
    rewrite (proj2 (failed_false r') He'), (proj2 (failed_false r) He).
    destruct (remaining r' <? 2) eqn:E1; simpl; [left; apply fail_err|].
    destruct (remaining r <? 2) eqn:E2; [blia|]. zify_bools.
    right. split; [|done]. simpl. f_equal. apply truncates_take; [done|lia].
Qed.

Lemma PeekID_snd r : snd (PeekID r) = r \/ snd (PeekID r) = fail ErrTruncated r.
Proof. unfold PeekID. reader_cases; auto. Qed.

Lemma PeekID_ok r : err (snd (PeekID r)) = None -> snd (PeekID r) = r /\ 2 <= remaining r.
Proof.
  unfold PeekID, failed. destruct (err r) eqn:E; [simpl; congruence|].
  destruct (remaining r <? 2) eqn:E2; simpl; intros H; [by apply fail_err in H|split; [done|blia]].
Qed.

Lemma good_TryField id : good (TryField id).
Proof.
  apply good_by_moves; unfold TryField.
  - intros r. pose proof (PeekID_snd r) as H1. pose proof (PeekID_ok r) as H2.
    destruct (PeekID r) as [p r1]; simpl in *.
    destruct (negb (p =? id) || failed r1) eqn:E; simpl.
    + destruct H1 as [->| ->]; constructor.
    + zify_bools. apply failed_false in H0. destruct H2 as [-> ?]; [done|]. constructor; [done|lia].
  - intros r' r Ht He. pose proof (good_trunc _ good_PeekID r' r Ht) as H.
    pose proof (PeekID_ok r') as H2.
    destruct (PeekID r') as [p' r1'], (PeekID r) as [p r1]; simpl in *.
    destruct H as [H|[-> H]].
    + left. apply failed_true in H. by rewrite H, orb_true_r; apply failed_true.
    + assert (failed r1' = failed r1) as -> by (unfold failed; destruct H as (_ & _ & -> & _); done).
      destruct (negb (p =? id) || failed r1) eqn:E; simpl; [by right|].
      right. split; [done|]. zify_bools. apply failed_false in H1.
      destruct H2 as [-> ?]; [by destruct H as (_ & _ & -> & _)|]. apply truncates_advance; [done|lia].
Qed.

Lemma good_End : good End_.
Proof.
  apply good_by_moves; unfold End_.
  - intros r. pose proof (PeekID_snd r) as H1. pose proof (PeekID_ok r) as H2.
    destruct (PeekID r) as [p r1]; simpl in *.
    destruct (failed r1) eqn:E; [|destruct (negb (p =? EndID)) eqn:E2]; simpl.
    + destruct H1 as [->| ->]; constructor.
    + apply failed_false in E. destruct H2 as [-> ?]; [done|]. constructor.
    + apply failed_false in E. destruct H2 as [-> ?]; [done|]. constructor; [done|lia].
  - intros r' r Ht He. pose proof (good_trunc _ good_PeekID r' r Ht) as H.
    pose proof (PeekID_ok r') as H2.
    destruct (PeekID r') as [p' r1'], (PeekID r) as [p r1]; simpl in *.
    destruct H as [H|[-> H]].
    + left. apply failed_true in H. rewrite H. by apply failed_true.
    + assert (failed r1' = failed r1) as -> by (unfold failed; destruct H as (_ & _ & -> & _); done).
      destruct (failed r1) eqn:E; [by right|].
      destruct (negb (p =? EndID)); simpl; [left; apply fail_err|].
      right. split; [done|]. apply failed_false in E.
      destruct H2 as [-> ?]; [by destruct H as (_ & _ & -> & _)|]. apply truncates_advance; [done|lia].
Qed.

Lemma good_Take n : good (Take n).
Proof.
  apply good_by_moves; unfold Take.
  - intros r. reader_cases; try constructor.
    + by apply failed_false.
    + blia.
  - intros r' r Ht He. pose proof (truncates_remaining _ _ Ht).
    assert (He' : err r' = None) by (destruct Ht as (_ & _ & -> & _); done).
    rewrite (proj2 (failed_false r') He'), (proj2 (failed_false r) He).
    destruct ((n <? 0) || (remaining r' <? n)) eqn:E1; simpl; [left; apply fail_err|].
    destruct ((n <? 0) || (remaining r <? n)) eqn:E2; simpl; [blia|]. zify_bools.
    right. split; [apply truncates_take; [done|lia]|apply truncates_advance; [done|lia]].
Qed.

Lemma binary_Uvarint_count l i x s v n :
  0 <= i -> binary_Uvarint l i x s = (v, n) -> 0 < n -> i < n <= i + Z.of_nat (length l).
Proof.
  revert i x s. induction l as [|b l IH]; intros i x s Hi; cbn [binary_Uvarint length].
  { intros [= <- <-]; lia. }
  destruct (i =? 10); [intros [= <- <-]; lia|].
  destruct (ub b <? 128).
  - destruct (_ && _); intros [= <- <-]; lia.
  - intros H Hn. apply IH in H; lia.
Qed.

Lemma binary_Uvarint_prefix l' l i x s :
  l' `prefix_of` l ->
  snd (binary_Uvarint l' i x s) = 0 \/ binary_Uvarint l' i x s = binary_Uvarint l i x s.
Proof.
  intros [t ->]. revert i x s. induction l' as [|b l' IH]; intros; simpl; [auto|].
  destruct (i =? 10); [auto|]. destruct (ub b <? 128); [auto|]. apply IH.
Qed.

Lemma truncates_live r' r : truncates r' r -> err r = None -> failed r' = false /\ failed r = false.
Proof.
  intros (_ & _ & He' & _) He. split; apply failed_false; congruence.
Qed.

Lemma Uvarint_count r v n :
  in_bounds r -> binary_Uvarint (rest r) 0 0 0 = (v, n) -> 0 < n ->
  Z.of_nat (Z.to_nat n) <= remaining r.
Proof.
  intros Hb H Hn. apply binary_Uvarint_count in H; [|lia|done].
  rewrite rest_length in H by done. lia.
Qed.

Lemma remaining_neg r : remaining r < 0 -> rest r = [].
Proof. unfold remaining, rest. intros. apply drop_ge. lia. Qed.

Lemma good_Uvarint : good Uvarint.
Proof.
  apply good_by_moves; unfold Uvarint.
  - intros r. destruct (failed r) eqn:Hf; [constructor|]. apply failed_false in Hf.
    destruct (binary_Uvarint _ _ _ _) as [v n] eqn:E. reader_cases; try constructor; try done.
    destruct (decide (in_bounds r)) as [Hb|Hb]; [eapply Uvarint_count; eauto; blia|].
    rewrite remaining_neg in E by (unfold in_bounds, remaining in *; lia).
    injection E as <- <-. done.
  - intros r' r Ht He. destruct (truncates_live _ _ Ht He) as [-> ->].
    destruct (binary_Uvarint_prefix _ _ 0 0 0 (truncates_rest _ _ Ht)) as [E|E].
    + destruct (binary_Uvarint (rest r') 0 0 0) as [v' n']; simpl in *. subst.
      left. apply fail_err.
    + rewrite <- E. destruct (binary_Uvarint (rest r') 0 0 0) as [v n] eqn:E'.
      destruct (n =? 0) eqn:?; [left; apply fail_err|].
      destruct (n <? 0) eqn:?; [left; apply fail_err|].
      right. split; [done|]. apply truncates_advance; [done|].
      eapply Uvarint_count; eauto; [by destruct Ht as (_ & _ & _ & ?)|blia].
Qed.

Lemma advance_advance a b r : advance a (advance b r) = advance (b + a) r.
Proof. unfold advance. simpl. f_equal. lia. Qed.

Lemma remaining_advance n r : remaining (advance n r) = remaining r - Z.of_nat n.
Proof. unfold remaining, advance. simpl. lia. Qed.

Lemma moves_step r r' :
  err r = None -> 1 <= remaining r -> moves (advance 1 r) r' -> moves r r'.
Proof.
  intros He Hr Hm. inversion Hm; subst; rewrite ?advance_advance;
    rewrite ?remaining_advance in *; constructor; try done; lia.
Qed.

Lemma svarint_moves l i v s r :
  err r = None -> Z.of_nat (length l) <= remaining r -> moves r (snd (svarint_loop l i v s r)).
Proof.
  revert i v s r. induction l as [|b l IH]; intros i v s r He Hl; [constructor|].
  cbn [svarint_loop length] in *. destruct (i =? 10); [constructor|].
  destruct (Z.land (ub b) 128 =? 0); [constructor; [done|lia]|].
  apply moves_step; [done|lia|]. apply IH; [done|]. rewrite remaining_advance. lia.
Qed.

Lemma svarint_trunc l' l i v s r' r :
  l' `prefix_of` l -> Z.of_nat (length l') <= remaining r' -> truncates r' r ->
  err (snd (svarint_loop l' i v s r')) <> None \/
  (fst (svarint_loop l' i v s r') = fst (svarint_loop l i v s r) /\
   truncates (snd (svarint_loop l' i v s r')) (snd (svarint_loop l i v s r))).
Proof.
  intros [t ->]. revert i v s r' r.
  induction l' as [|b l' IH]; intros i v s r' r Hl Ht; [left; apply fail_err|].
  cbn [svarint_loop length app] in *. destruct (i =? 10); [left; apply fail_err|].
  assert (truncates (advance 1 r') (advance 1 r)) by (apply truncates_advance; [done|lia]).
  destruct (Z.land (ub b) 128 =? 0); [by right|].
  apply IH; [|done]. rewrite remaining_advance. lia.
Qed.

Lemma good_Svarint : good Svarint.
Proof.
  apply good_by_moves; unfold Svarint.
  - intros r. destruct (failed r) eqn:Hf; [constructor|]. apply failed_false in Hf.
    destruct (decide (in_bounds r)) as [Hb|Hb].
    + apply svarint_moves; [done|]. rewrite rest_length by done. lia.
    + rewrite remaining_neg by (unfold in_bounds, remaining in *; lia). constructor.
  - intros r' r Ht He. destruct (truncates_live _ _ Ht He) as [-> ->].
    apply svarint_trunc; [by apply truncates_rest| |done].
    rewrite rest_length; [lia|]. by destruct Ht as (_ & _ & _ & ?).
Qed.

#[export] Hint Resolve good_Err good_PeekID good_TryField good_End good_Take
  good_Uvarint good_Svarint : qser.

(** One step of a [good] proof: decompose the computation. *)
Ltac good_step :=
  match goal with
  | |- good (bind _ _) => apply good_bind; [|intros]
  | |- good (dbind _ _) => apply good_dbind; [|intros]
  | |- good (dmap _ _) => apply good_dmap; intros
  | |- good (match ?x with _ => _ end) => destruct x
  | |- good _ => solve [eauto with qser]
  end.
Ltac solve_good := repeat (progress intros || good_step).

Lemma good_Bool : good Bool.
Proof. unfold Bool. solve_good. Qed.

(** A length prefix is only trusted once it fits in the remaining bytes. *)
Lemma good_counted {A} n (m : M A) (z : A) :
  good m -> good (fun r => if remaining r <? n then (z, fail ErrTruncated r) else m r).
Proof.
  intros Hm. split; intros; simpl.
  - destruct (_ <? n); simpl; [apply fail_buf|by apply good_buf].
  - destruct (_ <? n); simpl; [|by apply good_bounds].
    rewrite fail_off. split; [by apply fail_in_bounds|lia].
  - destruct (_ <? n); simpl; [unfold fail; by rewrite H|by eapply good_sticky].
  - pose proof (truncates_remaining _ _ H).
    destruct (remaining r' <? n) eqn:E1; [left; apply fail_err|].
    destruct (remaining r <? n) eqn:E2; [blia|]. by apply good_trunc.
Qed.

Lemma good_Bytes : good Bytes.
Proof.
  unfold Bytes. repeat good_step. apply (good_counted _ (Take _)). auto with qser.
Qed.

Lemma good_ListCount : good ListCount.
Proof.
  unfold ListCount. repeat good_step. apply (good_counted _ (ret _)). auto with qser.
Qed.

Lemma good_HugeintVal : good HugeintVal.
Proof. unfold HugeintVal. solve_good. Qed.

#[export] Hint Resolve good_Bool good_Bytes good_ListCount good_HugeintVal : qser.

Lemma good_optField {A} id (m : M A) d : good m -> good (optField id m d).
Proof. intros. unfold optField. solve_good. Qed.

Lemma good_dfields {E A} (e : E) : good (dfail (A := A) e).
Proof. apply good_ret. Qed.

Lemma good_dret {E A} (a : A) : good (dret (E := E) a).
Proof. apply good_ret. Qed.

Lemma good_dlift {E A} (o : outcome E A) : good (dlift o).
Proof. apply good_ret. Qed.

Lemma good_dpanic {E A} : good (dpanic (E := E) (A := A)).
Proof. apply good_ret. Qed.

Lemma good_String : good String_.
Proof. apply good_Bytes. Qed.

Lemma good_Present : good Present.
Proof. apply good_Bool. Qed.

Lemma good_OptionalIdx : good OptionalIdx.
Proof. apply good_Uvarint. Qed.

#[export] Hint Resolve good_optField good_dfields good_dret good_dlift good_dpanic good_String
  good_Present good_OptionalIdx : qser.

(** ** [good]: consequences for a whole document *)

Lemma truncates_new k b : truncates (NewReader (take k b)) (NewReader b).
Proof.
  unfold truncates, NewReader, in_bounds. simpl. repeat split; [|lia].
  exists (drop k b). by rewrite take_drop.
Qed.

(** A document cut before the point up to which [m] reads it sets the sticky
    error. *)
Lemma good_cut {A} (m : M A) b k :
  good m -> (k < off (snd (m (NewReader b))))%nat ->
  err (snd (m (NewReader (take k b)))) <> None.
Proof.
  intros Hm Hk. destruct (good_trunc _ Hm _ _ (truncates_new k b)) as [H|[_ H]]; [done|].
  destruct H as (_ & Ho & _ & Hb). unfold in_bounds in Hb.
  rewrite (good_buf _ Hm), Ho in Hb. simpl in Hb. rewrite length_take in Hb. lia.
Qed.

(** Bytes after the point up to which [m] reads do not matter. *)
Lemma good_extend {A} (m : M A) b t :
  good m -> err (snd (m (NewReader b))) = None ->
  fst (m (NewReader (b ++ t))) = fst (m (NewReader b)) /\
  off (snd (m (NewReader (b ++ t)))) = off (snd (m (NewReader b))).
Proof.
  intros Hm He. pose proof (truncates_new (length b) (b ++ t)) as Ht.
  rewrite take_app_length in Ht.
  destruct (good_trunc _ Hm _ _ Ht) as [H|[H1 H2]]; [done|].
  split; [done|]. by destruct H2 as (_ & -> & _).
Qed.

(** ** [yields] *)

Lemma yields_ret {A} (a : A) (Q : A -> Prop) : Q a -> yields (ret a) Q.
Proof. intros H r. done. Qed.

Lemma yields_bind {A B} (m : M A) (k : A -> M B) (P : A -> Prop) (Q : B -> Prop) :
  yields m P -> (forall a, P a -> yields (k a) Q) -> yields (bind m k) Q.
Proof.
  intros Hm Hk r. unfold bind. pose proof (Hm r) as H. destruct (m r) as [a r1]. by apply Hk.
Qed.

Lemma yields_true {A} (m : M A) : yields m (fun _ => True).
Proof. done. Qed.

Lemma yields_weaken {A} (m : M A) (P Q : A -> Prop) :
  yields m P -> (forall a, P a -> Q a) -> yields m Q.
Proof. intros Hm H r. auto. Qed.

Lemma dyields_dret {E A} (a : A) (Q : A -> Prop) : Q a -> dyields (dret (E := E) a) Q.
Proof. intros H r. done. Qed.

Lemma dyields_dfail {E A} (e : E) (Q : A -> Prop) : dyields (dfail e) Q.
Proof. intros r. done. Qed.

Lemma dyields_dlift {E A} (o : outcome E A) (Q : A -> Prop) : okP Q o -> dyields (dlift o) Q.
Proof. intros H r. done. Qed.

Lemma dyields_dbind {E A B} (m : D E A) (k : A -> D E B) (P : A -> Prop) (Q : B -> Prop) :
  dyields m P -> (forall a, P a -> dyields (k a) Q) -> dyields (dbind m k) Q.
Proof.
  intros Hm Hk. apply yields_bind with (okP P); [done|].
  intros [a|e|] H; [by apply Hk| |done]. intros r. done.
Qed.

Lemma dyields_bind {E A B} (m : M A) (k : A -> D E B) (P : A -> Prop) (Q : B -> Prop) :
  yields m P -> (forall a, P a -> dyields (k a) Q) -> dyields (bind m k) Q.
Proof. apply yields_bind. Qed.

Lemma dyields_drepeat {E A} n (m : D E A) (P : A -> Prop) :
  dyields m P -> dyields (drepeat n m) (fun l => length l = n /\ Forall P l).
Proof.
  intros Hm. induction n as [|n IH]; simpl; [by apply dyields_dret|].
  eapply dyields_dbind; [done|]. intros a Ha. eapply dyields_dbind; [done|].
  intros l [Hl Hf]. apply dyields_dret. simpl. split; [lia|by constructor].
Qed.

Lemma yields_mrepeat {A} n (m : M A) (P : A -> Prop) :
  yields m P -> yields (mrepeat n m) (fun l => length l = n /\ Forall P l).
Proof.
  intros Hm. induction n as [|n IH]; simpl; [by apply yields_ret|].
  eapply yields_bind; [done|]. intros a Ha. eapply yields_bind; [done|].
  intros l [Hl Hf]. apply yields_ret. simpl. split; [lia|by constructor].
Qed.

Lemma lor_in_u w a b : 0 <= w -> in_u w a -> in_u w b -> in_u w (Z.lor a b).
Proof.
  intros Hw Ha Hb. rewrite <- (uwrap_small w a Ha), <- (uwrap_small w b Hb).
  unfold uwrap. rewrite <- !Z.land_ones, <- Z.land_lor_distr_l, Z.land_ones by done.
  by apply uwrap_in.
Qed.

Lemma in_u_0 w : 0 <= w -> in_u w 0.
Proof. intros. unfold in_u. split; [lia|apply Z.pow_pos_nonneg; lia]. Qed.

Lemma binary_Uvarint_in l i x s : in_u 64 x -> in_u 64 (fst (binary_Uvarint l i x s)).
Proof.
  revert i x s. induction l as [|b l IH]; intros i x s Hx; simpl; [by apply in_u_0|].
  destruct (i =? 10); [by apply in_u_0|]. destruct (ub b <? 128).
  - destruct (_ && _); simpl; [by apply in_u_0|]. apply lor_in_u; try done. by apply uwrap_in.
  - apply IH. apply lor_in_u; try done. by apply uwrap_in.
Qed.

Lemma yields_Uvarint : yields Uvarint (in_u 64).
Proof.
  intros r. unfold Uvarint. destruct (failed r); [by apply in_u_0|].
  pose proof (binary_Uvarint_in (rest r) 0 0 0 (in_u_0 64 ltac:(lia))) as H.
  destruct (binary_Uvarint _ _ _ _) as [v n]; simpl in H.
  destruct (n =? 0); [by apply in_u_0|]. destruct (n <? 0); [by apply in_u_0|done].
Qed.

Lemma svarint_in l i v s r : in_s 64 (fst (svarint_loop l i v s r)).
Proof.
  assert (in_s 64 0) by (unfold in_s; simpl; lia).
  revert i v s r. induction l as [|b l IH]; intros; simpl; [done|].
  destruct (i =? 10); [done|]. destruct (_ =? 0); [by apply swrap_in|apply IH].
Qed.

Lemma yields_Svarint : yields Svarint (in_s 64).
Proof.
  intros r. unfold Svarint. destruct (failed r); [simpl; unfold in_s; simpl; lia|apply svarint_in].
Qed.

Lemma yields_ListCount : yields ListCount (fun n => 0 <= n).
Proof.
  unfold ListCount. eapply yields_bind; [apply yields_Uvarint|]. intros n Hn.
  eapply yields_bind; [apply yields_true|]. intros [e|] _; [by apply yields_ret|].
  intros r. simpl. destruct (_ <? _); simpl; [lia|]. apply Hn.
Qed.

#[export] Hint Resolve yields_Uvarint yields_Svarint yields_ListCount : qser.

(** ** [parses]: composition *)

Lemma reading_remaining r l : reading r l -> remaining r = Z.of_nat (length l).
Proof. intros (_ & Hb & <-). by rewrite rest_length. Qed.

Lemma reading_live r l : reading r l -> failed r = false.
Proof. intros (He & _). by apply failed_false. Qed.

Lemma reading_advance r w tl : reading r (w ++ tl) -> reading (advance (length w) r) tl.
Proof.
  intros Hr. pose proof (reading_remaining _ _ Hr) as Hl. rewrite length_app in Hl.
  destruct Hr as (He & Hb & Hre). repeat split; [done|apply advance_in_bounds; lia|].
  unfold rest, advance in *. simpl. rewrite <- drop_drop, Hre. apply drop_app_length.
Qed.

Lemma reading_new b : reading (NewReader b) b.
Proof. repeat split. unfold in_bounds. simpl. lia. Qed.

Lemma advance_0 r : advance 0 r = r.
Proof. destruct r. unfold advance. simpl. by rewrite Nat.add_0_r. Qed.

Lemma parses_ret {A} (a : A) tl : parses (ret a) [] a tl.
Proof. intros r _. simpl. by rewrite advance_0. Qed.

Lemma parses_bind {A B} (m : M A) (k : A -> M B) w1 w2 a b tl :
  parses m w1 a (w2 ++ tl) -> parses (k a) w2 b tl -> parses (bind m k) (w1 ++ w2) b tl.
Proof.
  intros Hm Hk r Hr. unfold bind. rewrite <- app_assoc in Hr. rewrite Hm by done.
  rewrite Hk by (by apply reading_advance). by rewrite advance_advance, length_app.
Qed.

Lemma parses_dbind {E A B} (m : D E A) (k : A -> D E B) w1 w2 a o tl :
  parses m w1 (Ok a) (w2 ++ tl) -> parses (k a) w2 o tl -> parses (dbind m k) (w1 ++ w2) o tl.
Proof. intros Hm Hk. unfold dbind. eapply parses_bind; [exact Hm|exact Hk]. Qed.

(** A step that consumes nothing. *)
Lemma parses_bind_nil {A B} (m : M A) (k : A -> M B) w a b tl :
  parses m [] a (w ++ tl) -> parses (k a) w b tl -> parses (bind m k) w b tl.
Proof. apply (parses_bind m k []). Qed.

(** A last step after which nothing is consumed. *)
Lemma parses_bind_last {A B} (m : M A) (k : A -> M B) w a b tl :
  parses m w a tl -> parses (k a) [] b tl -> parses (bind m k) w b tl.
Proof. intros. rewrite <- (app_nil_r w). by eapply parses_bind. Qed.

Lemma parses_dbind_last {E A B} (m : D E A) (k : A -> D E B) w a o tl :
  parses m w (Ok a) tl -> parses (k a) [] o tl -> parses (dbind m k) w o tl.
Proof. intros Hm Hk. unfold dbind. eapply parses_bind_last; [exact Hm|exact Hk]. Qed.

Lemma parses_dret {E A} (a : A) tl : parses (dret (E := E) a) [] (Ok a) tl.
Proof. apply parses_ret. Qed.

(** A document that is a whole buffer. *)
Lemma parses_run {A} (m : M A) w a tl :
  parses m w a tl -> m (NewReader (w ++ tl)) = (a, advance (length w) (NewReader (w ++ tl))).
Proof. intros H. apply H. apply reading_new. Qed.

Lemma parses_drepeat {E A B} (m : D E A) (enc : B -> bytes) (val : B -> A) (l : list B) tl :
  (forall x tl, x ∈ l -> parses m (enc x) (Ok (val x)) tl) ->
  parses (drepeat (length l) m) (concat (enc <$> l)) (Ok (val <$> l)) tl.
Proof.
  intros Hm. induction l as [|x l IH]; cbn [length drepeat concat fmap list_fmap];
    [apply parses_dret|].
  eapply parses_dbind; [apply Hm; left|].
  eapply parses_bind_last; [apply IH; intros; apply Hm; by right|]. apply parses_dret.
Qed.

Lemma parses_mrepeat {A B} (m : M A) (enc : B -> bytes) (val : B -> A) (l : list B) tl :
  (forall x tl, x ∈ l -> parses m (enc x) (val x) tl) ->
  parses (mrepeat (length l) m) (concat (enc <$> l)) (val <$> l) tl.
Proof.
  intros Hm. induction l as [|x l IH]; cbn [length mrepeat concat fmap list_fmap];
    [apply parses_ret|].
  eapply parses_bind; [apply Hm; left|].
  eapply parses_bind_last; [apply IH; intros; apply Hm; by right|]. apply parses_ret.
Qed.

(** ** [parses]: fields *)

Lemma length_Field id : length (Writer.Field id) = 2%nat.
Proof. apply length_le_bytes. Qed.

Lemma take_Field id tl : in_u 16 id -> le_int (take 2 (Writer.Field id ++ tl)) = id.
Proof.
  intros Hid. rewrite <- (length_Field id), take_app_length. unfold Writer.Field.
  rewrite le_int_bytes. by apply (uwrap_small 16).
Qed.

Lemma PeekID_reading r l : reading r l -> (2 <= length l)%nat ->
  PeekID r = (le_int (take 2 l), r).
Proof.
  intros Hr Hl. unfold PeekID. rewrite (reading_live _ _ Hr), (reading_remaining _ _ Hr).
  destruct (_ <? 2) eqn:E; [blia|]. by destruct Hr as (_ & _ & ->).
Qed.

Lemma PeekID_Field r id tl : reading r (Writer.Field id ++ tl) -> in_u 16 id ->
  PeekID r = (id, r).
Proof.
  intros Hr Hid. rewrite (PeekID_reading _ _ Hr); [by rewrite take_Field|].
  rewrite length_app, length_Field. lia.
Qed.

Lemma parses_TryField id tl : in_u 16 id -> parses (TryField id) (Writer.Field id) true tl.
Proof.
  intros Hid r Hr. unfold TryField. rewrite (PeekID_Field _ _ _ Hr Hid).
  by rewrite Z.eqb_refl, (reading_live _ _ Hr), length_Field.
Qed.

Lemma parses_TryField_no id tl : other_field id tl -> parses (TryField id) [] false tl.
Proof.
  intros [Hl Hne] r Hr. unfold TryField. rewrite (PeekID_reading _ _ Hr) by done.
  simpl. apply Z.eqb_neq in Hne. by rewrite Hne, advance_0.
Qed.

Lemma parses_End tl : parses End_ Writer.End_ tt tl.
Proof.
  intros r Hr. unfold End_. rewrite (PeekID_Field _ EndID _ Hr) by (by compute).
  change Writer.End_ with (Writer.Field EndID).
  by rewrite (reading_live _ _ Hr), Z.eqb_refl, length_Field.
Qed.

Lemma parses_Err tl : parses Err [] None tl.
Proof. intros r (He & _). unfold Err. by rewrite He, advance_0. Qed.

Lemma other_Field id id' tl : in_u 16 id' -> id' <> id -> other_field id (Writer.Field id' ++ tl).
Proof.
  intros Hid Hne. split; [rewrite length_app, length_Field; lia|]. by rewrite take_Field.
Qed.

Lemma other_app id w tl : other_field id w -> other_field id (w ++ tl).
Proof.
  intros [Hl Hne]. split; [rewrite length_app; lia|]. by rewrite take_app_le.
Qed.

(** ** [parses]: integers *)

Lemma ub_lor_128 x : ub (bz (Z.lor x 128)) = x mod 128 + 128.
Proof.
  rewrite ub_bz. change (x mod 128 + 128) with (x mod 128 + 1 * 2 ^ 7).
  rewrite <- lor_shiftl_add by (try lia; apply Z.mod_pos_bound; lia).
  change (Z.shiftl 1 7) with 128. change 256 with (2 ^ 8). change (x mod 128) with (x mod 2 ^ 7).
  rewrite <- !Z.land_ones by lia. apply Z.bits_inj'. intros n Hn.
  rewrite !Z.land_spec, !Z.lor_spec, !Z.land_spec.
  destruct (Z.lt_ge_cases n 7); [rewrite !Z.ones_spec_low by lia; by rewrite !andb_true_r|].
  destruct (decide (n = 7)) as [->|]; [cbn; by rewrite orb_true_r, andb_false_r|].
  rewrite !Z.ones_spec_high by lia. rewrite !andb_false_r.
  symmetry. apply orb_false_iff. split; [done|]. change 128 with (2 ^ 7).
  apply Z.pow2_bits_false. lia.
Qed.

Lemma shiftl_group x i : 0 <= i -> 0 <= x -> x * 2 ^ (7 * i) < 2 ^ 64 ->
  u64 (Z.shiftl x (7 * i)) = x * 2 ^ (7 * i).
Proof.
  intros. rewrite Z.shiftl_mul_pow2 by lia. apply uwrap_small. unfold in_u. split; [|done].
  apply Z.mul_nonneg_nonneg; [done|apply Z.pow_nonneg; lia].
Qed.

Lemma uvarint_roundtrip_aux fuel i x acc tl :
  (fuel > 0)%nat -> Z.of_nat fuel + i = 10 -> 0 <= i -> 0 <= x -> 0 <= acc < 2 ^ (7 * i) ->
  x * 2 ^ (7 * i) < 2 ^ 64 ->
  binary_Uvarint (Writer.append_uvarint fuel x ++ tl) i acc (7 * i) =
  (acc + x * 2 ^ (7 * i), i + Z.of_nat (length (Writer.append_uvarint fuel x))).
Proof.
  revert i x acc. induction fuel as [|f IH]; intros i x acc Hf Hi Hi0 Hx Hacc Hb; [lia|].
  assert (P : 0 < 2 ^ (7 * i)) by (apply Z.pow_pos_nonneg; lia).
  cbn [Writer.append_uvarint]. destruct (128 <=? x) eqn:E; zify_bools.
  - assert (i < 9).
    { destruct (Z.lt_ge_cases i 9); [done|]. assert (i = 9) as -> by lia. simpl in Hb. lia. }
    pose proof (Z.mod_pos_bound x 128 ltac:(lia)). pose proof (Z.div_mod x 128 ltac:(lia)).
    cbn [app binary_Uvarint length]. rewrite !ub_lor_128.
    destruct (i =? 10) eqn:?; [blia|]. destruct (_ <? 128) eqn:?; [blia|].
    rewrite land_127. replace ((x mod 128 + 128) mod 128) with (x mod 128)
      by (rewrite <- Z.add_mod_idemp_r, Z.mod_same, Z.add_0_r, Z.mod_mod by lia; done).
    rewrite shiftl_group by nia. rewrite lor_mul_add by lia.
    rewrite Z.shiftr_div_pow2 by lia. change (2 ^ 7) with 128.
    replace (7 * i + 7) with (7 * (i + 1)) by lia.
    assert (2 ^ (7 * (i + 1)) = 128 * 2 ^ (7 * i)) as E7
      by (replace (7 * (i + 1)) with (7 + 7 * i) by lia; rewrite Z.pow_add_r by lia; done).
    rewrite IH by (rewrite ?E7; try lia; nia). rewrite E7. f_equal; [nia|lia].
  - cbn [app binary_Uvarint length]. rewrite !(ub_bz_small x) by lia.
    destruct (i =? 10) eqn:?; [blia|]. destruct (x <? 128) eqn:?; [|blia].
    destruct ((i =? 9) && (1 <? x)) eqn:E9.
    { zify_bools. subst. simpl in Hb. lia. }
    rewrite shiftl_group by lia. rewrite lor_mul_add by lia. f_equal; lia.
Qed.

Lemma length_Uvarint_pos v : (0 < length (Writer.Uvarint v))%nat.
Proof.
  unfold Writer.Uvarint. generalize 9%nat. intros n. simpl. destruct (128 <=? v); simpl; lia.
Qed.

Lemma parses_Uvarint v tl : in_u 64 v -> parses Uvarint (Writer.Uvarint v) v tl.
Proof.
  intros [Hv0 Hv] r Hr. unfold Uvarint. rewrite (reading_live _ _ Hr).
  destruct Hr as (_ & _ & ->). pose proof (length_Uvarint_pos v) as Hp.
  assert (binary_Uvarint (Writer.Uvarint v ++ tl) 0 0 0 =
          (v, Z.of_nat (length (Writer.Uvarint v)))) as ->.
  { pose proof (uvarint_roundtrip_aux 10 0 v 0 tl) as H.
    change (7 * 0) with 0 in H. rewrite Z.mul_1_r in H.
    unfold Writer.Uvarint. rewrite H by (done || lia). by rewrite !Z.add_0_l. }
  destruct (_ =? 0) eqn:?; [blia|]. destruct (_ <? 0) eqn:?; [blia|].
  by rewrite Nat2Z.id.
Qed.

(** The three bit tests of the signed coding, on a group of seven bits. *)
Lemma group_tests b : 0 <= b < 128 ->
  (Z.land b 64 =? 0) = (b <? 64) /\ (Z.land b 128 =? 0) = true /\
  (Z.land (b + 128) 128 =? 0) = false /\ Z.land (b + 128) 127 = b /\ Z.land b 127 = b.
Proof.
  intros Hb. rewrite !land_127.
  rewrite (land_pow2_testbit b 6 ltac:(lia) : (Z.land b 64 =? 0) = _).
  rewrite (land_pow2_testbit b 7 ltac:(lia) : (Z.land b 128 =? 0) = _).
  rewrite (land_pow2_testbit (b + 128) 7 ltac:(lia) : (Z.land _ 128 =? 0) = _).
  rewrite (testbit_top b 6), (testbit_top (b + 128) 7) by (simpl; lia).
  assert (Z.testbit b 7 = false) as ->.
  { rewrite <- (Z.mod_small b (2 ^ 7)) by (simpl; lia). by apply Z.mod_pow2_bits_high. }
  change (2 ^ 6) with 64. change (2 ^ 7) with 128. repeat split.
  - destruct (64 <=? b) eqn:?, (b <? 64) eqn:?; try done; blia.
  - destruct (128 <=? b + 128) eqn:?; [done|blia].
  - rewrite <- Z.add_mod_idemp_r, Z.mod_same, Z.add_0_r by lia. by apply Z.mod_small.
  - by apply Z.mod_small.
Qed.

(** The sign extension below bit 64. *)
Lemma sign_extension s : 0 <= s < 64 -> u64 (Z.shiftl (2 ^ 64 - 1) s) = (2 ^ (64 - s) - 1) * 2 ^ s.
Proof.
  intros Hs. rewrite Z.shiftl_mul_pow2 by lia. unfold uwrap.
  assert (2 ^ 64 = 2 ^ (64 - s) * 2 ^ s) as E by (rewrite <- Z.pow_add_r by lia; f_equal; lia).
  assert (0 < 2 ^ s) by (apply Z.pow_pos_nonneg; lia).
  assert (0 < 2 ^ (64 - s)) by (apply Z.pow_pos_nonneg; lia).
  symmetry. apply Z.mod_unique with (2 ^ s - 1); [left; rewrite E; nia|]. rewrite E. nia.
Qed.

Definition svarint_stops (w : Z) : bool :=
  let b := Z.land w 127 in
  let w' := Z.shiftr w 7 in
  ((w' =? 0) && (Z.land b 64 =? 0)) || ((w' =? -1) && negb (Z.land b 64 =? 0)).

Lemma svarint_stops_spec w : svarint_stops w = true <-> -64 <= w < 64.
Proof.
  unfold svarint_stops. rewrite land_127, Z.shiftr_div_pow2 by lia. change (2 ^ 7) with 128.
  pose proof (Z.mod_pos_bound w 128 ltac:(lia)) as Hm. pose proof (Z.div_mod w 128 ltac:(lia)).
  destruct (group_tests _ Hm) as (-> & _).
  rewrite orb_true_iff, !andb_true_iff, negb_true_iff, !Z.eqb_eq, Z.ltb_lt, Z.ltb_ge. lia.
Qed.

Lemma svarint_last i v0 acc w r b l :
  0 <= i <= 9 -> in_s 64 v0 -> 0 <= acc < 2 ^ (7 * i) -> v0 = acc + w * 2 ^ (7 * i) ->
  -64 <= w < 64 -> ub b = w mod 128 ->
  svarint_loop (b :: l) i acc (7 * i) r = (v0, advance 1 r).
Proof.
  intros Hi Hv Hacc Hw Hr Hb. cbn [svarint_loop]. rewrite Hb.
  pose proof (Z.mod_pos_bound w 128 ltac:(lia)) as Hm.
  destruct (group_tests _ Hm) as (-> & -> & _ & _ & ->).
  destruct (i =? 10) eqn:?; [blia|]. destruct (7 * i <? 64) eqn:?; [|blia]. f_equal.
  assert (P : 0 < 2 ^ (7 * i)) by (apply Z.pow_pos_nonneg; lia).
  destruct (decide (i = 9)) as [->|Hi9].
  - change (7 * 9) with 63 in *. unfold in_s in Hv. change (2 ^ (64 - 1)) with (2 ^ 63) in *.
    change (63 + 7 <? 64) with false. cbn [andb].
    assert (w = 0 \/ w = -1) as [-> | ->] by nia.
    + rewrite Z.shiftl_0_l, Z.lor_0_r. rewrite swrap_small; unfold in_s; lia.
    + change (u64 (Z.shiftl (-1 mod 128) 63)) with (1 * 2 ^ 63). rewrite lor_mul_add by lia.
      subst v0. rewrite <- (swrap_shift 64 _ (-1)). rewrite swrap_small; unfold in_s; lia.
  - assert (E7 : 2 ^ (7 * i + 7) = 128 * 2 ^ (7 * i)) by (rewrite Z.pow_add_r by lia; lia).
    assert (B : 2 ^ (7 * i + 7) <= 2 ^ 63) by (apply Z.pow_le_mono_r; lia).
    rewrite shiftl_group by nia. rewrite lor_mul_add by lia.
    destruct (7 * i + 7 <? 64) eqn:?; [|blia]. cbn [andb].
    destruct (w mod 128 <? 64) eqn:E; cbn [negb]; zify_bools.
    + assert (w mod 128 = w) as -> by (destruct (decide (0 <= w)); [by apply Z.mod_small; lia|];
        assert (w mod 128 = w + 128) by (symmetry; apply Z.mod_unique with (-1); lia); lia).
      rewrite <- Hw. by apply swrap_small.
    + assert (w < 0) by (destruct (decide (0 <= w)); [rewrite Z.mod_small in E by lia|]; lia).
      assert (w mod 128 = w + 128) as -> by (symmetry; apply Z.mod_unique with (-1); lia).
      rewrite sign_extension by lia. rewrite lor_mul_add by (rewrite ?E7; nia).
      replace (acc + _ + _) with (v0 + 1 * 2 ^ 64); [rewrite swrap_shift; by apply swrap_small|].
      assert (2 ^ 64 = 2 ^ (64 - (7 * i + 7)) * 2 ^ (7 * i + 7)) as ->
        by (rewrite <- Z.pow_add_r by lia; f_equal; lia).
      rewrite E7. nia.
Qed.

Lemma svarint_roundtrip_aux fuel i v0 w acc tl r :
  (fuel > 0)%nat -> Z.of_nat fuel + i = 10 -> 0 <= i -> in_s 64 v0 -> 0 <= acc < 2 ^ (7 * i) ->
  v0 = acc + w * 2 ^ (7 * i) ->
  svarint_loop (Writer.svarint_loop fuel w ++ tl) i acc (7 * i) r =
  (v0, advance (length (Writer.svarint_loop fuel w)) r).
Proof.
  revert i w acc r. induction fuel as [|f IH]; intros i w acc r Hf Hi Hi0 Hv Hacc Hw; [lia|].
  assert (P : 0 < 2 ^ (7 * i)) by (apply Z.pow_pos_nonneg; lia).
  pose proof (Z.mod_pos_bound w 128 ltac:(lia)) as Hm. pose proof (Z.div_mod w 128 ltac:(lia)).
  cbn [Writer.svarint_loop]. fold (svarint_stops w).
  destruct (svarint_stops w) eqn:E.
  - apply svarint_stops_spec in E. cbn [app length]. eapply svarint_last; eauto; [lia|].
    rewrite land_127. apply ub_bz_small. lia.
  - assert (Hns : ~ -64 <= w < 64) by (rewrite <- svarint_stops_spec; congruence).
    assert (i < 9).
    { destruct (Z.lt_ge_cases i 9); [done|]. assert (i = 9) as -> by lia.
      change (7 * 9) with 63 in *. unfold in_s in Hv. change (2 ^ (64 - 1)) with (2 ^ 63) in *. nia. }
    cbn [app svarint_loop length]. rewrite land_127, !ub_lor_128, Z.mod_mod by lia.
    destruct (group_tests _ Hm) as (_ & _ & -> & -> & _).
    destruct (i =? 10) eqn:?; [blia|]. destruct (7 * i <? 64) eqn:?; [|blia].
    assert (E7 : 2 ^ (7 * i + 7) = 128 * 2 ^ (7 * i)) by (rewrite Z.pow_add_r by lia; lia).
    assert (B : 2 ^ (7 * i + 7) <= 2 ^ 63) by (apply Z.pow_le_mono_r; lia).
    rewrite shiftl_group by nia. rewrite lor_mul_add by lia.
    replace (7 * i + 7) with (7 * (i + 1)) in * by lia.
    rewrite Z.shiftr_div_pow2 by lia. change (2 ^ 7) with 128.
    rewrite IH by (try done; try lia; rewrite ?E7; nia). by rewrite advance_advance.
Qed.

Lemma parses_Svarint v tl : in_s 64 v -> parses Svarint (Writer.Svarint v) v tl.
Proof.
  intros Hv r Hr. unfold Svarint. rewrite (reading_live _ _ Hr). destruct Hr as (_ & _ & ->).
  pose proof (svarint_roundtrip_aux 10 0 v v 0 tl r) as H. change (7 * 0) with 0 in H.
  apply H; try done; lia.
Qed.

(** ** [parses]: the remaining methods *)

Lemma parses_Take w tl : parses (Take (Z.of_nat (length w))) w w tl.
Proof.
  intros r Hr. unfold Take. rewrite (reading_live _ _ Hr), (reading_remaining _ _ Hr), length_app.
  destruct (_ || _) eqn:E; [apply orb_true_iff in E; destruct E; blia|].
  destruct Hr as (_ & _ & ->). by rewrite Nat2Z.id, take_app_length.
Qed.

Lemma parses_Bool b tl : parses Bool (Writer.Bool b) b tl.
Proof.
  unfold Bool. destruct b; eapply parses_bind_last.
  - apply (parses_Take [bz 1]).
  - apply parses_ret.
  - apply (parses_Take [bz 0]).
  - apply parses_ret.
Qed.

(** After a count [n] that fits in what is left. *)
Lemma parses_counted {A} n (m : M A) z w a tl :
  n <= Z.of_nat (length (w ++ tl)) -> parses m w a tl ->
  parses (fun r => if remaining r <? n then (z, fail ErrTruncated r) else m r) w a tl.
Proof.
  intros Hn Hm r Hr. rewrite (reading_remaining _ _ Hr). destruct (_ <? n) eqn:E; [blia|]. by apply Hm.
Qed.

Lemma parses_Bytes b tl :
  in_u 64 (Z.of_nat (length b)) -> parses Bytes (Writer.BytesVal b) b tl.
Proof.
  intros Hl. unfold Bytes, Writer.BytesVal.
  eapply parses_bind; [by apply parses_Uvarint|].
  eapply parses_bind_nil; [apply parses_Err|]. cbv beta iota.
  apply parses_counted; [rewrite length_app; lia|apply parses_Take].
Qed.

Lemma parses_ListCount n tl :
  in_u 64 n -> n <= Z.of_nat (length tl) -> parses ListCount (Writer.Uvarint n) n tl.
Proof.
  intros Hn Hl. unfold ListCount. eapply parses_bind_last; [by apply parses_Uvarint|].
  eapply parses_bind_nil; [apply parses_Err|]. cbv beta iota.
  by apply (parses_counted n (ret n)); [|apply parses_ret].
Qed.

Lemma parses_HugeintVal h tl :
  in_s 64 (Upper h) -> in_u 64 (Lower h) -> parses HugeintVal (Writer.HugeintVal h) h tl.
Proof.
  intros Hu Hl. unfold HugeintVal, Writer.HugeintVal.
  eapply parses_bind; [by apply parses_Svarint|].
  eapply parses_bind_last; [by apply parses_Uvarint|]. destruct h. apply parses_ret.
Qed.

(** A field that is written is read back. *)
Lemma parses_optField {A} id (m : M A) d w a tl :
  in_u 16 id -> parses m w a tl -> parses (optField id m d) (Writer.Field id ++ w) a tl.
Proof.
  intros Hid Hm. unfold optField. eapply parses_bind; [by apply parses_TryField|]. done.
Qed.

(** A field that is omitted leaves the default. *)
Lemma parses_optField_no {A} id (m : M A) d tl :
  other_field id tl -> parses (optField id m d) [] d tl.
Proof.
  intros H. unfold optField. eapply parses_bind_nil; [by apply parses_TryField_no|].
  apply parses_ret.
Qed.

(** A field that is omitted exactly when it holds its default. *)
Lemma parses_optField_dflt {A} id (m : M A) (omit : bool) d w a tl :
  in_u 16 id -> (omit = true -> a = d) -> (omit = false -> parses m w a tl) ->
  other_field id tl ->
  parses (optField id m d) (if omit then [] else Writer.Field id ++ w) a tl.
Proof.
  intros Hid Hd Hm Ho. destruct omit.
  - rewrite Hd by done. by apply parses_optField_no.
  - apply parses_optField; auto.
Qed.

Lemma other_if id (b : bool) w tl :
  (b = false -> other_field id (w ++ tl)) -> (b = true -> other_field id tl) ->
  other_field id ((if b then [] else w) ++ tl).
Proof. destruct b; auto. Qed.

(** Closes [other_field id (Field id' ++ ...)] and its optional variants. *)
Ltac solve_other :=
  repeat rewrite <- app_assoc; unfold Writer.FieldUvarint, Writer.FieldString, Writer.FieldBool,
    Writer.FieldBytes, Writer.FieldHugeint, Writer.End_; repeat rewrite <- app_assoc;
  repeat first
    [ apply other_Field; [by compute|unfold EndID; lia]
    | apply other_if; intros _; repeat rewrite <- app_assoc
    | match goal with |- other_field _ ((if ?b then _ else _) ++ _) => destruct b; cbn [app] end ].

(** ** The coding of integers is unambiguous *)

Lemma Uvarint_run v tl : in_u 64 v ->
  Uvarint (NewReader (Writer.Uvarint v ++ tl)) =
  (v, advance (length (Writer.Uvarint v)) (NewReader (Writer.Uvarint v ++ tl))).
Proof. intros H. by apply parses_run, parses_Uvarint. Qed.

Lemma dyields_dmap {E A B} (f : A -> D E B) (l : list A) (Q : A -> B -> Prop) :
  (forall x, x ∈ l -> dyields (f x) (Q x)) -> dyields (dmap f l) (Forall2 Q l).
Proof.
  induction l as [|x l IH]; intros Hf; simpl; [by apply dyields_dret|].
  eapply dyields_dbind; [apply Hf; left|]. intros y Hy.
  eapply dyields_dbind; [apply IH; intros; apply Hf; by right|]. intros ys Hys.
  apply dyields_dret. by constructor.
Qed.

(** A decoder that ends by testing the sticky error. *)
Definition settles {E A} (m : D E A) : Prop :=
  forall r a, fst (m r) = Ok a -> err (snd (m r)) = None.

Lemma settles_bind {E A B} (m : M A) (k : A -> D E B) :
  (forall a, settles (k a)) -> settles (bind m k).
Proof. intros Hk r b. unfold bind. destruct (m r). apply Hk. Qed.

Lemma settles_dbind {E A B} (m : D E A) (k : A -> D E B) :
  (forall a, settles (k a)) -> settles (dbind m k).
Proof. intros Hk. apply settles_bind. intros [a|e|]; [apply Hk|done|done]. Qed.

Lemma settles_dfail {E A} (e : E) : settles (A := A) (dfail e).
Proof. done. Qed.

#[export] Hint Resolve settles_dfail : qser.

Ltac settles_step :=
  match goal with
  | |- settles (bind _ _) => apply settles_bind; intros
  | |- settles (dbind _ _) => apply settles_dbind; intros
  | |- settles (match ?x with _ => _ end) => destruct x
  | |- settles _ => solve [eauto with qser]
  end.
Ltac solve_settles := repeat (progress intros || settles_step).

(** Whole documents: bytes after what [m] accepts are irrelevant, a cut before
    the point where [m] stopped is rejected. *)
Lemma good_accepts_more {E A} (m : D E A) b t a :
  good m -> settles m -> fst (m (NewReader b)) = Ok a -> fst (m (NewReader (b ++ t))) = Ok a.
Proof.
  intros Hm Hs Ha. by rewrite (proj1 (good_extend m b t Hm (Hs _ _ Ha))).
Qed.

Lemma good_rejects_cut {E A} (m : D E A) b k :
  good m -> settles m -> (k < off (snd (m (NewReader b))))%nat ->
  is_ok (fst (m (NewReader (take k b)))) = false.
Proof.
  intros Hm Hs Hk. pose proof (good_cut m b k Hm Hk) as Hc.
  destruct (fst _) eqn:Eq; simpl; try done. by apply Hs in Eq.
Qed.

(** One step of a [dyields] proof.  The facts about the integer methods are
    kept, other methods contribute nothing. *)
Ltac dyields_step :=
  match goal with
  | |- dyields (bind Uvarint _) _ => eapply dyields_bind; [apply yields_Uvarint|cbv beta; intros]
  | |- dyields (bind Svarint _) _ => eapply dyields_bind; [apply yields_Svarint|cbv beta; intros]
  | |- dyields (bind ListCount _) _ => eapply dyields_bind; [apply yields_ListCount|cbv beta; intros]
  | |- dyields (bind _ _) _ => eapply dyields_bind; [apply yields_true|intros ? _]
  | |- dyields (dfail _) _ => apply dyields_dfail
  | |- dyields (match ?x with _ => _ end) _ => destruct x eqn:?
  end.
