(* ===== verification/QserVarint.v ===== *)
(** * Verification of the integer codings of internal/qser

    A reference reading of LEB128 — the bytes up to the first one below 128, as
    a number in base 128, in two's complement for the signed coding — and the
    proof that the loops of [Reader.Uvarint] and [Reader.Svarint] compute it,
    with every way they refuse an input. *)

From S2P Require Import Prelude Qser QserLib.

Import Reader.

(** ** The reference *)

(** The group of bytes that ends with the first byte below 128, if it has at
    most [n] bytes. *)
Fixpoint terminated (n : nat) (l : bytes) : option bytes :=
  match n, l with
  | S n, b :: l => if ub b <? 128 then Some [b] else cons b <$> terminated n l
  | _, _ => None
  end.

(** The low seven bits of each byte, the first byte the least significant. *)
Fixpoint leb_value (g : bytes) : Z :=
  match g with
  | [] => 0
  | b :: g => ub b mod 128 + 128 * leb_value g
  end.

(** The same with the last group of seven bits in two's complement. *)
Fixpoint leb_signed (g : bytes) : Z :=
  match g with
  | [] => 0
  | [b] => if ub b mod 128 <? 64 then ub b mod 128 else ub b mod 128 - 128
  | b :: g => ub b mod 128 + 128 * leb_signed g
  end.

(** The longest coding of 64 bits. *)
Definition MaxVarintLen64 : nat := 10.

(** An input without an end within [n] bytes: too long or too short. *)
Definition unterminated (n : nat) (l : bytes) : qerr :=
  if (n <? length l)%nat then ErrOverflow else ErrTruncated.

Lemma pow7_step i : 0 <= i -> 2 ^ (7 * (i + 1)) = 128 * 2 ^ (7 * i).
Proof. intros. replace (7 * (i + 1)) with (7 + 7 * i) by lia. by rewrite Z.pow_add_r by lia. Qed.

(** ** The unsigned loop *)

(** One group of seven bits put on top of the bits read so far. *)
Lemma group_on_top b i acc : 0 <= i < 9 -> 0 <= acc < 2 ^ (7 * i) -> 0 <= b < 128 ->
  Z.lor acc (u64 (Z.shiftl b (7 * i))) = acc + b * 2 ^ (7 * i) /\
  0 <= acc + b * 2 ^ (7 * i) < 2 ^ (7 * (i + 1)).
Proof.
  intros Hi Ha Hb. rewrite pow7_step by lia.
  assert (2 ^ (7 * (i + 1)) <= 2 ^ 63) by (apply Z.pow_le_mono_r; lia). rewrite pow7_step in * by lia.
  rewrite shiftl_group by nia. rewrite lor_mul_add by lia. split; [done|nia].
Qed.

Lemma binary_Uvarint_spec n l i acc : Z.of_nat n + i = 10 -> 0 <= i -> 0 <= acc < 2 ^ (7 * i) ->
  binary_Uvarint l i acc (7 * i) =
  match terminated n l with
  | Some g => let v := acc + leb_value g * 2 ^ (7 * i) in
              if v <? 2 ^ 64 then (v, i + Z.of_nat (length g)) else (0, -10)
  | None => (0, if (n <? length l)%nat then -11 else 0)
  end.
Proof.
  revert l i acc. induction n as [|n IH]; intros l i acc Hn Hi Ha.
  { assert (i = 10) as -> by lia. by destruct l. }
  destruct l as [|b l]; [done|]. cbn [binary_Uvarint terminated length].
  pose proof (ub_range b) as Hb. destruct (Z.eqb_spec i 10); [lia|].
  destruct (Z.ltb_spec (ub b) 128) as [Hlt|Hge].
  - cbn [leb_value length]. rewrite (Z.mod_small (ub b)), Z.mul_0_r, Z.add_0_r by lia.
    destruct (decide (i = 9)) as [->|Hi9].
    + change (9 =? 9) with true. change (7 * 9) with 63 in *. cbn [andb].
      destruct (Z.ltb_spec 1 (ub b)), (Z.ltb_spec (acc + ub b * 2 ^ 63) (2 ^ 64)); try lia; [done|].
      f_equal. rewrite shiftl_group with (i := 9) by (change (7 * 9) with 63; lia). by apply lor_mul_add.
    + destruct (group_on_top (ub b) i acc) as [-> Hv]; [lia..|].
      assert (2 ^ (7 * (i + 1)) <= 2 ^ 63) by (apply Z.pow_le_mono_r; lia).
      rewrite (proj2 (Z.eqb_neq i 9)), (proj2 (Z.ltb_lt _ (2 ^ 64))) by lia. cbn [andb]. f_equal; lia.
  - rewrite land_127. replace (7 * i + 7) with (7 * (i + 1)) by lia.
    pose proof (Z.mod_pos_bound (ub b) 128 ltac:(lia)) as Hm.
    destruct (decide (i = 9)) as [->|Hi9].
    + assert (n = 0%nat) as -> by lia. destruct l as [|c l]; [done|]. reflexivity.
    + destruct (group_on_top (ub b mod 128) i acc) as [-> Hv]; [lia..|].
      rewrite IH by lia. destruct (terminated n l) as [g|]; cbn [fmap option_fmap option_map leb_value length]; [|by destruct n].
      rewrite pow7_step by lia.
      replace (acc + ub b mod 128 * 2 ^ (7 * i) + leb_value g * (128 * 2 ^ (7 * i)))
        with (acc + (ub b mod 128 + 128 * leb_value g) * 2 ^ (7 * i)) by lia.
      cbv zeta. destruct (_ <? _); f_equal. lia.
Qed.

(** ** The signed loop *)

(** What is above bit 63 of the last group does not matter. *)
Lemma top_group g acc : 0 <= acc < 2 ^ 63 -> 0 <= g < 128 ->
  exists q, Z.lor acc (u64 (Z.shiftl g 63)) = acc + g * 2 ^ 63 + q * 2 ^ 64.
Proof.
  intros Ha Hg. rewrite Z.shiftl_mul_pow2 by lia. unfold uwrap. exists (- (g / 2)).
  assert (E : (g * 2 ^ 63) mod 2 ^ 64 = (g mod 2) * 2 ^ 63).
  { symmetry. apply Z.mod_unique with (g / 2); [left|]; pose proof (Z.div_mod g 2); pose proof (Z.mod_pos_bound g 2); lia. }
  rewrite E, lor_mul_add by lia. pose proof (Z.div_mod g 2). lia.
Qed.

Lemma i64_congruent a b q : a = b + q * 2 ^ 64 -> i64 a = i64 b.
Proof. intros ->. apply swrap_shift. Qed.

(** The end of the loop: the last group with its sign. *)
Lemma svarint_end b l i acc r : 0 <= i <= 9 -> 0 <= acc < 2 ^ (7 * i) -> ub b < 128 ->
  svarint_loop (b :: l) i acc (7 * i) r = (i64 (acc + leb_signed [b] * 2 ^ (7 * i)), advance 1 r).
Proof.
  intros Hi Ha Hb. pose proof (ub_range b). assert (Hg : 0 <= ub b < 128) by lia.
  cbn [svarint_loop leb_signed]. destruct (group_tests _ Hg) as (-> & -> & _ & _ & ->).
  rewrite (proj2 (Z.eqb_neq i 10)), (proj2 (Z.ltb_lt (7 * i) 64)), (Z.mod_small (ub b)) by lia. f_equal.
  destruct (decide (i = 9)) as [->|Hi9].
  - change (7 * 9) with 63 in *. change (63 + 7 <? 64) with false. cbn [andb].
    destruct (top_group (ub b) acc Ha Hg) as [q ->]. destruct (ub b <? 64).
    + by apply i64_congruent with q.
    + apply i64_congruent with (q + 64). change (2 ^ 64) with (2 * 2 ^ 63). ring.
  - destruct (group_on_top (ub b) i acc) as [-> Hv]; [lia..|].
    replace (7 * i + 7) with (7 * (i + 1)) by lia. rewrite (proj2 (Z.ltb_lt (7 * (i + 1)) 64)) by lia.
    destruct (ub b <? 64); cbn [andb negb]; [done|].
    rewrite sign_extension, lor_mul_add by lia. apply i64_congruent with 1.
    assert (2 ^ 64 = 2 ^ (64 - 7 * (i + 1)) * 2 ^ (7 * (i + 1))) as ->
      by (rewrite <- Z.pow_add_r by lia; f_equal; lia).
    rewrite pow7_step by lia. lia.
Qed.

Lemma svarint_loop_spec n l i acc r : Z.of_nat n + i = 10 -> 0 <= i -> 0 <= acc < 2 ^ (7 * i) ->
  svarint_loop l i acc (7 * i) r =
  match terminated n l with
  | Some g => (i64 (acc + leb_signed g * 2 ^ (7 * i)), advance (length g) r)
  | None => (0, fail (unterminated n l) (advance (Nat.min n (length l)) r))
  end.
Proof.
  revert l i acc r. induction n as [|n IH]; intros l i acc r Hn Hi Ha.
  { assert (i = 10) as -> by lia. destruct l; cbn; by rewrite advance_0. }
  destruct l as [|b l]; [cbn; by rewrite advance_0|]. pose proof (ub_range b) as Hb.
  destruct (Z.lt_ge_cases (ub b) 128) as [Hlt|Hge].
  - cbn [terminated]. rewrite (proj2 (Z.ltb_lt _ _) Hlt). apply svarint_end; lia.
  - pose proof (Z.mod_pos_bound (ub b) 128 ltac:(lia)) as Hm.
    assert (E : ub b = ub b mod 128 + 128)
      by (rewrite <- (Z.mod_unique (ub b) 128 1 (ub b - 128)) by lia; lia).
    cbn [svarint_loop]. rewrite (proj2 (Z.eqb_neq i 10)), (proj2 (Z.ltb_lt (7 * i) 64)) by lia.
    destruct (group_tests _ Hm) as (_ & _ & H128 & H127 & _). rewrite <- E in H128, H127. rewrite H128, H127.
    replace (7 * i + 7) with (7 * (i + 1)) by lia.
    cbn [terminated length]. rewrite (proj2 (Z.ltb_ge _ _) Hge). destruct (decide (i = 9)) as [->|Hi9].
    + assert (n = 0%nat) as -> by lia. by destruct l.
    + destruct (group_on_top (ub b mod 128) i acc) as [-> Hv]; [lia..|]. rewrite IH by lia.
      destruct (terminated n l) as [g|] eqn:Eg; cbn [fmap option_fmap option_map length Nat.min]; rewrite advance_advance; [|done].
      f_equal. f_equal. rewrite pow7_step by lia. destruct g as [|c g]; [by destruct n, l; try done; cbn in Eg; destruct (ub _ <? 128), (terminated n l)|].
      cbn [leb_signed]. lia.
Qed.

(** ** Readers and writers *)

Lemma terminated_prefix n l g : terminated n l = Some g -> (exists t, l = g ++ t) /\ (0 < length g <= n)%nat.
Proof.
  revert l g. induction n as [|n IH]; intros [|b l] g H; try done. cbn [terminated] in H.
  destruct (ub b <? 128); [injection H as <-; split; [by exists l|cbn; lia]|].
  destruct (terminated n l) as [g'|] eqn:E; [|done]. injection H as <-.
  destruct (IH _ _ E) as [[t ->] Hl]. split; [by exists t|cbn; lia].
Qed.

Lemma Uvarint_spec r : Uvarint r =
  if failed r then (0, r)
  else match terminated MaxVarintLen64 (rest r) with
       | Some g => if leb_value g <? 2 ^ 64 then (leb_value g, advance (length g) r) else (0, fail ErrOverflow r)
       | None => (0, fail (unterminated MaxVarintLen64 (rest r)) r)
       end.
Proof.
  unfold Uvarint. destruct (failed r); [done|].
  pose proof (binary_Uvarint_spec MaxVarintLen64 (rest r) 0 0 ltac:(done) ltac:(lia) ltac:(lia)) as H.
  change (7 * 0) with 0 in H. rewrite H. clear H.
  destruct (terminated MaxVarintLen64 (rest r)) as [g|] eqn:E; cbv zeta.
  - rewrite Z.mul_1_r, !Z.add_0_l. destruct (terminated_prefix _ _ _ E) as [_ Hl].
    destruct (_ <? _); [|done]. rewrite (proj2 (Z.eqb_neq _ _)), (proj2 (Z.ltb_ge _ _)) by lia. by rewrite Nat2Z.id.
  - unfold unterminated. by destruct (_ <? _)%nat.
Qed.

Lemma Svarint_spec r : Svarint r =
  if failed r then (0, r)
  else match terminated MaxVarintLen64 (rest r) with
       | Some g => (i64 (leb_signed g), advance (length g) r)
       | None => (0, fail (unterminated MaxVarintLen64 (rest r)) (advance (Nat.min MaxVarintLen64 (length (rest r))) r))
       end.
Proof.
  unfold Svarint. destruct (failed r); [done|].
  pose proof (svarint_loop_spec MaxVarintLen64 (rest r) 0 0 r ltac:(done) ltac:(lia) ltac:(lia)) as H.
  change (7 * 0) with 0 in H. rewrite H. clear H.
  destruct (terminated _ _); [|done]. by rewrite Z.mul_1_r, Z.add_0_l.
Qed.

(** What a reader method accepts of a written integer is what was written. *)
Lemma terminated_written w tl g n : terminated n (w ++ tl) = Some g ->
  length g = length w -> g = w.
Proof.
  intros Ht Ha.
  destruct (terminated_prefix _ _ _ Ht) as [[t E] _]. by apply app_inj_1 in E as [<- _].
Qed.

(** C11: the two integer codings against a reference reading of LEB128.  On any
    bytes [Uvarint] reads the group that ends with the first byte below 128
    among the next ten, gives its value and consumes it when the value is below
    2^64, and otherwise fails without moving, as an overflow when ten bytes do
    not end the group and there are more or the value is too large, and as a
    truncation when the bytes run out; [Svarint] reads the same group in two's
    complement and reduces it into an int64.  What the writer emits for a uint64
    or an int64 is such a group, of ten bytes at most, with that value. *)
Theorem varint_reference r :
  let g := terminated MaxVarintLen64 (rest r) in
  let e := unterminated MaxVarintLen64 (rest r) in
  Uvarint r = (if failed r then (0, r)
               else match g with
                    | Some g => if leb_value g <? 2 ^ 64 then (leb_value g, advance (length g) r)
                                else (0, fail ErrOverflow r)
                    | None => (0, fail e r)
                    end) /\
  Svarint r = (if failed r then (0, r)
               else match g with
                    | Some g => (i64 (leb_signed g), advance (length g) r)
                    | None => (0, fail e (advance (Nat.min MaxVarintLen64 (length (rest r))) r))
                    end) /\
  (forall v tl, in_u 64 v ->
     terminated MaxVarintLen64 (Writer.Uvarint v ++ tl) = Some (Writer.Uvarint v) /\ leb_value (Writer.Uvarint v) = v) /\
  (forall v tl, in_s 64 v ->
     terminated MaxVarintLen64 (Writer.Svarint v ++ tl) = Some (Writer.Svarint v) /\ i64 (leb_signed (Writer.Svarint v)) = v).
Proof.
  cbv zeta. split; [apply Uvarint_spec|]. split; [apply Svarint_spec|]. split.
  - intros v tl Hv. pose proof (parses_Uvarint v tl Hv _ (reading_new _)) as H. rewrite Uvarint_spec in H.
    change (failed _) with false in H. change (rest _) with (Writer.Uvarint v ++ tl) in H. cbv iota in H.
    destruct (terminated _ _) as [g|] eqn:E; [|done]. destruct (_ <? _); [|done]. injection H as Hg Ha.
    by rewrite <- (terminated_written _ _ _ _ E Ha).
  - intros v tl Hv. pose proof (parses_Svarint v tl Hv _ (reading_new _)) as H. rewrite Svarint_spec in H.
    change (failed _) with false in H. change (rest _) with (Writer.Svarint v ++ tl) in H. cbv iota in H.
    destruct (terminated _ _) as [g|] eqn:E; [|done]. injection H as Hg Ha.
    by rewrite <- (terminated_written _ _ _ _ E Ha).
Qed.

(** A tenth byte past the sixty-fourth bit overflows an unsigned integer, and
    is cut off from a signed one without an error. *)
Lemma signed_tenth_byte :
  let b := NewReader (repeat (bz 128) 9 ++ [bz 2]) in
  err (Uvarint b).2 = Some ErrOverflow /\ (Svarint b).1 = 0 /\ err (Svarint b).2 = None.
Proof. by vm_compute. Qed.
