(* ===== verification/LogicalType.v ===== *)
(** * codec/logicaltype.go: type trees and their decoder

    [decodeType] recurses with an explicit depth that the source bounds by
    [maxTypeDepth]; the model recurses on the levels left, [S maxTypeDepth -
    depth], so running out of levels is exactly the source's depth error and
    there is no other fuel. *)

From S2P Require Import Prelude Qser.

(** ** Type identifiers *)

Definition TypeInvalid : Z := 0.
Definition TypeSQLNull : Z := 1.
Definition TypeBoolean : Z := 10.
Definition TypeTinyint : Z := 11.
Definition TypeSmallint : Z := 12.
Definition TypeInteger : Z := 13.
Definition TypeBigint : Z := 14.
Definition TypeDate : Z := 15.
Definition TypeTime : Z := 16.
Definition TypeTimestampSec : Z := 17.
Definition TypeTimestampMS : Z := 18.
Definition TypeTimestamp : Z := 19.
Definition TypeTimestampNS : Z := 20.
Definition TypeDecimal : Z := 21.
Definition TypeFloat : Z := 22.
Definition TypeDouble : Z := 23.
Definition TypeVarchar : Z := 25.
Definition TypeBlob : Z := 26.
Definition TypeInterval : Z := 27.
Definition TypeUTinyint : Z := 28.
Definition TypeUSmallint : Z := 29.
Definition TypeUInteger : Z := 30.
Definition TypeUBigint : Z := 31.
Definition TypeTimestampTZ : Z := 32.
Definition TypeTimeTZ : Z := 34.
Definition TypeTimeNS : Z := 35.
Definition TypeBit : Z := 36.
Definition TypeUHugeint : Z := 49.
Definition TypeHugeint : Z := 50.
Definition TypeUUID : Z := 54.
Definition TypeGeometry : Z := 60.
Definition TypeStruct : Z := 100.
Definition TypeList : Z := 101.
Definition TypeMap : Z := 102.
Definition TypeEnum : Z := 104.
Definition TypeUnion : Z := 107.
Definition TypeArray : Z := 108.
Definition TypeVariant : Z := 109.

(** [case a, b, c:] of a switch on a type id. *)
Definition is_one_of (id : Z) (l : list Z) : bool := existsb (Z.eqb id) l.

(** ** Type trees *)

Inductive LogicalType : Type :=
  | MkType (ID Width Scale : Z) (Child : option LogicalType) (Fields : list StructField)
           (Enum : list bytes) (ArraySize : Z)
with StructField : Type :=
  | MkField (Name : bytes) (Type_ : LogicalType).

Definition ID (t : LogicalType) : Z := let '(MkType i _ _ _ _ _ _) := t in i.
Definition Width (t : LogicalType) : Z := let '(MkType _ w _ _ _ _ _) := t in w.
Definition Scale (t : LogicalType) : Z := let '(MkType _ _ s _ _ _ _) := t in s.
Definition Child (t : LogicalType) : option LogicalType :=
  let '(MkType _ _ _ c _ _ _) := t in c.
Definition Fields (t : LogicalType) : list StructField := let '(MkType _ _ _ _ f _ _) := t in f.
Definition Enum (t : LogicalType) : list bytes := let '(MkType _ _ _ _ _ e _) := t in e.
Definition ArraySize (t : LogicalType) : Z := let '(MkType _ _ _ _ _ _ a) := t in a.
Definition Name (f : StructField) : bytes := let '(MkField n _) := f in n.
Definition Type_ (f : StructField) : LogicalType := let '(MkField _ t) := f in t.

(** [LogicalType{ID: id}]. *)
Definition T (id : Z) : LogicalType := MkType id 0 0 None [] [] 0.

(** Assignments to the fields of a type under construction. *)
Definition set_Width (w : Z) (t : LogicalType) : LogicalType :=
  let '(MkType i _ s c f e a) := t in MkType i w s c f e a.
Definition set_Scale (s : Z) (t : LogicalType) : LogicalType :=
  let '(MkType i w _ c f e a) := t in MkType i w s c f e a.
Definition set_Child (c : LogicalType) (t : LogicalType) : LogicalType :=
  let '(MkType i w s _ f e a) := t in MkType i w s (Some c) f e a.
Definition set_Fields (f : list StructField) (t : LogicalType) : LogicalType :=
  let '(MkType i w s c _ e a) := t in MkType i w s c f e a.
Definition set_Enum (e : list bytes) (t : LogicalType) : LogicalType :=
  let '(MkType i w s c f _ a) := t in MkType i w s c f e a.
Definition set_ArraySize (a : Z) (t : LogicalType) : LogicalType :=
  let '(MkType i w s c f e _) := t in MkType i w s c f e a.

(** ** Errors of the codec package *)

Inductive cerr : Type :=
  | EQser (e : qerr)                         (** [r.Err()] passed on *)
  | ErrUnsupportedType (t : LogicalType)
  | ENoCodec (version : Z)
  | ETypeTooDeep
  | ETypeMissingId
  | EInfoMissingKind
  | EExtensionInfo (t : LogicalType)
  | EListMissingChild
  | EFieldMissingType (name : bytes)
  | EEnumMissingCount
  | EEnumCount (have want : Z)
  | EArrayMissingChild
  | EInfoKind (t : LogicalType) (kind : Z)
  | EVectorTooDeep
  | EVectorRows (count : Z)
  | EMissingField (what : String.string)     (** "... missing ..." of chunk.go *)
  | EImplausible (what : String.string) (n : Z)
  | ECount (what : String.string) (have want : Z)
  | EDictIndex (idx : Z) (n : Z)
  | ESequenceType (id : Z)
  | EVectorEncoding (vtype : Z)
  | EListEntry (off ln size : Z)
  | EVectorNoChild (t : LogicalType)
  | EBit (padding : Z) (n : Z)
  | EEnumIndex (idx n : Z)
  | EValueIndex (col row : Z)
  | EWrap (what : String.string) (e : cerr)  (** [fmt.Errorf("...: %w", err)] *)
  | EColumn (t : LogicalType) (e : cerr).

(** [return x, r.Err()]. *)
Definition finish {A} (x : A) : D cerr A :=
  let* e := Reader.Err in
  match e with
  | None => dret x
  | Some e => dfail (EQser e)
  end.

(** ** Decoding type trees *)

Definition infoGeneric : Z := 1.
Definition infoDecimal : Z := 2.
Definition infoString : Z := 3.
Definition infoList : Z := 4.
Definition infoStruct : Z := 5.
Definition infoEnum : Z := 6.
Definition infoArray : Z := 9.

Definition maxTypeDepth : nat := 64.

(** One element of [child_types]: a pair object with fields 0 and 1. *)
Definition decodeStructField (decodeChild : D cerr LogicalType) : D cerr StructField :=
  let* name := optField 0 Reader.String_ [] in
  let* p := Reader.TryField 1 in
  if negb p then dfail (EFieldMissingType name)
  else
    let? ft := decodeChild in
    let* _ := Reader.End_ in
    dret (MkField name ft).

(** The switch on the kind of type info. *)
Definition decodeInfoKind (decodeChild : D cerr LogicalType) (t : LogicalType) (kind : Z)
  : D cerr LogicalType :=
  if kind =? infoGeneric then dret t
  else if kind =? infoDecimal then
    let* w := optField 200 (let* v := Reader.Uvarint in ret (u8 v)) (Width t) in
    let* s := optField 201 (let* v := Reader.Uvarint in ret (u8 v)) (Scale t) in
    dret (set_Scale s (set_Width w t))
  else if kind =? infoString then
    let* _ := optField 200 Reader.String_ [] in
    dret t
  else if kind =? infoList then
    let* p := Reader.TryField 200 in
    if negb p then dfail EListMissingChild
    else
      let? child := decodeChild in
      dret (set_Child child t)
  else if kind =? infoStruct then
    let* p := Reader.TryField 200 in
    if p then
      let* n := Reader.ListCount in
      let? fields := drepeat (Z.to_nat n) (decodeStructField decodeChild) in
      dret (set_Fields fields t)
    else dret t
  else if kind =? infoEnum then
    let* p := Reader.TryField 200 in
    if negb p then dfail EEnumMissingCount
    else
      let* n := Reader.Uvarint in
      let* enum := optField 201 (let* count := Reader.ListCount in
                                 mrepeat (Z.to_nat count) Reader.String_) (Enum t) in
      if negb (Z.of_nat (length enum) =? n)
      then dfail (EEnumCount (Z.of_nat (length enum)) n)
      else dret (set_Enum enum t)
  else if kind =? infoArray then
    let* p := Reader.TryField 200 in
    if negb p then dfail EArrayMissingChild
    else
      let? child := decodeChild in
      let* size := optField 201 (let* v := Reader.Uvarint in ret (u32 v)) (ArraySize t) in
      dret (set_ArraySize size (set_Child child t))
  else dfail (EInfoKind t kind).

Definition decodeTypeInfo (decodeChild : D cerr LogicalType) (t : LogicalType)
  : D cerr LogicalType :=
  let* p := Reader.TryField 100 in
  if negb p then dfail EInfoMissingKind
  else
    let* kind := Reader.Uvarint in
    let* _ := optField 101 Reader.String_ [] in
    let* ext := optField 103 Reader.Present false in
    if ext then dfail (EExtensionInfo t)
    else
      let? t := decodeInfoKind decodeChild t kind in
      let* _ := Reader.End_ in
      finish t.

(** [levels] is [S maxTypeDepth - depth]. *)
Fixpoint decodeType (levels : nat) : D cerr LogicalType :=
  match levels with
  | O => dfail ETypeTooDeep
  | S levels =>
      let* p := Reader.TryField 100 in
      if negb p then dfail ETypeMissingId
      else
        let* id := Reader.Uvarint in
        let t := T (u32 id) in
        let* p := Reader.TryField 101 in
        let? t := (if p then
                     let* present := Reader.Present in
                     if present then decodeTypeInfo (decodeType levels) t else dret t
                   else dret t) in
        let* _ := Reader.End_ in
        finish t
  end.

(** [decodeType(r, 0)]. *)
Definition decodeType0 : D cerr LogicalType := decodeType (S maxTypeDepth).

Definition enumIndexWidth (dictSize : Z) : Z :=
  if dictSize <=? 255 then 1 else if dictSize <=? 65535 then 2 else 4.
