(* ===== verification/GoFmt.v ===== *)
(** * Go's decimal formatting and string searching, as the repository uses them

    [strconv.FormatInt] in base 10, the verbs [%d], [%02d], [%0*d] and [%0*s] of
    package fmt, and [Index], [Contains], [ReplaceAll], [Cut] and [HasPrefix] of package
    strings. *)

From S2P Require Import Prelude.

(** ** Decimal numerals *)

Definition digit (d : Z) : byte := bz (48 + d).
Definition is_digit (b : byte) : bool := (48 <=? ub b) && (ub b <=? 57).

(** The digits of a non-negative number, most significant first. *)
Fixpoint digits_aux (fuel : nat) (z : Z) (acc : bytes) : bytes :=
  match fuel with
  | O => acc
  | S fuel =>
      let acc := digit (z mod 10) :: acc in
      if z <? 10 then acc else digits_aux fuel (z / 10) acc
  end.

(** [log2 z + 1] divisions by ten are enough, since each at least halves. *)
Definition digits (z : Z) : bytes := digits_aux (S (Z.to_nat (Z.log2 z))) z [].

(** [strconv.FormatInt(z, 10)], [%d]. *)
Definition itoa (z : Z) : bytes := if z <? 0 then str "-" ++ digits (- z) else digits z.

(** [%0*s]: zeros on the left up to a width. *)
Definition pad0 (width : nat) (s : bytes) : bytes :=
  replicate (width - length s) (bz 48) ++ s.

(** [%0*d]: the sign counts towards the width. *)
Definition fmt_0d (width : nat) (z : Z) : bytes :=
  if z <? 0 then str "-" ++ pad0 (width - 1) (digits (- z)) else pad0 width (digits z).

(** The number a digit string denotes. *)
Definition dec_value (l : bytes) : Z := fold_left (fun a b => 10 * a + (ub b - 48)) l 0.

(** ** Searching *)

Fixpoint has_prefix (p s : bytes) : bool :=
  match p, s with
  | [], _ => true
  | x :: p, y :: s => bool_decide (x = y) && has_prefix p s
  | _ :: _, [] => false
  end.

(** [strings.Index]: the first position where [p] occurs. *)
Fixpoint index_of (p s : bytes) : option nat :=
  if has_prefix p s then Some O
  else match s with
       | [] => None
       | _ :: s => option_map S (index_of p s)
       end.

Definition contains (s p : bytes) : bool := match index_of p s with Some _ => true | None => false end.

(** [strings.ReplaceAll] for a non-empty [old]; [fuel] bounds the number of
    bytes and [length s] is enough. *)
Fixpoint replace_all_aux (fuel : nat) (old new s : bytes) : bytes :=
  match fuel, s with
  | O, _ => s
  | S _, [] => []
  | S fuel, b :: s' =>
      if has_prefix old s then new ++ replace_all_aux fuel old new (drop (length old) s)
      else b :: replace_all_aux fuel old new s'
  end.

Definition replace_all (old new s : bytes) : bytes := replace_all_aux (length s) old new s.

(** ** Lemmas on numerals *)

Lemma ub_digit d : 0 <= d < 10 -> ub (digit d) = 48 + d.
Proof. intros. unfold digit. apply ub_bz_small. lia. Qed.

Lemma is_digit_digit d : 0 <= d < 10 -> is_digit (digit d) = true.
Proof.
  intros. unfold is_digit. rewrite ub_digit by done. apply andb_true_iff. split; apply Z.leb_le; lia.
Qed.

Lemma dec_value_app l1 l2 :
  dec_value (l1 ++ l2) = dec_value l1 * 10 ^ Z.of_nat (length l2) + dec_value l2.
Proof.
  unfold dec_value. rewrite fold_left_app. generalize (fold_left (fun a b => 10 * a + (ub b - 48)) l1 0).
  intros v. assert (forall l a, fold_left (fun a b => 10 * a + (ub b - 48)) l a =
    a * 10 ^ Z.of_nat (length l) + fold_left (fun a b => 10 * a + (ub b - 48)) l 0) as H; [|apply H].
  induction l as [|b l IH]; intros a; cbn [fold_left length]; [simpl; lia|].
  rewrite (IH (10 * a + _)), (IH (10 * 0 + _)), Nat2Z.inj_succ, Z.pow_succ_r by lia. lia.
Qed.

Lemma dec_value_cons b l :
  dec_value (b :: l) = (ub b - 48) * 10 ^ Z.of_nat (length l) + dec_value l.
Proof. apply (dec_value_app [b] l). Qed.

Lemma digits_aux_spec fuel z acc :
  0 <= z < 2 ^ Z.of_nat fuel -> (fuel > 0)%nat ->
  exists l, digits_aux fuel z acc = l ++ acc /\ dec_value l = z /\ l <> [] /\
            forallb is_digit l = true.
Proof.
  revert z acc. induction fuel as [|f IH]; intros z acc Hz Hf; [lia|].
  cbn [digits_aux]. pose proof (Z.mod_pos_bound z 10 ltac:(lia)).
  pose proof (Z.div_mod z 10 ltac:(lia)). destruct (z <? 10) eqn:E; zify_bools.
  - exists [digit (z mod 10)]. unfold dec_value. simpl.
    rewrite ub_digit, is_digit_digit by done. rewrite Z.mod_small by lia. repeat split; [lia|done].
  - rewrite Nat2Z.inj_succ, Z.pow_succ_r in Hz by lia.
    destruct f as [|f]; [simpl in Hz; lia|].
    destruct (IH (z / 10) (digit (z mod 10) :: acc)) as (l & -> & Hv & Hn & Hd); [lia|lia|].
    exists (l ++ [digit (z mod 10)]). rewrite <- app_assoc, dec_value_app, Hv, forallb_app, Hd.
    unfold dec_value. simpl. rewrite ub_digit, is_digit_digit by done.
    repeat split; [lia|by destruct l].
Qed.

Lemma digits_spec z : 0 <= z ->
  dec_value (digits z) = z /\ digits z <> [] /\ forallb is_digit (digits z) = true.
Proof.
  intros Hz. destruct (digits_aux_spec (S (Z.to_nat (Z.log2 z))) z []) as (l & E & H).
  - split; [done|]. rewrite Nat2Z.inj_succ, Z2Nat.id by apply Z.log2_nonneg.
    destruct (decide (z = 0)) as [->|]; [done|]. apply Z.log2_spec. lia.
  - lia.
  - unfold digits. rewrite E, app_nil_r. done.
Qed.

Lemma digits_aux_head fuel z acc : 0 < z < 2 ^ Z.of_nat fuel ->
  exists d l, digits_aux fuel z acc = digit d :: l /\ 0 < d < 10.
Proof.
  revert z acc. induction fuel as [|fuel IH]; intros z acc Hz; [cbn in Hz; lia|]. cbn [digits_aux].
  destruct (Z.ltb_spec z 10).
  - exists (z mod 10), acc. split; [done|]. rewrite Z.mod_small by lia. lia.
  - apply IH. split; [apply Z.div_str_pos; lia|]. apply Z.div_lt_upper_bound; [lia|].
    rewrite Nat2Z.inj_succ, Z.pow_succ_r in Hz by lia. lia.
Qed.

Lemma dec_value_nonneg l : forallb is_digit l = true -> 0 <= dec_value l.
Proof.
  induction l as [|b l IH]; [done|]. cbn [forallb]. intros [Hb Hl]%andb_true_iff. rewrite dec_value_cons.
  unfold is_digit in Hb. apply andb_true_iff in Hb as [Hb%Z.leb_le _]. specialize (IH Hl).
  assert (0 <= 10 ^ Z.of_nat (length l)) by (apply Z.pow_nonneg; lia). nia.
Qed.

(** A numeral has no leading zero, so its length is that of its number. *)
Lemma length_digits z w : (0 < w)%nat -> 0 <= z < 10 ^ Z.of_nat w -> (length (digits z) <= w)%nat.
Proof.
  intros Hw Hz. destruct (Z.eq_dec z 0) as [->|Hne]; [cbn; lia|].
  destruct (digits_aux_head (S (Z.to_nat (Z.log2 z))) z []) as (d & l & E & Hd).
  { split; [lia|]. rewrite Nat2Z.inj_succ, Z2Nat.id by apply Z.log2_nonneg. apply Z.log2_spec. lia. }
  destruct (digits_spec z ltac:(lia)) as (Hv & _ & Hall). unfold digits in *. rewrite E in *.
  rewrite dec_value_cons, ub_digit in Hv by lia. cbn [forallb] in Hall. apply andb_true_iff in Hall as [_ Hall].
  pose proof (dec_value_nonneg l Hall). cbn [length].
  assert (10 ^ Z.of_nat (length l) < 10 ^ Z.of_nat w) by nia. apply Z.pow_lt_mono_r_iff in H0; lia.
Qed.

Lemma dec_value_zeros n l : dec_value (replicate n (bz 48) ++ l) = dec_value l.
Proof.
  induction n as [|n IH]; [done|]. cbn [replicate app]. rewrite dec_value_cons, IH.
  rewrite ub_bz_small by lia. lia.
Qed.

Lemma dec_value_pad0 w l : dec_value (pad0 w l) = dec_value l.
Proof. apply dec_value_zeros. Qed.

Lemma length_pad0 w l : length (pad0 w l) = Nat.max w (length l).
Proof. unfold pad0. rewrite length_app, length_replicate. lia. Qed.

Lemma forallb_pad0 w l : forallb is_digit (pad0 w l) = forallb is_digit l.
Proof.
  unfold pad0. rewrite forallb_app. replace (forallb is_digit (replicate _ _)) with true; [done|].
  symmetry. apply forallb_forall. intros x Hx. apply list_elem_of_In, elem_of_replicate in Hx as [-> _]. done.
Qed.

(** ** Replacing leaves no occurrence *)

Lemma contains_false s p : (forall i, has_prefix p (drop i s) = false) -> contains s p = false.
Proof.
  unfold contains. intros H. assert (E : index_of p s = None); [|by rewrite E].
  induction s as [|b s IH]; cbn [index_of].
  - by rewrite (H 0%nat : has_prefix p [] = false).
  - rewrite (H 0%nat : has_prefix p (b :: s) = false), IH; [done|]. intros i. apply (H (S i)).
Qed.

Lemma has_prefix_app p s : has_prefix p s = true <-> exists t, s = p ++ t.
Proof.
  split.
  - revert s. induction p as [|x p IH]; intros s H; [by exists s|].
    destruct s as [|y s]; [done|]. cbn [has_prefix] in H. apply andb_true_iff in H as [E H].
    apply bool_decide_eq_true in E as ->. destruct (IH s H) as [t ->]. by exists t.
  - intros [t ->]. induction p as [|x p IH]; [done|]. cbn [has_prefix app]. by rewrite bool_decide_true, IH.
Qed.

(** Before the first replacement the text is the original's. *)
Lemma replace_prefix fuel old c new p s :
  c ∉ p -> has_prefix p (replace_all_aux fuel old (c :: new) s) = true -> has_prefix p s = true.
Proof.
  revert p s. induction fuel as [|fuel IH]; intros p s Hc H; cbn [replace_all_aux] in H; [done|].
  destruct s as [|b s]; [done|]. destruct p as [|x p]; [done|].
  destruct (has_prefix old (b :: s)).
  - cbn [app has_prefix] in H. apply andb_true_iff in H as [E _]. apply bool_decide_eq_true in E as ->.
    exfalso. apply Hc. left.
  - cbn [has_prefix] in *. apply andb_true_iff in H as [-> H]. apply (IH p s); [|done].
    intros Hin. apply Hc. by right.
Qed.

(** A string without the first and last byte of the replacement, and not
    inside it, no longer occurs. *)
Lemma replace_all_removes old a mid b s :
  old <> [] -> a ∉ old -> b ∉ old -> (forall i, has_prefix old (drop i mid) = false) ->
  contains (replace_all old (a :: mid ++ [b]) s) old = false.
Proof.
  intros Hne Ha Hb Hmid. apply contains_false. unfold replace_all.
  assert (H : forall fuel s i, (length s <= fuel)%nat ->
    has_prefix old (drop i (replace_all_aux fuel old (a :: mid ++ [b]) s)) = false).
  2: { intros i. by apply H. }
  assert (Hin : forall l t i, (forall j, has_prefix old (drop j t) = false) ->
     (forall j, has_prefix old (drop j l) = false) -> has_prefix old (drop i (l ++ b :: t)) = false).
  { intros l t i Ht Hl. destruct (Nat.le_gt_cases (length l) i) as [Hi|Hi].
    - destruct (i - length l)%nat as [|k] eqn:Ek.
      + rewrite drop_app_ge, Ek by lia. destruct old as [|x old]; [done|]. cbn. apply andb_false_iff.
        left. apply bool_decide_eq_false. intros ->. apply Hb. left.
      + rewrite drop_app_ge, Ek by lia. apply Ht.
    - rewrite drop_app_le by lia. apply not_true_iff_false. intros [u Hu]%has_prefix_app.
      destruct (Nat.le_gt_cases (length old) (length (drop i l))) as [Hle|Hgt].
      + pose proof (f_equal (take (length old)) Hu) as E. rewrite take_app_length, take_app_le in E by done.
        specialize (Hl i). apply not_true_iff_false in Hl. apply Hl, has_prefix_app.
        exists (drop (length old) (drop i l)). by rewrite <- E, take_drop at 1.
      + apply Hb. pose proof (f_equal (fun l0 => l0 !! length (drop i l)) Hu) as E. cbn beta in E.
        rewrite lookup_app_r, Nat.sub_diag, lookup_app_l in E by lia.
        by eapply list_elem_of_lookup_2, eq_sym. }
  induction fuel as [|fuel IH]; intros s' i Hl.
  { destruct s'; [|simpl in Hl; lia]. cbn. rewrite drop_nil. by destruct old. }
  destruct s' as [|c s']; cbn [replace_all_aux]; [rewrite drop_nil; by destruct old|].
  destruct (has_prefix old (c :: s')) eqn:E.
  - assert (Ea : forall t, (a :: mid ++ [b]) ++ t = a :: (mid ++ b :: t)) by (intros; cbn [app]; by rewrite <- app_assoc).
    rewrite Ea.
    destruct i as [|i].
    + destruct old as [|x old]; [done|]. cbn. apply andb_false_iff. left. apply bool_decide_eq_false.
      intros ->. apply Ha. left.
    + cbn [drop]. apply Hin; [|done]. intros j. apply IH. rewrite length_drop. cbn [length] in *.
      destruct old; [done|]. cbn [length]. lia.
  - destruct i as [|i]; [|cbn [drop]; apply IH; simpl in Hl; lia].
    cbn [drop]. apply not_true_iff_false. intros H. destruct old as [|x old]; [done|].
    cbn [has_prefix] in H, E. apply andb_true_iff in H as [Hx H]. rewrite Hx in E. cbn [andb] in E.
    apply replace_prefix in H; [congruence|]. intros Hin'. apply Ha. by right.
Qed.
