(* ===== verification/Values.v ===== *)
(** * codec/values.go: the Go values columns decode to

    [any] enumerates the dynamic types a decoded cell can have; floats are
    kept as their IEEE bit patterns, [*big.Int] as an integer, [time.Time] in
    UTC as seconds and nanoseconds.  The [String] methods are functions to
    bytes, with Go's truncating division ([Z.quot], [Z.rem]). *)

From S2P Require Import Prelude Qser LogicalType GoFmt.

(** ** Scalars *)

Record Decimal := MkDecimal { DWidth : Z; DScale : Z; hi : Z; lo : Z }.

Definition newDecimal (width scale hi lo : Z) : Decimal := MkDecimal width scale hi lo.

(** [new(big.Int).Rsh(b, 64).Uint64()] and [b.Uint64()]: the low 64 bits of
    the magnitude, non-negative here for an argument of 128 bits. *)
Definition NewDecimal (width scale unscaled : Z) : Decimal :=
  let b := if unscaled <? 0 then unscaled + Z.shiftl 1 128 else unscaled in
  let lo := u64 (Z.abs b) in
  let hi := i64 (u64 (Z.abs (Z.shiftr b 64))) in
  newDecimal width scale hi lo.

Definition int128Big (hi lo : Z) : Z := lo + Z.shiftl hi 64.
Definition uint128Big (hi lo : Z) : Z := lo + Z.shiftl hi 64.

Definition BigInt (d : Decimal) : Z := int128Big (hi d) (lo d).

Definition Decimal_String (d : Decimal) : bytes :=
  let v := BigInt d in
  let neg := v <? 0 in
  let v := if neg then - v else v in
  let s := digits v in
  let scale := Z.to_nat (DScale d) in
  let s := if (length s <=? scale)%nat then pad0 (S scale) s else s in
  let s := if 0 <? DScale d
           then let cut := (length s - scale)%nat in take cut s ++ str "." ++ drop cut s
           else s in
  if neg then str "-" ++ s else s.

(** [Rat]: the quotient in lowest terms, as [big.Rat.SetFrac] keeps it. *)
Definition Rat (d : Decimal) : Z * Z :=
  let den := 10 ^ DScale d in
  let g := Z.gcd (BigInt d) den in
  (BigInt d / g, den / g).

(** [fracString]: the trailing zeros of the fraction are dropped. *)
Fixpoint trim_zeros (s : bytes) : bytes :=
  match s with
  | [] => []
  | b :: s => match trim_zeros s with
              | [] => if ub b =? 48 then [] else [b]
              | s' => b :: s'
              end
  end.

Definition fracString (frac : Z) (ndigits : nat) : bytes :=
  if frac =? 0 then [] else trim_zeros (str "." ++ fmt_0d ndigits frac).

(** [Time]: microseconds since midnight. *)
Definition Time_String (t : Z) : bytes :=
  let us := t in
  let '(h, us) := (Z.quot us 3600000000, Z.rem us 3600000000) in
  let '(m, us) := (Z.quot us 60000000, Z.rem us 60000000) in
  let '(s, us) := (Z.quot us 1000000, Z.rem us 1000000) in
  fmt_0d 2 h ++ str ":" ++ fmt_0d 2 m ++ str ":" ++ fmt_0d 2 s ++ fracString us 6.

(** [Duration]: int64 nanoseconds. *)
Definition Time_Duration (t : Z) : Z := i64 (t * 1000).
Definition TimeNS_Duration (t : Z) : Z := t.

Definition TimeNS_String (t : Z) : bytes :=
  let ns := t in
  let '(h, ns) := (Z.quot ns 3600000000000, Z.rem ns 3600000000000) in
  let '(m, ns) := (Z.quot ns 60000000000, Z.rem ns 60000000000) in
  let '(s, ns) := (Z.quot ns 1000000000, Z.rem ns 1000000000) in
  fmt_0d 2 h ++ str ":" ++ fmt_0d 2 m ++ str ":" ++ fmt_0d 2 s ++ fracString ns 9.

Record TimeTZ := MkTimeTZ { Micros : Z; Offset : Z }.

Definition TimeTZ_String (t : TimeTZ) : bytes :=
  let s := Time_String (Micros t) in
  let off := Offset t in
  let '(sign, off) := if off <? 0 then (str "-", i32 (- off)) else (str "+", off) in
  let s := s ++ sign ++ fmt_0d 2 (Z.quot off 3600) in
  let mm := Z.rem (Z.quot off 60) 60 in
  let s := if negb (mm =? 0) then s ++ str ":" ++ fmt_0d 2 mm else s in
  let ss := Z.rem off 60 in
  if negb (ss =? 0) then s ++ str ":" ++ fmt_0d 2 ss else s.

Record Interval := MkInterval { Months : Z; Days : Z; IMicros : Z }.

(** The closure [part] of [Interval.String]. *)
Definition interval_part (s : bytes) (v : Z) (unit : bytes) : bytes :=
  if v =? 0 then s
  else
    let s := match s with [] => s | _ => s ++ str " " end in
    let s := s ++ itoa v ++ str " " ++ unit in
    if negb (v =? 1) && negb (v =? -1) then s ++ str "s" else s.

Definition Interval_String (iv : Interval) : bytes :=
  let s := interval_part [] (Z.quot (Months iv) 12) (str "year") in
  let s := interval_part s (Z.rem (Months iv) 12) (str "month") in
  let s := interval_part s (Days iv) (str "day") in
  if IMicros iv =? 0 then match s with [] => str "00:00:00" | _ => s end
  else
    let s := match s with [] => s | _ => s ++ str " " end in
    let us := IMicros iv in
    let '(s, us) := if us <? 0 then (s ++ str "-", i64 (- us)) else (s, us) in
    let '(h, us) := (Z.quot us 3600000000, Z.rem us 3600000000) in
    let '(m, us) := (Z.quot us 60000000, Z.rem us 60000000) in
    let '(sec, us) := (Z.quot us 1000000, Z.rem us 1000000) in
    s ++ fmt_0d 2 h ++ str ":" ++ fmt_0d 2 m ++ str ":" ++ fmt_0d 2 sec ++ fracString us 6.

(** A [UUID] is its sixteen bytes. *)
Definition hexdig (d : Z) : byte := nth (Z.to_nat d) (str "0123456789abcdef") Byte.x00.

Definition UUID_String (u : bytes) : bytes :=
  concat (imap (fun i b =>
    (if is_one_of (Z.of_nat i) [4; 6; 8; 10] then str "-" else []) ++
    [hexdig (Z.shiftr (ub b) 4); hexdig (Z.land (ub b) 15)]) u).

(** ** Instants *)

Record time := MkTime { t_sec : Z; t_nsec : Z }.

(** [time.Unix] with its normalisation of the nanoseconds, and the
    conversions of package time built on it. *)
Definition time_Unix (sec nsec : Z) : time :=
  if (nsec <? 0) || (1000000000 <=? nsec) then
    let n := Z.quot nsec 1000000000 in
    let sec := i64 (sec + n) in
    let nsec := nsec - n * 1000000000 in
    if nsec <? 0 then MkTime (i64 (sec - 1)) (nsec + 1000000000) else MkTime sec nsec
  else MkTime sec nsec.

Definition time_UnixMilli (v : Z) : time := time_Unix (Z.quot v 1000) (Z.rem v 1000 * 1000000).
Definition time_UnixMicro (v : Z) : time := time_Unix (Z.quot v 1000000) (Z.rem v 1000000 * 1000).

(** The methods [Unix], [UnixMilli], [UnixMicro] and [UnixNano]. *)
Definition Unix (t : time) : Z := t_sec t.
Definition UnixMilli (t : time) : Z := i64 (t_sec t * 1000 + Z.quot (t_nsec t) 1000000).
Definition UnixMicro (t : time) : Z := i64 (t_sec t * 1000000 + Z.quot (t_nsec t) 1000).
Definition UnixNano (t : time) : Z := i64 (t_sec t * 1000000000 + t_nsec t).

Definition dateValue (days : Z) : time := time_Unix (days * 86400) 0.

Definition timestampValue (id v : Z) : time :=
  if id =? TypeTimestampSec then time_Unix v 0
  else if id =? TypeTimestampMS then time_UnixMilli v
  else if id =? TypeTimestampNS then
    time_Unix (Z.quot v 1000000000) (Z.rem v 1000000000)
  else time_UnixMicro v.

(** ** The dynamic types of decoded cells *)

Inductive any : Type :=
  | VNil
  | VBool (b : bool)
  | VInt8 (z : Z) | VInt16 (z : Z) | VInt32 (z : Z) | VInt64 (z : Z)
  | VUint8 (z : Z) | VUint16 (z : Z) | VUint32 (z : Z) | VUint64 (z : Z)
  | VFloat32 (bits : Z) | VFloat64 (bits : Z)
  | VString (s : bytes)
  | VBytes (b : bytes)
  | VBigInt (z : Z)
  | VDecimal (d : Decimal)
  | VInstant (t : time)
  | VTime (t : Z)
  | VTimeNS (t : Z)
  | VTimeTZ (t : TimeTZ)
  | VInterval (iv : Interval)
  | VUUID (u : bytes)
  | VSlice (l : list any)
  | VStruct (s : list StructEntry)
  | VMap (l : list MapEntry)
with StructEntry : Type :=
  | MkEntry (EName : bytes) (EValue : any)
with MapEntry : Type :=
  | MkMapEntry (Key Value : any).

Definition EName (e : StructEntry) : bytes := let '(MkEntry n _) := e in n.
Definition EValue (e : StructEntry) : any := let '(MkEntry _ v) := e in v.
Definition Key (e : MapEntry) : any := let '(MkMapEntry k _) := e in k.
Definition Value (e : MapEntry) : any := let '(MkMapEntry _ v) := e in v.

(** [Struct.Field]: the first field of that name. *)
Fixpoint Field (s : list StructEntry) (name : bytes) : option any :=
  match s with
  | [] => None
  | e :: s => if bool_decide (EName e = name) then Some (EValue e) else Field s name
  end.

(** ** Rendering *)

Lemma time_checks :
  Time_String 45015000000 = str "12:30:15" /\ Time_String 45015500000 = str "12:30:15.5" /\
  Interval_String (MkInterval 14 3 4500000) = str "1 year 2 months 3 days 00:00:04.5" /\
  Interval_String (MkInterval (-26) 0 (-3600000001)) = str "-2 years -2 months -01:00:00.000001" /\
  TimeTZ_String (MkTimeTZ 0 (-5400)) = str "00:00:00-01:30" /\
  Decimal_String (NewDecimal 10 2 (-5)) = str "-0.05".
Proof. by vm_compute. Qed.
