(* ===== verification/ValuesFacts.v ===== *)
(** * codec/values.go: what the accessors and renderings keep

    A decimal is the number it was built from, as an integer, a fraction and a
    numeral; a time of day is read back from its text. *)

From S2P Require Import Prelude Qser LogicalType GoFmt Values.

(** ** Decimals *)

Lemma NewDecimal_BigInt w s u : in_s 128 u -> BigInt (NewDecimal w s u) = u.
Proof.
  intros Hu. unfold in_s in Hu. change (2 ^ (128 - 1)) with (2 ^ 127) in Hu.
  unfold NewDecimal, BigInt, newDecimal, int128Big. cbv zeta. cbn [hi lo]. change (Z.shiftl 1 128) with (2 ^ 128).
  set (b := if u <? 0 then u + 2 ^ 128 else u).
  assert (Hb : 0 <= b < 2 ^ 128 /\ (b = u \/ b = u + 2 ^ 128) /\ (b < 2 ^ 127 <-> 0 <= u))
    by (unfold b; destruct (Z.ltb_spec u 0); lia).
  clearbody b. destruct Hb as (Hb & Hbu & Hs). rewrite Z.shiftl_mul_pow2 by lia.
  rewrite (Z.abs_eq (Z.shiftr b 64)) by (apply Z.shiftr_nonneg; lia). rewrite (Z.abs_eq b) by lia.
  rewrite Z.shiftr_div_pow2 by lia.
  assert (Hq : 0 <= b / 2 ^ 64 < 2 ^ 64) by (split; [apply Z.div_pos; lia|apply Z.div_lt_upper_bound; lia]).
  rewrite (uwrap_small 64 (b / 2 ^ 64)) by done. unfold uwrap.
  pose proof (Z.div_mod b (2 ^ 64) ltac:(lia)) as Hdm. pose proof (Z.mod_pos_bound b (2 ^ 64) ltac:(lia)) as Hm.
  set (q := b / 2 ^ 64) in *. set (m := b mod 2 ^ 64) in *. clearbody q m.
  assert (Hsmall : forall x, - 2 ^ 63 <= x < 2 ^ 63 -> i64 x = x) by (intros; by apply swrap_small).
  destruct (Z.lt_ge_cases q (2 ^ 63)).
  - rewrite Hsmall by lia. lia.
  - replace q with ((q - 2 ^ 64) + 1 * 2 ^ 64) by lia. rewrite swrap_shift, Hsmall by lia. lia.
Qed.

Lemma Rat_exact d : 0 <= DScale d ->
  let '(num, den) := Rat d in 0 < den /\ Z.gcd num den = 1 /\ num * 10 ^ DScale d = BigInt d * den.
Proof.
  intros Hs. unfold Rat. set (v := BigInt d). set (D := 10 ^ DScale d).
  assert (HD : 0 < D) by (apply Z.pow_pos_nonneg; lia).
  assert (Hg : 0 < Z.gcd v D) by (pose proof (Z.gcd_nonneg v D); destruct (Z.eq_dec (Z.gcd v D) 0) as [E|]; [apply Z.gcd_eq_0_r in E|]; lia).
  destruct (Z.gcd_divide_l v D) as [a Ha]. destruct (Z.gcd_divide_r v D) as [b Hb].
  set (g := Z.gcd v D) in *. assert (E1 : v / g = a) by (rewrite Ha; apply Z.div_mul; lia).
  assert (E2 : D / g = b) by (rewrite Hb; apply Z.div_mul; lia). rewrite E1, E2. split; [nia|]. split; [|rewrite Ha, Hb at 1; ring].
  rewrite <- E1, <- E2. apply Z.gcd_div_gcd; [lia|done].
Qed.

(** ** Times of day *)

Lemma fmt_0d_reads w z : (0 < w)%nat -> 0 <= z < 10 ^ Z.of_nat w ->
  length (fmt_0d w z) = w /\ forallb is_digit (fmt_0d w z) = true /\ dec_value (fmt_0d w z) = z.
Proof.
  intros Hw Hz. unfold fmt_0d. rewrite (proj2 (Z.ltb_ge _ _)) by lia.
  destruct (digits_spec z ltac:(lia)) as (Hv & _ & Hd). pose proof (length_digits z w Hw Hz).
  rewrite length_pad0, forallb_pad0, dec_value_pad0. split; [lia|]. by split.
Qed.

Lemma trim_zeros_spec s : exists k, s = trim_zeros s ++ replicate k (bz 48) /\
  (forall b, last (trim_zeros s) = Some b -> ub b <> 48).
Proof.
  induction s as [|b s (k & E & Hl)]; [by exists 0%nat|]. cbn [trim_zeros].
  destruct (trim_zeros s) as [|c s'] eqn:Et.
  - destruct (Z.eqb_spec (ub b) 48) as [Hb|Hb].
    + exists (S k). split; [|done]. cbn [app] in E |- *. rewrite E. cbn [replicate]. f_equal.
      apply ub_inj. by rewrite Hb.
    + exists k. cbn [app] in E |- *. split; [by rewrite E|]. by intros b' [= <-].
  - exists k. split; [cbn [app] in *; by rewrite E|exact Hl].
Qed.

(** The fraction of a second with its trailing zeros dropped: [n] digits would
    read as [frac]. *)
Definition fraction_reads (s : bytes) (n : nat) (frac : Z) : Prop :=
  (frac = 0 /\ s = []) \/
  (exists f, s = str "." ++ f /\ f <> [] /\ forallb is_digit f = true /\ (length f <= n)%nat /\
     (forall b, last f = Some b -> ub b <> 48) /\ dec_value f * 10 ^ Z.of_nat (n - length f) = frac).

Lemma dec_value_replicate f k : dec_value (f ++ replicate k (bz 48)) = dec_value f * 10 ^ Z.of_nat k.
Proof.
  rewrite dec_value_app, length_replicate. rewrite <- (app_nil_r (replicate k (bz 48))), dec_value_zeros.
  cbn. lia.
Qed.

Lemma fracString_reads frac n : (0 < n)%nat -> 0 <= frac < 10 ^ Z.of_nat n -> fraction_reads (fracString frac n) n frac.
Proof.
  intros Hn Hf. unfold fracString. destruct (Z.eqb_spec frac 0) as [->|Hne]; [by left|right].
  destruct (fmt_0d_reads n frac Hn Hf) as (Hl & Hd & Hv). set (s := fmt_0d n frac) in *.
  destruct (trim_zeros_spec s) as (k & E & Hlast). exists (trim_zeros s).
  assert (Hne' : trim_zeros s <> []).
  { intros E0. rewrite E0 in E. cbn [app] in E. rewrite E in Hv.
    rewrite <- (app_nil_r (replicate k (bz 48))), dec_value_zeros in Hv. by cbn in Hv. }
  split; [|split; [done|]].
  - change (str "." ++ s) with (bz 46 :: s). cbn [trim_zeros]. by destruct (trim_zeros s).
  - pose proof E as E'. apply (f_equal length) in E'. rewrite length_app, length_replicate, Hl in E'.
    rewrite E, forallb_app in Hd. apply andb_true_iff in Hd as [Hd _].
    split; [done|]. split; [lia|]. split; [done|]. rewrite E, dec_value_replicate in Hv. rewrite <- Hv. do 2 f_equal. lia.
Qed.

(** [s] is a time of day as HH:MM:SS and a fraction, [t] units of which [10^n]
    make a second. *)
Definition clock_reads (s : bytes) (n : nat) (t : Z) : Prop :=
  exists h m sec f frac, s = h ++ str ":" ++ m ++ str ":" ++ sec ++ f /\
    (length h = 2 /\ length m = 2 /\ length sec = 2)%nat /\
    forallb is_digit (h ++ m ++ sec) = true /\ dec_value m < 60 /\ dec_value sec < 60 /\ fraction_reads f n frac /\
    t = ((dec_value h * 60 + dec_value m) * 60 + dec_value sec) * 10 ^ Z.of_nat n + frac.

(** The three quotients of the [String] methods, for a time within a day. *)
Lemma clock_text_reads n t : (0 < n)%nat -> 0 <= t < 86400 * 10 ^ Z.of_nat n ->
  let u := 10 ^ Z.of_nat n in
  let '(h, x) := (Z.quot t (3600 * u), Z.rem t (3600 * u)) in
  let '(m, y) := (Z.quot x (60 * u), Z.rem x (60 * u)) in
  let '(s, z) := (Z.quot y u, Z.rem y u) in
  clock_reads (fmt_0d 2 h ++ str ":" ++ fmt_0d 2 m ++ str ":" ++ fmt_0d 2 s ++ fracString z n) n t.
Proof.
  intros Hn Ht. cbv zeta beta iota. set (u := 10 ^ Z.of_nat n) in *.
  assert (Hu : 0 < u) by (apply Z.pow_pos_nonneg; lia).
  pose proof (Z.quot_rem t (3600 * u) ltac:(lia)) as E1. pose proof (Z.rem_bound_pos t (3600 * u) ltac:(lia) ltac:(lia)) as B1.
  set (h := Z.quot t _) in *. set (x := Z.rem t _) in *.
  pose proof (Z.quot_rem x (60 * u) ltac:(lia)) as E2. pose proof (Z.rem_bound_pos x (60 * u) ltac:(lia) ltac:(lia)) as B2.
  set (m := Z.quot x _) in *. set (y := Z.rem x _) in *.
  pose proof (Z.quot_rem y u ltac:(lia)) as E3. pose proof (Z.rem_bound_pos y u ltac:(lia) ltac:(lia)) as B3.
  set (s := Z.quot y _) in *. set (z := Z.rem y _) in *. clearbody h x m y s z.
  assert (Hh : 0 <= h < 24) by nia. assert (Hm : 0 <= m < 60) by nia. assert (Hs : 0 <= s < 60) by nia.
  destruct (fmt_0d_reads 2 h) as (Lh & Dh & Vh); [lia|change (10 ^ Z.of_nat 2) with 100; lia|].
  destruct (fmt_0d_reads 2 m) as (Lm & Dm & Vm); [lia|change (10 ^ Z.of_nat 2) with 100; lia|].
  destruct (fmt_0d_reads 2 s) as (Ls & Ds & Vs); [lia|change (10 ^ Z.of_nat 2) with 100; lia|].
  exists (fmt_0d 2 h), (fmt_0d 2 m), (fmt_0d 2 s), (fracString z n), z. split; [done|]. split; [done|].
  split; [by rewrite !forallb_app, Dh, Dm, Ds|]. rewrite Vh, Vm, Vs. split; [lia|]. split; [lia|].
  split; [by apply fracString_reads|]. fold u. nia.
Qed.

(** C21: the values of scalar columns keep what they hold.  A DECIMAL built from
    a 128-bit integer gives that integer back, and its fraction is that integer
    over the power of ten of its scale, in lowest terms; a TIME or TIME_NS
    within a day is read back exactly from its text, which has two digits for
    each of hours, minutes and seconds and no trailing zero; and its duration is
    exact, where [Duration] of a TIME wraps outside of plus or minus 292 years. *)
Theorem values_exact :
  (forall w s u, in_s 128 u -> BigInt (NewDecimal w s u) = u) /\
  (forall d, 0 <= DScale d ->
     let '(num, den) := Rat d in 0 < den /\ Z.gcd num den = 1 /\ num * 10 ^ DScale d = BigInt d * den) /\
  (forall t, 0 <= t < 86400 * 10 ^ 6 -> clock_reads (Time_String t) 6 t) /\
  (forall t, 0 <= t < 86400 * 10 ^ 9 -> clock_reads (TimeNS_String t) 9 t) /\
  (forall t, Time_Duration t = t * 1000 <-> in_s 64 (t * 1000)).
Proof.
  split; [apply NewDecimal_BigInt|]. split; [apply Rat_exact|]. split; [|split].
  - intros t Ht. exact (clock_text_reads 6 t ltac:(lia) Ht).
  - intros t Ht. exact (clock_text_reads 9 t ltac:(lia) Ht).
  - intros t. unfold Time_Duration. split; [intros <-; by apply swrap_in|by apply swrap_small].
Qed.
