(* ===== verification/Vector.v ===== *)
(** * codec/chunk.go: vectors

    [decodeVector] and [decodeFlatVector] with every guard, in the order of the
    source; index expressions and slice expressions that Go would panic on are
    [Panic].  A decoded vector is [Some] of its values, [None] standing for the
    nil slice the source returns on the paths that produce no values. *)

From S2P Require Import Prelude Qser LogicalType Values.

Definition vecFlat : Z := 0.
Definition vecConstant : Z := 2.
Definition vecDictionary : Z := 3.
Definition vecSequence : Z := 4.

Definition maxChunkRows : Z := 2 ^ 16.
Definition maxVectorRows : Z := 2 ^ 24.

Definition isUnsupported (e : cerr) : bool :=
  match e with ErrUnsupportedType _ => true | _ => false end.

(** [return nil, unsupportedButParsed(r, t)]. *)
Definition unsupportedButParsed {A} (t : LogicalType) : D cerr A :=
  let* e := Reader.Err in
  match e with
  | Some e => dfail (EQser e)
  | None => dfail (ErrUnsupportedType t)
  end.

(** ** Indexing *)

(** [l[i]]. *)
Definition index {A} (l : list A) (i : nat) : outcome cerr A :=
  match l !! i with Some a => Ok a | None => Panic end.

(** [l[a:b]]. *)
Definition slice {A} (l : list A) (a b : nat) : outcome cerr (list A) :=
  if (a <=? b)%nat && (b <=? length l)%nat then Ok (take (b - a) (drop a l)) else Panic.

(** [binary.LittleEndian.UintN(l)] with [n] bytes. *)
Definition le_uint (n : nat) (l : bytes) : outcome cerr Z :=
  if (length l <? n)%nat then Panic else Ok (le_int (take n l)).

(** A pure loop over [l] that can fail. *)
Fixpoint omapM {A B} (f : A -> outcome cerr B) (l : list A) : outcome cerr (list B) :=
  match l with
  | [] => Ok []
  | x :: l => let! y := f x in let! ys := omapM f l in Ok (y :: ys)
  end.

(** [valid(validity, row)]; a nil mask says every row is valid. *)
Definition valid (validity : option bytes) (row : nat) : outcome cerr bool :=
  match validity with
  | None => Ok true
  | Some mask =>
      let! b := index mask (row / 8) in
      Ok (negb (Z.land (ub b) (Z.shiftl 1 (Z.of_nat (row mod 8))) =? 0))
  end.

(** [for i := range count { if !valid(validity, i) { continue }; vals[i] = cell(i) }]
    over a slice of nils. *)
Definition fill (validity : option bytes) (count : Z) (cell : nat -> outcome cerr any)
  : outcome cerr (list any) :=
  omapM (fun i => let! ok := valid validity i in if ok then cell i else Ok VNil)
        (seq 0 (Z.to_nat count)).

(** ** Cells *)

Definition timeTZMaxOffset : Z := 16 * 60 * 60 - 1.

(** The bits of one data byte from position [start], MSB first. *)
Definition bit_chars (by_ : byte) (start : nat) : bytes :=
  (fun bit => bz (48 + Z.land (Z.shiftr (ub by_) (7 - Z.of_nat bit)) 1)) <$> seq start (8 - start).

Definition bitString (b : bytes) : outcome cerr bytes :=
  match b with
  | [] => Err (EBit 0 0)
  | p :: rest =>
      let padding := ub p in
      if (7 <? padding) || ((length b =? 1)%nat && negb (padding =? 0))
      then Err (EBit padding (Z.of_nat (length b) - 1))
      else if (length b =? 1)%nat then Ok []
      else Ok (concat (imap (fun i by_ =>
                 bit_chars by_ (if (i =? 0)%nat then Z.to_nat padding else 0)) rest))
  end.

Definition physicalWidth (t : LogicalType) : Z :=
  if is_one_of (ID t) [TypeBoolean; TypeTinyint; TypeUTinyint] then 1
  else if is_one_of (ID t) [TypeSmallint; TypeUSmallint] then 2
  else if is_one_of (ID t) [TypeInteger; TypeUInteger; TypeFloat; TypeDate] then 4
  else if is_one_of (ID t) [TypeBigint; TypeUBigint; TypeDouble; TypeTime; TypeTimeTZ; TypeTimeNS;
            TypeTimestampSec; TypeTimestampMS; TypeTimestamp; TypeTimestampNS; TypeTimestampTZ] then 8
  else if is_one_of (ID t) [TypeInterval; TypeHugeint; TypeUHugeint; TypeUUID] then 16
  else if ID t =? TypeDecimal then
    if Width t <=? 4 then 2 else if Width t <=? 9 then 4 else if Width t <=? 18 then 8 else 16
  else if ID t =? TypeEnum then enumIndexWidth (Z.of_nat (length (Enum t)))
  else 0.

Definition supportedScalar (t : LogicalType) : bool :=
  is_one_of (ID t) [TypeBoolean; TypeTinyint; TypeUTinyint; TypeSmallint; TypeUSmallint;
    TypeInteger; TypeUInteger; TypeBigint; TypeUBigint;
    TypeFloat; TypeDouble; TypeDecimal; TypeDate; TypeTime;
    TypeTimestampSec; TypeTimestampMS; TypeTimestamp; TypeTimestampNS; TypeTimestampTZ;
    TypeEnum; TypeHugeint; TypeUHugeint; TypeUUID; TypeInterval; TypeTimeTZ; TypeTimeNS].

Definition decodeDecimalCell (t : LogicalType) (cell : bytes) : outcome cerr Decimal :=
  let widen v := newDecimal (Width t) (Scale t) (Z.shiftr v 63) (u64 v) in
  if (length cell =? 2)%nat then
    let! u := le_uint 2 cell in Ok (widen (i16 u))
  else if (length cell =? 4)%nat then
    let! u := le_uint 4 cell in Ok (widen (i32 u))
  else if (length cell =? 8)%nat then
    let! u := le_uint 8 cell in Ok (widen (i64 u))
  else
    let! l := slice cell 0 8 in
    let! lo := le_uint 8 l in
    let! h := slice cell 8 (length cell) in
    let! hi := le_uint 8 h in
    Ok (newDecimal (Width t) (Scale t) (i64 hi) lo).

(** [PutUint64(u[:8], hi); PutUint64(u[8:], lo)], big-endian. *)
Definition be_halves (hi lo : Z) : bytes := rev (le_bytes 8 hi) ++ rev (le_bytes 8 lo).

Definition decodeCell (t : LogicalType) (cell : bytes) : outcome cerr any :=
  let id := ID t in
  if id =? TypeBoolean then let! b := index cell 0 in Ok (VBool (negb (ub b =? 0)))
  else if id =? TypeTinyint then let! b := index cell 0 in Ok (VInt8 (i8 (ub b)))
  else if id =? TypeUTinyint then let! b := index cell 0 in Ok (VUint8 (ub b))
  else if id =? TypeSmallint then let! u := le_uint 2 cell in Ok (VInt16 (i16 u))
  else if id =? TypeUSmallint then let! u := le_uint 2 cell in Ok (VUint16 u)
  else if id =? TypeInteger then let! u := le_uint 4 cell in Ok (VInt32 (i32 u))
  else if id =? TypeUInteger then let! u := le_uint 4 cell in Ok (VUint32 u)
  else if id =? TypeBigint then let! u := le_uint 8 cell in Ok (VInt64 (i64 u))
  else if id =? TypeUBigint then let! u := le_uint 8 cell in Ok (VUint64 u)
  else if id =? TypeFloat then let! u := le_uint 4 cell in Ok (VFloat32 u)
  else if id =? TypeDouble then let! u := le_uint 8 cell in Ok (VFloat64 u)
  else if id =? TypeDate then let! u := le_uint 4 cell in Ok (VInstant (dateValue (i32 u)))
  else if id =? TypeTime then let! u := le_uint 8 cell in Ok (VTime (i64 u))
  else if is_one_of id [TypeTimestampSec; TypeTimestampMS; TypeTimestamp; TypeTimestampNS;
                        TypeTimestampTZ] then
    let! u := le_uint 8 cell in Ok (VInstant (timestampValue id (i64 u)))
  else if id =? TypeDecimal then let! d := decodeDecimalCell t cell in Ok (VDecimal d)
  else if id =? TypeHugeint then
    let! h := slice cell 8 (length cell) in
    let! hi := le_uint 8 h in
    let! l := slice cell 0 8 in
    let! lo := le_uint 8 l in
    Ok (VBigInt (int128Big (i64 hi) lo))
  else if id =? TypeUHugeint then
    let! h := slice cell 8 (length cell) in
    let! hi := le_uint 8 h in
    let! l := slice cell 0 8 in
    let! lo := le_uint 8 l in
    Ok (VBigInt (uint128Big hi lo))
  else if id =? TypeUUID then
    let! h := slice cell 8 (length cell) in
    let! hi := le_uint 8 h in
    let! l := slice cell 0 8 in
    let! lo := le_uint 8 l in
    Ok (VUUID (be_halves (Z.lxor hi (2 ^ 63)) lo))
  else if id =? TypeInterval then
    let! m := le_uint 4 cell in
    let! dl := slice cell 4 (length cell) in
    let! d := le_uint 4 dl in
    let! ul := slice cell 8 (length cell) in
    let! u := le_uint 8 ul in
    Ok (VInterval (MkInterval (i32 m) (i32 d) (i64 u)))
  else if id =? TypeTimeTZ then
    let! bits := le_uint 8 cell in
    Ok (VTimeTZ (MkTimeTZ (i64 (Z.shiftr bits 24))
                          (i32 (timeTZMaxOffset - i32 (Z.land bits 0xFFFFFF)))))
  else if id =? TypeTimeNS then let! u := le_uint 8 cell in Ok (VTimeNS (i64 u))
  else if id =? TypeEnum then
    let! idx :=
      (if (length cell =? 1)%nat then let! b := index cell 0 in Ok (ub b)
       else if (length cell =? 2)%nat then le_uint 2 cell
       else le_uint 4 cell) in
    if Z.of_nat (length (Enum t)) <=? idx
    then Err (EEnumIndex idx (Z.of_nat (length (Enum t))))
    else let! s := index (Enum t) (Z.to_nat idx) in Ok (VString s)
  else Err (ErrUnsupportedType t).

Definition sequenceValue (id v : Z) : outcome cerr any :=
  if id =? TypeTinyint then Ok (VInt8 (i8 v))
  else if id =? TypeSmallint then Ok (VInt16 (i16 v))
  else if id =? TypeInteger then Ok (VInt32 (i32 v))
  else if id =? TypeBigint then Ok (VInt64 v)
  else if id =? TypeUTinyint then Ok (VUint8 (u8 v))
  else if id =? TypeUSmallint then Ok (VUint16 (u16 v))
  else if id =? TypeUInteger then Ok (VUint32 (u32 v))
  else if id =? TypeUBigint then Ok (VUint64 (u64 v))
  else Err (ESequenceType id).

(** ** Flat vectors *)

(** The arguments of a recursive [decodeVector] call: type and row count. *)
Definition child_decoder : Type := LogicalType -> Z -> D cerr (option (list any)).

Definition flatVariable (t : LogicalType) (count : Z) (validity : option bytes)
    (unsupported : bool) : D cerr (option (list any)) :=
  let unsupported := unsupported || (ID t =? TypeGeometry) in
  let* p := Reader.TryField 102 in
  if negb p then dfail (EMissingField "vector data")
  else
    let* n := Reader.ListCount in
    if negb (n =? count) then dfail (ECount "entries for rows" n count)
    else
      let? vals := dmap (fun i =>
          let* b := Reader.Bytes in
          dlift (let! ok := valid validity i in
                 if negb ok || unsupported then Ok VNil
                 else if ID t =? TypeVarchar then Ok (VString b)
                 else if ID t =? TypeBit then let! s := bitString b in Ok (VString s)
                 else Ok (VBytes b)))
        (seq 0 (Z.to_nat count)) in
      if unsupported then unsupportedButParsed t else finish (Some vals).

(** One child of a STRUCT: its values (nil when the codec has none for it), and
    whether it was unsupported. *)
Definition structChild (child : child_decoder) (count : Z) (f : StructField)
  : D cerr (option (list any) * bool) :=
  let* o := child (Type_ f) count in
  match o with
  | Ok vals => let* _ := Reader.End_ in dret (vals, false)
  | Err e => if isUnsupported e then let* _ := Reader.End_ in dret (None, true)
             else dfail e
  | Panic => dpanic
  end.

Definition structRow (fields : list StructField) (children : list (option (list any))) (row : nat)
  : outcome cerr any :=
  let! s := omapM (fun '(f, vals) =>
      let! v := index (default [] vals) row in Ok (MkEntry (Name f) v))
    (zip fields children) in
  Ok (VStruct s).

Definition flatStruct (child : child_decoder) (t : LogicalType) (count : Z)
    (validity : option bytes) (unsupported : bool) : D cerr (option (list any)) :=
  let* p := Reader.TryField 103 in
  if negb p then dfail (EMissingField "vector children")
  else
    let* n := Reader.ListCount in
    if negb (n =? Z.of_nat (length (Fields t)))
    then dfail (ECount "children for fields" n (Z.of_nat (length (Fields t))))
    else
      let? children := dmap (structChild child count) (Fields t) in
      let unsupported := unsupported || existsb snd children in
      if unsupported || negb (ID t =? TypeStruct) then unsupportedButParsed t
      else
        let? vals := dlift (fill validity count (structRow (Fields t) (fst <$> children))) in
        finish (Some vals).

(** After the child of a LIST, MAP or ARRAY: an unsupported child is reported
    as its own error once the terminator is read. *)
Definition childValues (o : outcome cerr (option (list any))) (unsupported : bool)
    (t : LogicalType) : D cerr (list any) :=
  match o with
  | Panic => dpanic
  | Err e =>
      if negb (isUnsupported e) then dfail e
      else
        let* _ := Reader.End_ in
        if unsupported then unsupportedButParsed t
        else
          let* q := Reader.Err in
          match q with Some q => dfail (EQser q) | None => dfail e end
  | Ok vals =>
      let* _ := Reader.End_ in
      if unsupported then unsupportedButParsed t else dret (default [] vals)
  end.

Definition mapEntry (v : any) : MapEntry :=
  match v with
  | VStruct [k; v] => MkMapEntry (EValue k) (EValue v)
  | _ => MkMapEntry VNil VNil
  end.

Definition listRow (t : LogicalType) (entries : list (Z * Z)) (childVals : list any)
    (listSize : Z) (i : nat) : outcome cerr any :=
  let! (off, ln) := index entries i in
  if (listSize <? ln) || (listSize - ln <? off) then Err (EListEntry off ln listSize)
  else
    let! row := slice childVals (Z.to_nat off) (Z.to_nat (off + ln)) in
    if ID t =? TypeMap then Ok (VMap (mapEntry <$> row)) else Ok (VSlice row).

Definition listEntry : M (Z * Z) :=
  let* off := optField 100 Reader.Uvarint 0 in
  let* ln := optField 101 Reader.Uvarint 0 in
  let* _ := Reader.End_ in
  ret (off, ln).

Definition flatList (child : child_decoder) (t : LogicalType) (count : Z)
    (validity : option bytes) (unsupported : bool) : D cerr (option (list any)) :=
  let* p := Reader.TryField 104 in
  if negb p then dfail (EMissingField "list size")
  else
    let* listSize := Reader.Uvarint in
    if maxVectorRows <? listSize then dfail (EImplausible "list size" listSize)
    else
      let* p := Reader.TryField 105 in
      if negb p then dfail (EMissingField "list entries")
      else
        let* n := Reader.ListCount in
        if negb (n =? count) then dfail (ECount "entries for rows" n count)
        else
          let* entries := mrepeat (Z.to_nat n) listEntry in
          let* p := Reader.TryField 106 in
          if negb p then dfail (EMissingField "list child")
          else match Child t with
          | None => dfail (EVectorNoChild t)
          | Some ct =>
              let* o := child ct listSize in
              let? childVals := childValues o unsupported t in
              let? vals := dlift (fill validity count (listRow t entries childVals listSize)) in
              finish (Some vals)
          end.

(** [row := make([]any, size); copy(row, childVals[i*int(size):])]. *)
Definition arrayRow (childVals : list any) (size : Z) (i : nat) : outcome cerr any :=
  let! tail := slice childVals (i * Z.to_nat size) (length childVals) in
  let got := take (Z.to_nat size) tail in
  Ok (VSlice (got ++ replicate (Z.to_nat size - length got) VNil)).

Definition flatArray (child : child_decoder) (t : LogicalType) (count : Z)
    (validity : option bytes) (unsupported : bool) : D cerr (option (list any)) :=
  let* p := Reader.TryField 103 in
  if negb p then dfail (EMissingField "array size")
  else
    let* size := Reader.Uvarint in
    if (maxVectorRows <? size) || (maxVectorRows <? i64 (i64 size * count))
    then dfail (EImplausible "array size" size)
    else
      let* p := Reader.TryField 104 in
      if negb p then dfail (EMissingField "array child")
      else match Child t with
      | None => dfail (EVectorNoChild t)
      | Some ct =>
          let* o := child ct (i64 (i64 size * count)) in
          let? childVals := childValues o unsupported t in
          let? vals := dlift (fill validity count (arrayRow childVals size)) in
          finish (Some vals)
      end.

Definition flatFixed (t : LogicalType) (count : Z) (validity : option bytes)
    (unsupported : bool) : D cerr (option (list any)) :=
  let w := physicalWidth t in
  if w =? 0 then
    let* _ := optField 102 Reader.Bytes [] in
    unsupportedButParsed t
  else
    let* p := Reader.TryField 102 in
    if negb p then dfail (EMissingField "vector data")
    else
      let* data := Reader.Bytes in
      if Z.of_nat (length data) <? count * w
      then dfail (ECount "data bytes for rows" (Z.of_nat (length data)) count)
      else if unsupported || negb (supportedScalar t) then unsupportedButParsed t
      else
        let? vals := dlift (fill validity count (fun i =>
            let! cell := slice data (i * Z.to_nat w) ((i + 1) * Z.to_nat w) in
            decodeCell t cell)) in
        finish (Some vals).

(** The validity mask: present when the vector says it has nulls. *)
Definition decodeValidity (count : Z) : D cerr (option bytes) :=
  let* hasNulls := Reader.Bool in
  if hasNulls then
    let* p := Reader.TryField 101 in
    if negb p then dfail (EMissingField "validity mask")
    else
      let* mask := Reader.Bytes in
      if Z.of_nat (length mask) <? Z.quot (count + 7) 8
      then dfail (ECount "mask bytes for rows" (Z.of_nat (length mask)) count)
      else dret (Some mask)
  else dret None.

(** [child] decodes one level deeper. *)
Definition decodeFlatVector (child : child_decoder) (t : LogicalType) (count : Z)
  : D cerr (option (list any)) :=
  let* g := Reader.TryField 99 in
  let* unsupported := (if g then let* _ := Reader.Uvarint in ret true else ret false) in
  let* p := Reader.TryField 100 in
  if negb p then dfail (EMissingField "validity flag")
  else
    let? validity := decodeValidity count in
    if is_one_of (ID t) [TypeVarchar; TypeBlob; TypeBit; TypeGeometry]
    then flatVariable t count validity unsupported
    else if is_one_of (ID t) [TypeStruct; TypeUnion; TypeVariant]
    then flatStruct child t count validity unsupported
    else if is_one_of (ID t) [TypeList; TypeMap] then flatList child t count validity unsupported
    else if ID t =? TypeArray then flatArray child t count validity unsupported
    else flatFixed t count validity unsupported.

(** ** Vector encodings *)

Definition decodeConstant (child : child_decoder) (t : LogicalType) (count : Z)
  : D cerr (option (list any)) :=
  let? vals := child t 1 in
  match default [] vals with
  | [] => dret None
  | v :: _ => dret (Some (replicate (Z.to_nat count) v))
  end.

Definition decodeDictionary (child : child_decoder) (t : LogicalType) (count : Z)
  : D cerr (option (list any)) :=
  let* p := Reader.TryField 91 in
  if negb p then dfail (EMissingField "dictionary selection")
  else
    let* sel := Reader.Bytes in
    if negb (Z.of_nat (length sel) =? count * 4)
    then dfail (ECount "selection bytes for rows" (Z.of_nat (length sel)) count)
    else
      let* p := Reader.TryField 92 in
      if negb p then dfail (EMissingField "dict count")
      else
        let* dictCount := Reader.Uvarint in
        if maxChunkRows <? dictCount then dfail (EImplausible "dictionary size" dictCount)
        else
          let? dict := child t dictCount in
          match dict with
          | None => dret None
          | Some dict =>
              let? out := dlift (omapM (fun i =>
                  let! s := slice sel (i * 4) (length sel) in
                  let! idx := le_uint 4 s in
                  if u32 (Z.of_nat (length dict)) <=? idx
                  then Err (EDictIndex idx (Z.of_nat (length dict)))
                  else index dict (Z.to_nat idx))
                (seq 0 (Z.to_nat count))) in
              dret (Some out)
          end.

Definition decodeSequence (t : LogicalType) (count : Z) : D cerr (option (list any)) :=
  let* p := Reader.TryField 91 in
  if negb p then dfail (EMissingField "sequence start")
  else
    let* start := Reader.Svarint in
    let* p := Reader.TryField 92 in
    if negb p then dfail (EMissingField "sequence increment")
    else
      let* inc := Reader.Svarint in
      let? out := dlift (omapM (fun i => sequenceValue (ID t) (i64 (start + i64 (Z.of_nat i * inc))))
                               (seq 0 (Z.to_nat count))) in
      dret (Some out).

(** [levels] is [S maxTypeDepth - depth]. *)
Fixpoint decodeVector (levels : nat) (t : LogicalType) (count : Z) : D cerr (option (list any)) :=
  match levels with
  | O => dfail EVectorTooDeep
  | S levels =>
      if maxVectorRows <? count then dfail (EVectorRows count)
      else
        let* vtype := optField 90 Reader.Uvarint vecFlat in
        if vtype =? vecFlat then decodeFlatVector (decodeVector levels) t count
        else if vtype =? vecConstant then decodeConstant (decodeVector levels) t count
        else if vtype =? vecDictionary then decodeDictionary (decodeVector levels) t count
        else if vtype =? vecSequence then decodeSequence t count
        else dfail (EVectorEncoding vtype)
  end.

(** [decodeVector(r, t, count, 0)]. *)
Definition decodeVector0 : child_decoder := decodeVector (S maxTypeDepth).
