(* ===== verification/Chunk.v ===== *)
(** * codec: chunks, result bodies and the codec registry

    chunk.go's [decodeChunkContents] and accessors, result.go's [DecodePrepare],
    [DecodeFetch] and [DecodeChunk], codec.go and versions.go. *)

From S2P Require Import Prelude Qser LogicalType Values Vector.

(** ** Data *)

Record SchemaColumn := MkSchemaColumn { SName : bytes; SType : LogicalType }.

(** [vals] holds one value per row; it is empty when [cerr_] is set. *)
Record Column := MkColumn { CType : LogicalType; vals : list any; cerr_ : option cerr }.

Record Chunk := MkChunk { rows : Z; cols : list Column }.

Definition RowCount (c : Chunk) : Z := rows c.
Definition ColumnCount (c : Chunk) : Z := Z.of_nat (length (cols c)).

(** [Chunk.Value]. *)
Definition Chunk_Value (c : Chunk) (col row : Z) : outcome cerr any :=
  if (col <? 0) || (Z.of_nat (length (cols c)) <=? col) || (row <? 0) || (rows c <=? row)
  then Err (EValueIndex col row)
  else
    let! cl := index (cols c) (Z.to_nat col) in
    match cerr_ cl with
    | Some e => Err e
    | None => index (vals cl) (Z.to_nat row)
    end.

Record PrepareResult := MkPrepareResult {
  Schema : list SchemaColumn;
  PChunks : list Chunk;
  NeedsMoreFetch : bool;
  ResultUUID : hugeint
}.

Record FetchResult := MkFetchResult { FChunks : list Chunk; BatchIndex : Z }.

Definition BatchIndexAbsent : Z := OptionalIdxAbsent.

(** ** Chunks *)

(** One column: a vector as a list element. *)
Definition decodeColumn (count : Z) (t : LogicalType) : D cerr Column :=
  let* o := decodeVector0 t count in
  let? col := (match o with
               | Ok vals => dret (MkColumn t (default [] vals) None)
               | Err e => if isUnsupported e then dret (MkColumn t [] (Some e))
                          else dfail (EColumn t e)
               | Panic => dpanic
               end) in
  let* _ := Reader.End_ in
  let* e := Reader.Err in
  match e with
  | Some e => dfail (EColumn t (EQser e))
  | None => dret col
  end.

Definition decodeChunkContents : D cerr Chunk :=
  let* p := Reader.TryField 100 in
  if negb p then dfail (EMissingField "row count")
  else
    let* count := Reader.Uvarint in
    if maxChunkRows <? count then dfail (EImplausible "row count" count)
    else
      let* p := Reader.TryField 101 in
      if negb p then dfail (EMissingField "types")
      else
        let* ntypes := Reader.ListCount in
        let? types := drepeat (Z.to_nat ntypes) decodeType0 in
        let* p := Reader.TryField 102 in
        if negb p then dfail (EMissingField "columns")
        else
          let* ncols := Reader.ListCount in
          if negb (ncols =? Z.of_nat (length types))
          then dfail (ECount "columns for types" ncols (Z.of_nat (length types)))
          else
            let? columns := dmap (decodeColumn count) types in
            let* _ := Reader.End_ in
            finish (MkChunk count columns).

(** ** Result bodies *)

(** One element of a chunk list: nothing for a null pointer. *)
Definition decodeWrapper : D cerr (option Chunk) :=
  let* present := Reader.Present in
  if negb present then dret None
  else
    let* p := Reader.TryField 300 in
    if negb p then dfail (EMissingField "chunk object")
    else
      let? ch := decodeChunkContents in
      let* _ := Reader.End_ in
      dret (Some ch).

Definition decodeChunkList : D cerr (list Chunk) :=
  let* n := Reader.ListCount in
  let? chunks := drepeat (Z.to_nat n) decodeWrapper in
  finish (omap id chunks).

(** [if err := r.Err(); err != nil { return nil, fmt.Errorf("codec: bad ...: %w", err) }]. *)
Definition finishWrap {A} (what : String.string) (x : A) : D cerr A :=
  let* e := Reader.Err in
  match e with
  | Some e => dfail (EWrap what (EQser e))
  | None => dret x
  end.

Definition decodeTypeList : D cerr (list LogicalType) :=
  let* n := Reader.ListCount in
  drepeat (Z.to_nat n) decodeType0.

Definition prepareBody : D cerr PrepareResult :=
  let* p := Reader.TryField 1 in
  let? types := (if p then decodeTypeList else dret []) in
  let* names := optField 2 (let* n := Reader.ListCount in
                            mrepeat (Z.to_nat n) Reader.String_) [] in
  if negb (length names =? length types)%nat
  then dfail (ECount "names for types" (Z.of_nat (length names)) (Z.of_nat (length types)))
  else
    let schema := zip_with MkSchemaColumn names types in
    let* needsMore := optField 3 Reader.Bool false in
    let* p := Reader.TryField 4 in
    let? chunks := (if p then decodeChunkList else dret []) in
    let* p := Reader.TryField 5 in
    if negb p then dfail (EMissingField "result uuid")
    else
      let* uuid := Reader.HugeintVal in
      let* _ := Reader.End_ in
      finishWrap "codec: bad prepare response" (MkPrepareResult schema chunks needsMore uuid).

Definition fetchBody : D cerr FetchResult :=
  let* p := Reader.TryField 1 in
  let? chunks := (if p then decodeChunkList else dret []) in
  let* idx := optField 2 Reader.OptionalIdx BatchIndexAbsent in
  let* _ := Reader.End_ in
  finishWrap "codec: bad fetch response" (MkFetchResult chunks idx).

Definition chunkBody : D cerr Chunk :=
  let? ch := decodeChunkContents in
  finish ch.

(** A decoder applied to a whole payload. *)
Definition decode {A} (m : D cerr A) (body : bytes) : outcome cerr A := fst (m (NewReader body)).

Definition DecodePrepare (body : bytes) : outcome cerr PrepareResult := decode prepareBody body.
Definition DecodeFetch (body : bytes) : outcome cerr FetchResult := decode fetchBody body.
Definition DecodeChunk (buf : bytes) : outcome cerr Chunk := decode chunkBody buf.

(** ** The registry *)

Definition registry : list Z := [1].

(** [For]: a codec is its version. *)
Definition For (version : Z) : outcome cerr Z :=
  if is_one_of version registry then Ok version else Err (ENoCodec version).
