(* ===== verification/CodecGood.v ===== *)
(** * Every decoder of the codec is a well-behaved reader computation

    [good] for the type, vector, chunk and result decoders, and what follows
    for whole payloads: a payload cut short is rejected, trailing bytes are
    ignored. *)

From S2P Require Import Prelude Qser QserLib LogicalType Values Vector Chunk.

(** ** Types *)

Lemma good_finish {A} (x : A) : good (finish x).
Proof. unfold finish. solve_good. Qed.

#[export] Hint Resolve good_finish : qser.

Lemma good_decodeStructField c : good c -> good (decodeStructField c).
Proof. intros. unfold decodeStructField. solve_good. Qed.

#[export] Hint Resolve good_decodeStructField : qser.

Lemma good_decodeInfoKind c t k : good c -> good (decodeInfoKind c t k).
Proof. intros. unfold decodeInfoKind. solve_good. Qed.

#[export] Hint Resolve good_decodeInfoKind : qser.

Lemma good_decodeTypeInfo c t : good c -> good (decodeTypeInfo c t).
Proof. intros. unfold decodeTypeInfo. solve_good. Qed.

#[export] Hint Resolve good_decodeTypeInfo : qser.

Lemma good_decodeType levels : good (decodeType levels).
Proof. induction levels; cbn [decodeType]; solve_good. Qed.

Lemma good_decodeType0 : good decodeType0.
Proof. apply good_decodeType. Qed.

#[export] Hint Resolve good_decodeType good_decodeType0 : qser.

(** ** Vectors *)

Lemma good_unsupported {A} t : good (unsupportedButParsed (A := A) t).
Proof. unfold unsupportedButParsed. solve_good. Qed.

Lemma good_decodeValidity n : good (decodeValidity n).
Proof. unfold decodeValidity. solve_good. Qed.

Lemma good_listEntry : good listEntry.
Proof. unfold listEntry. solve_good. Qed.

#[export] Hint Resolve good_unsupported good_decodeValidity good_listEntry : qser.

Lemma good_flatVariable t n v u : good (flatVariable t n v u).
Proof.
  unfold flatVariable. solve_good.
Qed.

Lemma good_flatFixed t n v u : good (flatFixed t n v u).
Proof. unfold flatFixed. solve_good. Qed.

Lemma good_decodeSequence t n : good (decodeSequence t n).
Proof. unfold decodeSequence. solve_good. Qed.

#[export] Hint Resolve good_flatVariable good_flatFixed good_decodeSequence : qser.

Section Children.
Context (child : child_decoder) (good_child : forall t n, good (child t n)).

Lemma good_structChild n f : good (structChild child n f).
Proof. unfold structChild. solve_good. Qed.

Lemma good_childValues o u t : good (childValues o u t).
Proof. unfold childValues. solve_good. Qed.

#[local] Hint Resolve good_structChild good_childValues : qser.

Lemma good_flatStruct t n v u : good (flatStruct child t n v u).
Proof. unfold flatStruct. solve_good. Qed.

Lemma good_flatList t n v u : good (flatList child t n v u).
Proof. unfold flatList. solve_good. Qed.

Lemma good_flatArray t n v u : good (flatArray child t n v u).
Proof. unfold flatArray. solve_good. Qed.

#[local] Hint Resolve good_flatStruct good_flatList good_flatArray : qser.

Lemma good_decodeFlatVector t n : good (decodeFlatVector child t n).
Proof. unfold decodeFlatVector. solve_good. Qed.

Lemma good_decodeConstant t n : good (decodeConstant child t n).
Proof. unfold decodeConstant. solve_good. Qed.

Lemma good_decodeDictionary t n : good (decodeDictionary child t n).
Proof. unfold decodeDictionary. solve_good. Qed.

End Children.

#[export] Hint Resolve good_decodeFlatVector good_decodeConstant good_decodeDictionary : qser.

Lemma good_decodeVector levels t n : good (decodeVector levels t n).
Proof. revert t n. induction levels; intros; cbn [decodeVector]; solve_good. Qed.

Lemma good_decodeVector0 t n : good (decodeVector0 t n).
Proof. apply good_decodeVector. Qed.

#[export] Hint Resolve good_decodeVector good_decodeVector0 : qser.

(** ** Chunks and result bodies *)

Lemma good_decodeColumn n t : good (decodeColumn n t).
Proof. unfold decodeColumn. solve_good. Qed.

#[export] Hint Resolve good_decodeColumn : qser.

Lemma good_decodeChunkContents : good decodeChunkContents.
Proof. unfold decodeChunkContents. solve_good. Qed.

#[export] Hint Resolve good_decodeChunkContents : qser.

Lemma good_decodeWrapper : good decodeWrapper.
Proof. unfold decodeWrapper. solve_good. Qed.

#[export] Hint Resolve good_decodeWrapper : qser.

Lemma good_decodeChunkList : good decodeChunkList.
Proof. unfold decodeChunkList. solve_good. Qed.

Lemma good_finishWrap {A} w (x : A) : good (finishWrap w x).
Proof. unfold finishWrap. solve_good. Qed.

Lemma good_decodeTypeList : good decodeTypeList.
Proof. unfold decodeTypeList. solve_good. Qed.

#[export] Hint Resolve good_decodeChunkList good_finishWrap good_decodeTypeList : qser.

Lemma good_prepareBody : good prepareBody.
Proof. unfold prepareBody. solve_good. Qed.

Lemma good_fetchBody : good fetchBody.
Proof. unfold fetchBody. solve_good. Qed.

Lemma good_chunkBody : good chunkBody.
Proof. unfold chunkBody. solve_good. Qed.

#[export] Hint Resolve good_prepareBody good_fetchBody good_chunkBody : qser.

(** ** The sticky error is tested before a result is returned *)

Lemma settles_finish {A} (x : A) : settles (finish x).
Proof. intros r a. unfold finish, bind, Reader.Err. by destruct (err r) eqn:E. Qed.

Lemma settles_finishWrap {A} w (x : A) : settles (finishWrap w x).
Proof. intros r a. unfold finishWrap, bind, Reader.Err. by destruct (err r) eqn:E. Qed.

#[export] Hint Resolve settles_finish settles_finishWrap : qser.

Lemma settles_prepareBody : settles prepareBody.
Proof. unfold prepareBody. solve_settles. Qed.

Lemma settles_fetchBody : settles fetchBody.
Proof. unfold fetchBody. solve_settles. Qed.

Lemma settles_chunkBody : settles chunkBody.
Proof. unfold chunkBody. solve_settles. Qed.

#[export] Hint Resolve settles_prepareBody settles_fetchBody settles_chunkBody : qser.

(** The cursor of a decoder when it returns. *)
Definition consumed {A} (m : D cerr A) (body : bytes) : nat := off (snd (m (NewReader body))).
