(* ===== verification/CodecTypes.v ===== *)
(** * Decoded values have the Go types their columns promise

    [typed] is the contract between a logical type and the dynamic types of its
    values (README, "Type coverage"); the decoders establish it, with one value
    per row and without panicking on any input. *)

From S2P Require Import Prelude Qser QserLib LogicalType Values Vector Chunk.

(** ** The contract *)

Definition time_eqb (a b : time) : bool := (t_sec a =? t_sec b) && (t_nsec a =? t_nsec b).

(** The count of a timestamp type that an instant came from. *)
Definition stamp (id : Z) (t : time) : Z :=
  if id =? TypeTimestampSec then Unix t
  else if id =? TypeTimestampMS then UnixMilli t
  else if id =? TypeTimestampNS then UnixNano t
  else UnixMicro t.

Definition timestamp_ids : list Z :=
  [TypeTimestampSec; TypeTimestampMS; TypeTimestamp; TypeTimestampNS; TypeTimestampTZ].

Definition decimal_typed (t : LogicalType) (d : Decimal) : bool :=
  (DWidth d =? Width t) && (DScale d =? Scale t) && in_sb 64 (hi d) && in_ub 64 (lo d) &&
  in_sb (8 * physicalWidth t) (BigInt d).

Definition is_bit_char (b : byte) : bool := (ub b =? 48) || (ub b =? 49).

(** [typed strict t v]: [v] is nil or has the dynamic type of [t], within its
    range.  [strict] also asks an ARRAY row for the length its type declares,
    which the decoder does not enforce. *)
Fixpoint typed (strict : bool) (t : LogicalType) (v : any) {struct t} : bool :=
  let '(MkType id w sc child fields enum asize) := t in
  match v with
  | VNil => true
  | VBool _ => id =? TypeBoolean
  | VInt8 z => (id =? TypeTinyint) && in_sb 8 z
  | VInt16 z => (id =? TypeSmallint) && in_sb 16 z
  | VInt32 z => (id =? TypeInteger) && in_sb 32 z
  | VInt64 z => (id =? TypeBigint) && in_sb 64 z
  | VUint8 z => (id =? TypeUTinyint) && in_ub 8 z
  | VUint16 z => (id =? TypeUSmallint) && in_ub 16 z
  | VUint32 z => (id =? TypeUInteger) && in_ub 32 z
  | VUint64 z => (id =? TypeUBigint) && in_ub 64 z
  | VFloat32 z => (id =? TypeFloat) && in_ub 32 z
  | VFloat64 z => (id =? TypeDouble) && in_ub 64 z
  | VString s => (id =? TypeVarchar) || ((id =? TypeBit) && forallb is_bit_char s)
                 || ((id =? TypeEnum) && existsb (fun e => bool_decide (e = s)) enum)
  | VBytes _ => id =? TypeBlob
  | VBigInt z => ((id =? TypeHugeint) && in_sb 128 z) || ((id =? TypeUHugeint) && in_ub 128 z)
  | VDecimal d => (id =? TypeDecimal) && decimal_typed t d
  | VInstant ts =>
      ((id =? TypeDate) && in_sb 32 (Unix ts / 86400)
        && time_eqb ts (dateValue (Unix ts / 86400)))
      || (is_one_of id timestamp_ids && time_eqb ts (timestampValue id (stamp id ts))
        && in_sb 64 (stamp id ts))
  | VTime z => (id =? TypeTime) && in_sb 64 z
  | VTimeNS z => (id =? TypeTimeNS) && in_sb 64 z
  | VTimeTZ tz => (id =? TypeTimeTZ) && in_ub 40 (Micros tz)
                  && in_ub 24 (timeTZMaxOffset - Offset tz)
  | VInterval iv => (id =? TypeInterval) && in_sb 32 (Months iv) && in_sb 32 (Days iv)
                    && in_sb 64 (IMicros iv)
  | VUUID u => (id =? TypeUUID) && (length u =? 16)%nat
  | VSlice l =>
      ((id =? TypeList) || ((id =? TypeArray) && (negb strict || (Z.of_nat (length l) =? asize))))
      && match child with Some c => forallb (typed strict c) l | None => false end
  | VStruct s =>
      (id =? TypeStruct) &&
      (fix go (fs : list StructField) (s : list StructEntry) : bool :=
         match fs, s with
         | [], [] => true
         | MkField n ft :: fs, MkEntry n' v :: s =>
             bool_decide (n' = n) && typed strict ft v && go fs s
         | _, _ => false
         end) fields s
  | VMap l =>
      (id =? TypeMap) &&
      match child with
      | Some (MkType cid _ _ _ [MkField _ kt; MkField _ vt] _ _) =>
          forallb (fun '(MkMapEntry k v) =>
            (typed strict kt k && typed strict vt v && (cid =? TypeStruct)) ||
            (match k with VNil => true | _ => false end && match v with VNil => true | _ => false end)) l
      | Some _ => forallb (fun '(MkMapEntry k v) =>
            match k with VNil => true | _ => false end && match v with VNil => true | _ => false end) l
      | None => false
      end
  end.

(** What [decodeVector] promises its callers: one typed value per row. *)
Definition column_values (t : LogicalType) (count : Z) (l : list any) : Prop :=
  Z.of_nat (length l) = count /\ Forall (fun v => typed false t v = true) l.

Definition vector_ok (t : LogicalType) (count : Z) (o : option (list any)) : Prop :=
  exists l, o = Some l /\ column_values t count l.

(** What a decoded chunk guarantees: the row count of a DataChunk, and every
    column either an error and no values, or one typed value per row. *)
Definition column_ok (count : Z) (c : Column) : Prop :=
  match cerr_ c with
  | Some e => isUnsupported e = true /\ vals c = []
  | None => column_values (CType c) count (vals c)
  end.

Definition chunk_ok (c : Chunk) : Prop :=
  0 <= rows c <= maxChunkRows /\ Forall (column_ok (rows c)) (cols c).

(** ** Pure code that does not panic *)

Lemma okP_bind {E A B} (o : outcome E A) (k : A -> outcome E B) (P : A -> Prop) (Q : B -> Prop) :
  okP P o -> (forall a, P a -> okP Q (k a)) -> okP Q (obind o k).
Proof. destruct o; simpl; auto. Qed.

Lemma okP_weaken {E A} (o : outcome E A) (P Q : A -> Prop) :
  okP P o -> (forall a, P a -> Q a) -> okP Q o.
Proof. destruct o; simpl; auto. Qed.

Lemma okP_index {A} (l : list A) i : (i < length l)%nat -> okP (fun a => l !! i = Some a) (index l i).
Proof.
  intros Hi. unfold index. destruct (lookup_lt_is_Some_2 _ _ Hi) as [a Ha]. by rewrite Ha.
Qed.

Lemma okP_slice {A} (l : list A) a b : (a <= b <= length l)%nat ->
  okP (fun s => s = take (b - a) (drop a l)) (slice l a b).
Proof.
  intros H. unfold slice. rewrite (proj2 (Nat.leb_le a b)), (proj2 (Nat.leb_le b (length l))) by lia.
  done.
Qed.

Lemma okP_le_uint n l : (n <= length l)%nat -> okP (in_u (8 * Z.of_nat n)) (le_uint n l).
Proof.
  intros H. unfold le_uint. rewrite (proj2 (Nat.ltb_ge _ _)) by lia. simpl.
  pose proof (le_int_range (take n l)) as R. by rewrite length_take, Nat.min_l in R by lia.
Qed.

Lemma okP_omapM {A B} (f : A -> outcome cerr B) (l : list A) (Q : A -> B -> Prop) :
  (forall x, x ∈ l -> okP (Q x) (f x)) -> okP (Forall2 Q l) (omapM f l).
Proof.
  induction l as [|x l IH]; intros Hf; simpl; [constructor|].
  eapply okP_bind; [apply Hf; left|]. intros y Hy.
  eapply okP_bind; [apply IH; intros; apply Hf; by right|]. intros ys Hys. by constructor.
Qed.

Lemma quot_mask_lt count i len :
  Z.quot (count + 7) 8 <= Z.of_nat len -> (Z.of_nat i < count) -> (i / 8 < len)%nat.
Proof.
  intros Hl Hi. rewrite Z.quot_div_nonneg in Hl by lia.
  apply Nat.Div0.div_lt_upper_bound.
  pose proof (Z.div_mod (count + 7) 8 ltac:(lia)). pose proof (Z.mod_pos_bound (count + 7) 8 ltac:(lia)).
  lia.
Qed.

(** A validity mask long enough for the rows. *)
Definition mask_ok (count : Z) (validity : option bytes) : Prop :=
  match validity with
  | None => True
  | Some m => Z.quot (count + 7) 8 <= Z.of_nat (length m)
  end.

Lemma okP_valid validity count i :
  mask_ok count validity -> Z.of_nat i < count -> okP (fun _ => True) (valid validity i).
Proof.
  intros Hm Hi. destruct validity as [m|]; simpl in *; [|done].
  eapply okP_bind; [apply okP_index; by eapply quot_mask_lt|]. done.
Qed.

Lemma okP_fill t validity count cell :
  0 <= count -> mask_ok count validity ->
  (forall i, Z.of_nat i < count -> okP (fun v => typed false t v = true) (cell i)) ->
  okP (column_values t count) (fill validity count cell).
Proof.
  intros Hc Hm Hcell. unfold fill.
  eapply okP_weaken; [apply (okP_omapM _ _ (fun _ v => typed false t v = true))|].
  - intros i Hi. apply elem_of_seq in Hi.
    eapply okP_bind; [apply (okP_valid _ count); [done|lia]|].
    intros [] _; [apply Hcell; lia|]. by destruct t.
  - intros l Hl. split.
    + apply Forall2_length in Hl. rewrite length_seq in Hl. lia.
    + apply Forall_forall. intros v Hv. apply list_elem_of_lookup in Hv as [i Hi].
      by destruct (Forall2_lookup_r _ _ _ _ _ Hl Hi) as (x & _ & Hx).
Qed.

(** ** Instants *)

Lemma time_eqb_refl t : time_eqb t t = true.
Proof. unfold time_eqb. by rewrite !Z.eqb_refl. Qed.

Lemma time_eqb_eq a b : time_eqb a b = true -> a = b.
Proof. destruct a, b. unfold time_eqb. simpl. intros. zify_bools. by subst. Qed.

(** The sub-second part of a count, normalised by [time.Unix]. *)
Lemma time_Unix_split q r :
  -1000000000 < r < 1000000000 ->
  time_Unix q r = if r <? 0 then MkTime (i64 (i64 q - 1)) (r + 1000000000) else MkTime q r.
Proof.
  intros Hr. unfold time_Unix. destruct (r <? 0) eqn:E; zify_bools; cbn [orb].
  - assert (Z.quot r 1000000000 = 0) as -> by (by apply Z.quot_small_iff; lia).
    rewrite Z.add_0_r, Z.mul_0_l, Z.sub_0_r. by rewrite (proj2 (Z.ltb_lt r 0)).
  - by rewrite (proj2 (Z.leb_gt 1000000000 r)) by lia.
Qed.

Lemma swrap_congr w a b : 0 < w -> a mod 2 ^ w = b mod 2 ^ w -> swrap w a = swrap w b.
Proof.
  intros Hw H. unfold swrap. rewrite <- (Zplus_mod_idemp_l a), H, Zplus_mod_idemp_l. done.
Qed.

Lemma swrap_eqm w a : 0 < w -> exists k, swrap w a = a + k * 2 ^ w.
Proof.
  intros Hw. exists (- ((a + 2 ^ (w - 1)) / 2 ^ w)). unfold swrap.
  assert (2 ^ w <> 0) by (apply Z.pow_nonzero; lia).
  rewrite Z.mod_eq by done. lia.
Qed.

(** Every count of a timestamp type survives the conversion to [time.Time]. *)
Lemma unit_roundtrip u n v :
  0 < u -> 0 < n -> u * n = 1000000000 -> in_s 64 v ->
  let t := time_Unix (Z.quot v u) (Z.rem v u * n) in
  i64 (t_sec t * u + Z.quot (t_nsec t) n) = v.
Proof.
  intros Hu Hn Hun Hv t. subst t.
  pose proof (Z.quot_rem v u ltac:(lia)) as E. pose proof (Z.rem_bound_abs v u ltac:(lia)) as B.
  rewrite (Z.abs_eq u) in B by lia.
  rewrite time_Unix_split by nia. destruct (_ <? 0) eqn:Hs; cbn [t_sec t_nsec]; zify_bools.
  - destruct (swrap_eqm 64 (Z.quot v u) ltac:(lia)) as [k1 ->].
    destruct (swrap_eqm 64 (Z.quot v u + k1 * 2 ^ 64 - 1) ltac:(lia)) as [k2 ->].
    replace (Z.quot (Z.rem v u * n + 1000000000) n) with (Z.rem v u + u)
      by (rewrite <- Hun; replace (Z.rem v u * n + u * n) with ((Z.rem v u + u) * n) by lia;
          by rewrite Z.quot_mul by lia).
    replace ((Z.quot v u + k1 * 2 ^ 64 - 1 + k2 * 2 ^ 64) * u + (Z.rem v u + u))
      with (v + ((k1 + k2) * u) * 2 ^ 64) by lia.
    rewrite swrap_shift. by apply swrap_small.
  - rewrite Z.quot_mul by lia. replace (Z.quot v u * u + Z.rem v u) with v by lia.
    by apply swrap_small.
Qed.

Lemma stamp_timestampValue id v : in_s 64 v -> stamp id (timestampValue id v) = v.
Proof.
  intros Hv. unfold stamp, timestampValue.
  destruct (id =? TypeTimestampSec) eqn:?; [by rewrite time_Unix_split|].
  destruct (id =? TypeTimestampMS) eqn:?;
    [by apply (unit_roundtrip 1000 1000000)|].
  destruct (id =? TypeTimestampNS) eqn:?; [|by apply (unit_roundtrip 1000000 1000)].
  unfold UnixNano. rewrite <- (Z.quot_1_r (t_nsec _)), <- (Z.mul_1_r (Z.rem v _)).
  by apply (unit_roundtrip 1000000000 1).
Qed.

Lemma typed_timestamp s t v :
  is_one_of (ID t) timestamp_ids = true -> in_s 64 v ->
  typed s t (VInstant (timestampValue (ID t) v)) = true.
Proof.
  intros Hid Hv. destruct t as [id w sc c f e a]. cbn [typed ID] in *.
  rewrite stamp_timestampValue, time_eqb_refl, Hid by done. apply in_sb_spec in Hv as ->.
  by rewrite orb_true_r.
Qed.

Lemma typed_date s t d :
  ID t = TypeDate -> in_s 32 d -> typed s t (VInstant (dateValue d)) = true.
Proof.
  intros Hid Hd. destruct t as [id w sc c f e a]. cbn [typed ID] in *. subst id.
  assert (Unix (dateValue d) / 86400 = d) as ->.
  { unfold dateValue, Unix. rewrite time_Unix_split by lia. apply Z.div_mul. lia. }
  apply in_sb_spec in Hd as ->. by rewrite time_eqb_refl.
Qed.

(** ** Cells *)

Lemma i64_shiftr_bound k v : in_s 64 v -> 0 <= k -> in_s 64 (Z.shiftr v k).
Proof.
  intros Hv Hk. unfold in_s in *. rewrite Z.shiftr_div_pow2 by done.
  assert (0 < 2 ^ k) by (apply Z.pow_pos_nonneg; lia). simpl in *.
  split; [apply Z.div_le_lower_bound|apply Z.div_lt_upper_bound]; nia.
Qed.

(** Widening a signed 64-bit value to the two halves of a 128-bit one. *)
Lemma widen_BigInt v : in_s 64 v -> int128Big (Z.shiftr v 63) (u64 v) = v.
Proof.
  intros Hv. unfold int128Big. rewrite Z.shiftl_mul_pow2, Z.shiftr_div_pow2 by lia.
  unfold in_s in Hv. change (2 ^ (64 - 1)) with (2 ^ 63) in Hv. unfold uwrap.
  destruct (decide (0 <= v)).
  - rewrite (Z.div_small v), Z.mod_small by lia. lia.
  - assert (v / 2 ^ 63 = -1) as -> by (symmetry; apply Z.div_unique with (v + 2 ^ 63); lia).
    assert (v mod 2 ^ 64 = v + 2 ^ 64) as -> by (symmetry; apply Z.mod_unique with (-1); lia). lia.
Qed.

Lemma in_s_mono w w' v : 0 < w <= w' -> in_s w v -> in_s w' v.
Proof.
  intros Hw Hv. unfold in_s in *.
  assert (2 ^ (w - 1) <= 2 ^ (w' - 1)) by (apply Z.pow_le_mono_r; lia). lia.
Qed.

Lemma widen_typed t v :
  in_s (8 * physicalWidth t) v -> 0 < physicalWidth t <= 8 ->
  decimal_typed t (newDecimal (Width t) (Scale t) (Z.shiftr v 63) (u64 v)) = true.
Proof.
  intros Hv Hw. assert (H64 : in_s 64 v) by (eapply in_s_mono; [|done]; lia).
  unfold decimal_typed, newDecimal, BigInt. cbn [DWidth DScale hi lo].
  rewrite widen_BigInt by done. rewrite !Z.eqb_refl.
  rewrite (proj2 (in_sb_spec 64 _)) by (apply i64_shiftr_bound; [done|lia]).
  rewrite (proj2 (in_ub_spec 64 _)) by (by apply uwrap_in).
  by rewrite (proj2 (in_sb_spec _ _)).
Qed.

Lemma int128_bound h l : in_s 64 h -> in_u 64 l -> in_s 128 (int128Big h l).
Proof.
  unfold in_s, in_u, int128Big. rewrite Z.shiftl_mul_pow2 by lia. simpl. lia.
Qed.

Lemma uint128_bound h l : in_u 64 h -> in_u 64 l -> in_u 128 (uint128Big h l).
Proof.
  unfold in_u, uint128Big. rewrite Z.shiftl_mul_pow2 by lia. simpl. lia.
Qed.

Ltac ok_le n := eapply okP_bind; [apply (okP_le_uint n); cbv beta in *; lia|intros].

Lemma okP_halves (cell : bytes) : length cell = 16%nat ->
  okP (fun h => length h = 8%nat) (slice cell 8 (length cell)) /\
  okP (fun l => length l = 8%nat) (slice cell 0 8).
Proof.
  intros Hc. split; (eapply okP_weaken; [apply okP_slice; lia|]); intros a ->;
    rewrite length_take, length_drop; lia.
Qed.

Lemma decodeDecimalCell_ok t cell :
  ID t = TypeDecimal -> length cell = Z.to_nat (physicalWidth t) ->
  okP (fun d => decimal_typed t d = true) (decodeDecimalCell t cell).
Proof.
  intros Hid Hc. unfold decodeDecimalCell.
  assert (Hw : physicalWidth t = 2 \/ physicalWidth t = 4 \/ physicalWidth t = 8 \/ physicalWidth t = 16).
  { unfold physicalWidth. rewrite Hid. cbn [is_one_of existsb]. simpl.
    repeat destruct (_ <=? _); auto. }
  destruct (Nat.eqb_spec (length cell) 2) as [E2|E2];
    [|destruct (Nat.eqb_spec (length cell) 4) as [E4|E4];
      [|destruct (Nat.eqb_spec (length cell) 8) as [E8|E8]]].
  - ok_le 2%nat. apply widen_typed; [|lia]. replace (8 * physicalWidth t) with 16 by lia.
    by apply swrap_in.
  - ok_le 4%nat. apply widen_typed; [|lia]. replace (8 * physicalWidth t) with 32 by lia.
    by apply swrap_in.
  - ok_le 8%nat. apply widen_typed; [|lia]. replace (8 * physicalWidth t) with 64 by lia.
    by apply swrap_in.
  - destruct (okP_halves cell) as [Hh Hl]; [lia|].
    eapply okP_bind; [exact Hl|intros l Hll]. ok_le 8%nat.
    eapply okP_bind; [exact Hh|intros h Hhl]. ok_le 8%nat.
    cbn [okP]. unfold decimal_typed, newDecimal, BigInt. cbn [DWidth DScale hi lo].
    replace (8 * physicalWidth t) with 128 by lia. rewrite !Z.eqb_refl.
    rewrite (proj2 (in_sb_spec 64 _)) by (by apply swrap_in).
    rewrite (proj2 (in_ub_spec 64 _)) by done.
    rewrite (proj2 (in_sb_spec 128 _)); [done|]. apply int128_bound; [by apply swrap_in|done].
Qed.

Lemma enum_index_width (cell : bytes) n :
  length cell = Z.to_nat (enumIndexWidth n) ->
  okP (fun idx => 0 <= idx)
    (if (length cell =? 1)%nat then let! b := index cell 0 in Ok (ub b)
     else if (length cell =? 2)%nat then le_uint 2 cell
     else le_uint 4 cell).
Proof.
  intros Hc. assert (Hl : (length cell = 1 \/ length cell = 2 \/ length cell = 4)%nat).
  { unfold enumIndexWidth in Hc. destruct (n <=? 255); [lia|]. destruct (n <=? 65535); lia. }
  destruct (Nat.eqb_spec (length cell) 1); [|destruct (Nat.eqb_spec (length cell) 2)].
  - eapply okP_bind; [apply okP_index; lia|]. intros b _. simpl. apply ub_range.
  - eapply okP_weaken; [apply okP_le_uint; lia|]. by intros a [? _].
  - eapply okP_weaken; [apply okP_le_uint; lia|]. by intros a [? _].
Qed.

(** The tests [in_sb] and [in_ub] on values that are in range by construction. *)
Ltac in_range := first
  [ apply in_sb_spec; apply swrap_in; lia
  | apply in_ub_spec; apply uwrap_in; lia
  | apply in_ub_spec; assumption
  | apply in_sb_spec; assumption ].

Lemma typed_hugeint s w sc c f e a h l : in_u 64 h -> in_u 64 l ->
  typed s (MkType TypeHugeint w sc c f e a) (VBigInt (int128Big (i64 h) l)) = true.
Proof.
  intros. cbn -[in_sb in_ub int128Big swrap]. rewrite (proj2 (in_sb_spec 128 _)); [done|].
  apply int128_bound; [by apply swrap_in|done].
Qed.

Lemma typed_uhugeint s w sc c f e a h l : in_u 64 h -> in_u 64 l ->
  typed s (MkType TypeUHugeint w sc c f e a) (VBigInt (uint128Big h l)) = true.
Proof.
  intros. cbn -[in_sb in_ub uint128Big]. rewrite (proj2 (in_ub_spec 128 _)); [done|].
  by apply uint128_bound.
Qed.

Lemma timetz_ranges bits : in_u 64 bits ->
  in_ub 40 (i64 (Z.shiftr bits 24)) = true /\
  in_ub 24 (timeTZMaxOffset - i32 (timeTZMaxOffset - i32 (Z.land bits 0xFFFFFF))) = true.
Proof.
  intros Hb. rewrite !in_ub_spec. unfold in_u in *.
  change 0xFFFFFF with (Z.ones 24). rewrite Z.land_ones, Z.shiftr_div_pow2 by lia.
  pose proof (Z.mod_pos_bound bits (2 ^ 24) ltac:(lia)).
  assert (0 <= bits / 2 ^ 24 < 2 ^ 40) by
    (split; [apply Z.div_pos; lia|apply Z.div_lt_upper_bound; lia]).
  unfold timeTZMaxOffset. rewrite (swrap_small 32 (bits mod 2 ^ 24)) by (unfold in_s; simpl in *; lia).
  rewrite (swrap_small 32) by (unfold in_s; simpl in *; lia).
  rewrite swrap_small by (unfold in_s; simpl in *; lia). simpl in *. lia.
Qed.

Lemma length_be_halves h l : length (be_halves h l) = 16%nat.
Proof. unfold be_halves. rewrite length_app, !length_rev, !length_le_bytes. done. Qed.

Lemma existsb_In (l : list bytes) s : s ∈ l -> existsb (fun e => bool_decide (e = s)) l = true.
Proof.
  intros H. apply existsb_exists. exists s. split; [by apply list_elem_of_In|]. by apply bool_decide_eq_true.
Qed.

(** The slices of a 16-byte cell. *)
Ltac ok_halves Hc :=
  destruct (okP_halves _ Hc) as [Hh Hl];
  eapply okP_bind; [exact Hh|intros h Hhl]; ok_le 8%nat;
  eapply okP_bind; [exact Hl|intros l Hll]; ok_le 8%nat.

(** The cell length of a type whose id is known. *)
Ltac cell_length Hc Hn :=
  match type of Hc with
  | length ?cell = _ =>
      first [ assert (length cell = 1%nat) as Hn by exact Hc
            | assert (length cell = 2%nat) as Hn by exact Hc
            | assert (length cell = 4%nat) as Hn by exact Hc
            | assert (length cell = 8%nat) as Hn by exact Hc
            | assert (length cell = 16%nat) as Hn by exact Hc ]
  end.

Ltac ok_step :=
  first
    [ eapply okP_bind; [apply okP_index; cbv beta in *; lia|intros]
    | ok_le 8%nat | ok_le 4%nat | ok_le 2%nat
    | eapply okP_bind; [apply okP_slice; cbv beta in *; lia|intros ? ->] ].

Ltac ok_typed :=
  cbn -[in_sb in_ub swrap uwrap int128Big uint128Big Z.shiftr Z.land timeTZMaxOffset Z.sub];
  repeat match goal with
  | |- context [in_sb ?w (swrap ?w ?z)] => rewrite (proj2 (in_sb_spec w (swrap w z))) by (by apply swrap_in)
  | H : in_u _ ?z |- context [in_ub ?w ?z] => rewrite (proj2 (in_ub_spec w z)) by exact H
  end; try done.

Lemma decodeCell_interval_ok t cell : length cell = 16%nat -> ID t = TypeInterval ->
  okP (fun v => typed false t v = true) (decodeCell t cell).
Proof.
  intros Hc Hid. destruct t as [id w sc c f e a]. cbn [ID] in Hid. subst id.
  unfold decodeCell. cbn -[okP le_uint slice typed obind].
  eapply okP_bind; [apply (okP_le_uint 4); lia|intros m Hm].
  eapply okP_bind; [apply okP_slice; lia|intros dl ->].
  eapply okP_bind; [apply (okP_le_uint 4); rewrite length_take, length_drop; lia|intros d Hd].
  eapply okP_bind; [apply okP_slice; lia|intros ul ->].
  eapply okP_bind; [apply (okP_le_uint 8); rewrite length_take, length_drop; lia|intros u Hu].
  ok_typed.
Qed.

Lemma decodeCell_timestamp_ok t cell :
  length cell = 8%nat -> is_one_of (ID t) timestamp_ids = true ->
  okP (fun v => typed false t v = true)
    (let! u := le_uint 8 cell in Ok (VInstant (timestampValue (ID t) (i64 u)))).
Proof.
  intros Hc Ht. ok_le 8%nat. apply typed_timestamp; [done|by apply swrap_in].
Qed.

Lemma is_one_of_elem id l : is_one_of id l = true <-> id ∈ l.
Proof.
  unfold is_one_of. rewrite existsb_exists. split.
  - intros (x & Hx & E). zify_bools. subst. by apply list_elem_of_In.
  - intros H. exists id. rewrite Z.eqb_refl. split; [by apply list_elem_of_In|done].
Qed.

Lemma timestamp_width t : is_one_of (ID t) timestamp_ids = true -> physicalWidth t = 8.
Proof.
  intros H. apply is_one_of_elem in H. unfold timestamp_ids in H. unfold physicalWidth.
  repeat (apply elem_of_cons in H as [->|H]; [done|]). by apply elem_of_nil in H.
Qed.

(** The cell of an ENUM: an index below the number of its labels. *)
Lemma enumCell_ok w sc c f e a cell : length cell = Z.to_nat (physicalWidth (MkType TypeEnum w sc c f e a)) ->
  okP (fun v => typed false (MkType TypeEnum w sc c f e a) v = true)
    (let! idx :=
       (if (length cell =? 1)%nat then let! b := index cell 0 in Ok (ub b)
        else if (length cell =? 2)%nat then le_uint 2 cell
        else le_uint 4 cell) in
     if Z.of_nat (length e) <=? idx then Err (EEnumIndex idx (Z.of_nat (length e)))
     else let! s := index e (Z.to_nat idx) in Ok (VString s)).
Proof.
  intros Hc. eapply okP_bind; [by apply (enum_index_width _ (Z.of_nat (length e)))|intros idx Hidx].
  destruct (_ <=? idx) eqn:E; [done|]. zify_bools. clear - E Hidx. cbv beta in Hidx.
  eapply okP_bind; [apply okP_index; lia|intros s Hs].
  cbv beta in Hs. cbn -[existsb]. apply existsb_In. by eapply list_elem_of_lookup_2.
Qed.

Lemma decodeCell_ok t cell :
  physicalWidth t <> 0 -> length cell = Z.to_nat (physicalWidth t) ->
  okP (fun v => typed false t v = true) (decodeCell t cell).
Proof.
  intros Hw Hc. unfold decodeCell.
  destruct t as [id w sc c f e a].
  cbn [ID].
  repeat match goal with
  | |- okP _ (if ?x =? TypeInterval then _ else _) =>
      destruct (Z.eqb_spec x TypeInterval) as [->|];
        [cell_length Hc Hn; apply (decodeCell_interval_ok _ _ Hn eq_refl)|]
  | |- okP _ (if ?x =? TypeEnum then _ else _) => fail 1
  | |- okP _ (if ?x =? TypeDecimal then _ else _) =>
      destruct (Z.eqb_spec x TypeDecimal) as [->|];
        [eapply okP_bind; [by apply decodeDecimalCell_ok|intros d Hd; exact Hd]|]
  | |- okP _ (if is_one_of ?x ?l then _ else _) =>
      destruct (is_one_of x l) eqn:Ht;
        [apply (decodeCell_timestamp_ok (MkType x w sc c f e a));
           [rewrite timestamp_width in Hc by exact Ht; exact Hc|exact Ht]|]
  | |- okP _ (if ?x =? ?y then _ else _) =>
      destruct (Z.eqb_spec x y) as [->|]; [cell_length Hc Hn|]
  end.
  (* the types whose ranges need an argument, then the plain ones *)
  all: try clear - Hn.
  all: match goal with
  | |- okP _ (let! x := _ in Ok (VUint8 _)) =>
      ok_step; cbn; rewrite (proj2 (in_ub_spec 8 _)) by apply ub_range; done
  | |- context [VInstant] => ok_step; apply typed_date; [done|by apply swrap_in]
  | |- context [VUUID] => ok_halves Hn; cbn -[be_halves]; by rewrite length_be_halves
  | |- context [int128Big] => ok_halves Hn; apply typed_hugeint; assumption
  | |- context [uint128Big] => ok_halves Hn; apply typed_uhugeint; assumption
  | |- context [VTimeTZ] => ok_step;
      match goal with H : in_u _ ?b |- _ => destruct (timetz_ranges b H) as [H1 H2] end;
      cbn -[in_ub swrap Z.shiftr Z.land timeTZMaxOffset Z.sub]; by rewrite H1, H2
  | |- context [EEnumIndex] => idtac
  | |- context [VInterval] => exact (decodeCell_interval_ok (MkType TypeInterval w sc c f e a) cell Hn eq_refl)
  | |- _ => ok_step; ok_typed
  end.
  destruct (Z.eqb_spec id TypeEnum) as [->|]; [|done]. by apply enumCell_ok.
Qed.

(** ** Vectors *)

Lemma dyields_finish {A} (x : A) (Q : A -> Prop) : Q x -> dyields (finish x) Q.
Proof. intros H. unfold finish. repeat dyields_step. by apply dyields_dret. Qed.

Lemma dyields_unsupported {A} t (Q : A -> Prop) : dyields (unsupportedButParsed t) Q.
Proof. unfold unsupportedButParsed. repeat dyields_step. Qed.

#[export] Hint Resolve dyields_finish dyields_unsupported dyields_dret : qser.

Lemma decodeValidity_ok n : dyields (decodeValidity n) (mask_ok n).
Proof.
  unfold decodeValidity. repeat dyields_step; apply dyields_dret; [simpl; blia|done].
Qed.

Lemma finish_vector t count l : column_values t count l ->
  dyields (finish (Some l)) (vector_ok t count).
Proof. intros H. apply dyields_finish. by exists l. Qed.

(** A vector filled row by row from checked cells. *)
Lemma fill_vector t count validity cell :
  0 <= count -> mask_ok count validity ->
  (forall i, Z.of_nat i < count -> okP (fun v => typed false t v = true) (cell i)) ->
  dyields (let? vals := dlift (fill validity count cell) in finish (Some vals)) (vector_ok t count).
Proof.
  intros. eapply dyields_dbind; [apply dyields_dlift, okP_fill; eauto|].
  intros. by apply finish_vector.
Qed.

Lemma Forall2_column {X} t (l : list X) vals :
  Forall2 (fun _ v => typed false t v = true) l vals ->
  column_values t (Z.of_nat (length l)) vals.
Proof.
  intros H. split; [apply Forall2_length in H; lia|].
  induction H; constructor; done.
Qed.

Lemma bit_chars_ok b n : forallb is_bit_char (bit_chars b n) = true.
Proof.
  unfold bit_chars. apply forallb_forall. intros c Hc. apply list_elem_of_In in Hc.
  apply list_elem_of_fmap in Hc as (i & -> & _). unfold is_bit_char.
  change 1 with (Z.ones 1). rewrite Z.land_ones by lia.
  pose proof (Z.mod_pos_bound (ub b ≫ (7 - Z.of_nat i)) (2 ^ 1) ltac:(lia)).
  rewrite ub_bz_small by lia. apply orb_true_iff. rewrite !Z.eqb_eq. lia.
Qed.

Lemma forallb_concat {A} (f : A -> bool) (l : list (list A)) :
  forallb (forallb f) l = true -> forallb f (concat l) = true.
Proof.
  induction l as [|x l IH]; simpl; [done|]. intros H. apply andb_true_iff in H as [H1 H2].
  rewrite forallb_app, H1. auto.
Qed.

Lemma bitString_ok b : okP (fun s => forallb is_bit_char s = true) (bitString b).
Proof.
  unfold bitString. destruct b as [|p rest]; [done|].
  destruct (_ || _); [done|]. destruct (_ =? 1)%nat; [done|]. simpl.
  apply forallb_concat, forallb_forall. intros l Hl. apply list_elem_of_In in Hl.
  apply elem_of_lookup_imap in Hl as (i & c & -> & _). apply bit_chars_ok.
Qed.

Lemma elem_of_rows i count : 0 <= count -> i ∈ seq 0 (Z.to_nat count) -> Z.of_nat i < count.
Proof. intros Hc H. apply elem_of_seq in H. lia. Qed.

Lemma flatVariable_ok t count validity u :
  0 <= count -> mask_ok count validity ->
  is_one_of (ID t) [TypeVarchar; TypeBlob; TypeBit; TypeGeometry] = true ->
  dyields (flatVariable t count validity u) (vector_ok t count).
Proof.
  intros Hc Hm Hid. unfold flatVariable. repeat dyields_step.
  eapply dyields_dbind; [apply (dyields_dmap _ _ (fun _ v => typed false t v = true))|].
  - intros i Hi. apply elem_of_rows in Hi; [|done]. dyields_step. apply dyields_dlift.
    eapply okP_bind; [by apply (okP_valid _ count)|]. intros ok _.
    destruct (negb ok || _) eqn:Hu; [by destruct t|].
    apply orb_false_iff in Hu as [_ Hu]. apply orb_false_iff in Hu as [_ Hg].
    destruct t as [id w sc c f e a']. cbn [ID] in *.
    destruct (id =? TypeVarchar) eqn:E1; [zify_bools; by subst|].
    destruct (id =? TypeBit) eqn:E2.
    + eapply okP_bind; [apply bitString_ok|]. intros s Hs. cbn. by rewrite E1, E2, Hs.
    + cbn [okP typed]. cbn [is_one_of existsb] in Hid. rewrite E1, E2, Hg in Hid.
      rewrite !orb_false_r in Hid. done.
  - intros l Hl. destruct (u || _); [by apply dyields_unsupported|].
    apply finish_vector. apply Forall2_column in Hl. by rewrite length_seq, Z2Nat.id in Hl.
Qed.

Lemma cell_slice_bounds len count w i :
  count * w <= Z.of_nat len -> 0 <= w -> Z.of_nat i < count ->
  (i * Z.to_nat w <= (i + 1) * Z.to_nat w <= len)%nat.
Proof. intros. nia. Qed.

Lemma physicalWidth_nonneg t : 0 <= physicalWidth t.
Proof.
  unfold physicalWidth, enumIndexWidth.
  repeat match goal with |- context [if ?b then _ else _] => destruct b end; lia.
Qed.

Lemma flatFixed_ok t count validity u :
  0 <= count -> mask_ok count validity ->
  dyields (flatFixed t count validity u) (vector_ok t count).
Proof.
  intros Hc Hm. unfold flatFixed. destruct (physicalWidth t =? 0) eqn:Hw.
  { dyields_step. apply dyields_unsupported. }
  repeat dyields_step; [by apply dyields_unsupported|]. zify_bools.
  apply fill_vector; [done..|]. intros i Hi.
  pose proof (physicalWidth_nonneg t).
  pose proof (cell_slice_bounds _ _ (physicalWidth t) i ltac:(eassumption) ltac:(lia) Hi).
  eapply okP_bind; [by apply okP_slice|]. intros cell ->.
  apply decodeCell_ok; [done|]. rewrite length_take, length_drop. lia.
Qed.

Lemma typed_struct s t entries :
  ID t = TypeStruct ->
  Forall2 (fun f e => EName e = Name f /\ typed s (Type_ f) (EValue e) = true) (Fields t) entries ->
  typed s t (VStruct entries) = true.
Proof.
  destruct t as [id w sc c fields e a]. cbn [ID Fields]. intros -> H. cbn [typed].
  induction H as [|[n ft] [n' v] fields entries [Hn Hv] H IH]; [done|].
  cbn [EName EValue Name Type_] in *. subst. rewrite bool_decide_eq_true_2, Hv by done. exact IH.
Qed.

Lemma typed_slice s t c l :
  ID t = TypeList \/ (ID t = TypeArray /\ (s = true -> Z.of_nat (length l) = ArraySize t)) ->
  Child t = Some c -> Forall (fun v => typed s c v = true) l -> typed s t (VSlice l) = true.
Proof.
  destruct t as [id w sc c' fields e a]. cbn [ID Child ArraySize]. intros Hid -> Hl. cbn [typed].
  apply andb_true_iff. split.
  - destruct Hid as [->|[-> Hs]]; [done|]. destruct s; [|done]. cbn. by apply Z.eqb_eq, Hs.
  - apply forallb_forall. intros v Hv. rewrite Forall_forall in Hl. by apply Hl, list_elem_of_In.
Qed.

Lemma typed_map t c l :
  ID t = TypeMap -> Child t = Some c -> Forall (fun v => typed false c v = true) l ->
  typed false t (VMap (mapEntry <$> l)) = true.
Proof.
  destruct t as [id w sc c' fields e a]. cbn [ID Child]. intros -> -> Hl. cbn [typed].
  change (TypeMap =? TypeMap) with true. cbn [andb].
  assert (Hnil : forall v, (exists k x, v = VStruct [k; x]) \/ mapEntry v = MkMapEntry VNil VNil).
  { intros v. destruct v; auto. destruct s as [|k [|x [|]]]; eauto. }
  destruct c as [cid cw csc cc cf ce ca]; destruct cf as [|[n1 kt] [|[n2 vt] [|]]];
    apply forallb_forall; intros m Hm; apply list_elem_of_In, list_elem_of_fmap in Hm as (v & -> & Hv);
    rewrite Forall_forall in Hl; specialize (Hl _ Hv);
    destruct (Hnil v) as [([n k] & [n' x] & ->)|E]; try (by rewrite E, ?orb_true_r); cbn in Hl |- *;
    rewrite ?andb_false_r in Hl; try done.
  - apply andb_true_iff in Hl as [Hc Hl]. rewrite !andb_true_iff in Hl.
    destruct Hl as [[_ Hk] [[_ Hx] _]]. by rewrite Hk, Hx, Hc.
  - destruct s. by rewrite !andb_false_r in Hl.
Qed.

Section Children.
Context (child : child_decoder).
Context (child_ok : forall t n, 0 <= n <= maxVectorRows -> dyields (child t n) (vector_ok t n)).

Lemma structChild_ok count f : 0 <= count <= maxVectorRows ->
  dyields (structChild child count f)
    (fun p => snd p = false -> vector_ok (Type_ f) count (fst p)).
Proof.
  intros Hc. unfold structChild. eapply dyields_bind; [by apply child_ok|].
  intros [v|e|] Hv; [| |done].
  - dyields_step. by apply dyields_dret.
  - destruct (isUnsupported e); [|apply dyields_dfail]. dyields_step. by apply dyields_dret.
Qed.

Lemma structRow_ok t count children row :
  ID t = TypeStruct -> Z.of_nat row < count ->
  Forall2 (fun f vals => vector_ok (Type_ f) count vals) (Fields t) children ->
  okP (fun v => typed false t v = true) (structRow (Fields t) children row).
Proof.
  intros Hid Hrow Hch. unfold structRow.
  eapply okP_bind; [apply (okP_omapM _ _ (fun '(f, _) e =>
      EName e = Name f /\ typed false (Type_ f) (EValue e) = true))|].
  - intros [f vals] Hin. apply list_elem_of_lookup in Hin as [i Hi].
    apply lookup_zip_Some in Hi as [Hf Hv].
    destruct (Forall2_lookup_lr _ _ _ _ _ _ Hch Hf Hv) as (l & -> & Hlen & Hty).
    eapply okP_bind; [apply okP_index; simpl; lia|]. cbv beta. intros v Hl. simpl. split; [done|].
    rewrite Forall_lookup in Hty. eauto.
  - intros entries He. apply typed_struct; [done|]. clear -He Hch.
    revert entries He. induction Hch as [|f vals fs children Hv Hch IH]; intros entries He; simpl in He.
    + inversion He. constructor.
    + inversion He; subst. constructor; auto.
Qed.

Lemma existsb_snd_false {A} (l : list (A * bool)) :
  existsb snd l = false -> Forall (fun p => snd p = false) l.
Proof.
  induction l as [|p l IH]; simpl; [constructor|]. intros H. apply orb_false_iff in H as [H1 H2].
  constructor; auto.
Qed.

Lemma flatStruct_ok t count validity u :
  0 <= count <= maxVectorRows -> mask_ok count validity ->
  dyields (flatStruct child t count validity u) (vector_ok t count).
Proof.
  intros Hc Hm. unfold flatStruct. repeat dyields_step.
  eapply dyields_dbind; [apply dyields_dmap; intros f _; by apply structChild_ok|].
  cbv beta. intros children Hch.
  destruct ((u || existsb snd children) || negb (ID t =? TypeStruct)) eqn:E;
    [by apply dyields_unsupported|].
  apply orb_false_iff in E as [E Hid]. apply orb_false_iff in E as [_ E]. zify_bools.
  apply fill_vector; [lia|done|]. intros i Hi. apply (structRow_ok t count); [done..|].
  apply existsb_snd_false in E. clear -Hch E.
  induction Hch; inversion E; simpl; constructor; auto.
Qed.

Lemma childValues_ok o u t ct n :
  okP (vector_ok ct n) o -> dyields (childValues o u t) (column_values ct n).
Proof.
  intros Ho. unfold childValues. destruct o as [v|e|]; [| |done].
  - destruct Ho as (l & -> & Hl). dyields_step. destruct u; [apply dyields_unsupported|].
    by apply dyields_dret.
  - destruct (negb _); [apply dyields_dfail|]. dyields_step.
    destruct u; [apply dyields_unsupported|].
    repeat dyields_step.
Qed.

Lemma listEntry_ok : yields listEntry (fun p => 0 <= fst p /\ 0 <= snd p).
Proof.
  assert (H : forall id, yields (optField id Reader.Uvarint 0) (fun z => 0 <= z)).
  { intros id. unfold optField. eapply yields_bind; [apply yields_true|].
    intros [] _; [|by apply yields_ret]. eapply yields_weaken; [apply yields_Uvarint|]. by intros a [? _]. }
  unfold listEntry. eapply yields_bind; [apply H|]. intros off Hoff.
  eapply yields_bind; [apply H|]. intros ln Hln.
  eapply yields_bind; [apply yields_true|]. intros _ _. by apply yields_ret.
Qed.

Lemma listRow_ok t ct entries childVals listSize i :
  is_one_of (ID t) [TypeList; TypeMap] = true -> Child t = Some ct ->
  (i < length entries)%nat -> Forall (fun p => 0 <= fst p /\ 0 <= snd p) entries ->
  column_values ct listSize childVals ->
  okP (fun v => typed false t v = true) (listRow t entries childVals listSize i).
Proof.
  intros Hid Hct Hi Hpos [Hlen Hty]. unfold listRow.
  eapply okP_bind; [by apply okP_index|]. cbv beta. intros [off ln] He.
  rewrite Forall_lookup in Hpos. specialize (Hpos _ _ He). simpl in Hpos.
  destruct (_ || _) eqn:E; [done|]. zify_bools.
  eapply okP_bind; [apply okP_slice; lia|]. cbv beta. intros row ->.
  assert (Hrow : Forall (fun v => typed false ct v = true)
    (take (Z.to_nat (off + ln) - Z.to_nat off) (drop (Z.to_nat off) childVals)))
    by (by apply Forall_take, Forall_drop).
  destruct (ID t =? TypeMap) eqn:Hm; zify_bools; [by eapply typed_map|].
  eapply typed_slice; eauto. left. cbn [is_one_of existsb] in Hid.
  apply Z.eqb_neq in Hm. rewrite Hm, !orb_false_r in Hid. by apply Z.eqb_eq.
Qed.

Lemma flatList_ok t count validity u :
  0 <= count <= maxVectorRows -> mask_ok count validity ->
  is_one_of (ID t) [TypeList; TypeMap] = true ->
  dyields (flatList child t count validity u) (vector_ok t count).
Proof.
  intros Hc Hm Hid. unfold flatList.
  repeat match goal with |- dyields (bind (mrepeat _ _) _) _ => fail 1 | _ => dyields_step end.
  repeat match goal with H : in_u _ _ |- _ => destruct H end.
  eapply dyields_bind; [apply yields_mrepeat, listEntry_ok|]. cbv beta. intros entries [Hlen Hpos].
  do 2 dyields_step; [done|]. destruct (Child t) as [ct|] eqn:Hct; [|apply dyields_dfail]. zify_bools.
  eapply dyields_bind; [apply child_ok; lia|]. intros o Ho.
  eapply dyields_dbind; [by apply (childValues_ok _ _ _ ct)|]. intros childVals Hcv.
  apply fill_vector; [lia|done|]. intros i Hi. eapply listRow_ok; eauto. lia.
Qed.

Lemma arrayRow_ok t ct childVals size count i :
  ID t = TypeArray -> Child t = Some ct -> 0 <= size -> Z.of_nat i < count ->
  column_values ct (size * count) childVals ->
  okP (fun v => typed false t v = true) (arrayRow childVals size i).
Proof.
  intros Hid Hct Hs Hi [Hlen Hty]. unfold arrayRow.
  eapply okP_bind; [apply okP_slice; nia|]. cbv beta. intros tail ->. simpl.
  eapply typed_slice; eauto; [right; by split|]. apply Forall_app. split.
  - by apply Forall_take, Forall_take, Forall_drop.
  - apply Forall_replicate. by destruct ct.
Qed.

Lemma array_count size count :
  0 <= size <= maxVectorRows -> 0 <= count <= maxVectorRows ->
  i64 (i64 size * count) = size * count.
Proof.
  unfold maxVectorRows. intros. rewrite (swrap_small 64 size) by (unfold in_s; simpl in *; lia).
  apply swrap_small; [done|]. unfold in_s. simpl in *. nia.
Qed.

Lemma flatArray_ok t count validity u :
  0 <= count <= maxVectorRows -> mask_ok count validity -> ID t = TypeArray ->
  dyields (flatArray child t count validity u) (vector_ok t count).
Proof.
  intros Hc Hm Hid. unfold flatArray. do 3 dyields_step.
  dyields_step; [apply dyields_dfail|]. match goal with H : in_u _ _ |- _ => destruct H end.
  match goal with H : _ = false |- _ => apply orb_false_iff in H as [E1 E2] end.
  rewrite array_count in * by (zify_bools; lia). zify_bools.
  do 2 dyields_step; [apply dyields_dfail|].
  destruct (Child t) as [ct|] eqn:Hct; [|apply dyields_dfail].
  eapply dyields_bind; [apply child_ok; nia|]. intros o Ho.
  eapply dyields_dbind; [by apply (childValues_ok _ _ _ ct)|]. intros childVals Hcv.
  apply fill_vector; [lia|done|]. intros i Hi. by eapply arrayRow_ok.
Qed.

Lemma decodeFlatVector_ok t count :
  0 <= count <= maxVectorRows -> dyields (decodeFlatVector child t count) (vector_ok t count).
Proof.
  intros Hc. unfold decodeFlatVector. do 4 dyields_step; [apply dyields_dfail|].
  eapply dyields_dbind; [apply decodeValidity_ok|]. intros validity Hm.
  repeat dyields_step.
  - apply flatVariable_ok; [lia|done..].
  - by apply flatStruct_ok.
  - by apply flatList_ok.
  - apply flatArray_ok; [done..|blia].
  - apply flatFixed_ok; [lia|done].
Qed.

Lemma decodeConstant_ok t count :
  0 <= count -> dyields (decodeConstant child t count) (vector_ok t count).
Proof.
  intros Hc. unfold decodeConstant. eapply dyields_dbind; [apply child_ok; done|].
  intros v (l & -> & Hlen & Hty). destruct l as [|v l]; [done|]. cbn [default from_option].
  apply dyields_dret. eexists. split; [done|]. split; [rewrite length_replicate; lia|].
  apply Forall_replicate. by inversion Hty.
Qed.

Lemma decodeDictionary_ok t count :
  0 <= count -> dyields (decodeDictionary child t count) (vector_ok t count).
Proof.
  intros Hc. unfold decodeDictionary. repeat match goal with
    |- dyields (dbind _ _) _ => fail 1 | _ => dyields_step end.
  match goal with H : in_u _ _ |- _ => destruct H end. zify_bools. unfold maxChunkRows in *.
  eapply dyields_dbind; [apply child_ok; unfold maxVectorRows; simpl in *; lia|].
  intros v (l & -> & Hlen & Hty).
  eapply dyields_dbind; [apply dyields_dlift, (okP_omapM _ _ (fun _ v => typed false t v = true))|].
  - intros i Hi. apply elem_of_rows in Hi; [|done].
    eapply okP_bind; [apply okP_slice; lia|]. cbv beta. intros s ->.
    eapply okP_bind; [apply okP_le_uint; rewrite length_take, length_drop; lia|].
    cbv beta. intros idx [Hidx _]. destruct (_ <=? idx) eqn:E; [done|]. zify_bools.
    rewrite uwrap_small in E by (unfold in_u; simpl in *; lia).
    eapply okP_weaken; [apply okP_index; lia|]. cbv beta. intros w Hw.
    rewrite Forall_lookup in Hty. eauto.
  - intros out Hout. apply dyields_dret. exists out. split; [done|].
    apply Forall2_column in Hout. by rewrite length_seq, Z2Nat.id in Hout.
Qed.

End Children.

Lemma sequenceValue_ok t v : in_s 64 v -> okP (fun v => typed false t v = true) (sequenceValue (ID t) v).
Proof.
  intros Hv. unfold sequenceValue. destruct t as [id w sc c f e a]. cbn [ID].
  repeat match goal with
  | |- okP _ (if ?x =? ?y then _ else _) => destruct (Z.eqb_spec x y) as [->|]
  end; cbn -[in_sb in_ub swrap uwrap];
    rewrite ?(proj2 (in_sb_spec _ _)), ?(proj2 (in_ub_spec _ _)) by (first [done|by apply swrap_in|by apply uwrap_in]);
    done.
Qed.

Lemma decodeSequence_ok t count :
  0 <= count -> dyields (decodeSequence t count) (vector_ok t count).
Proof.
  intros Hc. unfold decodeSequence. repeat match goal with
    |- dyields (dbind _ _) _ => fail 1 | _ => dyields_step end.
  eapply dyields_dbind; [apply dyields_dlift, (okP_omapM _ _ (fun _ v => typed false t v = true))|].
  - intros i _. apply sequenceValue_ok. by apply swrap_in.
  - intros out Hout. apply dyields_dret. exists out. split; [done|].
    apply Forall2_column in Hout. by rewrite length_seq, Z2Nat.id in Hout.
Qed.

Lemma decodeVector_ok levels t count :
  0 <= count -> dyields (decodeVector levels t count) (vector_ok t count).
Proof.
  revert t count. induction levels as [|levels IH]; intros t count Hc; cbn [decodeVector];
    [apply dyields_dfail|].
  dyields_step; [apply dyields_dfail|]. zify_bools. repeat dyields_step.
  - apply decodeFlatVector_ok; [|done]. intros. apply IH. lia.
  - apply decodeConstant_ok; [|done]. intros. apply IH. lia.
  - apply decodeDictionary_ok; [|done]. intros. apply IH. lia.
  - by apply decodeSequence_ok.
Qed.

(** ** Chunks *)

