(* ===== verification/CodecSafe.v ===== *)
(** * Decoding is total, and what it returns keeps the codec's promises

    The decoders lifted from vectors ([CodecTypes]) to chunks and whole result
    bodies: no input makes them panic, decoded type trees are at most
    [maxTypeDepth] deep with every number in its field's range, and every chunk
    has one typed value per row or an unsupported-type error per column. *)

From S2P Require Import Prelude Qser QserLib LogicalType Values Vector Chunk CodecGood CodecTypes.

(** ** Type trees in range *)

(** At most [levels] deep, and every number in the range of its Go field. *)
Fixpoint type_ok (levels : nat) (t : LogicalType) : bool :=
  match levels with
  | O => false
  | S levels =>
      let '(MkType id w s c f e a) := t in
      in_ub 32 id && in_ub 8 w && in_ub 8 s && in_ub 32 a
      && match c with None => true | Some c => type_ok levels c end
      && forallb (fun '(MkField _ ft) => type_ok levels ft) f
  end.

Definition schema_ok (s : SchemaColumn) : Prop := type_ok (S maxTypeDepth) (SType s) = true.

(** A decoded chunk: [chunk_ok], with its column types in range. *)
Definition result_chunk_ok (c : Chunk) : Prop :=
  chunk_ok c /\ Forall (fun cl => type_ok (S maxTypeDepth) (CType cl) = true) (cols c).

Definition prepare_ok (p : PrepareResult) : Prop :=
  Forall schema_ok (Schema p) /\ Forall result_chunk_ok (PChunks p).

Lemma dyields_finishWrap {A} what (x : A) (Q : A -> Prop) : Q x -> dyields (finishWrap what x) Q.
Proof. intros HQ. unfold finishWrap. dyields_step. dyields_step; [done|by apply dyields_dret]. Qed.

Lemma uwrap_ub w z : 0 <= w -> in_ub w (uwrap w z) = true.
Proof. intros. by apply in_ub_spec, uwrap_in. Qed.

(** A chunk of one INTEGER column with the rows 7 and NULL. *)
Definition sample_chunk : bytes := map bz
  [0x64; 0; 2;  0x65; 0; 1;  0x64; 0; 13; 0xff; 0xff;  0x66; 0; 1;
   0x64; 0; 1;  0x65; 0; 1; 1;  0x66; 0; 8; 7; 0; 0; 0; 0; 0; 0; 0;  0xff; 0xff;  0xff; 0xff].

Section DecodeType.
Context (levels : nat) (child : D cerr LogicalType)
  (child_ok : dyields child (fun t => type_ok levels t = true)).

Abbreviation ok := (fun t => type_ok (S levels) t = true).

Lemma decodeStructField_ok :
  dyields (decodeStructField child) (fun '(MkField _ ft) => type_ok levels ft = true).
Proof.
  unfold decodeStructField. dyields_step. dyields_step. dyields_step; [apply dyields_dfail|].
  eapply dyields_dbind; [apply child_ok|]. intros ft Hft. dyields_step. by apply dyields_dret.
Qed.

Lemma yields_optField {A} id (m : M A) d (Q : A -> Prop) :
  yields m Q -> Q d -> yields (optField id m d) Q.
Proof.
  intros Hm Hd r. unfold optField, bind. destruct (Reader.TryField id r) as [[] r']; [apply Hm|apply Hd].
Qed.

Lemma yields_uwrap w : 0 <= w -> yields (let* v := Reader.Uvarint in ret (uwrap w v)) (fun v => in_ub w v = true).
Proof. intros Hw r. unfold bind. destruct (Reader.Uvarint r). by apply uwrap_ub. Qed.

Lemma decodeInfoKind_ok t kind : ok t -> dyields (decodeInfoKind child t kind) ok.
Proof.
  destruct t as [id w s c f e a]. cbn [type_ok]. rewrite !andb_true_iff.
  intros [[[[[? ?] ?] ?] ?] ?]. unfold decodeInfoKind.
  repeat match goal with |- dyields (if kind =? _ then _ else _) _ => destruct (kind =? _) end.
  - apply dyields_dret. cbn [type_ok]. rewrite !andb_true_iff. done.
  - eapply dyields_bind; [by apply (yields_optField _ _ _ (fun v => in_ub 8 v = true)); [apply yields_uwrap|]|].
    intros w' Hw.
    eapply dyields_bind; [by apply (yields_optField _ _ _ (fun v => in_ub 8 v = true)); [apply yields_uwrap|]|].
    intros s' Hs. apply dyields_dret. cbn [type_ok set_Scale set_Width]. rewrite !andb_true_iff. done.
  - dyields_step. apply dyields_dret. cbn [type_ok]. rewrite !andb_true_iff. done.
  - do 2 dyields_step; [done|]. eapply dyields_dbind; [apply child_ok|]. intros ct Hct.
    apply dyields_dret. cbn [type_ok set_Child]. rewrite !andb_true_iff. done.
  - do 2 dyields_step; [|apply dyields_dret; cbn [type_ok]; rewrite !andb_true_iff; done].
    dyields_step. eapply dyields_dbind; [apply dyields_drepeat, decodeStructField_ok|].
    intros fs [_ Hfs]. apply dyields_dret. cbn [type_ok set_Fields]. rewrite !andb_true_iff.
    repeat split; try done. apply forallb_Forall_eq. eapply Forall_impl; [done|]. by intros [].
  - do 5 dyields_step; [done|].
    apply dyields_dret. cbn [type_ok set_Enum]. rewrite !andb_true_iff. done.
  - do 2 dyields_step; [done|]. eapply dyields_dbind; [apply child_ok|]. intros ct Hct.
    eapply dyields_bind; [by apply (yields_optField _ _ _ (fun v => in_ub 32 v = true)); [apply yields_uwrap|]|].
    intros a' Ha. apply dyields_dret. cbn [type_ok set_ArraySize set_Child]. rewrite !andb_true_iff. done.
  - apply dyields_dfail.
Qed.

Lemma decodeTypeInfo_ok t : ok t -> dyields (decodeTypeInfo child t) ok.
Proof.
  intros Ht. unfold decodeTypeInfo. repeat match goal with
    |- dyields (dbind _ _) _ => fail 1 | _ => dyields_step end.
  eapply dyields_dbind; [by apply decodeInfoKind_ok|]. intros t' Ht'.
  dyields_step. by apply dyields_finish.
Qed.

End DecodeType.

Lemma decodeType_ok levels : dyields (decodeType levels) (fun t => type_ok levels t = true).
Proof.
  induction levels as [|levels IH]; [apply dyields_dfail|]. cbn [decodeType].
  assert (Hid : forall id, type_ok (S levels) (T (u32 id)) = true).
  { intros id. cbn [type_ok T]. rewrite uwrap_ub by lia. done. }
  do 4 dyields_step.
  eapply dyields_dbind with (P := fun t => type_ok (S levels) t = true).
  - dyields_step; [|by apply dyields_dret]. dyields_step.
    dyields_step; [by apply decodeTypeInfo_ok|by apply dyields_dret].
  - intros t Ht. dyields_step. by apply dyields_finish.
Qed.

(** ** Chunks *)

Lemma decodeColumn_ok count t :
  0 <= count <= maxChunkRows ->
  dyields (decodeColumn count t) (fun c => CType c = t /\ column_ok count c).
Proof.
  intros Hc. unfold decodeColumn. eapply dyields_bind.
  { intros r. apply decodeVector_ok. lia. }
  cbv beta. intros o Ho.
  eapply dyields_dbind with (P := fun c => CType c = t /\ column_ok count c).
  - destruct o as [v|e|]; [|destruct (isUnsupported e) eqn:E|done].
    + destruct Ho as (l & -> & Hl). by apply dyields_dret.
    + apply dyields_dret. by split.
    + apply dyields_dfail.
  - intros col Hcol. do 2 dyields_step. dyields_step; [done|]. by apply dyields_dret.
Qed.

Ltac until_dbind := repeat match goal with
  |- dyields (dbind _ _) _ => fail 1 | _ => dyields_step end.

Lemma decodeChunkContents_ok : dyields decodeChunkContents result_chunk_ok.
Proof.
  unfold decodeChunkContents. until_dbind. zify_bools.
  match goal with H : in_u 64 ?c |- _ => rename c into count; destruct H as [Hc _] end.
  eapply dyields_dbind; [apply dyields_drepeat, decodeType_ok|]. intros types [_ Hty].
  until_dbind.
  eapply dyields_dbind; [apply dyields_dmap; intros t _; apply decodeColumn_ok; lia|].
  intros cs Hcs. dyields_step. apply dyields_finish. split; [split; [cbn [rows]; lia|]|]; cbn [rows cols].
  - clear -Hcs. induction Hcs; constructor; tauto.
  - clear -Hcs Hty. induction Hcs as [|t c ts cs [<- _] _ IH]; inversion Hty; constructor; auto.
Qed.

Lemma decodeChunkList_ok : dyields decodeChunkList (Forall result_chunk_ok).
Proof.
  unfold decodeChunkList. until_dbind.
  eapply dyields_dbind; [apply (dyields_drepeat _ _ (fun o => from_option result_chunk_ok True o))|].
  - unfold decodeWrapper. until_dbind; [by apply dyields_dret|].
    eapply dyields_dbind; [apply decodeChunkContents_ok|]. intros ch Hch.
    dyields_step. by apply dyields_dret.
  - intros l [_ Hl]. apply dyields_finish. induction Hl as [|[c|] l Hc _ IH]; simpl; auto.
Qed.

Lemma optional_chunks_ok (p : bool) :
  dyields (if p then decodeChunkList else dret []) (Forall result_chunk_ok).
Proof. destruct p; [apply decodeChunkList_ok|by apply dyields_dret]. Qed.

Lemma optional_types_ok (p : bool) :
  dyields (if p then decodeTypeList else dret []) (Forall (fun t => type_ok (S maxTypeDepth) t = true)).
Proof.
  destruct p; [|by apply dyields_dret]. unfold decodeTypeList. dyields_step.
  intros r. eapply okP_weaken; [apply dyields_drepeat, decodeType_ok|]. by intros l [].
Qed.

Lemma prepareBody_ok : dyields prepareBody prepare_ok.
Proof.
  unfold prepareBody. dyields_step.
  eapply dyields_dbind; [apply optional_types_ok|]. intros types Hty. until_dbind.
  eapply dyields_dbind; [apply optional_chunks_ok|]. intros chunks Hch. until_dbind.
  apply dyields_finishWrap. split; cbn [Schema PChunks]; [|done].
  clear -Hty. apply Forall_lookup. intros i s Hs.
  apply lookup_zip_with_Some in Hs as (n & t & -> & _ & Ht). rewrite Forall_lookup in Hty.
  unfold schema_ok; cbn [SType]. eauto.
Qed.

Lemma fetchBody_ok : dyields fetchBody (fun f => Forall result_chunk_ok (FChunks f)).
Proof.
  unfold fetchBody. dyields_step.
  eapply dyields_dbind; [apply optional_chunks_ok|]. intros chunks Hch. until_dbind.
  by apply dyields_finishWrap.
Qed.

Lemma chunkBody_ok : dyields chunkBody result_chunk_ok.
Proof.
  unfold chunkBody. eapply dyields_dbind; [apply decodeChunkContents_ok|]. intros.
  by apply dyields_finish.
Qed.

(** A decoder's guarantee at a whole payload. *)
Lemma decode_okP {A} (m : D cerr A) (Q : A -> Prop) body : dyields m Q -> okP Q (decode m body).
Proof. intros Hm. apply Hm. Qed.

Lemma okP_not_panic {E A} (Q : A -> Prop) (o : outcome E A) : okP Q o -> o <> Panic.
Proof. by intros H ->. Qed.

(** ** Properties *)

(** C1: decoding never panics, whatever the bytes: each of [DecodePrepare],
    [DecodeFetch] and [DecodeChunk] returns an error or a result that keeps the
    codec's promises: at most 2^16 rows per chunk, and for each column either
    an unsupported-type error and no values or exactly one value per row, nil
    or of the Go type and range of the column's type; decoded type trees are at
    most 65 levels deep and their numbers are in range. *)
Theorem decode_safe (body : bytes) :
  okP prepare_ok (DecodePrepare body) /\
  okP (fun f => Forall result_chunk_ok (FChunks f)) (DecodeFetch body) /\
  okP result_chunk_ok (DecodeChunk body).
Proof.
  split; [|split]; apply decode_okP; [apply prepareBody_ok|apply fetchBody_ok|apply chunkBody_ok].
Qed.

(** A cell of a chunk that keeps the decoder's promises. *)
Lemma Chunk_Value_ok (c : Chunk) (col row : Z) : chunk_ok c ->
  match Chunk_Value c col row with
  | Ok v => exists cl, cols c !! Z.to_nat col = Some cl /\ vals cl !! Z.to_nat row = Some v
            /\ typed false (CType cl) v = true
  | Err e => (exists cl, cols c !! Z.to_nat col = Some cl /\ cerr_ cl = Some e /\ isUnsupported e = true)
             \/ (e = EValueIndex col row /\
                 ~ (0 <= col < ColumnCount c /\ 0 <= row < RowCount c))
  | Panic => False
  end.
Proof.
  intros [_ Hcols]. unfold Chunk_Value, ColumnCount, RowCount.
  destruct (_ || _) eqn:E.
  - right. split; [done|]. rewrite !orb_true_iff, !Z.ltb_lt, !Z.leb_le in E. lia.
  - zify_bools. unfold index at 1.
    destruct (lookup_lt_is_Some_2 (cols c) (Z.to_nat col) ltac:(lia)) as [cl Hcl].
    rewrite Hcl. cbn [obind]. rewrite Forall_lookup in Hcols. specialize (Hcols _ _ Hcl).
    unfold column_ok in Hcols. destruct (cerr_ cl) as [e|] eqn:Ee; [left; exists cl; by destruct Hcols|].
    destruct Hcols as [Hlen Hty]. unfold index.
    destruct (lookup_lt_is_Some_2 (vals cl) (Z.to_nat row) ltac:(lia)) as [v Hv].
    rewrite Hv. exists cl. rewrite Forall_lookup in Hty. eauto.
Qed.

(** C30: [Chunk.Value] on a decoded chunk never panics: in range it gives a
    value of the column's type or the column's unsupported-type error, out of
    range (negative included) it gives the index error. *)
Theorem chunk_value_total (body : bytes) (c : Chunk) (col row : Z)
    (H : DecodeChunk body = Ok c) :
  match Chunk_Value c col row with
  | Ok v => exists cl, cols c !! Z.to_nat col = Some cl /\ vals cl !! Z.to_nat row = Some v
            /\ typed false (CType cl) v = true
  | Err e => isUnsupported e = true
             \/ (e = EValueIndex col row /\
                 ~ (0 <= col < ColumnCount c /\ 0 <= row < RowCount c))
  | Panic => False
  end.
Proof.
  pose proof (decode_okP _ _ body chunkBody_ok) as Hok. unfold DecodeChunk in H. rewrite H in Hok.
  destruct Hok as [Hc _]. pose proof (Chunk_Value_ok c col row Hc) as Hv.
  destruct (Chunk_Value c col row) as [v|e|]; [done| |done]. destruct Hv as [(cl & _ & _ & Hu)|Hv]; auto.
Qed.

Lemma chunk_value_total_witness :
  exists c, DecodeChunk sample_chunk = Ok c /\ Chunk_Value c 0 0 = Ok (VInt32 7)
    /\ Chunk_Value c 0 1 = Ok VNil /\ Chunk_Value c 0 2 = Err (EValueIndex 0 2)
    /\ match Chunk_Value c 0 0 with
       | Ok v => exists cl, cols c !! 0%nat = Some cl /\ vals cl !! 0%nat = Some v
                 /\ typed false (CType cl) v = true
       | Err e => isUnsupported e = true
                  \/ (e = EValueIndex 0 0 /\ ~ (0 <= 0 < ColumnCount c /\ 0 <= 0 < RowCount c))
       | Panic => False
       end.
Proof.
  eexists. split; [vm_compute; reflexivity|]. split; [reflexivity|]. split; [reflexivity|].
  split; [reflexivity|]. apply (chunk_value_total sample_chunk). vm_compute. reflexivity.
Defined.

(** C18: a payload cut anywhere before the point where its decoder stops
    reading is rejected: no truncation is accepted as a shorter result. *)
Theorem truncation_rejected (body : bytes) (k : nat) :
  ((k < consumed prepareBody body)%nat -> is_ok (DecodePrepare (take k body)) = false) /\
  ((k < consumed fetchBody body)%nat -> is_ok (DecodeFetch (take k body)) = false) /\
  ((k < consumed chunkBody body)%nat -> is_ok (DecodeChunk (take k body)) = false).
Proof.
  split; [|split]; intros Hk; apply good_rejects_cut; auto with qser.
Qed.

Lemma truncation_rejected_witness :
  consumed chunkBody sample_chunk = length sample_chunk /\
  is_ok (DecodeChunk sample_chunk) = true /\
  is_ok (DecodeChunk (take 35 sample_chunk)) = false.
Proof.
  split; [vm_compute; reflexivity|]. split; [vm_compute; reflexivity|].
  apply truncation_rejected. vm_compute. lia.
Defined.

(** Bytes after the end of a result body do not change what is decoded. *)
Theorem trailing_ignored (body more : bytes) :
  (forall p, DecodePrepare body = Ok p -> DecodePrepare (body ++ more) = Ok p) /\
  (forall f, DecodeFetch body = Ok f -> DecodeFetch (body ++ more) = Ok f) /\
  (forall c, DecodeChunk body = Ok c -> DecodeChunk (body ++ more) = Ok c).
Proof.
  split; [|split]; intros x Hx; apply good_accepts_more; auto with qser.
Qed.

Lemma trailing_ignored_witness :
  exists c, DecodeChunk sample_chunk = Ok c /\ DecodeChunk (sample_chunk ++ sample_chunk) = Ok c.
Proof.
  eexists. split; [vm_compute; reflexivity|]. apply trailing_ignored. vm_compute. reflexivity.
Defined.
