(* ===== verification/Codectest.v ===== *)
(** * codec/codectest: the encoder of types, chunks and result bodies

    The writer calls of codectest.go as the bytes they append.  Its panics
    (type assertions, missing child types, ragged columns) are [Panic]; it
    returns no errors.  Float values are carried as their bits, so
    [math.Float32bits] is the identity. *)

From S2P Require Import Prelude Qser LogicalType Values Vector Chunk.

Record Col := MkCol { ColName : bytes; ColType : LogicalType; Vals : list any }.

Definition DecimalT (width scale : Z) : LogicalType := MkType TypeDecimal width scale None [] [] 0.

(** ** Types *)

Definition deref {A} (p : option A) : outcome cerr A :=
  match p with Some a => Ok a | None => Panic end.

(** [w.Field(101); w.Bool(true); w.FieldUvarint(100, kind); ...; w.End()]. *)
Definition typeInfo (kind : Z) (body : bytes) : bytes :=
  Writer.Field 101 ++ Writer.Bool true ++ Writer.FieldUvarint 100 kind ++ body ++ Writer.End_.

Definition writeField (name typ : bytes) : bytes :=
  Writer.FieldString 0 name ++ Writer.Field 1 ++ typ ++ Writer.End_.

Fixpoint WriteType (t : LogicalType) : outcome cerr bytes :=
  let '(MkType id width scale child fields enum asize) := t in
  let! info :=
    (if id =? TypeDecimal then
       Ok (typeInfo infoDecimal
             ((if width =? 0 then [] else Writer.FieldUvarint 200 width) ++
              (if scale =? 0 then [] else Writer.FieldUvarint 201 scale)))
     else if is_one_of id [TypeList; TypeMap] then
       match child with
       | None => Panic
       | Some c => let! w := WriteType c in Ok (typeInfo infoList (Writer.Field 200 ++ w))
       end
     else if is_one_of id [TypeStruct; TypeUnion; TypeVariant] then
       let! ws := omapM (fun f => let '(MkField n ft) := f in
                                  let! w := WriteType ft in Ok (writeField n w)) fields in
       Ok (typeInfo infoStruct
             (Writer.Field 200 ++ Writer.Uvarint (Z.of_nat (length fields)) ++ concat ws))
     else if id =? TypeEnum then
       Ok (typeInfo infoEnum
             (Writer.FieldUvarint 200 (Z.of_nat (length enum)) ++
              Writer.Field 201 ++ Writer.Uvarint (Z.of_nat (length enum)) ++
              concat (Writer.String_ <$> enum)))
     else if id =? TypeArray then
       match child with
       | None => Panic
       | Some c =>
           let! w := WriteType c in
           Ok (typeInfo infoArray
                 (Writer.Field 200 ++ w ++
                  (if asize =? 0 then [] else Writer.FieldUvarint 201 asize)))
       end
     else Ok []) in
  Ok (Writer.FieldUvarint 100 id ++ info ++ Writer.End_).

(** ** Cells *)

Definition is_nil (v : any) : bool := match v with VNil => true | _ => false end.

(** [nz[T](v)]: the zero value for nil, else the type assertion [v.(T)]. *)
Definition nz {A} (zero : A) (assert : any -> option A) (v : any) : outcome cerr A :=
  if is_nil v then Ok zero else deref (assert v).

Definition as_bool v := match v with VBool b => Some b | _ => None end.
Definition as_int8 v := match v with VInt8 z => Some z | _ => None end.
Definition as_int16 v := match v with VInt16 z => Some z | _ => None end.
Definition as_int32 v := match v with VInt32 z => Some z | _ => None end.
Definition as_int64 v := match v with VInt64 z => Some z | _ => None end.
Definition as_uint8 v := match v with VUint8 z => Some z | _ => None end.
Definition as_uint16 v := match v with VUint16 z => Some z | _ => None end.
Definition as_uint32 v := match v with VUint32 z => Some z | _ => None end.
Definition as_uint64 v := match v with VUint64 z => Some z | _ => None end.
Definition as_float32 v := match v with VFloat32 z => Some z | _ => None end.
Definition as_float64 v := match v with VFloat64 z => Some z | _ => None end.
Definition as_instant v := match v with VInstant t => Some t | _ => None end.
Definition as_time v := match v with VTime z => Some z | _ => None end.
Definition as_timens v := match v with VTimeNS z => Some z | _ => None end.
Definition as_timetz v := match v with VTimeTZ z => Some z | _ => None end.
Definition as_bigint v := match v with VBigInt z => Some z | _ => None end.
Definition as_decimal v := match v with VDecimal d => Some d | _ => None end.
Definition as_uuid v := match v with VUUID u => Some u | _ => None end.
Definition as_interval v := match v with VInterval i => Some i | _ => None end.
Definition as_string v := match v with VString s => Some s | _ => None end.

(** [if v != nil { x = f(v.(T)) }] with [x] zero before. *)
Definition nzmap {A B} (zero : B) (assert : any -> option A) (f : A -> B) (v : any) : outcome cerr B :=
  nz zero (fun v => f <$> assert v) v.

(** The halves of [v] as a 128-bit two's complement integer; [Uint64] of a
    big integer gives its low 64 bits. *)
Definition int128parts (v : Z) : Z * Z :=
  let b := if v <? 0 then v + Z.shiftl 1 128 else v in
  (i64 (u64 (Z.abs (Z.shiftr b 64))), u64 (Z.abs b)).

Definition appendDecimal (t : LogicalType) (v : any) : outcome cerr bytes :=
  let! (hi, lo) := nzmap (0, 0) as_decimal (fun d => int128parts (BigInt d)) v in
  Ok (if Width t <=? 4 then le_bytes 2 (u16 lo)
      else if Width t <=? 9 then le_bytes 4 (u32 lo)
      else if Width t <=? 18 then le_bytes 8 lo
      else le_bytes 8 lo ++ le_bytes 8 (u64 hi)).

(** The position of [s] in the enum dictionary. *)
Fixpoint enum_index (s : bytes) (enum : list bytes) (i : Z) : option Z :=
  match enum with
  | [] => None
  | e :: enum => if bool_decide (e = s) then Some i else enum_index s enum (i + 1)
  end.

(** [binary.BigEndian.Uint64(u[a:a+8])]. *)
Definition be_uint64 (u : bytes) (a : nat) : Z := le_int (rev (take 8 (drop a u))).

Definition timetz_bits (tz : TimeTZ) : Z :=
  Z.lor (u64 (Z.shiftl (u64 (Micros tz)) 24))
        (Z.land (u32 (i32 (timeTZMaxOffset - Offset tz))) 0xFFFFFF).

(** [ts.Unix()], [ts.UnixMilli()], ... by the column's type. *)
Definition timestamp_count (id : Z) (ts : time) : Z :=
  if id =? TypeTimestampSec then Unix ts
  else if id =? TypeTimestampMS then UnixMilli ts
  else if id =? TypeTimestampNS then UnixNano ts
  else UnixMicro ts.

Definition appendCell (t : LogicalType) (v : any) : outcome cerr bytes :=
  let id := ID t in
  if id =? TypeBoolean then
    let! b := nz false as_bool v in Ok (le_bytes 1 (if b then 1 else 0))
  else if id =? TypeTinyint then let! z := nz 0 as_int8 v in Ok (le_bytes 1 (u8 z))
  else if id =? TypeUTinyint then let! z := nz 0 as_uint8 v in Ok (le_bytes 1 z)
  else if id =? TypeSmallint then let! z := nz 0 as_int16 v in Ok (le_bytes 2 (u16 z))
  else if id =? TypeUSmallint then let! z := nz 0 as_uint16 v in Ok (le_bytes 2 z)
  else if id =? TypeInteger then let! z := nz 0 as_int32 v in Ok (le_bytes 4 (u32 z))
  else if id =? TypeUInteger then let! z := nz 0 as_uint32 v in Ok (le_bytes 4 z)
  else if id =? TypeBigint then let! z := nz 0 as_int64 v in Ok (le_bytes 8 (u64 z))
  else if id =? TypeUBigint then let! z := nz 0 as_uint64 v in Ok (le_bytes 8 z)
  else if id =? TypeFloat then let! z := nz 0 as_float32 v in Ok (le_bytes 4 z)
  else if id =? TypeDouble then let! z := nz 0 as_float64 v in Ok (le_bytes 8 z)
  else if id =? TypeDate then
    let! days := nzmap 0 as_instant (fun ts => Z.quot (Unix ts) 86400) v in
    Ok (le_bytes 4 (u32 (i32 days)))
  else if id =? TypeTime then let! z := nz 0 as_time v in Ok (le_bytes 8 (u64 z))
  else if is_one_of id [TypeTimestampSec; TypeTimestampMS; TypeTimestamp; TypeTimestampNS;
                        TypeTimestampTZ] then
    let! n := nzmap 0 as_instant (timestamp_count id) v in Ok (le_bytes 8 (u64 n))
  else if id =? TypeDecimal then appendDecimal t v
  else if is_one_of id [TypeHugeint; TypeUHugeint] then
    let! (hi, lo) := nzmap (0, 0) as_bigint int128parts v in
    Ok (le_bytes 8 lo ++ le_bytes 8 (u64 hi))
  else if id =? TypeUUID then
    let! (hi, lo) := nzmap (0, 0) as_uuid
      (fun u => (Z.lxor (be_uint64 u 0) (2 ^ 63), be_uint64 u 8)) v in
    Ok (le_bytes 8 lo ++ le_bytes 8 hi)
  else if id =? TypeInterval then
    let! iv := nz (MkInterval 0 0 0) as_interval v in
    Ok (le_bytes 4 (u32 (Months iv)) ++ le_bytes 4 (u32 (Days iv)) ++ le_bytes 8 (u64 (IMicros iv)))
  else if id =? TypeTimeTZ then
    let! bits := nzmap 0 as_timetz timetz_bits v in Ok (le_bytes 8 bits)
  else if id =? TypeTimeNS then let! z := nz 0 as_timens v in Ok (le_bytes 8 (u64 z))
  else if id =? TypeEnum then
    let! idx := nz 0 (fun v => s ← as_string v; enum_index s (Enum t) 0) v in
    let n := Z.of_nat (length (Enum t)) in
    Ok (if n <=? 255 then le_bytes 1 (u8 idx)
        else if n <=? 65535 then le_bytes 2 (u16 idx)
        else le_bytes 4 (u32 idx))
  else Panic.

(** ** Validity and BIT blobs *)

(** [out[i] |= b]. *)
Definition or_byte (i : nat) (b : Z) (out : bytes) : bytes :=
  alter (fun x => bz (Z.lor (ub x) b)) i out.

(** The mask proper: eight-byte entries, one bit per non-nil row. *)
Definition mask_bits (vals : list any) : bytes :=
  snd (foldl (fun '(i, mask) v =>
         (S i, if is_nil v then mask else or_byte (i / 8) (Z.shiftl 1 (Z.of_nat (i mod 8))) mask))
       (0%nat, replicate ((length vals + 63) / 64 * 8) Byte.x00) vals).

Definition validityMask (vals : list any) : option bytes :=
  if existsb is_nil vals then Some (mask_bits vals) else None.

(** The loop over the characters, from bit position [at]; [None] is the panic
    on a character other than 0 and 1. *)
Fixpoint bit_loop (s : bytes) (pos : nat) (out : bytes) : option bytes :=
  match s with
  | [] => Some out
  | c :: s =>
      if negb (ub c =? 48) && negb (ub c =? 49) then None
      else bit_loop s (S pos)
             (or_byte (1 + pos / 8) (u8 (Z.shiftl (ub c - 48) (7 - Z.of_nat (pos mod 8)))) out)
  end.

Definition bitBlob (s : bytes) : outcome cerr bytes :=
  let padding := ((8 - length s mod 8) mod 8)%nat in
  match s with
  | [] => Ok [bz 0]
  | _ =>
      let out := bz (Z.of_nat padding) :: replicate ((length s + padding) / 8) Byte.x00 in
      let! out := deref (bit_loop s padding out) in
      Ok (foldl (fun out i => or_byte 1 (Z.shiftl 1 (7 - Z.of_nat i)) out) out (seq 0 padding))
  end.

(** ** Vectors *)

(** One element of a VARCHAR, BLOB or BIT vector. *)
Definition stringCell (id : Z) (v : any) : outcome cerr bytes :=
  match v with
  | VNil => Ok (Writer.String_ [])
  | VString s =>
      if id =? TypeBit then let! b := bitBlob s in Ok (Writer.BytesVal b)
      else Ok (Writer.String_ s)
  | VBytes b => Ok (Writer.BytesVal b)
  | _ => Panic
  end.

(** Column [j] of a STRUCT vector. *)
Definition structColumn (j : nat) (vals : list any) : outcome cerr (list any) :=
  omapM (fun v => match v with
                  | VStruct s => let! e := index s j in Ok (EValue e)
                  | _ => Ok VNil
                  end) vals.

(** The elements a LIST or MAP row adds to the child vector. *)
Definition listElems (child : option LogicalType) (v : any) : outcome cerr (list any) :=
  match v with
  | VNil => Ok []
  | VSlice l => Ok l
  | VMap l =>
      omapM (fun e =>
        let! c := deref child in
        let! f0 := index (Fields c) 0 in
        let! f1 := index (Fields c) 1 in
        Ok (VStruct [MkEntry (Name f0) (Key e); MkEntry (Name f1) (Value e)])) l
  | _ => Panic
  end.

Fixpoint listWindows (rows : list (list any)) (off : Z) : list (Z * Z) :=
  match rows with
  | [] => []
  | r :: rows => (off, Z.of_nat (length r)) :: listWindows rows (off + Z.of_nat (length r))
  end.

Definition writeEntry (e : Z * Z) : bytes :=
  Writer.FieldUvarint 100 (fst e) ++ Writer.FieldUvarint 101 (snd e) ++ Writer.End_.

(** The elements an ARRAY row adds to the child vector. *)
Definition arrayElems (size : Z) (v : any) : outcome cerr (list any) :=
  match v with
  | VNil => Ok (replicate (Z.to_nat size) VNil)
  | VSlice l => if Z.of_nat (length l) =? size then Ok l else Panic
  | _ => Panic
  end.

Definition writeValidity (vals : list any) : bytes :=
  match validityMask vals with
  | None => Writer.FieldBool 100 false
  | Some m => Writer.FieldBool 100 true ++ Writer.FieldBytes 101 m
  end.

(** [for j, f := range fields] with a body that yields one element per turn. *)
Fixpoint omapMi {A B} (f : nat -> A -> outcome cerr B) (j : nat) (l : list A) : outcome cerr (list B) :=
  match l with
  | [] => Ok []
  | x :: l => let! y := f j x in let! ys := omapMi f (S j) l in Ok (y :: ys)
  end.

Fixpoint writeVector (t : LogicalType) (vals : list any) : outcome cerr bytes :=
  let '(MkType id width scale child fields enum asize) := t in
  let! body :=
    (if is_one_of id [TypeVarchar; TypeBlob; TypeBit] then
       let! cells := omapM (stringCell id) vals in
       Ok (Writer.Field 102 ++ Writer.Uvarint (Z.of_nat (length vals)) ++ concat cells)
     else if id =? TypeStruct then
       let! ws := omapMi (fun j f => let '(MkField _ ft) := f in
                                     let! col := structColumn j vals in
                                     let! w := writeVector ft col in
                                     Ok (w ++ Writer.End_)) 0 fields in
       Ok (Writer.Field 103 ++ Writer.Uvarint (Z.of_nat (length fields)) ++ concat ws)
     else if is_one_of id [TypeList; TypeMap] then
       let! rows := omapM (listElems child) vals in
       let elems := concat rows in
       match child with
       | None => Panic
       | Some c =>
           let! w := writeVector c elems in
           Ok (Writer.FieldUvarint 104 (Z.of_nat (length elems)) ++
               Writer.Field 105 ++ Writer.Uvarint (Z.of_nat (length vals)) ++
               concat (writeEntry <$> listWindows rows 0) ++
               Writer.Field 106 ++ w ++ Writer.End_)
       end
     else if id =? TypeArray then
       let! rows := omapM (arrayElems asize) vals in
       match child with
       | None => Panic
       | Some c =>
           let! w := writeVector c (concat rows) in
           Ok (Writer.FieldUvarint 103 asize ++ Writer.Field 104 ++ w ++ Writer.End_)
       end
     else
       let! cells := omapM (appendCell t) vals in
       Ok (Writer.FieldBytes 102 (concat cells))) in
  Ok (writeValidity vals ++ body).

(** ** Chunks and result bodies *)

Definition WriteChunk (cols : list Col) : outcome cerr bytes :=
  let rows := match cols with [] => 0%nat | c :: _ => length (Vals c) end in
  let! types := omapM (fun c => WriteType (ColType c)) cols in
  let! vectors := omapM (fun c =>
      if negb (length (Vals c) =? rows)%nat then Panic
      else let! w := writeVector (ColType c) (Vals c) in Ok (w ++ Writer.End_)) cols in
  Ok (Writer.FieldUvarint 100 (Z.of_nat rows) ++
      Writer.Field 101 ++ Writer.Uvarint (Z.of_nat (length cols)) ++ concat types ++
      Writer.Field 102 ++ Writer.Uvarint (Z.of_nat (length cols)) ++ concat vectors ++
      Writer.End_).

Definition EncodeChunk (cols : list Col) : outcome cerr bytes := WriteChunk cols.

Definition writeChunkList (chunks : list (list Col)) : outcome cerr bytes :=
  let! ws := omapM (fun cols =>
      let! w := WriteChunk cols in
      Ok (Writer.Bool true ++ Writer.Field 300 ++ w ++ Writer.End_)) chunks in
  Ok (Writer.Uvarint (Z.of_nat (length chunks)) ++ concat ws).

Definition EncodePrepareBody (cols : list Col) (inline : list (list Col)) (needsMore : bool)
    (uuid : hugeint) : outcome cerr bytes :=
  let! schema :=
    (match cols with
     | [] => Ok []
     | _ =>
         let! types := omapM (fun c => WriteType (ColType c)) cols in
         Ok (Writer.Field 1 ++ Writer.Uvarint (Z.of_nat (length cols)) ++ concat types ++
             Writer.Field 2 ++ Writer.Uvarint (Z.of_nat (length cols)) ++
             concat (fmap (fun c => Writer.String_ (ColName c)) cols))
     end) in
  let more := if needsMore then Writer.FieldBool 3 true else [] in
  let! chunks :=
    (match inline with
     | [] => Ok []
     | _ => let! w := writeChunkList inline in Ok (Writer.Field 4 ++ w)
     end) in
  Ok (schema ++ more ++ chunks ++ Writer.FieldHugeint 5 uuid ++ Writer.End_).

Definition EncodeFetchBody (chunks : list (list Col)) (batchIndex : Z) : outcome cerr bytes :=
  let! body :=
    (match chunks with
     | [] => Ok []
     | _ => let! w := writeChunkList chunks in Ok (Writer.Field 1 ++ w)
     end) in
  Ok (body ++ Writer.FieldUvarint 2 batchIndex ++ Writer.End_).
