(* ===== verification/RoundtripCells.v ===== *)
(** * What the encoder writes for one row decodes back

    Fixed-width cells, BIT blobs and validity masks: [appendCell], [bitBlob]
    and [mask_bits] against [decodeCell], [bitString] and [valid]. *)

From S2P Require Import Prelude Qser QserLib LogicalType GoFmt Values Vector Chunk CodecTypes Codectest.

(** ** Little-endian fields *)

Lemma le_uint_bytes n z tl : le_uint n (le_bytes n z ++ tl) = Ok (uwrap (8 * Z.of_nat n) z).
Proof.
  unfold le_uint. rewrite length_app, length_le_bytes. rewrite (proj2 (Nat.ltb_ge _ _)) by lia.
  rewrite take_app_le by (rewrite length_le_bytes; lia).
  rewrite take_ge by (rewrite length_le_bytes; lia). by rewrite le_int_bytes.
Qed.

Lemma le_uint_bytes_nil n z : le_uint n (le_bytes n z) = Ok (uwrap (8 * Z.of_nat n) z).
Proof. rewrite <- (app_nil_r (le_bytes n z)). apply le_uint_bytes. Qed.

Lemma index_le_bytes_1 z : index (le_bytes 1 z) 0 = Ok (bz z).
Proof. Transparent le_bytes. done. Opaque le_bytes. Qed.

Lemma slice_app_l {A} (a b : list A) n : length a = n -> slice (a ++ b) 0 n = Ok a.
Proof.
  intros <-. unfold slice. rewrite length_app, (proj2 (Nat.leb_le _ _)) by lia.
  rewrite (proj2 (Nat.leb_le (length a) _)) by lia. simpl.
  by rewrite Nat.sub_0_r, drop_0, take_app_length.
Qed.

Lemma slice_app_r {A} (a b : list A) n m :
  length a = n -> m = (n + length b)%nat -> slice (a ++ b) n m = Ok b.
Proof.
  intros <- ->. rewrite <- length_app. unfold slice. rewrite length_app, (proj2 (Nat.leb_le _ _)) by lia.
  rewrite Nat.leb_refl. simpl. rewrite drop_app_length. f_equal. apply take_ge. lia.
Qed.

Lemma swrap_id w z : 0 < w -> in_s w z -> swrap w (uwrap w z) = z.
Proof. intros. rewrite swrap_uwrap by done. by apply swrap_small. Qed.

Lemma uwrap_idem w z : 0 <= w -> uwrap w (uwrap w z) = uwrap w z.
Proof. intros. by apply uwrap_small, uwrap_in. Qed.

Lemma halves hi lo : in_u 64 lo ->
  (lo + Z.shiftl hi 64) / 2 ^ 64 = hi /\ (lo + Z.shiftl hi 64) mod 2 ^ 64 = lo.
Proof.
  intros Hlo. rewrite Z.shiftl_mul_pow2 by lia.
  rewrite Z.div_add, Z_mod_plus_full by lia. split; [|by apply Z.mod_small].
  rewrite (Z.div_small lo) by apply Hlo. lia.
Qed.

(** The 128-bit halves of a sum of halves. *)
Lemma int128parts_halves hi lo : in_s 64 hi -> in_u 64 lo -> int128parts (lo + Z.shiftl hi 64) = (hi, lo).
Proof.
  intros Hhi Hlo. pose proof (halves hi lo Hlo) as [Hd Hm]. unfold int128parts.
  set (v := lo + Z.shiftl hi 64) in *.
  pose proof (Z.div_mod v (2 ^ 64) ltac:(lia)) as Hv.
  rewrite (Z.shiftl_mul_pow2 1) by lia. unfold in_s, in_u in *.
  assert (E : forall b, 0 <= b -> b mod 2 ^ 64 = lo -> (exists k, b / 2 ^ 64 = hi + k * 2 ^ 64) ->
    (i64 (u64 (Z.abs (Z.shiftr b 64))), u64 (Z.abs b)) = (hi, lo)).
  { intros b Hb Hbm [k Hk]. rewrite Z.shiftr_div_pow2 by lia.
    pose proof (Z.div_pos b (2 ^ 64) Hb ltac:(lia)).
    rewrite !Z.abs_eq by lia. f_equal; [|done].
    rewrite swrap_uwrap, Hk, swrap_shift by lia. by apply swrap_small. }
  destruct (v <? 0) eqn:Hneg; zify_bools; apply E.
  - rewrite Hd, Hm in Hv. lia.
  - rewrite <- Hm. replace (1 * 2 ^ 128) with (2 ^ 64 * 2 ^ 64) by lia. by rewrite Z_mod_plus_full.
  - exists 1. replace (1 * 2 ^ 128) with (2 ^ 64 * 2 ^ 64) by lia. rewrite Z.div_add by lia. lia.
  - done.
  - done.
  - exists 0. lia.
Qed.

(** ** Cells *)

(** What [appendCell] promises for a typed value: a cell of the type's width
    that decodes to the value. *)
Definition cell_ok (t : LogicalType) (v : any) : Prop :=
  exists c, appendCell t v = Ok c /\ Z.of_nat (length c) = physicalWidth t /\
            (is_nil v = false -> decodeCell t c = Ok v).

(** Unfolds the type dispatch of [appendCell] and [decodeCell] at a concrete
    type id. *)
Ltac dispatch :=
  cbv beta iota zeta delta [cell_ok appendCell decodeCell physicalWidth ID Z.eqb Pos.eqb is_one_of existsb orb
    nz nzmap is_nil deref option_fmap option_map fmap obind as_bool as_int8 as_int16 as_int32 as_int64
    as_uint8 as_uint16 as_uint32 as_uint64 as_float32 as_float64 as_instant as_time as_timens
    as_timetz as_bigint as_decimal as_uuid as_interval as_string
    TypeInvalid TypeSQLNull TypeBoolean TypeTinyint TypeSmallint TypeInteger TypeBigint TypeDate
    TypeTime TypeTimestampSec TypeTimestampMS TypeTimestamp TypeTimestampNS TypeDecimal TypeFloat
    TypeDouble TypeVarchar TypeBlob TypeInterval TypeUTinyint TypeUSmallint TypeUInteger TypeUBigint
    TypeTimestampTZ TypeTimeTZ TypeTimeNS TypeBit TypeUHugeint TypeHugeint TypeUUID TypeGeometry
    TypeStruct TypeList TypeMap TypeEnum TypeUnion TypeArray TypeVariant].

Ltac split_cell := eexists; split; [reflexivity|]; split;
  [rewrite ?length_app, ?length_le_bytes; reflexivity|intros _].

Ltac cell_ids Hty :=
  cbn [typed] in Hty; rewrite ?orb_true_iff, ?andb_true_iff, ?orb_true_iff, ?andb_true_iff, ?Z.eqb_eq, ?in_sb_spec, ?in_ub_spec in Hty.

Lemma ub_bz_u8 z : ub (bz z) = u8 z.
Proof. apply ub_bz. Qed.

Ltac norm_widths := rewrite ?ub_bz_u8;
  change (8 * Z.of_nat 2) with 16; change (8 * Z.of_nat 4) with 32; change (8 * Z.of_nat 8) with 64.

Section Cell.
Context (w sc : Z) (child : option LogicalType) (fields : list StructField) (enum : list bytes) (asize : Z).
Abbreviation ty id := (MkType id w sc child fields enum asize).


Lemma cell_ints id v :
  typed true (ty id) v = true ->
  match v with
  | VBool _ | VInt8 _ | VInt16 _ | VInt32 _ | VInt64 _ | VUint8 _ | VUint16 _ | VUint32 _ | VUint64 _
  | VFloat32 _ | VFloat64 _ | VTime _ | VTimeNS _ => True
  | _ => False
  end -> cell_ok (ty id) v.
Proof.
  intros Hty Hv. destruct v; try done; cell_ids Hty;
    repeat match goal with H : _ /\ _ |- _ => destruct H end;
    subst id; dispatch; split_cell;
    rewrite ?index_le_bytes_1, ?le_uint_bytes_nil; cbv beta iota; norm_widths;
    do 2 f_equal; try (by destruct b);
    rewrite ?uwrap_idem by lia; rewrite ?swrap_id, ?uwrap_small by (done || lia); done.
Qed.

Lemma cell_instant id ts :
  typed true (ty id) (VInstant ts) = true -> cell_ok (ty id) (VInstant ts).
Proof.
  intros Hty. cell_ids Hty. destruct Hty as [[[-> Hd] Hts]|[[Hid Hts] Hs]].
  - apply andb_true_iff in Hts as [Hs Hn]. apply Z.eqb_eq in Hs, Hn. destruct ts as [s ns].
    change (s = s / 86400 * 86400) in Hs. change (ns = 0) in Hn. subst ns. unfold Unix in *. cbn [t_sec] in *.
    assert (E : Z.quot s 86400 = s / 86400).
    { rewrite Hs at 1. by rewrite Z.quot_mul by lia. }
    dispatch. split_cell. rewrite le_uint_bytes_nil. cbv beta iota. norm_widths.
    rewrite uwrap_idem, swrap_id by (try lia; by apply swrap_in).
    unfold Unix; cbn [t_sec]. rewrite E, swrap_small by done.
    unfold dateValue, time_Unix. cbn. do 3 f_equal. lia.
  - unfold time_eqb in Hts. zify_bools.
    assert (E : ts = timestampValue id (stamp id ts)).
    { destruct ts, (timestampValue _ _). simpl in *. congruence. }
    cbn [is_one_of existsb timestamp_ids] in Hid. rewrite !orb_true_iff, !Z.eqb_eq in Hid.
    destruct Hid as [->|[->|[->|[->|[->|]]]]]; try done; dispatch; split_cell;
      rewrite le_uint_bytes_nil; cbv beta iota; norm_widths; rewrite uwrap_idem, swrap_id by (done || lia);
      do 2 f_equal; symmetry; exact E.
Qed.

Lemma decimal_fits hi lo n : (n = 16 \/ n = 32 \/ n = 64) -> in_s 64 hi -> in_u 64 lo ->
  in_s n (lo + Z.shiftl hi 64) ->
  Z.shiftr (swrap n lo) 63 = hi /\ u64 (swrap n lo) = lo.
Proof.
  intros Hn Hhi Hlo HB. pose proof (halves hi lo Hlo) as [Hd Hm].
  set (B := lo + Z.shiftl hi 64) in *.
  assert (E : swrap n lo = B).
  { replace lo with (B + (- hi * 2 ^ (64 - n)) * 2 ^ n) at 1.
    - rewrite swrap_shift. apply swrap_small; [lia|done].
    - unfold B. rewrite Z.shiftl_mul_pow2 by lia. destruct Hn as [->|[->| ->]]; lia. }
  rewrite E. split; [|done]. rewrite Z.shiftr_div_pow2 by lia.
  unfold in_s in HB.
  assert (- 2 ^ 63 <= B < 2 ^ 63).
  { destruct Hn as [->|[->| ->]]; cbn in HB |- *; lia. }
  rewrite <- Hd. pose proof (Z.div_mod B (2 ^ 64) ltac:(lia)). rewrite Hm in *.
  destruct (Z.lt_ge_cases B 0).
  - rewrite <- (Z.div_unique_pos B (2 ^ 63) (-1) (B + 2 ^ 63)) by lia.
    rewrite <- (Z.div_unique_pos B (2 ^ 64) (-1) (B + 2 ^ 64)) by lia. done.
  - rewrite !Z.div_small by lia. done.
Qed.

Lemma cell_decimal id d : typed true (ty id) (VDecimal d) = true -> cell_ok (ty id) (VDecimal d).
Proof.
  intros Hty. cell_ids Hty. destruct Hty as [-> Hd]. unfold decimal_typed in Hd.
  rewrite !andb_true_iff, !Z.eqb_eq, !in_sb_spec, in_ub_spec in Hd.
  cbn [Width Scale] in Hd. destruct d as [dw ds h l]. cbn [DWidth DScale hi lo] in Hd.
  destruct Hd as [[[[-> ->] Hh] Hl] HB]. unfold BigInt, int128Big in HB. cbn [hi lo] in HB.
  revert HB. dispatch. unfold appendDecimal, nzmap, nz, is_nil, as_decimal, deref, BigInt, int128Big.
  cbn [fmap option_fmap option_map hi lo Width]. rewrite int128parts_halves by done. cbn [obind].
  unfold decodeDecimalCell, newDecimal. cbn [Width Scale].
  repeat match goal with |- context [if w <=? ?n then _ else _] => destruct (w <=? n) end; intros HB;
    split_cell; rewrite ?length_app, ?length_le_bytes; cbn [Nat.eqb Nat.add].
  1-3: rewrite le_uint_bytes_nil; cbn [obind]; norm_widths; rewrite ?uwrap_idem, swrap_uwrap by lia;
       
       change (8 * 2) with 16 in HB; change (8 * 4) with 32 in HB; change (8 * 8) with 64 in HB;
       apply decimal_fits in HB as [-> ->]; auto.
  rewrite slice_app_l by apply length_le_bytes. cbn [obind]. rewrite le_uint_bytes_nil. cbn [obind].
  rewrite slice_app_r by (rewrite ?length_le_bytes; done). cbn [obind]. rewrite le_uint_bytes_nil.
  cbn [obind]. norm_widths. rewrite uwrap_idem, swrap_id, uwrap_small by (done || lia). done.
Qed.

(** The wide cells: a low and a high half. *)
Lemma le_halves a b : exists hb,
  slice (le_bytes 8 a ++ le_bytes 8 b) 8 (length (le_bytes 8 a ++ le_bytes 8 b)) = Ok hb /\
  le_uint 8 hb = Ok (u64 b) /\
  exists lb, slice (le_bytes 8 a ++ le_bytes 8 b) 0 8 = Ok lb /\ le_uint 8 lb = Ok (u64 a).
Proof.
  exists (le_bytes 8 b).
  rewrite slice_app_r by (rewrite ?length_app, ?length_le_bytes; done).
  split; [done|]. split; [apply le_uint_bytes_nil|]. exists (le_bytes 8 a).
  rewrite slice_app_l by apply length_le_bytes. split; [done|]. apply le_uint_bytes_nil.
Qed.

Ltac use_halves a b :=
  destruct (le_halves a b) as (hb & E1 & E2 & lb & E3 & E4);
  rewrite ?E1, ?E3; cbv beta iota; rewrite ?E2, ?E4; cbv beta iota.

Lemma cell_bigint id z : typed true (ty id) (VBigInt z) = true -> cell_ok (ty id) (VBigInt z).
Proof.
  intros Hty. cell_ids Hty. set (h := z / 2 ^ 64). set (l := z mod 2 ^ 64).
  assert (Hl : in_u 64 l) by (apply Z.mod_pos_bound; lia).
  assert (Ez : z = l + Z.shiftl h 64).
  { rewrite Z.shiftl_mul_pow2 by lia. pose proof (Z.div_mod z (2 ^ 64) ltac:(lia)). lia. }
  assert (Eh : h = z / 2 ^ 64) by done. assert (El : l = z mod 2 ^ 64) by done. clearbody h l.
  destruct Hty as [[-> Hz]|[-> Hz]]; dispatch.
  - assert (Hh : in_s 64 h).
    { unfold in_s in *. unfold in_u in Hl. rewrite Z.shiftl_mul_pow2 in Ez by lia.
      clear -Hz Ez Hl. simpl in *. lia. }
    rewrite Ez, int128parts_halves by done. split_cell. use_halves l (u64 h).
    rewrite uwrap_idem, swrap_id, uwrap_small by (done || lia). done.
  - (* unsigned: the high half is read back without its sign *)
    assert (Hp : int128parts z = (i64 h, l)).
    { unfold int128parts. unfold in_u in Hz. destruct (z <? 0) eqn:E; [blia|].
      rewrite Z.shiftr_div_pow2, <- Eh by lia.
      assert (0 <= h) by (rewrite Eh; apply Z.div_pos; lia).
      rewrite !Z.abs_eq, swrap_uwrap, El by lia. done. }
    rewrite Hp. split_cell. use_halves l (u64 (i64 h)).
    rewrite uwrap_idem, uwrap_swrap, (uwrap_small 64 l) by (done || lia).
    rewrite uwrap_small; [unfold uint128Big; by rewrite <- Ez|].
    rewrite Eh. unfold in_u in *. split; [apply Z.div_pos; lia|]. apply Z.div_lt_upper_bound; [lia|]. simpl in *; lia.
Qed.

Lemma lxor_in_u n a b : 0 <= n -> in_u n a -> in_u n b -> in_u n (Z.lxor a b).
Proof.
  intros Hn Ha Hb. rewrite <- (uwrap_small n a Ha), <- (uwrap_small n b Hb). unfold uwrap.
  rewrite <- !Z.land_ones by done.
  replace (Z.lxor _ _) with (Z.land (Z.lxor a b) (Z.ones n)).
  - rewrite Z.land_ones by done. by apply uwrap_in.
  - apply Z.bits_inj'. intros m Hm. rewrite !Z.land_spec, !Z.lxor_spec, !Z.land_spec.
    by destruct (Z.testbit a m), (Z.testbit b m), (Z.testbit (Z.ones n) m).
Qed.

Lemma be_uint64_range u a : in_u 64 (be_uint64 u a).
Proof.
  unfold be_uint64. pose proof (le_int_range (rev (take 8 (drop a u)))) as H.
  rewrite length_rev, length_take in H. unfold in_u in *.
  assert (2 ^ (8 * Z.of_nat (8 `min` length (drop a u))) <= 2 ^ 64) by (apply Z.pow_le_mono_r; lia). lia.
Qed.

Lemma be_uint64_bytes u a : (a + 8 <= length u)%nat -> rev (le_bytes 8 (be_uint64 u a)) = take 8 (drop a u).
Proof.
  intros H. unfold be_uint64. rewrite <- (rev_involutive (take 8 (drop a u))) at 2. f_equal.
  rewrite <- le_bytes_int. f_equal. rewrite length_rev, length_take, length_drop. lia.
Qed.

Lemma cell_uuid id u : typed true (ty id) (VUUID u) = true -> cell_ok (ty id) (VUUID u).
Proof.
  intros Hty. cell_ids Hty. destruct Hty as [-> Hu]. apply Nat.eqb_eq in Hu. dispatch.
  pose proof (be_uint64_range u 0) as H0. pose proof (be_uint64_range u 8) as H8.
  pose proof (be_uint64_bytes u 0 ltac:(lia)) as B0. pose proof (be_uint64_bytes u 8 ltac:(lia)) as B8.
  set (h := be_uint64 u 0) in *. set (l := be_uint64 u 8) in *. clearbody h l.
  split_cell. use_halves l (Z.lxor h (2 ^ 63)).
  rewrite !uwrap_small by (try done; apply lxor_in_u; by try lia).
  rewrite Z.lxor_assoc, Z.lxor_nilpotent, Z.lxor_0_r. unfold be_halves. rewrite B0, B8.
  do 2 f_equal. rewrite drop_0, (take_ge (drop 8 u)) by (rewrite length_drop; lia). apply take_drop.
Qed.

Lemma cell_interval id iv : typed true (ty id) (VInterval iv) = true -> cell_ok (ty id) (VInterval iv).
Proof.
  intros Hty. cell_ids Hty. destruct Hty as [[[-> Hm] Hd] Hu]. destruct iv as [m d u].
  cbn [Months Days IMicros] in *. dispatch. cbn [Months Days IMicros]. split_cell.
  rewrite le_uint_bytes. cbv beta iota.
  rewrite slice_app_r by (rewrite ?length_app, ?length_le_bytes; done). cbv beta iota.
  rewrite le_uint_bytes. cbv beta iota. rewrite app_assoc.
  rewrite slice_app_r by (rewrite ?length_app, ?length_le_bytes; done). cbv beta iota.
  rewrite le_uint_bytes_nil. cbv beta iota. norm_widths. rewrite !uwrap_idem, !swrap_id by (done || lia).
  done.
Qed.

Lemma cell_timetz id tz : typed true (ty id) (VTimeTZ tz) = true -> cell_ok (ty id) (VTimeTZ tz).
Proof.
  intros Hty. cell_ids Hty. destruct Hty as [[-> Hm] Ho]. destruct tz as [m o]. cbn [Micros Offset] in *.
  unfold in_u in *. set (d := timeTZMaxOffset - o) in *.
  assert (Eb : timetz_bits (MkTimeTZ m o) = d + m * 2 ^ 24).
  { unfold timetz_bits. cbn [Micros Offset]. fold d.
    rewrite (uwrap_small 64 m) by (unfold in_u; simpl in *; lia).
    rewrite (uwrap_small 64 (Z.shiftl m 24)) by (rewrite Z.shiftl_mul_pow2 by lia; unfold in_u; simpl in *; lia).
    rewrite swrap_small by (unfold in_s; simpl in *; lia).
    rewrite uwrap_small by (unfold in_u; simpl in *; lia).
    change 16777215 with (Z.ones 24). rewrite Z.land_ones, (Z.mod_small d) by lia.
    rewrite Z.lor_comm. by rewrite lor_shiftl_add by (simpl in *; lia). }
  dispatch. rewrite Eb. split_cell. rewrite le_uint_bytes_nil. cbv beta iota. norm_widths.
  rewrite uwrap_small by (unfold in_u; simpl in *; lia).
  rewrite Z.shiftr_div_pow2, Z.div_add, Z.div_small, Z.add_0_l by (simpl in *; lia).
  change 16777215 with (Z.ones 24). rewrite Z.land_ones, Z_mod_plus_full, Z.mod_small by lia.
  rewrite (swrap_small 32 d) by (unfold in_s, d, timeTZMaxOffset in *; simpl in *; lia).
  rewrite !swrap_small by (unfold in_s, d, timeTZMaxOffset in *; simpl in *; lia).
  do 3 f_equal. unfold d. lia.
Qed.

Lemma enum_index_found s l i :
  existsb (fun e => bool_decide (e = s)) l = true ->
  exists k, enum_index s l i = Some (i + Z.of_nat k) /\ l !! k = Some s.
Proof.
  revert i. induction l as [|e l IH]; intros i H; [done|]. cbn [enum_index existsb] in *.
  case_bool_decide as E.
  - exists 0%nat. subst. split; [f_equal; lia|done].
  - destruct (IH (i + 1) H) as (k & -> & Hk). exists (S k). split; [f_equal; lia|done].
Qed.

Lemma cell_enum s : Z.of_nat (length enum) <= 2 ^ 32 ->
  typed true (ty TypeEnum) (VString s) = true -> cell_ok (ty TypeEnum) (VString s).
Proof.
  intros He Hty. cbn [typed] in Hty. cbn in Hty.
  destruct (enum_index_found s enum 0 Hty) as (k & Hk & Hs).
  pose proof (lookup_lt_Some _ _ _ Hs) as Hlt. dispatch. unfold mbind, option_bind. cbn [Enum].
  rewrite Hk. unfold enumIndexWidth. rewrite Z.add_0_l.
  destruct (Z.of_nat (length enum) <=? 255) eqn:E1; [|destruct (Z.of_nat (length enum) <=? 65535) eqn:E2];
    zify_bools; split_cell; rewrite length_le_bytes; cbn [Nat.eqb];
    rewrite ?index_le_bytes_1, ?le_uint_bytes_nil; cbv beta iota; norm_widths;
    rewrite ?uwrap_idem, uwrap_small by (unfold in_u; simpl in *; lia);
    (destruct (_ <=? Z.of_nat k) eqn:E3; [blia|]); unfold index; by rewrite Nat2Z.id, Hs.
Qed.

Lemma cell_nil id : supportedScalar (ty id) = true -> cell_ok (ty id) VNil.
Proof.
  unfold supportedScalar, is_one_of. rewrite existsb_exists. intros (x & Hx & E).
  apply Z.eqb_eq in E. cbn [ID] in E. subst x.
  repeat destruct Hx as [<-|Hx]; try done; dispatch;
    try (eexists; split; [reflexivity|]; split; [|done]; rewrite ?length_app, ?length_le_bytes; reflexivity).
  - unfold appendDecimal, nzmap, nz, is_nil. cbn [obind Width].
    repeat case_match; eexists; (split; [reflexivity|]); (split; [|done]);
      rewrite ?length_app, ?length_le_bytes; reflexivity.
  - cbn [Enum]. unfold enumIndexWidth. repeat case_match; eexists; (split; [reflexivity|]);
      (split; [|done]); rewrite length_le_bytes; reflexivity.
Qed.

End Cell.

Lemma cell_roundtrip t v :
  supportedScalar t = true -> Z.of_nat (length (Enum t)) <= 2 ^ 32 -> typed true t v = true ->
  cell_ok t v.
Proof.
  destruct t as [id w sc child fields enum asize]. cbn [Enum]. intros Hs He Hty.
  destruct (is_nil v) eqn:Hv; [destruct v; try done; by apply cell_nil|].
  assert (Hn : forall ids, is_one_of id ids = true -> is_one_of id
    [TypeVarchar; TypeBlob; TypeBit; TypeStruct; TypeList; TypeMap; TypeArray] = false).
  { intros _ _. revert Hs. unfold supportedScalar, is_one_of. cbn [ID]. rewrite existsb_exists.
    intros (x & Hx & E). apply Z.eqb_eq in E. subst x. repeat destruct Hx as [<-|Hx]; done. }
  specialize (Hn _ Hs). cbn [is_one_of existsb] in Hn. rewrite !orb_false_iff in Hn.
  destruct Hn as (H1 & H2 & H3 & H4 & H5 & H6 & H7 & _).
  destruct v; try done;
    try (by apply cell_ints); try (by apply cell_instant); try (by apply cell_decimal);
    try (by apply cell_bigint); try (by apply cell_uuid); try (by apply cell_interval);
    try (by apply cell_timetz); pose proof Hty as Hty'; cbn [typed] in Hty';
    rewrite ?H1, ?H2, ?H3, ?H4, ?H5, ?H6, ?H7 in Hty'; try done.
  cbn [orb andb] in Hty'. apply andb_true_iff in Hty' as [E _]. apply Z.eqb_eq in E. subst id.
  by apply cell_enum.
Qed.

(** ** Bits of byte strings *)

(** Bit [q] of byte [p]. *)
Definition tb (out : bytes) (p : nat) (q : Z) : bool :=
  match out !! p with Some x => Z.testbit (ub x) q | None => false end.

Lemma length_or_byte i b out : length (or_byte i b out) = length out.
Proof. apply length_alter. Qed.

Lemma ub_lor x b : 0 <= b < 256 -> ub (bz (Z.lor (ub x) b)) = Z.lor (ub x) b.
Proof.
  intros Hb. apply ub_bz_small. apply (lor_in_u 8); [lia|apply ub_range|done].
Qed.

Lemma tb_or_byte i k out p q : (i < length out)%nat -> 0 <= k < 8 -> 0 <= q ->
  tb (or_byte i (Z.shiftl 1 k) out) p q = tb out p q || (bool_decide (p = i) && (q =? k)).
Proof.
  intros Hi Hk Hq. unfold tb, or_byte. destruct (decide (p = i)) as [->|Hne].
  - rewrite list_lookup_alter. destruct (lookup_lt_is_Some_2 _ _ Hi) as [x ->]. rewrite decide_True by done. cbn [fmap option_fmap option_map].
    assert (0 <= Z.shiftl 1 k < 256).
    { rewrite Z.shiftl_mul_pow2, Z.mul_1_l by lia. pose proof (Z.pow_pos_nonneg 2 k).
      pose proof (Z.pow_le_mono_r 2 k 7). change (2 ^ 7) with 128 in *. lia. }
    rewrite ub_lor, Z.lor_spec by done. rewrite bool_decide_true by done.
    rewrite Z.shiftl_mul_pow2, Z.mul_1_l, Z.pow2_bits_eqb by lia. by rewrite (Z.eqb_sym k).
  - rewrite list_lookup_alter_ne by done. rewrite bool_decide_false by done.
    by rewrite andb_false_l, orb_false_r.
Qed.

Lemma or_byte_0 i out : or_byte i 0 out = out.
Proof.
  apply list_eq. intros j. unfold or_byte. rewrite list_lookup_alter.
  destruct (decide (i = j)) as [->|]; [|done]. destruct (out !! j); [|done]. cbn. by rewrite Z.lor_0_r, bz_ub.
Qed.

(** ** Validity masks *)

Lemma mask_loop vals i mask j :
  (i + length vals <= 8 * length mask)%nat ->
  let m := snd (foldl (fun '(i, mask) v =>
         (S i, if is_nil v then mask else or_byte (i / 8) (Z.shiftl 1 (Z.of_nat (i mod 8))) mask))
       (i, mask) vals) in
  length m = length mask /\
  tb m (j / 8) (Z.of_nat (j mod 8)) =
    tb mask (j / 8) (Z.of_nat (j mod 8))
    || ((i <=? j)%nat && match vals !! (j - i)%nat with Some v => negb (is_nil v) | None => false end).
Proof.
  revert i mask. induction vals as [|v vals IH]; intros i mask Hl; cbn [foldl length] in *.
  { by rewrite lookup_nil, andb_false_r, orb_false_r. }
  assert (Hi : (i / 8 < length mask)%nat) by (apply Nat.Div0.div_lt_upper_bound; lia).
  destruct (IH (S i) (if is_nil v then mask
                      else or_byte (i / 8) (Z.shiftl 1 (Z.of_nat (i mod 8))) mask)) as [E1 E2].
  { destruct (is_nil v); rewrite ?length_or_byte; lia. }
  cbv zeta in *. split; [rewrite E1; destruct (is_nil v); by rewrite ?length_or_byte|]. rewrite E2. clear E1 E2 IH.
  pose proof (Nat.mod_upper_bound i 8 ltac:(lia)). pose proof (Nat.mod_upper_bound j 8 ltac:(lia)).
  pose proof (Nat.div_mod i 8 ltac:(lia)). pose proof (Nat.div_mod j 8 ltac:(lia)).
  destruct (decide (j = i)) as [->|Hne].
  - rewrite Nat.leb_refl, Nat.sub_diag. rewrite (proj2 (Nat.leb_gt (S i) i)) by lia.
    change ((v :: vals) !! 0%nat) with (Some v). cbv beta iota.
    destruct (is_nil v); cbn [andb negb]; [by rewrite !orb_false_r|].
    rewrite tb_or_byte by lia. rewrite bool_decide_true, Z.eqb_refl by done. by rewrite !orb_true_r.
  - assert (Eu : tb (if is_nil v then mask else or_byte (i / 8) (Z.shiftl 1 (Z.of_nat (i mod 8))) mask)
              (j / 8) (Z.of_nat (j mod 8)) = tb mask (j / 8) (Z.of_nat (j mod 8))).
    { destruct (is_nil v); [done|]. rewrite tb_or_byte by lia.
      rewrite andb_comm. destruct (Z.of_nat (j mod 8) =? Z.of_nat (i mod 8)) eqn:E.
      - rewrite bool_decide_false; [by rewrite andb_false_r, orb_false_r|]. intros Ed. zify_bools. lia.
      - by rewrite andb_false_l, orb_false_r. }
    rewrite Eu. f_equal. destruct (Nat.leb_spec i j).
    + rewrite (proj2 (Nat.leb_le (S i) j)) by lia. by replace (j - i)%nat with (S (j - S i)) by lia.
    + by rewrite (proj2 (Nat.leb_gt (S i) j)) by lia.
Qed.

Lemma tb_zeros n p q : tb (replicate n Byte.x00) p q = false.
Proof.
  unfold tb. destruct (_ !! p) as [x|] eqn:E; [|done]. apply lookup_replicate in E as [-> _].
  apply Z.bits_0.
Qed.

Lemma mask_size n : (n <= 8 * ((n + 63) / 64 * 8))%nat.
Proof. pose proof (Nat.div_mod (n + 63) 64 ltac:(lia)). pose proof (Nat.mod_upper_bound (n + 63) 64 ltac:(lia)). lia. Qed.

Lemma length_mask_bits vals : length (mask_bits vals) = ((length vals + 63) / 64 * 8)%nat.
Proof.
  unfold mask_bits. rewrite (proj1 (mask_loop vals 0 _ 0 ltac:(rewrite length_replicate; apply mask_size))).
  apply length_replicate.
Qed.

Lemma validityMask_valid vals j v :
  vals !! j = Some v -> valid (validityMask vals) j = Ok (negb (is_nil v)).
Proof.
  intros Hv. unfold validityMask, valid. destruct (existsb is_nil vals) eqn:E.
  - pose proof (mask_loop vals 0 (replicate ((length vals + 63) / 64 * 8) Byte.x00) j
      ltac:(rewrite length_replicate; apply mask_size)) as [_ H]. fold (mask_bits vals) in H.
    rewrite tb_zeros, Nat.sub_0_r, Hv in H. cbn [orb andb Nat.leb] in H.
    unfold index. pose proof (lookup_lt_Some _ _ _ Hv). pose proof (mask_size (length vals)).
    destruct (lookup_lt_is_Some_2 (mask_bits vals) (j / 8)) as [x Hx].
    { rewrite length_mask_bits. apply Nat.Div0.div_lt_upper_bound. lia. }
    rewrite Hx. cbn [obind]. unfold tb in H. rewrite Hx in H. f_equal. rewrite <- H.
    rewrite Z.shiftl_mul_pow2, Z.mul_1_l by lia. by rewrite land_pow2_testbit, negb_involutive by lia.
  - rewrite <- not_true_iff_false, existsb_exists in E. f_equal. symmetry. apply negb_true_iff.
    apply not_true_iff_false. intros Hn. apply E. exists v. split; [|done].
    by apply list_elem_of_In, list_elem_of_lookup_2 with j.
Qed.

(** ** BIT blobs *)

(** The bit a character stands for. *)
Definition bit_of (c : byte) : bool := ub c =? 49.

Lemma or_char_bit pos c out p q :
  is_bit_char c = true -> (1 + pos / 8 < length out)%nat -> 0 <= q ->
  let out' := or_byte (1 + pos / 8) (u8 (Z.shiftl (ub c - 48) (7 - Z.of_nat (pos mod 8)))) out in
  length out' = length out /\
  tb out' p q = tb out p q || (bit_of c && bool_decide (p = 1 + pos / 8)%nat && (q =? 7 - Z.of_nat (pos mod 8))).
Proof.
  intros Hc Hp Hq. cbv zeta. split; [apply length_or_byte|].
  pose proof (Nat.mod_upper_bound pos 8 ltac:(lia)).
  unfold is_bit_char, bit_of in *. apply orb_true_iff in Hc as [E|E]; apply Z.eqb_eq in E; rewrite E.
  - change (48 - 48) with 0. rewrite Z.shiftl_0_l. change (u8 0) with 0. rewrite or_byte_0.
    by rewrite andb_false_l, orb_false_r.
  - change (49 - 48) with 1. rewrite uwrap_small.
    + rewrite tb_or_byte by lia. by rewrite Z.eqb_refl, andb_true_l.
    + rewrite Z.shiftl_mul_pow2, Z.mul_1_l by lia. unfold in_u.
      pose proof (Z.pow_pos_nonneg 2 (7 - Z.of_nat (pos mod 8)) ltac:(lia) ltac:(lia)).
      pose proof (Z.pow_lt_mono_r 2 (7 - Z.of_nat (pos mod 8)) 8 ltac:(lia) ltac:(lia) ltac:(lia)). lia.
Qed.

Lemma same_bit i j : bool_decide (1 + j / 8 = 1 + i / 8)%nat && (7 - Z.of_nat (j mod 8) =? 7 - Z.of_nat (i mod 8))
  = (i =? j)%nat.
Proof.
  pose proof (Nat.div_mod i 8 ltac:(lia)). pose proof (Nat.div_mod j 8 ltac:(lia)).
  destruct (Nat.eqb_spec i j) as [->|Hne].
  - rewrite bool_decide_true, Z.eqb_refl by done. done.
  - apply not_true_iff_false. rewrite andb_true_iff, bool_decide_eq_true, Z.eqb_eq. lia.
Qed.

Lemma bit_loop_spec s pos out :
  forallb is_bit_char s = true -> (pos + length s <= 8 * (length out - 1))%nat -> (1 <= length out)%nat ->
  exists out', bit_loop s pos out = Some out' /\ length out' = length out /\ head out' = head out /\
    forall j, tb out' (1 + j / 8) (7 - Z.of_nat (j mod 8)) =
      tb out (1 + j / 8) (7 - Z.of_nat (j mod 8))
      || ((pos <=? j)%nat && match s !! (j - pos)%nat with Some c => bit_of c | None => false end).
Proof.
  revert pos out. induction s as [|c s IH]; intros pos out Hs Hl Hl1; cbn [bit_loop length forallb] in *.
  { exists out. repeat split. intros j. by rewrite lookup_nil, andb_false_r, orb_false_r. }
  apply andb_true_iff in Hs as [Hc Hs].
  assert (Hp : (1 + pos / 8 < length out)%nat).
  { assert (pos / 8 < length out - 1)%nat by (apply Nat.Div0.div_lt_upper_bound; lia). lia. }
  assert (E : negb (ub c =? 48) && negb (ub c =? 49) = false).
  { unfold is_bit_char in Hc. by destruct (ub c =? 48), (ub c =? 49). }
  rewrite E.
  set (out1 := or_byte (1 + pos / 8) _ out).
  assert (L1 : length out1 = length out) by apply length_or_byte.
  destruct (IH (S pos) out1 Hs ltac:(lia) ltac:(lia)) as (out' & -> & L & Hh & Hb).
  exists out'. split; [done|]. split; [lia|]. split.
  - rewrite Hh. unfold out1, or_byte. by destruct out.
  - intros j. rewrite Hb. unfold out1.
    pose proof (Nat.mod_upper_bound j 8 ltac:(lia)).
    destruct (or_char_bit pos c out (1 + j / 8) (7 - Z.of_nat (j mod 8)) Hc Hp ltac:(lia)) as [_ ->].
    rewrite <- andb_assoc, same_bit, <- orb_assoc. f_equal.
    destruct (Nat.eqb_spec pos j) as [->|Hne].
    + rewrite Nat.leb_refl, Nat.sub_diag, (proj2 (Nat.leb_gt (S j) j)) by lia.
      change ((c :: s) !! 0%nat) with (Some c). by rewrite andb_true_r, orb_false_r.
    + rewrite andb_false_r, orb_false_l. destruct (Nat.leb_spec pos j).
      * rewrite (proj2 (Nat.leb_le (S pos) j)) by lia. by replace (j - pos)%nat with (S (j - S pos)) by lia.
      * by rewrite (proj2 (Nat.leb_gt (S pos) j)) by lia.
Qed.

Lemma pad_loop l out j :
  (1 < length out)%nat -> (forall i, i ∈ l -> i < 8)%nat -> (forall i, i ∈ l -> i < j)%nat ->
  let out' := foldl (fun out i => or_byte 1 (Z.shiftl 1 (7 - Z.of_nat i)) out) out l in
  length out' = length out /\ head out' = head out /\
  tb out' (1 + j / 8) (7 - Z.of_nat (j mod 8)) = tb out (1 + j / 8) (7 - Z.of_nat (j mod 8)).
Proof.
  revert out. induction l as [|i l IH]; intros out Hl Hi Hj; [done|]. cbn [foldl]. cbv zeta in *.
  assert (i < 8)%nat by (apply Hi; left). assert (i < j)%nat by (apply Hj; left).
  pose proof (Nat.mod_upper_bound j 8 ltac:(lia)). pose proof (Nat.div_mod j 8 ltac:(lia)).
  destruct (IH (or_byte 1 (Z.shiftl 1 (7 - Z.of_nat i)) out)) as (L & Hh & Hb);
    [by rewrite length_or_byte|intros; apply Hi; by right|intros; apply Hj; by right|].
  rewrite L, length_or_byte, Hh, Hb. split; [done|]. split; [unfold or_byte; by destruct out|].
  rewrite tb_or_byte by lia. rewrite andb_comm.
  destruct (_ =? _) eqn:E; [|by rewrite andb_false_l, orb_false_r].
  rewrite bool_decide_false; [by rewrite andb_false_r, orb_false_r|]. zify_bools. intros Hd. lia.
Qed.

Lemma bit_chars_drop x n : bit_chars x n = drop n (bit_chars x 0).
Proof.
  unfold bit_chars. rewrite <- fmap_drop. f_equal.
  by rewrite drop_seq, Nat.sub_0_r.
Qed.

(** The characters of whole bytes. *)
Definition all_chars (l : bytes) : bytes := concat ((fun x => bit_chars x 0) <$> l).

Lemma length_all_chars l : length (all_chars l) = (8 * length l)%nat.
Proof.
  unfold all_chars. induction l as [|x l IH]; [done|]. cbn [fmap list_fmap concat length].
  rewrite length_app, IH. unfold bit_chars. rewrite length_fmap, length_seq. lia.
Qed.

Lemma all_chars_lookup l p : (p < 8 * length l)%nat ->
  all_chars l !! p = Some (bz (48 + Z.b2z (tb l (p / 8) (7 - Z.of_nat (p mod 8))))).
Proof.
  revert p. induction l as [|x l IH]; intros p Hp; cbn [length] in *; [lia|].
  unfold all_chars in *. cbn [fmap list_fmap concat].
  assert (L : length (bit_chars x 0) = 8%nat) by (unfold bit_chars; by rewrite length_fmap, length_seq).
  destruct (Nat.lt_ge_cases p 8) as [Hlt|Hge].
  - rewrite lookup_app_l by lia. rewrite Nat.div_small, Nat.mod_small by lia.
    unfold bit_chars. rewrite list_lookup_fmap, lookup_seq_lt by lia. cbn [fmap option_fmap option_map].
    change (tb (x :: l) 0 (7 - Z.of_nat p)) with (Z.testbit (ub x) (7 - Z.of_nat p)).
    rewrite Z.testbit_spec' by lia. rewrite Z.shiftr_div_pow2 by lia.
    change 1 with (Z.ones 1). by rewrite Z.land_ones by lia.
  - rewrite lookup_app_r by lia. rewrite L, IH by lia.
    replace p with ((p - 8) + 1 * 8)%nat at 3 4 by lia.
    rewrite Nat.Div0.mod_add, Nat.div_add by lia. by rewrite Nat.add_comm.
Qed.

Lemma bitString_chars p x l : 0 <= Z.of_nat p <= 7 ->
  bitString (bz (Z.of_nat p) :: x :: l) = Ok (drop p (all_chars (x :: l))).
Proof.
  intros Hp. cbn [bitString length]. rewrite ub_bz_small by lia.
  rewrite (proj2 (Z.ltb_ge 7 _)) by lia. cbn [Nat.eqb andb orb]. f_equal.
  rewrite imap_cons. cbn [Nat.eqb concat]. rewrite Nat2Z.id, bit_chars_drop.
  unfold all_chars. cbn [fmap list_fmap concat].
  rewrite drop_app_le by (unfold bit_chars; rewrite length_fmap, length_seq; lia). f_equal. f_equal.
  apply list_eq. intros i. rewrite list_lookup_imap, list_lookup_fmap. by destruct (l !! i).
Qed.

(** The padding completes the last byte. *)
Lemma bit_padding len : (0 < len)%nat ->
  let p := ((8 - len mod 8) mod 8)%nat in
  exists n, (len + p = 8 * n /\ n = (len + p) / 8 /\ 0 < n)%nat.
Proof.
  intros Hpos p. exists ((len + p) / 8)%nat. pose proof (Nat.div_mod len 8 ltac:(lia)).
  pose proof (Nat.mod_upper_bound len 8 ltac:(lia)). subst p.
  destruct (decide (len mod 8 = 0)%nat) as [E|E].
  - rewrite E. change ((8 - 0) mod 8)%nat with 0%nat. rewrite Nat.add_0_r. lia.
  - rewrite (Nat.mod_small (8 - _)) by lia.
    rewrite <- (Nat.div_unique (len + (8 - len mod 8)) 8 (S (len / 8)) 0) by lia. lia.
Qed.

Lemma bit_roundtrip s : forallb is_bit_char s = true ->
  exists b, bitBlob s = Ok b /\ bitString b = Ok s.
Proof.
  intros Hs. destruct s as [|c s']; [by eexists|]. unfold bitBlob.
  set (s := c :: s') in *. set (p := ((8 - length s mod 8) mod 8)%nat).
  assert (Hp : (p < 8)%nat) by (apply Nat.mod_upper_bound; lia).
  pose proof (bit_padding (length s) ltac:(simpl; lia)) as Hl. cbv zeta in Hl. fold p in Hl.
  destruct Hl as (n & Hn & <- & Hpos).
  destruct (bit_loop_spec s p (bz (Z.of_nat p) :: replicate n Byte.x00) Hs) as (out & E & L & Hh & Hb);
    [cbn [length]; rewrite length_replicate; lia|cbn [length]; lia|].
  cbn [length] in L. rewrite length_replicate in L. rewrite E. cbn [deref obind].
  set (out' := foldl _ out (seq 0 p)). exists out'. split; [done|].
  assert (P : forall j, length out' = length out /\ head out' = head out /\
     ((p <= j)%nat -> tb out' (1 + j / 8) (7 - Z.of_nat (j mod 8)) = tb out (1 + j / 8) (7 - Z.of_nat (j mod 8)))).
  { intros j. destruct (decide (p <= j)%nat).
    - destruct (pad_loop (seq 0 p) out j) as (?&?&?); [lia|..]; auto; intros i Hi; apply elem_of_seq in Hi; lia.
    - destruct (pad_loop (seq 0 p) out p) as (?&?&?); [lia|..]; [..|by repeat split]; intros i Hi;
        apply elem_of_seq in Hi; lia. }
  destruct (P 0%nat) as (L' & Hh' & _). rewrite Hh in Hh'. clearbody out'.
  destruct out' as [|b0 [|x l]]; cbn [length head] in *; [lia|lia|]. injection Hh' as ->.
  rewrite bitString_chars by lia. f_equal. apply list_eq. intros k. rewrite lookup_drop.
  destruct (decide (k < length s)%nat) as [Hk|Hk].
  - rewrite all_chars_lookup by (cbn [length]; lia).
    destruct (P (p + k)%nat) as (_ & _ & Pk). specialize (Pk ltac:(lia)). rewrite Hb in Pk.
    rewrite (proj2 (Nat.leb_le p (p + k))) in Pk by lia. replace (p + k - p)%nat with k in Pk by lia.
    destruct (lookup_lt_is_Some_2 _ _ Hk) as [ch Hch]. rewrite Hch in Pk. cbn [andb] in Pk.
    change (tb (bz (Z.of_nat p) :: replicate n Byte.x00) (1 + (p + k) / 8) ?q)
      with (tb (replicate n Byte.x00) ((p + k) / 8) q) in Pk.
    rewrite tb_zeros, orb_false_l in Pk.
    change (tb (bz (Z.of_nat p) :: x :: l) (1 + (p + k) / 8) ?q) with (tb (x :: l) ((p + k) / 8) q) in Pk.
    rewrite Pk, Hch. f_equal. assert (Hc : is_bit_char ch = true).
    { apply forallb_Forall_eq in Hs. rewrite Forall_lookup in Hs. by eapply Hs. }
    rewrite <- (bz_ub ch). f_equal. unfold bit_of, is_bit_char in *.
    apply orb_true_iff in Hc as [Ec|Ec]; apply Z.eqb_eq in Ec; by rewrite Ec.
  - rewrite !lookup_ge_None_2; [done|lia|].
    rewrite length_all_chars. cbn [length]. lia.
Qed.
