(* ===== verification/CodecRoundtrip.v ===== *)
(** * The codec decodes what codectest encodes

    For every type tree the encoder has a representation for ([encodable]) and
    every table of typed values within the decoder's row limits ([fits]), the
    encoder succeeds and the decoder returns the types and values unchanged. *)

From S2P Require Import Prelude Qser QserLib LogicalType GoFmt Values Vector Chunk CodecTypes CodecSafe Codectest RoundtripCells.

(** ** What can be encoded *)

Definition scalar_ids : list Z :=
  [TypeBoolean; TypeTinyint; TypeUTinyint; TypeSmallint; TypeUSmallint;
   TypeInteger; TypeUInteger; TypeBigint; TypeUBigint; TypeFloat; TypeDouble; TypeDate; TypeTime;
   TypeTimestampSec; TypeTimestampMS; TypeTimestamp; TypeTimestampNS; TypeTimestampTZ;
   TypeHugeint; TypeUHugeint; TypeUUID; TypeInterval; TypeTimeTZ; TypeTimeNS;
   TypeVarchar; TypeBlob; TypeBit].

(** The type trees with a wire form that carries all of them, at most [levels]
    deep: no field is set that the type info of the id has no place for. *)
Inductive encodable : nat -> LogicalType -> Prop :=
  | enc_scalar n id : is_one_of id scalar_ids = true -> encodable (S n) (T id)
  | enc_decimal n w s : in_u 8 w -> in_u 8 s -> encodable (S n) (DecimalT w s)
  | enc_enum n e : Z.of_nat (length e) <= 2 ^ 32 ->
      encodable (S n) (MkType TypeEnum 0 0 None [] e 0)
  | enc_list n c : encodable n c -> encodable (S n) (MkType TypeList 0 0 (Some c) [] [] 0)
  | enc_map n kn kt vn vt : encodable n kt -> encodable n vt ->
      encodable (S (S n))
        (MkType TypeMap 0 0 (Some (MkType TypeStruct 0 0 None [MkField kn kt; MkField vn vt] [] 0)) [] [] 0)
  | enc_struct n fs : (forall f, f ∈ fs -> encodable n (Type_ f)) ->
      encodable (S n) (MkType TypeStruct 0 0 None fs [] 0)
  | enc_array n c a : encodable n c -> 0 <= a <= maxVectorRows ->
      encodable (S n) (MkType TypeArray 0 0 (Some c) [] [] a).

Fixpoint foralli {A} (f : nat -> A -> bool) (j : nat) (l : list A) : bool :=
  match l with
  | [] => true
  | x :: l => f j x && foralli f (S j) l
  end.

(** Every vector the rows flatten into is within [maxVectorRows]. *)
Fixpoint fits (t : LogicalType) (vals : list any) : bool :=
  let '(MkType id _ _ child fields _ asize) := t in
  (Z.of_nat (length vals) <=? maxVectorRows) &&
  (if id =? TypeStruct then
     foralli (fun j f => let '(MkField _ ft) := f in
                         match structColumn j vals with Ok col => fits ft col | _ => false end) 0 fields
   else if is_one_of id [TypeList; TypeMap] then
     match child, omapM (listElems child) vals with
     | Some c, Ok rows => fits c (concat rows)
     | _, _ => false
     end
   else if id =? TypeArray then
     match child, omapM (arrayElems asize) vals with
     | Some c, Ok rows => fits c (concat rows)
     | _, _ => false
     end
   else true).

(** A writer's output is a Go slice, so its length is an [int]. *)
Definition go_len (w : bytes) : Prop := Z.of_nat (length w) < 2 ^ 63.

Lemma go_len_u n w : go_len w -> (n <= length w)%nat -> in_u 64 (Z.of_nat n).
Proof. unfold go_len, in_u. simpl. lia. Qed.

Lemma go_len_app_l a b : go_len (a ++ b) -> go_len a.
Proof. unfold go_len. rewrite length_app. lia. Qed.

Lemma go_len_app_r a b : go_len (a ++ b) -> go_len b.
Proof. unfold go_len. rewrite length_app. lia. Qed.

Lemma go_len_concat (ws : list bytes) w : w ∈ ws -> go_len (concat ws) -> go_len w.
Proof.
  induction ws as [|w' ws IH]; intros Hin Hl; [by apply elem_of_nil in Hin|].
  cbn [concat] in Hl. apply elem_of_cons in Hin as [->|Hin].
  - by eapply go_len_app_l.
  - apply IH; [done|]. by eapply go_len_app_r.
Qed.

(** ** Lists of encodings *)

Lemma omapM_exists {A B} (f : A -> outcome cerr B) (P : A -> B -> Prop) l :
  (forall x, x ∈ l -> exists y, f x = Ok y /\ P x y) ->
  exists ys, omapM f l = Ok ys /\ Forall2 P l ys.
Proof.
  induction l as [|x l IH]; intros H; [by exists []|]. cbn [omapM].
  destruct (H x) as (y & -> & Hy); [left|]. destruct IH as (ys & -> & Hys); [intros; apply H; by right|].
  exists (y :: ys). split; [done|by constructor].
Qed.

(** [ws] are encodings of [ys] that [m] reads, each on its own. *)
Lemma parses_drepeat_all {E A} (m : D E A) (ws : list bytes) (ys : list A) tl :
  Forall2 (fun w y => forall tl, parses m w (Ok y) tl) ws ys ->
  parses (drepeat (length ys) m) (concat ws) (Ok ys) tl.
Proof.
  induction 1 as [|w y ws ys Hw _ IH]; cbn [length drepeat concat]; [apply parses_dret|].
  eapply parses_dbind; [apply Hw|]. eapply parses_bind_last; [apply IH|]. apply parses_dret.
Qed.

Lemma parses_dmap_all {E A B} (f : A -> D E B) (l : list A) (ws : list bytes) (ys : list B) tl :
  Forall3 (fun x w y => forall tl, parses (f x) w (Ok y) tl) l ws ys ->
  parses (dmap f l) (concat ws) (Ok ys) tl.
Proof.
  induction 1 as [|x w y l ws ys Hw _ IH]; cbn [dmap concat]; [apply parses_dret|].
  eapply parses_dbind; [apply Hw|]. eapply parses_bind_last; [apply IH|]. apply parses_dret.
Qed.

Lemma concat_length_ge (ws : list bytes) : (forall w, w ∈ ws -> 0 < length w)%nat -> (length ws <= length (concat ws))%nat.
Proof.
  induction ws as [|w ws IH]; intros H; [done|]. cbn [concat length]. rewrite length_app.
  pose proof (H w ltac:(left)). assert (length ws <= length (concat ws))%nat by (apply IH; intros; apply H; by right). lia.
Qed.

(** A counted list of non-empty elements: the count is never more than the bytes left. *)
Lemma parses_count (ws : list bytes) n tl :
  length ws = n -> (forall w, w ∈ ws -> 0 < length w)%nat -> go_len (concat ws) ->
  parses Reader.ListCount (Writer.Uvarint (Z.of_nat n)) (Z.of_nat n) (concat ws ++ tl).
Proof.
  intros <- Hne Hl. pose proof (concat_length_ge ws Hne). apply parses_ListCount.
  - by eapply go_len_u.
  - rewrite length_app. lia.
Qed.

(** ** Type trees *)

Lemma parses_finish {A} (x : A) tl : parses (finish x) [] (Ok x) tl.
Proof. unfold finish. eapply parses_bind_nil; [apply parses_Err|apply parses_dret]. Qed.

Lemma parses_type_plain n id tl : in_u 32 id ->
  parses (decodeType (S n)) (Writer.FieldUvarint 100 id ++ [] ++ Writer.End_) (Ok (T id)) tl.
Proof.
  intros Hid. cbn [decodeType]. unfold Writer.FieldUvarint. rewrite <- app_assoc.
  eapply parses_bind; [by apply parses_TryField|]. cbn [negb].
  eapply parses_bind; [apply parses_Uvarint; unfold in_u in *; simpl in *; lia|]. cbv zeta.
  rewrite uwrap_small by done. cbn [app].
  eapply parses_bind_nil; [apply parses_TryField_no; solve_other|].
  eapply (parses_dbind _ _ []); [apply parses_dret|].
  eapply parses_bind_last; [apply parses_End|apply parses_finish].
Qed.

Lemma parses_type_info n id kind body t tl :
  in_u 32 id -> in_u 64 kind ->
  (forall tl, other_field 101 (body ++ Writer.End_ ++ tl) /\ other_field 103 (body ++ Writer.End_ ++ tl)) ->
  (forall tl, parses (decodeInfoKind (decodeType n) (T id) kind) body (Ok t) (Writer.End_ ++ tl)) ->
  parses (decodeType (S n)) (Writer.FieldUvarint 100 id ++ typeInfo kind body ++ Writer.End_) (Ok t) tl.
Proof.
  intros Hid Hkind Ho Hb. cbn [decodeType]. unfold typeInfo, Writer.FieldUvarint. rewrite <- !app_assoc.
  eapply parses_bind; [by apply parses_TryField|]. cbn [negb].
  eapply parses_bind; [apply parses_Uvarint; unfold in_u in *; simpl in *; lia|]. cbv zeta.
  rewrite uwrap_small by done.
  eapply parses_bind; [by apply parses_TryField|].
  replace (Writer.Bool true ++ Writer.Field 100 ++ Writer.Uvarint kind ++ body ++ Writer.End_ ++ Writer.End_)
    with ((Writer.Bool true ++ Writer.Field 100 ++ Writer.Uvarint kind ++ body ++ Writer.End_) ++ Writer.End_)
    by (by rewrite <- !app_assoc).
  eapply parses_dbind.
  - eapply parses_bind; [apply parses_Bool|]. cbv beta iota. unfold decodeTypeInfo.
    eapply parses_bind; [by apply parses_TryField|]. cbn [negb].
    eapply parses_bind; [by apply parses_Uvarint|].
    eapply parses_bind_nil; [apply parses_optField_no; rewrite <- app_assoc; apply Ho|].
    eapply parses_bind_nil; [apply parses_optField_no; rewrite <- app_assoc; apply Ho|]. cbv beta iota.
    eapply parses_dbind; [apply Hb|].
    eapply parses_bind_last; [apply parses_End|apply parses_finish].
  - eapply parses_bind_last; [apply parses_End|apply parses_finish].
Qed.

(** The dispatch of [decodeInfoKind] at a concrete kind. *)
Ltac kind_dispatch :=
  unfold decodeInfoKind;
  repeat match goal with
  | |- context [?a =? ?b] => is_const a; is_const b;
      let v := eval compute in (a =? b) in change (a =? b) with v
  end; cbv beta iota.

Lemma parses_u8 v tl : in_u 8 v -> parses (let* v := Reader.Uvarint in ret (u8 v)) (Writer.Uvarint v) v tl.
Proof.
  intros Hv. eapply parses_bind_last; [apply parses_Uvarint; unfold in_u in *; simpl in *; lia|].
  rewrite uwrap_small by done. apply parses_ret.
Qed.

Lemma parses_u32 v tl : in_u 32 v -> parses (let* v := Reader.Uvarint in ret (u32 v)) (Writer.Uvarint v) v tl.
Proof.
  intros Hv. eapply parses_bind_last; [apply parses_Uvarint; unfold in_u in *; simpl in *; lia|].
  rewrite uwrap_small by done. apply parses_ret.
Qed.

Lemma parses_info_decimal c w s tl : in_u 8 w -> in_u 8 s ->
  parses (decodeInfoKind c (T TypeDecimal) infoDecimal)
    ((if w =? 0 then [] else Writer.FieldUvarint 200 w) ++ (if s =? 0 then [] else Writer.FieldUvarint 201 s))
    (Ok (DecimalT w s)) (Writer.End_ ++ tl).
Proof.
  intros Hw Hs. kind_dispatch. eapply parses_bind.
  - apply parses_optField_dflt; [by compute|intros; by zify_bools|intros; by apply parses_u8|].
    destruct (s =? 0); cbn [app]; solve_other.
  - eapply parses_bind_last; [|apply parses_dret].
    apply parses_optField_dflt; [by compute|intros; by zify_bools|intros; by apply parses_u8|solve_other].
Qed.

Lemma parses_info_child n id kind c w t tl :
  id = TypeList \/ id = TypeMap -> kind = infoList -> t = MkType id 0 0 (Some c) [] [] 0 ->
  (forall tl, parses (decodeType n) w (Ok c) tl) ->
  parses (decodeInfoKind (decodeType n) (T id) kind) (Writer.Field 200 ++ w) (Ok t) tl.
Proof.
  intros _ -> -> Hw. kind_dispatch.
  eapply parses_bind; [by apply parses_TryField|]. cbn [negb].
  eapply parses_dbind_last; [apply Hw|]. apply parses_dret.
Qed.

Lemma parses_info_array n c w a tl :
  in_u 32 a -> (forall tl, parses (decodeType n) w (Ok c) tl) ->
  parses (decodeInfoKind (decodeType n) (T TypeArray) infoArray)
    (Writer.Field 200 ++ w ++ (if a =? 0 then [] else Writer.FieldUvarint 201 a))
    (Ok (MkType TypeArray 0 0 (Some c) [] [] a)) (Writer.End_ ++ tl).
Proof.
  intros Ha Hw. kind_dispatch.
  eapply parses_bind; [by apply parses_TryField|]. cbn [negb].
  eapply parses_dbind; [apply Hw|].
  eapply parses_bind_last; [|apply parses_dret].
  apply parses_optField_dflt; [by compute|intros; by zify_bools|intros; by apply parses_u32|solve_other].
Qed.

Lemma parses_structField n name w ft tl :
  in_u 64 (Z.of_nat (length name)) -> (forall tl, parses (decodeType n) w (Ok ft) tl) ->
  parses (decodeStructField (decodeType n)) (writeField name w) (Ok (MkField name ft)) tl.
Proof.
  intros Hn Hw. unfold decodeStructField, writeField, Writer.FieldString.
  eapply parses_bind; [apply parses_optField; [by compute|by apply parses_Bytes]|].
  eapply parses_bind; [by apply parses_TryField|]. cbn [negb].
  eapply parses_dbind; [apply Hw|].
  eapply parses_bind_last; [apply parses_End|apply parses_dret].
Qed.

Lemma parses_info_struct n fs ws tl :
  go_len (concat ws) ->
  Forall2 (fun w f => exists w', w = writeField (Name f) w' /\
             forall tl, parses (decodeType n) w' (Ok (Type_ f)) tl) ws fs ->
  parses (decodeInfoKind (decodeType n) (T TypeStruct) infoStruct)
    (Writer.Field 200 ++ Writer.Uvarint (Z.of_nat (length fs)) ++ concat ws)
    (Ok (MkType TypeStruct 0 0 None fs [] 0)) tl.
Proof.
  intros Hl Hws. kind_dispatch.
  eapply parses_bind; [by apply parses_TryField|]. cbv beta iota.
  eapply parses_bind; [apply parses_count|]; [by rewrite (Forall2_length _ _ _ Hws)|..].
  - intros w Hin. apply list_elem_of_lookup in Hin as [i Hi].
    destruct (Forall2_lookup_l _ _ _ _ _ Hws Hi) as (f & _ & w' & -> & _).
    unfold writeField, Writer.FieldString. rewrite !length_app, length_Field. lia.
  - done.
  - rewrite Nat2Z.id. eapply parses_dbind_last; [|apply parses_dret].
    apply parses_drepeat_all. 
    assert (Hin : forall w, w ∈ ws -> go_len w) by (intros; by eapply go_len_concat).
    clear Hl. induction Hws as [|w [name ft] ws fs (w' & -> & Hw) _ IH]; constructor.
    + intros tl'. apply parses_structField; [|done].
      assert (go_len (writeField name w')) as Hg by (apply Hin; left).
      unfold writeField, Writer.FieldString, Writer.String_, Writer.BytesVal in Hg.
      eapply go_len_u; [exact Hg|]. cbn [Name]. rewrite !length_app. lia.
    + apply IH. intros. apply Hin. by right.
Qed.

Lemma parses_strings l tl : go_len (concat (Writer.String_ <$> l)) ->
  parses (mrepeat (length l) Reader.String_) (concat (Writer.String_ <$> l)) l tl.
Proof.
  intros Hl. rewrite <- (list_fmap_id l) at 3. apply parses_mrepeat. intros s tl' Hs.
  apply (parses_Bytes s). assert (go_len (Writer.String_ s)) as Hg.
  { eapply go_len_concat; [|exact Hl]. by apply list_elem_of_fmap_2. }
  eapply go_len_u; [exact Hg|]. unfold Writer.String_, Writer.BytesVal. rewrite length_app. lia.
Qed.

Lemma String_nonempty (l : list bytes) w : w ∈ Writer.String_ <$> l -> (0 < length w)%nat.
Proof.
  intros (s & -> & _)%list_elem_of_fmap. unfold Writer.String_, Writer.BytesVal.
  rewrite length_app. pose proof (length_Uvarint_pos (Z.of_nat (length s))). lia.
Qed.

Lemma parses_info_enum n e tl :
  go_len (concat (Writer.String_ <$> e)) ->
  parses (decodeInfoKind (decodeType n) (T TypeEnum) infoEnum)
    (Writer.FieldUvarint 200 (Z.of_nat (length e)) ++
     Writer.Field 201 ++ Writer.Uvarint (Z.of_nat (length e)) ++ concat (Writer.String_ <$> e))
    (Ok (MkType TypeEnum 0 0 None [] e 0)) tl.
Proof.
  intros Hl. assert (Hn : in_u 64 (Z.of_nat (length e))).
  { eapply go_len_u; [exact Hl|]. rewrite <- (length_fmap Writer.String_ e).
    apply concat_length_ge, String_nonempty. }
  kind_dispatch. unfold Writer.FieldUvarint. rewrite <- app_assoc.
  eapply parses_bind; [by apply parses_TryField|]. cbn [negb].
  eapply parses_bind; [by apply parses_Uvarint|].
  eapply parses_bind_last.
  - apply parses_optField; [by compute|].
    eapply parses_bind; [apply parses_count; [apply length_fmap|apply String_nonempty|done]|].
    rewrite Nat2Z.id. by apply parses_strings.
  - rewrite Z.eqb_refl. cbn [negb]. apply parses_dret.
Qed.

(** What [WriteType] promises at a level. *)
Definition type_written (n : nat) (t : LogicalType) (w : bytes) : Prop :=
  WriteType t = Ok w /\ (go_len w -> forall tl, parses (decodeType n) w (Ok t) tl).

Lemma write_info n id kind body info t :
  info = typeInfo kind body -> in_u 32 id -> in_u 64 kind ->
  (forall tl, other_field 101 (body ++ Writer.End_ ++ tl) /\ other_field 103 (body ++ Writer.End_ ++ tl)) ->
  (go_len body -> forall tl, parses (decodeInfoKind (decodeType n) (T id) kind) body (Ok t) (Writer.End_ ++ tl)) ->
  go_len (Writer.FieldUvarint 100 id ++ info ++ Writer.End_) ->
  forall tl, parses (decodeType (S n)) (Writer.FieldUvarint 100 id ++ info ++ Writer.End_) (Ok t) tl.
Proof.
  intros -> Hid Hk Ho Hb Hl tl. apply parses_type_info; auto. apply Hb.
  unfold go_len, typeInfo in *. rewrite !length_app in Hl. lia.
Qed.

Lemma scalar_range id : is_one_of id scalar_ids = true -> in_u 32 id.
Proof.
  unfold is_one_of. rewrite existsb_exists. intros (x & Hx & E). apply Z.eqb_eq in E. subst x.
  repeat destruct Hx as [<-|Hx]; try done; unfold in_u; by compute.
Qed.

(** Type switches at a concrete id. *)
Ltac id_dispatch :=
  repeat match goal with
  | |- context [?a =? ?b] => is_const a; is_const b;
      let v := eval compute in (a =? b) in change (a =? b) with v
  | |- context [is_one_of ?a ?l] => is_const a;
      let v := eval compute in (is_one_of a l) in change (is_one_of a l) with v
  end; cbv beta iota.

Lemma WriteType_scalar id : is_one_of id scalar_ids = true ->
  WriteType (T id) = Ok (Writer.FieldUvarint 100 id ++ [] ++ Writer.End_).
Proof.
  unfold is_one_of. rewrite existsb_exists. intros (x & Hx & E). apply Z.eqb_eq in E. subst x.
  unfold T. cbn [WriteType]. repeat destruct Hx as [<-|Hx]; [id_dispatch; reflexivity..|destruct Hx].
Qed.

Lemma WriteType_child id c w : id = TypeList \/ id = TypeMap -> WriteType c = Ok w ->
  WriteType (MkType id 0 0 (Some c) [] [] 0) =
  Ok (Writer.FieldUvarint 100 id ++ typeInfo infoList (Writer.Field 200 ++ w) ++ Writer.End_).
Proof. intros [-> | ->] E; cbn [WriteType]; id_dispatch; rewrite E; reflexivity. Qed.

Ltac other_pair := intros; split; solve_other.

Lemma WriteType_struct n fs :
  (forall f, f ∈ fs -> exists w, type_written n (Type_ f) w) ->
  exists w, type_written (S n) (MkType TypeStruct 0 0 None fs [] 0) w.
Proof.
  intros Hfs.
  destruct (omapM_exists (fun f => let '(MkField n ft) := f in
                                   let! w := WriteType ft in Ok (writeField n w))
    (fun f w => exists w', w = writeField (Name f) w' /\ type_written n (Type_ f) w') fs) as (ws & E & Hws).
  { intros [name ft] Hf. destruct (Hfs _ Hf) as (w & Ew & Hw). cbn [Type_] in *. rewrite Ew. cbn [obind].
    eexists. split; [done|]. exists w. by repeat split. }
  eexists. split; [cbn [WriteType]; id_dispatch;
    rewrite E; reflexivity|].
  eapply write_info; [reflexivity|by compute|by compute|other_pair|].
  intros Hl tl. assert (Hc : go_len (concat ws)).
  { do 2 eapply go_len_app_r. exact Hl. }
  apply parses_info_struct; [done|]. clear E Hl.
  assert (Hin : forall w, w ∈ ws -> go_len w) by (intros; by eapply go_len_concat).
  clear Hc Hfs. induction Hws as [|f w fs ws (w' & -> & _ & Hw) _ IH]; constructor.
  - exists w'. split; [done|]. apply Hw. assert (go_len (writeField (Name f) w')) as Hg by (apply Hin; left).
    unfold writeField, go_len in *. rewrite !length_app in Hg. lia.
  - apply IH. intros. apply Hin. by right.
Qed.

Lemma type_roundtrip n t : encodable n t -> exists w, type_written n t w.
Proof.
  revert t. induction n as [|n IH]; intros t Ht; inversion Ht as
    [n' id Hid|n' w s Hw Hs|n' e He|n' c Hc|n' kn kt vn vt Hk Hv|n' fs Hfs|n' c a Hc Ha]; subst.
  - eexists. split; [by apply WriteType_scalar|]. intros _ tl. by apply parses_type_plain, scalar_range.
  - eexists. split; [reflexivity|]. eapply write_info; [reflexivity|by compute|by compute|..].
    + intros tl. destruct (w =? 0), (s =? 0); cbn [app]; other_pair.
    + intros _ tl. by apply parses_info_decimal.
  - eexists. split; [reflexivity|]. eapply write_info; [reflexivity|by compute|by compute|other_pair|].
    intros Hl tl. apply parses_info_enum. do 3 eapply go_len_app_r. exact Hl.
  - destruct (IH c Hc) as (w & E & Hw). eexists.
    split; [apply WriteType_child; [by left|exact E]|].
    eapply write_info; [reflexivity|by compute|by compute|other_pair|].
    intros Hl tl. apply (parses_info_child _ _ _ c); [by left|done..|]. apply Hw. by eapply go_len_app_r.
  - assert (Hc : encodable (S n') (MkType TypeStruct 0 0 None [MkField kn kt; MkField vn vt] [] 0)).
    { constructor. intros f Hf. apply elem_of_cons in Hf as [->|Hf%list_elem_of_singleton]; [done|by subst]. }
    destruct (IH _ Hc) as (w & E & Hw). eexists.
    split; [apply WriteType_child; [by right|exact E]|].
    eapply write_info; [reflexivity|by compute|by compute|other_pair|].
    intros Hl tl. eapply parses_info_child; [by right|done..|]. apply Hw. by eapply go_len_app_r.
  - apply WriteType_struct. intros f Hf. apply IH. auto.
  - destruct (IH c Hc) as (w & E & Hw). eexists.
    split; [cbn [WriteType]; id_dispatch; rewrite E; reflexivity|].
    eapply write_info; [reflexivity|by compute|by compute|other_pair|].
    intros Hl tl. apply parses_info_array; [unfold in_u, maxVectorRows in *; simpl in *; lia|].
    apply Hw. by eapply go_len_app_l, go_len_app_r.
Qed.

(** ** Vectors: validity *)

(** The dispatch of [decodeFlatVector] on the type. *)
Definition flatBody (child : child_decoder) (t : LogicalType) (count : Z) (validity : option bytes)
    (u : bool) : D cerr (option (list any)) :=
  if is_one_of (ID t) [TypeVarchar; TypeBlob; TypeBit; TypeGeometry]
  then flatVariable t count validity u
  else if is_one_of (ID t) [TypeStruct; TypeUnion; TypeVariant]
  then flatStruct child t count validity u
  else if is_one_of (ID t) [TypeList; TypeMap] then flatList child t count validity u
  else if ID t =? TypeArray then flatArray child t count validity u
  else flatFixed t count validity u.

Lemma parses_vector n t vals body tl :
  Z.of_nat (length vals) <= maxVectorRows -> go_len (writeValidity vals ++ body) ->
  parses (flatBody (decodeVector n) t (Z.of_nat (length vals)) (validityMask vals) false)
    body (Ok (Some vals)) tl ->
  parses (decodeVector (S n) t (Z.of_nat (length vals))) (writeValidity vals ++ body) (Ok (Some vals)) tl.
Proof.
  intros Hrows Hl Hb. cbn [decodeVector]. rewrite (proj2 (Z.ltb_ge _ _)) by done.
  assert (Ho : forall id, id = 90 \/ id = 99 -> other_field id ((writeValidity vals ++ body) ++ tl)).
  { intros id Hid. unfold writeValidity. destruct (validityMask vals); unfold Writer.FieldBool;
      rewrite <- !app_assoc; (apply other_Field; [by compute|lia]). }
  eapply parses_bind_nil; [by apply parses_optField_no, Ho; left|].
  change (vecFlat =? vecFlat) with true. cbv beta iota. unfold decodeFlatVector.
  eapply parses_bind_nil; [by apply parses_TryField_no, Ho; right|].
  eapply parses_bind_nil; [apply parses_ret|]. clear Ho.
  unfold writeValidity in *. revert Hl Hb. destruct (validityMask vals) as [m|] eqn:Em; intros Hl Hb;
    unfold Writer.FieldBool in *; rewrite <- !app_assoc;
    (eapply parses_bind; [by apply parses_TryField|]); cbn [negb].
  - rewrite app_assoc. eapply parses_dbind; [|exact Hb]. unfold decodeValidity.
    eapply parses_bind; [apply parses_Bool|]. cbv beta iota. unfold Writer.FieldBytes.
    eapply parses_bind; [by apply parses_TryField|]. cbn [negb].
    eapply parses_bind_last.
    + apply parses_Bytes. eapply go_len_u; [exact Hl|]. unfold Writer.FieldBytes, Writer.BytesVal.
      rewrite !length_app. lia.
    + unfold validityMask in Em. destruct (existsb _ _); [|done]. injection Em as <-.
      rewrite length_mask_bits. rewrite (proj2 (Z.ltb_ge _ _)); [apply parses_dret|].
      rewrite Z.quot_div_nonneg by lia. pose proof (mask_size (length vals)).
      pose proof (Z.div_mod (Z.of_nat (length vals) + 7) 8 ltac:(lia)).
      pose proof (Z.mod_pos_bound (Z.of_nat (length vals) + 7) 8 ltac:(lia)).
      assert (8 * ((Z.of_nat (length vals) + 7) / 8) < 8 * (Z.of_nat ((length vals + 63) / 64 * 8) + 1)); lia.
  - eapply parses_dbind; [|exact Hb]. unfold decodeValidity.
    eapply parses_bind_last; [apply parses_Bool|]. apply parses_dret.
Qed.

(** Rows are filled in unless they are nil. *)
Lemma fill_rows vals cell :
  (forall i v, vals !! i = Some v -> is_nil v = false -> cell i = Ok v) ->
  fill (validityMask vals) (Z.of_nat (length vals)) cell = Ok vals.
Proof.
  intros Hc. unfold fill. rewrite Nat2Z.id.
  assert (H : forall l k, (forall i v, l !! i = Some v -> vals !! (k + i)%nat = Some v) ->
    omapM (fun i => let! ok := valid (validityMask vals) i in if ok then cell i else Ok VNil)
      (seq k (length l)) = Ok l).
  { induction l as [|v l IH]; intros k Hl; [done|]. cbn [length seq omapM].
    pose proof (Hl 0%nat v eq_refl) as Hv. rewrite Nat.add_0_r in Hv.
    rewrite (validityMask_valid _ _ _ Hv). cbn [obind].
    assert (E : (if negb (is_nil v) then cell k else Ok VNil) = Ok v).
    { destruct (is_nil v) eqn:En; cbn [negb]; [by destruct v|by apply Hc]. }
    rewrite E. cbn [obind]. rewrite IH; [done|]. intros i w Hw. specialize (Hl (S i) w Hw).
    by rewrite Nat.add_succ_r in Hl. }
  by apply H.
Qed.

(** ** Vectors: fixed-width and variable-length cells *)

Lemma slice_concat {A} (cells : list (list A)) w i c :
  (forall c, c ∈ cells -> length c = w) -> cells !! i = Some c ->
  slice (concat cells) (i * w) ((i + 1) * w) = Ok c.
Proof.
  revert i. induction cells as [|c0 cells IH]; intros i Hw Hi; [done|].
  assert (L0 : length c0 = w) by (apply Hw; left). cbn [concat].
  destruct i as [|i].
  - injection Hi as ->. rewrite Nat.mul_0_l, Nat.add_0_l, Nat.mul_1_l. by apply slice_app_l.
  - specialize (IH i (fun c Hc => Hw c (list_elem_of_further _ _ _ Hc)) Hi). unfold slice in *.
    destruct (_ && _) eqn:E in IH; [|done]. injection IH as IH.
    apply andb_true_iff in E as [E1 E2]. apply Nat.leb_le in E1, E2.
    rewrite length_app, (proj2 (Nat.leb_le _ _)), (proj2 (Nat.leb_le _ (_ + _))) by nia.
    cbn [andb]. f_equal. rewrite <- IH. rewrite drop_app_ge by nia. f_equal; [nia|]. f_equal. nia.
Qed.

Lemma fixed_roundtrip t vals : supportedScalar t = true -> 0 < physicalWidth t ->
  Z.of_nat (length (Enum t)) <= 2 ^ 32 -> Forall (fun v => typed true t v = true) vals ->
  exists cells, omapM (appendCell t) vals = Ok cells /\
    (go_len (concat cells) -> forall tl,
       parses (flatFixed t (Z.of_nat (length vals)) (validityMask vals) false)
         (Writer.FieldBytes 102 (concat cells)) (Ok (Some vals)) tl).
Proof.
  intros Hs Hw He Hty. destruct (omapM_exists (appendCell t)
    (fun v c => Z.of_nat (length c) = physicalWidth t /\ (is_nil v = false -> decodeCell t c = Ok v)) vals)
    as (cells & E & Hc).
  { intros v Hv. rewrite Forall_forall in Hty. destruct (cell_roundtrip t v Hs He (Hty _ Hv)) as (c & ?). eauto. }
  exists cells. split; [done|]. intros Hl tl. unfold flatFixed. rewrite (proj2 (Z.eqb_neq _ 0)) by lia.
  unfold Writer.FieldBytes. eapply parses_bind; [by apply parses_TryField|]. cbn [negb].
  assert (Hcw : forall c, c ∈ cells -> length c = Z.to_nat (physicalWidth t)).
  { intros c [i Hi]%list_elem_of_lookup. destruct (Forall2_lookup_r _ _ _ _ _ Hc Hi) as (v & _ & Hlen & _). lia. }
  assert (Hlen : Z.of_nat (length (concat cells)) = Z.of_nat (length vals) * physicalWidth t).
  { rewrite (Forall2_length _ _ _ Hc). clear -Hcw Hw. induction cells as [|c cells IH]; [done|].
    cbn [concat length]. rewrite length_app, (Hcw c ltac:(left)).
    rewrite Nat2Z.inj_add, IH by (intros; apply Hcw; by right). lia. }
  eapply parses_bind_last; [apply parses_Bytes; by eapply go_len_u|].
  rewrite Hlen, Z.ltb_irrefl, Hs. cbn [orb negb].
  rewrite fill_rows.
  - eapply (parses_dbind _ _ []); [apply parses_dret|]. apply parses_finish.
  - intros i v Hv Hn. destruct (Forall2_lookup_l _ _ _ _ _ Hc Hv) as (c & Hci & _ & Hd).
    rewrite (slice_concat _ _ _ _ Hcw Hci). cbn [obind]. by apply Hd.
Qed.

(** A loop over the row numbers, one encoding per row. *)
Lemma parses_rows {E A} (f : nat -> D E A) (vals : list A) (ws : list bytes) k tl :
  length ws = length vals ->
  (forall i v w tl, vals !! i = Some v -> ws !! i = Some w -> parses (f (k + i)%nat) w (Ok v) tl) ->
  parses (dmap f (seq k (length vals))) (concat ws) (Ok vals) tl.
Proof.
  revert ws k tl. induction vals as [|v vals IH]; intros [|w ws] k tl Hl Hf; try done;
    cbn [length seq dmap concat]; [apply parses_dret|].
  eapply parses_dbind; [rewrite <- (Nat.add_0_r k) at 1; by apply (Hf 0%nat)|].
  eapply parses_dbind_last; [|apply parses_dret]. apply IH; [by injection Hl|].
  intros i v' w' tl' Hv Hw. rewrite Nat.add_succ_comm. by apply (Hf (S i)).
Qed.

(** The bytes a non-nil row of a VARCHAR, BLOB or BIT vector holds. *)
Definition cell_bytes (id : Z) (v : any) (b : bytes) : Prop :=
  match v with
  | VString s => if id =? TypeBit then bitString b = Ok s else id = TypeVarchar /\ b = s
  | VBytes s => id = TypeBlob /\ b = s
  | VNil => True
  | _ => False
  end.

Lemma stringCell_spec id v :
  id = TypeVarchar \/ id = TypeBlob \/ id = TypeBit -> typed true (T id) v = true ->
  exists b, stringCell id v = Ok (Writer.BytesVal b) /\ cell_bytes id v b.
Proof.
  intros Hid Hty. assert (Hv : exists b, v = VNil \/ (v = VString b /\ id <> TypeBlob /\
    (id = TypeBit -> forallb is_bit_char b = true)) \/ (v = VBytes b /\ id = TypeBlob)).
  { destruct v; try (destruct Hid as [->|[->| ->]]; discriminate Hty).
    - exists []. by left.
    - exists s. right. left. split; [done|]. destruct Hid as [->|[->| ->]]; try done. split; [done|].
      intros _. cbn [typed T] in Hty. revert Hty. id_dispatch. cbn [orb andb]. by rewrite orb_false_r.
    - exists b. right. right. split; [done|]. by destruct Hid as [->|[->| ->]]. }
  destruct Hv as (b & [->|[(-> & Hb & Hbit)|[-> ->]]]).
  - by exists [].
  - cbn [stringCell cell_bytes]. destruct (id =? TypeBit) eqn:E; zify_bools.
    + destruct (bit_roundtrip b (Hbit E)) as (bl & -> & ?). by exists bl.
    + exists b. split; [done|]. split; [|done]. by destruct Hid as [->|[->| ->]].
  - by exists b.
Qed.

Lemma variable_roundtrip id vals :
  id = TypeVarchar \/ id = TypeBlob \/ id = TypeBit ->
  Forall (fun v => typed true (T id) v = true) vals ->
  exists cells, omapM (stringCell id) vals = Ok cells /\
    (go_len (concat cells) -> forall tl,
       parses (flatVariable (T id) (Z.of_nat (length vals)) (validityMask vals) false)
         (Writer.Field 102 ++ Writer.Uvarint (Z.of_nat (length vals)) ++ concat cells)
         (Ok (Some vals)) tl).
Proof.
  intros Hid Hty. destruct (omapM_exists (stringCell id)
    (fun v c => exists b, c = Writer.BytesVal b /\ cell_bytes id v b) vals) as (cells & E & Hc).
  { intros v Hv. rewrite Forall_forall in Hty. destruct (stringCell_spec id v Hid (Hty _ Hv)) as (b & Eb & Hb).
    exists (Writer.BytesVal b). split; [done|]. by exists b. }
  exists cells. split; [done|]. intros Hl tl. pose proof (Forall2_length _ _ _ Hc) as Hlen.
  unfold flatVariable. eapply parses_bind; [by apply parses_TryField|]. cbn [negb].
  eapply parses_bind; [apply parses_count; [by symmetry| |done]|].
  { intros c [i Hi]%list_elem_of_lookup. destruct (Forall2_lookup_r _ _ _ _ _ Hc Hi) as (v & _ & b & -> & _).
    unfold Writer.BytesVal. rewrite length_app. pose proof (length_Uvarint_pos (Z.of_nat (length b))). lia. }
  rewrite Z.eqb_refl, Nat2Z.id. cbn [negb].
  assert (Hg : (ID (T id) =? TypeGeometry) = false) by (by destruct Hid as [->|[->| ->]]).
  rewrite Hg. cbn [orb]. eapply parses_dbind_last; [|apply parses_finish].
  apply parses_rows; [done|]. intros i v c tl' Hv Hci. rewrite Nat.add_0_l.
  destruct (Forall2_lookup_lr _ _ _ _ _ _ Hc Hv Hci) as (b & -> & Hb).
  eapply parses_bind_last.
  - apply parses_Bytes. assert (Hgc : go_len (Writer.BytesVal b)) by (eapply go_len_concat; [by eapply list_elem_of_lookup_2|done]).
    eapply go_len_u; [exact Hgc|]. unfold Writer.BytesVal. rewrite length_app. lia.
  - rewrite (validityMask_valid _ _ _ Hv). cbn [obind]. rewrite orb_false_r, negb_involutive. cbn [ID T].
    destruct v; try done; cbn [is_nil]; try apply parses_dret.
    + cbn [cell_bytes] in Hb. destruct (id =? TypeBit) eqn:Eb; zify_bools.
      * subst id. id_dispatch. rewrite Hb. apply parses_dret.
      * destruct Hb as [-> ->]. apply parses_dret.
    + destruct Hb as [-> ->]. apply parses_dret.
Qed.

(** ** Vectors: STRUCT *)

Definition vector_written (n : nat) (t : LogicalType) (vals : list any) (w : bytes) : Prop :=
  writeVector t vals = Ok w /\
  (go_len w -> forall tl,
     parses (decodeVector n t (Z.of_nat (length vals))) w (Ok (Some vals)) tl).

Lemma typed_struct_inv strict w sc c fs e a s :
  typed strict (MkType TypeStruct w sc c fs e a) (VStruct s) = true ->
  Forall2 (fun f e => EName e = Name f /\ typed strict (Type_ f) (EValue e) = true) fs s.
Proof.
  cbn [typed]. id_dispatch. rewrite andb_true_l. revert s.
  induction fs as [|[n ft] fs IH]; intros [|[n' v] s] H; try done; constructor.
  - rewrite !andb_true_iff, bool_decide_eq_true in H. cbn [EName EValue Name Type_]. tauto.
  - apply IH. rewrite !andb_true_iff in H. tauto.
Qed.

(** Struct types only have struct rows (and nil). *)
Lemma typed_struct_row strict w sc c fs e a v :
  typed strict (MkType TypeStruct w sc c fs e a) v = true ->
  v = VNil \/ exists s, v = VStruct s.
Proof. destruct v; intros H; try discriminate H; eauto. Qed.

(** Row [i] of column [j]. *)
Definition column_entry (j : nat) (v x : any) : Prop :=
  match v with
  | VStruct s => exists e, s !! j = Some e /\ x = EValue e
  | _ => x = VNil
  end.

Lemma structColumn_spec w sc c fs e a j f vals :
  fs !! j = Some f ->
  Forall (fun v => typed true (MkType TypeStruct w sc c fs e a) v = true) vals ->
  exists col, structColumn j vals = Ok col /\ Forall2 (column_entry j) vals col /\
    Forall (fun v => typed true (Type_ f) v = true) col.
Proof.
  intros Hj Hty. rewrite Forall_forall in Hty.
  destruct (omapM_exists (fun v => match v with
                  | VStruct s => let! e := index s j in Ok (EValue e)
                  | _ => Ok VNil
                  end) (fun v x => column_entry j v x /\ typed true (Type_ f) x = true) vals) as (col & E & Hcol).
  { intros v Hv. specialize (Hty _ Hv). assert (typed true (Type_ f) VNil = true) by (by destruct (Type_ f)).
    destruct (typed_struct_row _ _ _ _ _ _ _ _ Hty) as [->|[s ->]]; [by exists VNil|].
    apply typed_struct_inv in Hty. destruct (Forall2_lookup_l _ _ _ _ _ Hty Hj) as (x & Hx & _ & Hxt).
    exists (EValue x). unfold index. rewrite Hx. cbn. eauto. }
  exists col. split; [done|]. clear E Hty Hj. split; induction Hcol; constructor; tauto.
Qed.

Lemma omapMi_exists {A B C} (F : nat -> A -> outcome cerr B) (P : nat -> A -> B -> C -> Prop) l k :
  (forall j x, l !! j = Some x -> exists y z, F (k + j)%nat x = Ok y /\ P j x y z) ->
  exists ys zs, omapMi F k l = Ok ys /\ length ys = length l /\ length zs = length l /\
    forall j x y z, l !! j = Some x -> ys !! j = Some y -> zs !! j = Some z -> P j x y z.
Proof.
  revert k P. induction l as [|x l IH]; intros k P H; [by exists [], []|]. cbn [omapMi].
  destruct (H 0%nat x eq_refl) as (y & z & Ey & HP). rewrite Nat.add_0_r in Ey.
  destruct (IH (S k) (fun j => P (S j))) as (ys & zs & Eys & L1 & L2 & Hys).
  { intros j x' Hx'. rewrite Nat.add_succ_comm. by apply (H (S j)). }
  exists (y :: ys), (z :: zs). rewrite Ey, Eys. cbn [obind length]. repeat split; [lia|lia|].
  intros [|j] x' y' z' Hx Hy Hz; [|by eapply Hys].
  injection Hx as <-. injection Hy as <-. by injection Hz as <-.
Qed.

Lemma parses_dmap_lookup {E A B} (f : A -> D E B) (l : list A) (ws : list bytes) (ys : list B) tl :
  length ws = length l -> length ys = length l ->
  (forall j x w y tl, l !! j = Some x -> ws !! j = Some w -> ys !! j = Some y -> parses (f x) w (Ok y) tl) ->
  parses (dmap f l) (concat ws) (Ok ys) tl.
Proof.
  intros L1 L2 H. apply parses_dmap_all. revert ws ys L1 L2 H.
  induction l as [|x l IH]; intros [|w ws] [|y ys] L1 L2 H; try done; constructor.
  - intros tl'. by apply (H 0%nat).
  - apply IH; [by injection L1|by injection L2|]. intros j. apply (H (S j)).
Qed.

Lemma omapM_lookup {A B} (f : A -> outcome cerr B) l ys :
  length ys = length l -> (forall j x y, l !! j = Some x -> ys !! j = Some y -> f x = Ok y) ->
  omapM f l = Ok ys.
Proof.
  revert ys. induction l as [|x l IH]; intros [|y ys] L H; try done. cbn [omapM].
  rewrite (H 0%nat x y eq_refl eq_refl), (IH ys); [done|by injection L|intros j; apply (H (S j))].
Qed.

Lemma structRow_roundtrip fs cols vals i s :
  length cols = length fs ->
  Forall2 (fun f e => EName e = Name f /\ typed true (Type_ f) (EValue e) = true) fs s ->
  (forall j col, cols !! j = Some col -> Forall2 (column_entry j) vals col) ->
  vals !! i = Some (VStruct s) ->
  structRow fs (fmap Some cols) i = Ok (VStruct s).
Proof.
  intros Hl Hs Hcols Hi. unfold structRow.
  rewrite (omapM_lookup _ _ s); [done|rewrite length_zip_with, length_fmap, Hl, (Forall2_length _ _ _ Hs); lia|].
  intros j [f o] e Hz He. apply lookup_zip_with_Some in Hz as (f' & o' & [= <- <-] & Hf & Ho).
  rewrite list_lookup_fmap in Ho. destruct (cols !! j) as [col|] eqn:Hc; [|done]. injection Ho as <-.
  cbn [default from_option id]. destruct (Forall2_lookup_l _ _ _ _ _ (Hcols _ _ Hc) Hi) as (x & Hx & e' & He' & ->).
  unfold index. rewrite Hx. cbn [obind]. rewrite He in He'. injection He' as <-.
  destruct (Forall2_lookup_lr _ _ _ _ _ _ Hs Hf He) as [<- _]. by destruct e.
Qed.

Lemma foralli_lookup {A} (F : nat -> A -> bool) k l j x :
  foralli F k l = true -> l !! j = Some x -> F (k + j)%nat x = true.
Proof.
  revert k j. induction l as [|y l IH]; intros k [|j] H Hx; try done; cbn [foralli] in H;
    apply andb_true_iff in H as [H1 H2].
  - injection Hx as <-. by rewrite Nat.add_0_r.
  - rewrite <- Nat.add_succ_comm. by apply IH.
Qed.

(** ** Vectors: LIST and MAP *)

Lemma fits_rows t vals : fits t vals = true -> Z.of_nat (length vals) <= maxVectorRows.
Proof. destruct t. cbn [fits]. rewrite andb_true_iff, Z.leb_le. tauto. Qed.

(** What [listElems] promises for a typed row of a LIST or MAP type. *)
Definition elems_ok (t c : LogicalType) (v : any) (r : list any) : Prop :=
  Forall (fun v => typed true c v = true) r /\
  (is_nil v = false -> (if ID t =? TypeMap then VMap (mapEntry <$> r) else VSlice r) = v).

Lemma listElems_list c v :
  typed true (MkType TypeList 0 0 (Some c) [] [] 0) v = true ->
  exists r, listElems (Some c) v = Ok r /\ elems_ok (MkType TypeList 0 0 (Some c) [] [] 0) c v r.
Proof.
  intros Hty. destruct v; try discriminate Hty.
  - exists []. split; [done|]. by split.
  - exists l. split; [done|]. split; [|done]. cbn [typed] in Hty. revert Hty. id_dispatch.
    cbn [orb andb]. apply forallb_Forall_eq.
Qed.

Lemma listElems_map kn kt vn vt v :
  let c := MkType TypeStruct 0 0 None [MkField kn kt; MkField vn vt] [] 0 in
  typed true (MkType TypeMap 0 0 (Some c) [] [] 0) v = true ->
  exists r, listElems (Some c) v = Ok r /\ elems_ok (MkType TypeMap 0 0 (Some c) [] [] 0) c v r.
Proof.
  intros c Hty. destruct v; try discriminate Hty.
  - exists []. split; [done|]. by split.
  - cbn [typed] in Hty. revert Hty. unfold c. id_dispatch. rewrite andb_true_l, forallb_Forall_eq.
    intros Hty. exists ((fun e => VStruct [MkEntry kn (Key e); MkEntry vn (Value e)]) <$> l).
    split; [|split].
    + cbn [listElems]. apply omapM_lookup; [apply length_fmap|]. intros j e y Hj Hy.
      rewrite list_lookup_fmap, Hj in Hy. by injection Hy as <-.
    + apply Forall_fmap. eapply Forall_impl; [exact Hty|]. intros [k w] H.
      assert (typed true kt k = true /\ typed true vt w = true) as [Hk Hw].
      { apply orb_true_iff in H as [H|H].
        - rewrite !andb_true_iff in H. tauto.
        - destruct k, w; try discriminate H. by destruct kt, vt. }
      cbn -[TypeStruct Z.eqb]. id_dispatch. cbn [Key Value]. by rewrite !bool_decide_true, Hk, Hw by done.
    + intros _. cbn [ID]. id_dispatch. f_equal. rewrite <- list_fmap_compose.
      rewrite <- (list_fmap_id l) at 2. apply list_fmap_ext. by intros _ [k w] _.
Qed.

Lemma length_listWindows rows off : length (listWindows rows off) = length rows.
Proof. revert off. induction rows; intros; cbn [listWindows length]; auto. Qed.

(** The window of row [i] cuts row [i] out of the flattened elements. *)
Lemma listWindows_spec rows pre off i r :
  off = Z.of_nat (length pre) -> rows !! i = Some r ->
  exists o, listWindows rows off !! i = Some (o, Z.of_nat (length r)) /\
    0 <= o /\ o + Z.of_nat (length r) <= Z.of_nat (length (pre ++ concat rows)) /\
    slice (pre ++ concat rows) (Z.to_nat o) (Z.to_nat (o + Z.of_nat (length r))) = Ok r.
Proof.
  revert pre off i. induction rows as [|r0 rows IH]; intros pre off i -> Hi; [done|].
  cbn [listWindows concat]. destruct i as [|i].
  - injection Hi as ->. exists (Z.of_nat (length pre)). rewrite !length_app. split; [done|].
    split; [lia|]. split; [lia|]. unfold slice. rewrite !length_app.
    rewrite (proj2 (Nat.leb_le _ _)), (proj2 (Nat.leb_le _ (_ + _))) by lia. cbn [andb]. f_equal.
    rewrite Nat2Z.id, drop_app_length. replace (_ - _)%nat with (length r) by lia. apply take_app_length.
  - destruct (IH (pre ++ r0) (Z.of_nat (length pre) + Z.of_nat (length r0)) i) as (o & Ho & H);
      [rewrite length_app; lia|done|]. exists o. rewrite <- app_assoc in H. split; [exact Ho|exact H].
Qed.

Lemma parses_listEntry e tl : in_u 64 (fst e) -> in_u 64 (snd e) ->
  parses listEntry (writeEntry e) e tl.
Proof.
  intros H1 H2. unfold listEntry, writeEntry, Writer.FieldUvarint.
  eapply parses_bind; [apply parses_optField; [by compute|by apply parses_Uvarint]|].
  eapply parses_bind; [apply parses_optField; [by compute|by apply parses_Uvarint]|].
  eapply parses_bind_last; [apply parses_End|]. destruct e. apply parses_ret.
Qed.

Lemma parses_windows rows n tl :
  length rows = n -> Z.of_nat (length (concat rows)) <= maxVectorRows ->
  parses (mrepeat n listEntry) (concat (writeEntry <$> listWindows rows 0)) (listWindows rows 0) tl.
Proof.
  intros <- Hmax. pose proof (parses_mrepeat listEntry writeEntry id (listWindows rows 0) tl) as H.
  rewrite list_fmap_id, length_listWindows in H. apply H.
  intros e tl' [i He]%list_elem_of_lookup. unfold id.
  destruct (lookup_lt_is_Some_2 rows i) as [r Hr].
  { rewrite <- (length_listWindows rows 0). by eapply lookup_lt_Some. }
  destruct (listWindows_spec rows [] 0 i r eq_refl Hr) as (o & Ho & Hpos & Hle & _).
  rewrite He in Ho. injection Ho as ->. cbn [app] in Hle. unfold maxVectorRows in *.
  apply parses_listEntry; cbn [fst snd]; unfold in_u; simpl in *; lia.
Qed.

(** ** Vectors: ARRAY *)

Definition array_elems_ok (c : LogicalType) (a : Z) (v : any) (r : list any) : Prop :=
  length r = Z.to_nat a /\ Forall (fun v => typed true c v = true) r /\ (is_nil v = false -> VSlice r = v).

Lemma arrayElems_spec c a v : 0 <= a ->
  typed true (MkType TypeArray 0 0 (Some c) [] [] a) v = true ->
  exists r, arrayElems a v = Ok r /\ array_elems_ok c a v r.
Proof.
  intros Ha Hty. destruct v; try discriminate Hty.
  - eexists. split; [done|]. split; [apply length_replicate|]. split; [|done].
    apply Forall_replicate. by destruct c.
  - cbn [typed] in Hty. revert Hty. id_dispatch. cbn [negb orb andb].
    rewrite andb_true_iff, Z.eqb_eq, forallb_Forall_eq. intros [Hl Hty].
    exists l. cbn [arrayElems]. rewrite Hl, Z.eqb_refl. split; [done|]. split; [lia|]. by split.
Qed.

Lemma arrayRow_concat rows a i r :
  (forall r, r ∈ rows -> length r = Z.to_nat a) -> rows !! i = Some r ->
  arrayRow (concat rows) a i = Ok (VSlice r).
Proof.
  intros Hlen Hr. pose proof (slice_concat _ _ _ _ Hlen Hr) as Hs. unfold arrayRow, slice in *.
  destruct (_ && _) eqn:E in Hs; [|done]. apply andb_true_iff in E as [E1 E2]. apply Nat.leb_le in E1, E2.
  rewrite (proj2 (Nat.leb_le _ _)), Nat.leb_refl by lia. cbn [andb obind]. injection Hs as Hs.
  replace ((i + 1) * Z.to_nat a - i * Z.to_nat a)%nat with (Z.to_nat a) in Hs by lia.
  rewrite (take_ge (drop _ _)) by (rewrite length_drop; lia). rewrite Hs.
  rewrite (Hlen r) by (by eapply list_elem_of_lookup_2). by rewrite Nat.sub_diag, app_nil_r.
Qed.

(** Side conditions on the length of a part of an output. *)
Ltac go_len_tac := unfold go_len in *; rewrite ?length_app in *; lia.

(** No child of an encoded STRUCT is unsupported. *)
Lemma all_supported (cols : list (list any)) :
  existsb snd ((fun col => (Some col, false)) <$> cols) = false.
Proof. by induction cols as [|col cols IH]. Qed.

Section Children.
Context (n : nat).
Context (child_written : forall t vals, encodable n t ->
  Forall (fun v => typed true t v = true) vals -> fits t vals = true ->
  exists w, vector_written n t vals w).

Lemma struct_roundtrip fs vals :
  (forall f, f ∈ fs -> encodable n (Type_ f)) ->
  Forall (fun v => typed true (MkType TypeStruct 0 0 None fs [] 0) v = true) vals ->
  fits (MkType TypeStruct 0 0 None fs [] 0) vals = true ->
  exists ws, omapMi (fun j f => let '(MkField _ ft) := f in
                                let! col := structColumn j vals in
                                let! w := writeVector ft col in
                                Ok (w ++ Writer.End_)) 0 fs = Ok ws /\
    (go_len (concat ws) -> forall tl,
      parses (flatStruct (decodeVector n) (MkType TypeStruct 0 0 None fs [] 0)
                (Z.of_nat (length vals)) (validityMask vals) false)
        (Writer.Field 103 ++ Writer.Uvarint (Z.of_nat (length fs)) ++ concat ws) (Ok (Some vals)) tl).
Proof.
  intros Hfs Hty Hfit. cbn [fits] in Hfit. apply andb_true_iff in Hfit as [_ Hfit].
  revert Hfit. id_dispatch. intros Hfit.
  destruct (omapMi_exists (fun j f => let '(MkField _ ft) := f in
                                let! col := structColumn j vals in
                                let! w := writeVector ft col in
                                Ok (w ++ Writer.End_))
    (fun j f w col => Forall2 (column_entry j) vals col /\
       exists w', w = w' ++ Writer.End_ /\ vector_written n (Type_ f) col w') fs 0)
    as (ws & cols & E & L1 & L2 & Hws).
  { intros j [nm ft] Hj. destruct (structColumn_spec _ _ _ _ _ _ _ _ _ Hj Hty) as (col & Ec & Hcol & Hct).
    pose proof (foralli_lookup _ _ _ _ _ Hfit Hj) as Hf. cbn beta iota in Hf. rewrite Nat.add_0_l in *.
    rewrite Ec in Hf |- *. destruct (child_written ft col) as (w & Ew & Hw); [|done..|].
    - apply (Hfs (MkField nm ft)). by eapply list_elem_of_lookup_2.
    - exists (w ++ Writer.End_), col. cbn [obind]. rewrite Ew. split; [done|]. split; [done|]. by exists w. }
  exists ws. split; [done|]. intros Hl tl. unfold flatStruct. cbn [Fields ID].
  eapply parses_bind; [by apply parses_TryField|]. cbn [negb].
  eapply parses_bind; [apply parses_count; [done| |done]|].
  { intros w [j Hj]%list_elem_of_lookup. destruct (lookup_lt_is_Some_2 fs j) as [f Hf];
      [rewrite <- L1; by eapply lookup_lt_Some|].
    destruct (lookup_lt_is_Some_2 cols j) as [col Hc]; [rewrite L2, <- L1; by eapply lookup_lt_Some|].
    destruct (Hws _ _ _ _ Hf Hj Hc) as (_ & w' & -> & _). rewrite length_app.
    change (length Writer.End_) with (length (Writer.Field EndID)). rewrite length_Field. lia. }
  rewrite Z.eqb_refl. cbn [negb].
  eapply parses_dbind_last; [apply (parses_dmap_lookup _ _ _ ((fun col => (Some col, false)) <$> cols)); [done|by rewrite length_fmap|]|].
  - intros j f w y tl' Hf Hw Hy. rewrite list_lookup_fmap in Hy.
    destruct (cols !! j) as [col|] eqn:Hc; [|done]. injection Hy as <-.
    destruct (Hws _ _ _ _ Hf Hw Hc) as (Hcol & w' & -> & _ & Hp). unfold structChild.
    rewrite (Forall2_length _ _ _ Hcol).
    eapply parses_bind; [apply Hp|].
    + eapply go_len_app_l. eapply go_len_concat; [|exact Hl]. by eapply list_elem_of_lookup_2.
    + eapply parses_bind_last; [apply parses_End|apply parses_dret].
  - rewrite all_supported. id_dispatch. cbn [orb negb].
    rewrite <- list_fmap_compose. rewrite (list_fmap_ext _ Some) by done.
    rewrite fill_rows; [eapply (parses_dbind _ _ []); [apply parses_dret|apply parses_finish]|].
    intros i v Hv Hn. rewrite Forall_lookup in Hty. specialize (Hty _ _ Hv).
    destruct (typed_struct_row _ _ _ _ _ _ _ _ Hty) as [->|[s ->]]; [done|].
    apply typed_struct_inv in Hty. eapply structRow_roundtrip; [done|done| |done].
    intros j col Hc. destruct (lookup_lt_is_Some_2 fs j) as [f Hf]; [rewrite <- L2; by eapply lookup_lt_Some|].
    destruct (lookup_lt_is_Some_2 ws j) as [w Hw]; [rewrite L1, <- L2; by eapply lookup_lt_Some|].
    by destruct (Hws _ _ _ _ Hf Hw Hc).
Qed.


Lemma listRow_roundtrip t c rows vals i v :
  Forall2 (elems_ok t c) vals rows -> vals !! i = Some v -> is_nil v = false ->
  listRow t (listWindows rows 0) (concat rows) (Z.of_nat (length (concat rows))) i = Ok v.
Proof.
  intros Hrows Hv Hn. destruct (Forall2_lookup_l _ _ _ _ _ Hrows Hv) as (r & Hr & _ & Hval).
  destruct (listWindows_spec rows [] 0 i r eq_refl Hr) as (o & Ho & Hpos & Hle & Hs). cbn [app] in *.
  unfold listRow, index. rewrite Ho. cbn [obind].
  rewrite (proj2 (Z.ltb_ge _ _)), (proj2 (Z.ltb_ge _ o)) by lia. cbn [orb]. rewrite Hs. cbn [obind].
  rewrite <- (Hval Hn). by destruct (ID t =? TypeMap).
Qed.

Lemma list_roundtrip t c vals :
  Child t = Some c -> encodable n c ->
  (forall v, v ∈ vals -> exists r, listElems (Some c) v = Ok r /\ elems_ok t c v r) ->
  (forall rows, omapM (listElems (Some c)) vals = Ok rows -> fits c (concat rows) = true) ->
  exists rows w, omapM (listElems (Some c)) vals = Ok rows /\ writeVector c (concat rows) = Ok w /\
    let body := Writer.FieldUvarint 104 (Z.of_nat (length (concat rows))) ++
       Writer.Field 105 ++ Writer.Uvarint (Z.of_nat (length vals)) ++
       concat (writeEntry <$> listWindows rows 0) ++
       Writer.Field 106 ++ w ++ Writer.End_ in
    (go_len body -> forall tl,
       parses (flatList (decodeVector n) t (Z.of_nat (length vals)) (validityMask vals) false)
         body (Ok (Some vals)) tl).
Proof.
  intros Hc Henc Hel Hfit. destruct (omapM_exists _ (elems_ok t c) vals Hel) as (rows & E & Hrows).
  specialize (Hfit _ E). pose proof (fits_rows _ _ Hfit) as Hmax.
  destruct (child_written c (concat rows) Henc) as (w & Ew & Hw); [|done|].
  { clear -Hrows. induction Hrows as [|v r vals rows [Hr _] _ IH]; cbn [concat]; [done|]. by apply Forall_app. }
  exists rows, w. split; [done|]. split; [done|]. cbv zeta. intros Hl tl.
  pose proof (Forall2_length _ _ _ Hrows) as Hlen.
  assert (Hsz : in_u 64 (Z.of_nat (length (concat rows)))).
  { unfold in_u, maxVectorRows in *. simpl in *. lia. }
  unfold flatList, Writer.FieldUvarint. rewrite <- !app_assoc.
  eapply parses_bind; [by apply parses_TryField|]. cbn [negb].
  eapply parses_bind; [by apply parses_Uvarint|]. rewrite (proj2 (Z.ltb_ge _ _)) by done.
  eapply parses_bind; [by apply parses_TryField|]. cbn [negb].
  assert (Hes : length (writeEntry <$> listWindows rows 0) = length vals) by
    (by rewrite length_fmap, length_listWindows).
  eapply parses_bind; [rewrite <- app_assoc; apply parses_count; [exact Hes| |]|].
  { intros x (e & -> & _)%list_elem_of_fmap. unfold writeEntry, Writer.FieldUvarint.
    rewrite !length_app, length_Field. lia. }
  { go_len_tac. }
  rewrite Z.eqb_refl, Nat2Z.id. cbn [negb].
  eapply parses_bind; [by apply parses_windows; rewrite <- ?Hlen|].
  eapply parses_bind; [by apply parses_TryField|]. cbn [negb]. rewrite Hc.
  eapply parses_bind; [apply Hw; go_len_tac|].
  eapply parses_dbind_last; [unfold childValues; eapply parses_bind_last; [apply parses_End|apply parses_dret]|].
  cbn [default from_option id]. rewrite fill_rows.
  - eapply (parses_dbind _ _ []); [apply parses_dret|apply parses_finish].
  - intros i v Hv Hn. by eapply listRow_roundtrip.
Qed.


Lemma array_roundtrip c a vals :
  let t := MkType TypeArray 0 0 (Some c) [] [] a in
  encodable n c -> 0 <= a <= maxVectorRows -> Z.of_nat (length vals) <= maxVectorRows ->
  Forall (fun v => typed true t v = true) vals ->
  (forall rows, omapM (arrayElems a) vals = Ok rows -> fits c (concat rows) = true) ->
  exists rows w, omapM (arrayElems a) vals = Ok rows /\ writeVector c (concat rows) = Ok w /\
    (go_len w -> forall tl,
       parses (flatArray (decodeVector n) t (Z.of_nat (length vals)) (validityMask vals) false)
         (Writer.FieldUvarint 103 a ++ Writer.Field 104 ++ w ++ Writer.End_) (Ok (Some vals)) tl).
Proof.
  intros t Henc Ha Hvals Hty Hfit.
  destruct (omapM_exists (arrayElems a) (array_elems_ok c a) vals) as (rows & E & Hrows).
  { intros v Hv. apply arrayElems_spec; [lia|]. rewrite Forall_forall in Hty. by apply Hty. }
  specialize (Hfit _ E). pose proof (fits_rows _ _ Hfit) as Hmax.
  destruct (child_written c (concat rows) Henc) as (w & Ew & Hw); [|done|].
  { clear -Hrows. induction Hrows as [|v r vals rows [_ [Hr _]] _ IH]; cbn [concat]; [done|]. by apply Forall_app. }
  exists rows, w. split; [done|]. split; [done|]. intros Hl tl.
  assert (Hlen : forall r, r ∈ rows -> length r = Z.to_nat a).
  { intros r [i Hi]%list_elem_of_lookup. by destruct (Forall2_lookup_r _ _ _ _ _ Hrows Hi) as (v & _ & Hr & _). }
  assert (Hsz : Z.of_nat (length (concat rows)) = a * Z.of_nat (length vals)).
  { rewrite (Forall2_length _ _ _ Hrows). clear -Hlen Ha. induction rows as [|r rows IH]; [simpl; lia|].
    cbn [concat length]. rewrite length_app, (Hlen r ltac:(left)), Nat2Z.inj_add, IH by (intros; apply Hlen; by right). lia. }
  unfold flatArray, Writer.FieldUvarint. rewrite <- !app_assoc.
  eapply parses_bind; [by apply parses_TryField|]. cbn [negb].
  eapply parses_bind; [apply parses_Uvarint; unfold in_u, maxVectorRows in *; simpl in *; lia|].
  rewrite array_count, <- Hsz by lia. rewrite !(proj2 (Z.ltb_ge _ _)) by lia. cbn [orb].
  eapply parses_bind; [by apply parses_TryField|]. cbn [negb Child t].
  eapply parses_bind; [by apply Hw|].
  eapply parses_dbind_last; [unfold childValues; eapply parses_bind_last; [apply parses_End|apply parses_dret]|].
  cbn [default from_option id]. rewrite fill_rows.
  - eapply (parses_dbind _ _ []); [apply parses_dret|apply parses_finish].
  - intros i v Hv Hn. destruct (Forall2_lookup_l _ _ _ _ _ Hrows Hv) as (r & Hr & Hrl & _ & Hval).
    rewrite <- (Hval Hn). by apply arrayRow_concat.
Qed.

End Children.

(** ** Vectors of every type *)

Lemma vector_from_body n t vals body :
  Z.of_nat (length vals) <= maxVectorRows -> writeVector t vals = Ok (writeValidity vals ++ body) ->
  (go_len body -> forall tl, parses (flatBody (decodeVector n) t (Z.of_nat (length vals)) (validityMask vals) false)
     body (Ok (Some vals)) tl) ->
  exists w, vector_written (S n) t vals w.
Proof.
  intros Hr Hw Hp. eexists. split; [exact Hw|]. intros Hl tl. apply parses_vector; [done|done|].
  apply Hp. by eapply go_len_app_r.
Qed.

Lemma vector_list n id c vals :
  id = TypeList \/ id = TypeMap ->
  let t := MkType id 0 0 (Some c) [] [] 0 in
  (forall t vals, encodable n t -> Forall (fun v => typed true t v = true) vals -> fits t vals = true ->
     exists w, vector_written n t vals w) ->
  encodable n c -> fits t vals = true ->
  (forall v, v ∈ vals -> exists r, listElems (Some c) v = Ok r /\ elems_ok t c v r) ->
  exists w, vector_written (S n) t vals w.
Proof.
  intros Hid t IH Hc Hfit Hel. pose proof (fits_rows _ _ Hfit) as Hmax.
  destruct (list_roundtrip n IH t c vals eq_refl Hc Hel) as (rows & w & E & Ew & Hw).
  { intros rows E. unfold t in Hfit. cbn [fits] in Hfit. apply andb_true_iff in Hfit as [_ Hfit].
    destruct Hid as [-> | ->]; revert Hfit; id_dispatch; by rewrite E. }
  eapply vector_from_body; [done| |].
  - unfold t. cbn [writeVector]. destruct Hid as [-> | ->]; id_dispatch; rewrite E; cbn [obind];
      rewrite Ew; reflexivity.
  - intros Hl tl. unfold flatBody, t. cbn [ID]. destruct Hid as [-> | ->]; id_dispatch; by apply Hw.
Qed.

Lemma vector_fixed n t vals :
  supportedScalar t = true -> Z.of_nat (length (Enum t)) <= 2 ^ 32 ->
  Z.of_nat (length vals) <= maxVectorRows -> Forall (fun v => typed true t v = true) vals ->
  exists w, vector_written (S n) t vals w.
Proof.
  intros Hs He Hr Hty.
  assert (Hid : forall l, l = [TypeVarchar; TypeBlob; TypeBit] \/ l = [TypeVarchar; TypeBlob; TypeBit; TypeGeometry] \/
     l = [TypeStruct; TypeUnion; TypeVariant] \/ l = [TypeList; TypeMap] \/ l = [TypeStruct] \/ l = [TypeArray] ->
     is_one_of (ID t) l = false).
  { revert Hs. unfold supportedScalar, is_one_of at 1. rewrite existsb_exists. intros (x & Hx & E).
    apply Z.eqb_eq in E. rewrite E. intros l Hl. clear -Hx Hl.
    repeat destruct Hx as [<-|Hx]; [..|destruct Hx]; by destruct Hl as [->|[->|[->|[->|[->| ->]]]]]. }
  assert (Hw : 0 < physicalWidth t).
  { revert Hs. unfold supportedScalar, is_one_of at 1. rewrite existsb_exists. intros (x & Hx & E).
    apply Z.eqb_eq in E. unfold physicalWidth. rewrite E. clear -Hx. unfold enumIndexWidth.
    repeat destruct Hx as [<-|Hx]; [..|destruct Hx]; id_dispatch; repeat case_match; lia. }
  assert (E1 : (ID t =? TypeStruct) = false) by (rewrite <- (orb_false_r (_ =? _)); apply (Hid [TypeStruct]); auto 10).
  assert (E2 : (ID t =? TypeArray) = false) by (rewrite <- (orb_false_r (_ =? _)); apply (Hid [TypeArray]); auto 10).
  destruct (fixed_roundtrip t vals Hs Hw He Hty) as (cells & E & Hp).
  eapply (vector_from_body _ _ _ (Writer.FieldBytes 102 (concat cells))); [done| |].
  - destruct t as [id w sc ch fs en a]. cbn [writeVector ID] in *.
    rewrite E1, E2, !Hid by auto 10. rewrite E. reflexivity.
  - intros Hl tl. unfold flatBody. rewrite E2, !Hid by auto 10. apply Hp.
    unfold Writer.FieldBytes, Writer.BytesVal in Hl. go_len_tac.
Qed.

Lemma vector_variable n id vals :
  id = TypeVarchar \/ id = TypeBlob \/ id = TypeBit -> Z.of_nat (length vals) <= maxVectorRows ->
  Forall (fun v => typed true (T id) v = true) vals -> exists w, vector_written (S n) (T id) vals w.
Proof.
  intros Hid Hr Hty. destruct (variable_roundtrip id vals Hid Hty) as (cells & E & Hp).
  eapply vector_from_body; [done| |].
  - unfold T. cbn [writeVector]. destruct Hid as [->|[->| ->]]; id_dispatch; rewrite E; reflexivity.
  - intros Hl tl. unfold flatBody. cbn [ID T]. destruct Hid as [->|[->| ->]]; id_dispatch; apply Hp; go_len_tac.
Qed.

Lemma vector_roundtrip n t vals :
  encodable n t -> Forall (fun v => typed true t v = true) vals -> fits t vals = true ->
  exists w, vector_written n t vals w.
Proof.
  revert t vals. induction n as [|n IH]; intros t vals Ht Hty Hfit; [inversion Ht|].
  pose proof (fits_rows _ _ Hfit) as Hmax. inversion Ht as
    [n' id Hid|n' w s Hw Hs|n' e He|n' c Hc|n' kn kt vn vt Hk Hv|n' fs Hfs|n' c a Hc Ha]; subst.
  - destruct (is_one_of id [TypeVarchar; TypeBlob; TypeBit]) eqn:Ev.
    + apply vector_variable; [|done..]. cbn [is_one_of existsb] in Ev.
      rewrite !orb_true_iff, !Z.eqb_eq in Ev. intuition discriminate.
    + apply vector_fixed; [|done..]. revert Hid Ev. unfold is_one_of at 1. rewrite existsb_exists.
      intros (x & Hx & E). apply Z.eqb_eq in E. subst x. repeat destruct Hx as [<-|Hx]; done.
  - apply vector_fixed; done.
  - apply vector_fixed; done.
  - apply (vector_list n TypeList c vals); auto. intros v Hin. apply listElems_list.
    rewrite Forall_forall in Hty. by apply Hty.
  - apply (vector_list (S n') TypeMap); auto.
    + constructor. intros f [->|[->|[]%not_elem_of_nil]%elem_of_cons]%elem_of_cons; done.
    + intros v Hin. apply listElems_map. rewrite Forall_forall in Hty. by apply Hty.
  - destruct (struct_roundtrip n IH fs vals Hfs Hty Hfit) as (ws & E & Hp).
    eapply vector_from_body; [done|cbn [writeVector]; id_dispatch; rewrite E; reflexivity|].
    intros Hl tl. unfold flatBody. cbn [ID]. id_dispatch. apply Hp. go_len_tac.
  - destruct (array_roundtrip n IH c a vals Hc Ha Hmax Hty) as (rows & w & E & Ew & Hw).
    { intros rows E. cbn [fits] in Hfit. apply andb_true_iff in Hfit as [_ Hfit].
      revert Hfit. id_dispatch. by rewrite E. }
    eapply vector_from_body; [done|cbn [writeVector]; id_dispatch; rewrite E; cbn [obind]; rewrite Ew; reflexivity|].
    intros Hl tl. unfold flatBody. cbn [ID]. id_dispatch. apply Hw. go_len_tac.
Qed.

(** ** Chunks *)

(** A column of a table the encoder is given. *)
Definition col_ok (rows : nat) (c : Col) : Prop :=
  encodable (S maxTypeDepth) (ColType c) /\ length (Vals c) = rows /\
  Forall (fun v => typed true (ColType c) v = true) (Vals c) /\ fits (ColType c) (Vals c) = true.

Definition table_rows (cols : list Col) : nat :=
  match cols with [] => 0%nat | c :: _ => length (Vals c) end.

Definition table_ok (cols : list Col) : Prop :=
  Z.of_nat (table_rows cols) <= maxChunkRows /\ forall c, c ∈ cols -> col_ok (table_rows cols) c.

Definition column_of (c : Col) : Column := MkColumn (ColType c) (Vals c) None.
Definition chunk_of (cols : list Col) : Chunk :=
  MkChunk (Z.of_nat (table_rows cols)) (column_of <$> cols).

Lemma length_End : length Writer.End_ = 2%nat.
Proof. apply length_Field. Qed.

Lemma type_nonempty n t w : type_written n t w -> (0 < length w)%nat.
Proof.
  intros [H _]. destruct t. cbn [WriteType] in H. match type of H with obind ?o _ = _ => destruct o; cbn [obind] in H; [|done..] end.
  injection H as <-. rewrite !length_app, length_End. lia.
Qed.

Lemma types_written cols : (forall c, c ∈ cols -> encodable (S maxTypeDepth) (ColType c)) ->
  exists ws, omapM (fun c => WriteType (ColType c)) cols = Ok ws /\
    Forall2 (fun c w => type_written (S maxTypeDepth) (ColType c) w) cols ws.
Proof.
  intros H. apply omapM_exists. intros c Hc. destruct (type_roundtrip _ _ (H c Hc)) as (w & Hw).
  exists w. split; [apply Hw|done].
Qed.

Lemma parses_types cols ws tl :
  Forall2 (fun c w => type_written (S maxTypeDepth) (ColType c) w) cols ws -> go_len (concat ws) ->
  parses Reader.ListCount (Writer.Uvarint (Z.of_nat (length cols))) (Z.of_nat (length cols)) (concat ws ++ tl) /\
  parses (drepeat (length cols) decodeType0) (concat ws) (Ok (ColType <$> cols)) tl.
Proof.
  intros Hws Hl. split.
  - apply parses_count; [by rewrite (Forall2_length _ _ _ Hws)| |done].
    intros w [i Hi]%list_elem_of_lookup. destruct (Forall2_lookup_r _ _ _ _ _ Hws Hi) as (c & _ & Hw).
    by eapply type_nonempty.
  - rewrite <- (length_fmap ColType). apply parses_drepeat_all.
    assert (Hin : forall w, w ∈ ws -> go_len w) by (intros; by eapply go_len_concat). clear Hl.
    induction Hws as [|c w cols ws [_ Hw] _ IH]; constructor.
    + intros tl'. apply Hw, Hin. left.
    + apply IH. intros. apply Hin. by right.
Qed.

Lemma parses_column rows t vals w tl :
  vector_written (S maxTypeDepth) t vals w -> length vals = rows -> go_len w ->
  parses (decodeColumn (Z.of_nat rows) t) (w ++ Writer.End_) (Ok (MkColumn t vals None)) tl.
Proof.
  intros [_ Hw] <- Hl. unfold decodeColumn. eapply parses_bind; [by apply Hw|].
  eapply (parses_dbind _ _ []); [apply parses_dret|].
  eapply parses_bind_last; [apply parses_End|]. eapply parses_bind_nil; [apply parses_Err|apply parses_dret].
Qed.

Definition chunk_written (cols : list Col) (w : bytes) : Prop :=
  WriteChunk cols = Ok w /\
  (go_len w -> forall tl, parses decodeChunkContents w (Ok (chunk_of cols)) tl).

Lemma chunk_roundtrip_written cols : table_ok cols -> exists w, chunk_written cols w.
Proof.
  intros [Hrows Hcols]. set (rows := table_rows cols) in *.
  destruct (types_written cols) as (tws & Et & Ht); [intros c Hc; apply Hcols, Hc|].
  destruct (omapM_exists (fun c =>
      if negb (length (Vals c) =? rows)%nat then Panic
      else let! w := writeVector (ColType c) (Vals c) in Ok (w ++ Writer.End_))
    (fun c w => exists w', w = w' ++ Writer.End_ /\ vector_written (S maxTypeDepth) (ColType c) (Vals c) w') cols)
    as (vws & Ev & Hv).
  { intros c Hc. destruct (Hcols c Hc) as (He & Hl & Hty & Hf).
    destruct (vector_roundtrip _ _ _ He Hty Hf) as (w & Hw). exists (w ++ Writer.End_).
    rewrite Hl, Nat.eqb_refl. cbn [negb]. rewrite (proj1 Hw). split; [done|]. by exists w. }
  eexists. split; [unfold WriteChunk; fold (table_rows cols); fold rows; rewrite Et; cbn [obind]; rewrite Ev; reflexivity|].
  intros Hl tl. unfold decodeChunkContents, Writer.FieldUvarint. rewrite <- !app_assoc.
  assert (Hr : in_u 64 (Z.of_nat rows)) by (unfold in_u, maxChunkRows in *; simpl in *; lia).
  destruct (parses_types cols tws (Writer.Field 102 ++ Writer.Uvarint (Z.of_nat (length cols)) ++ concat vws ++ Writer.End_ ++ tl) Ht)
    as [Pc Pt]; [go_len_tac|].
  eapply parses_bind; [by apply parses_TryField|]. cbn [negb].
  eapply parses_bind; [by apply parses_Uvarint|]. rewrite (proj2 (Z.ltb_ge _ _)) by done.
  eapply parses_bind; [by apply parses_TryField|]. cbn [negb].
  eapply parses_bind; [rewrite <- !app_assoc; exact Pc|]. rewrite Nat2Z.id.
  eapply parses_dbind; [rewrite <- !app_assoc; exact Pt|].
  eapply parses_bind; [by apply parses_TryField|]. cbn [negb].
  eapply parses_bind; [rewrite <- !app_assoc; apply parses_count; [by rewrite (Forall2_length _ _ _ Hv)| |go_len_tac]|].
  { intros w [i Hi]%list_elem_of_lookup. destruct (Forall2_lookup_r _ _ _ _ _ Hv Hi) as (c & _ & w' & -> & _).
    rewrite length_app, length_End. lia. }
  rewrite length_fmap, Z.eqb_refl. cbn [negb].
  eapply parses_dbind.
  - apply (parses_dmap_lookup _ _ _ (column_of <$> cols));
      [by rewrite length_fmap, (Forall2_length _ _ _ Hv)|by rewrite !length_fmap|].
    intros j t w y tl' Htj Hw Hy. rewrite list_lookup_fmap in Htj. rewrite list_lookup_fmap in Hy.
    destruct (Forall2_lookup_r _ _ _ _ _ Hv Hw) as (c & Hc & w' & -> & Hvw). rewrite Hc in Htj, Hy.
    injection Htj as <-. injection Hy as <-.
    destruct (Hcols c) as (_ & Hlc & _); [by eapply list_elem_of_lookup_2|].
    apply parses_column; [done|done|].
    eapply go_len_app_l. apply (go_len_concat vws); [by eapply list_elem_of_lookup_2|go_len_tac].
  - eapply parses_bind_last; [apply parses_End|apply parses_finish].
Qed.

(** ** Result bodies *)

Lemma parses_chunk_list chunks :
  (forall cols, cols ∈ chunks -> table_ok cols) ->
  exists w, writeChunkList chunks = Ok w /\
    (go_len w -> forall tl, parses decodeChunkList w (Ok (chunk_of <$> chunks)) tl).
Proof.
  intros Hch. destruct (omapM_exists (fun cols =>
      let! w := WriteChunk cols in
      Ok (Writer.Bool true ++ Writer.Field 300 ++ w ++ Writer.End_))
    (fun cols w => exists w', w = Writer.Bool true ++ Writer.Field 300 ++ w' ++ Writer.End_ /\ chunk_written cols w') chunks)
    as (ws & E & Hws).
  { intros cols Hc. destruct (chunk_roundtrip_written cols (Hch _ Hc)) as (w & Hw).
    eexists. rewrite (proj1 Hw). split; [reflexivity|]. by exists w. }
  eexists. split; [unfold writeChunkList; rewrite E; reflexivity|].
  intros Hl tl. unfold decodeChunkList. pose proof (Forall2_length _ _ _ Hws) as Hlen.
  eapply parses_bind; [apply parses_count; [done| |go_len_tac]|].
  { intros w [i Hi]%list_elem_of_lookup. destruct (Forall2_lookup_r _ _ _ _ _ Hws Hi) as (c & _ & w' & -> & _).
    rewrite !length_app, length_Field. lia. }
  rewrite Nat2Z.id. eapply parses_dbind_last.
  - rewrite <- (length_fmap (fun cols => Some (chunk_of cols)) chunks). apply parses_drepeat_all.
    assert (Hin : forall w, w ∈ ws -> go_len w).
    { intros w Hw. eapply go_len_concat; [exact Hw|]. go_len_tac. }
    clear Hl Hlen E Hch. induction Hws as [|cols w chunks ws (w' & -> & _ & Hw) _ IH]; constructor.
    + intros tl'. unfold decodeWrapper. eapply parses_bind; [apply parses_Bool|]. cbn [negb].
      eapply parses_bind; [by apply parses_TryField|]. cbn [negb].
      eapply parses_dbind; [apply Hw|].
      * assert (Hg : go_len (Writer.Bool true ++ Writer.Field 300 ++ w' ++ Writer.End_)) by (apply Hin; left). go_len_tac.
      * eapply parses_bind_last; [apply parses_End|apply parses_dret].
    + apply IH. intros. apply Hin. by right.
  - assert (Ec : forall l : list (list Col), omap id ((fun cols => Some (chunk_of cols)) <$> l) = chunk_of <$> l).
    { induction l as [|x l IH]; [done|]. cbn. by rewrite <- IH. }
    rewrite Ec. apply parses_finish.
Qed.

Lemma parses_finishWrap {A} what (x : A) tl : parses (finishWrap what x) [] (Ok x) tl.
Proof. unfold finishWrap. eapply parses_bind_nil; [apply parses_Err|apply parses_dret]. Qed.

(** The optional chunk list of a result body. *)
Lemma optional_chunk_list id chunks :
  in_u 16 id -> (forall cols, cols ∈ chunks -> table_ok cols) ->
  exists w, (match chunks with
             | [] => Ok []
             | _ => let! w := writeChunkList chunks in Ok (Writer.Field id ++ w)
             end) = Ok w /\
    (go_len w -> forall B (k : list Chunk -> D cerr B) w2 o tl,
       other_field id (w2 ++ tl) -> parses (k (chunk_of <$> chunks)) w2 o tl ->
       parses (let* p := Reader.TryField id in
               let? chunks := (if p then decodeChunkList else dret []) in k chunks) (w ++ w2) o tl) /\
    (w = [] \/ exists w', w = Writer.Field id ++ w').
Proof.
  intros Hid Hch. destruct chunks as [|c chunks].
  - exists []. split; [done|]. split; [|by left]. intros _ B k w2 o tl Ho Hk.
    eapply parses_bind_nil; [by apply parses_TryField_no|].
    eapply (parses_dbind _ _ []); [apply parses_dret|exact Hk].
  - destruct (parses_chunk_list _ Hch) as (w & E & Hw). exists (Writer.Field id ++ w).
    rewrite E. split; [done|]. split; [|right; by exists w]. intros Hl B k w2 o tl _ Hk. rewrite <- app_assoc.
    eapply parses_bind; [by apply parses_TryField|]. eapply parses_dbind; [apply Hw; go_len_tac|exact Hk].
Qed.

(** The schema fields of a prepare response. *)
Lemma schema_fields cols :
  (forall c, c ∈ cols -> encodable (S maxTypeDepth) (ColType c)) ->
  exists w, (match cols with
     | [] => Ok []
     | _ =>
         let! types := omapM (fun c => WriteType (ColType c)) cols in
         Ok (Writer.Field 1 ++ Writer.Uvarint (Z.of_nat (length cols)) ++ concat types ++
             Writer.Field 2 ++ Writer.Uvarint (Z.of_nat (length cols)) ++
             concat (fmap (fun c => Writer.String_ (ColName c)) cols))
     end) = Ok w /\
    (go_len w -> forall B (k : list LogicalType -> list bytes -> D cerr B) w2 o tl,
       other_field 1 (w2 ++ tl) -> other_field 2 (w2 ++ tl) ->
       parses (k (ColType <$> cols) (ColName <$> cols)) w2 o tl ->
       parses (let* p := Reader.TryField 1 in
               let? types := (if p then decodeTypeList else dret []) in
               let* names := optField 2 (let* n := Reader.ListCount in
                                         mrepeat (Z.to_nat n) Reader.String_) [] in
               k types names) (w ++ w2) o tl).
Proof.
  intros Hc. destruct cols as [|c0 cols0].
  - exists []. split; [done|]. intros _ B k w2 o tl H1 H2 Hk.
    eapply parses_bind_nil; [by apply parses_TryField_no|].
    eapply (parses_dbind _ _ []); [apply parses_dret|].
    eapply parses_bind_nil; [by apply parses_optField_no|exact Hk].
  - set (cols := c0 :: cols0) in *. destruct (types_written cols Hc) as (ws & E & Hws).
    eexists. split; [rewrite E; reflexivity|]. intros Hl B k w2 o tl _ _ Hk.
    assert (Ef : (fun c => Writer.String_ (ColName c)) <$> cols = Writer.String_ <$> (ColName <$> cols)).
    { by rewrite <- list_fmap_compose. }
    rewrite Ef in Hl |- *. rewrite <- !app_assoc. eapply parses_bind; [by apply parses_TryField|]. cbv beta iota.
    rewrite (app_assoc (Writer.Uvarint _) (concat ws)). eapply parses_dbind.
    + unfold decodeTypeList. eapply parses_bind; [apply (parses_types cols ws); [done|go_len_tac]|].
      rewrite Nat2Z.id. apply (parses_types cols ws); [done|go_len_tac].
    + rewrite (app_assoc (Writer.Uvarint _)), (app_assoc (Writer.Field 2)). eapply parses_bind; [|exact Hk].
      apply parses_optField; [by compute|].
      eapply parses_bind; [apply parses_count; [by rewrite !length_fmap|apply String_nonempty|go_len_tac]|].
      rewrite Nat2Z.id, <- (length_fmap ColName cols). apply parses_strings. go_len_tac.
Qed.

(** A decoder run on a whole payload. *)
Lemma decode_parses {A} (m : D cerr A) w a more :
  parses m w (Ok a) more -> decode m (w ++ more) = Ok a.
Proof. intros H. unfold decode. by rewrite (parses_run _ _ _ _ H). Qed.

Definition schema_of (cols : list Col) : list SchemaColumn :=
  (fun c => MkSchemaColumn (ColName c) (ColType c)) <$> cols.

(** ** Properties *)

(** C3: for every table of typed values that fits the decoder's row limits,
    [EncodeChunk] succeeds and [DecodeChunk] gives back the row count, the
    column types and every value, nested values and NULLs included, whatever
    bytes follow. *)
Theorem chunk_roundtrip (cols : list Col) (H : table_ok cols) :
  exists w, EncodeChunk cols = Ok w /\
    (go_len w -> forall more, DecodeChunk (w ++ more) = Ok (chunk_of cols)).
Proof.
  destruct (chunk_roundtrip_written cols H) as (w & E & Hw). exists w. split; [exact E|].
  intros Hl more. apply decode_parses. unfold chunkBody.
  eapply parses_dbind_last; [by apply Hw|apply parses_finish].
Qed.

Lemma prepare_decodes (cols : list Col) (inline : list (list Col)) (more : bool) (uuid : hugeint)
    (Hcols : forall c, c ∈ cols -> encodable (S maxTypeDepth) (ColType c))
    (Hinline : forall t, t ∈ inline -> table_ok t)
    (Hu : in_s 64 (Upper uuid)) (Hl : in_u 64 (Lower uuid)) :
  exists w, EncodePrepareBody cols inline more uuid = Ok w /\
    (go_len w -> forall rest, DecodePrepare (w ++ rest) =
       Ok (MkPrepareResult (schema_of cols) (chunk_of <$> inline) more uuid)).
Proof.
  destruct (schema_fields cols Hcols) as (ws & Es & Hs).
  destruct (optional_chunk_list 4 inline ltac:(by compute) Hinline) as (wc & Ec & Hc & Hc0).
  eexists. split; [unfold EncodePrepareBody; rewrite Es; cbn [obind]; rewrite Ec; reflexivity|].
  intros Hlen rest. apply decode_parses. unfold prepareBody.
  assert (Ho : forall id, id < 3 -> other_field id
     (((if more then Writer.FieldBool 3 true else []) ++ wc ++ Writer.FieldHugeint 5 uuid ++ Writer.End_) ++ rest)).
  { intros id Hid. unfold Writer.FieldBool, Writer.FieldHugeint.
    destruct more; [|destruct Hc0 as [->|[w' ->]]]; rewrite <- ?app_assoc; cbn [app];
      (apply other_Field; [by compute|lia]). }
  apply Hs; [go_len_tac|apply Ho; lia|apply Ho; lia|].
  rewrite !length_fmap, Nat.eqb_refl. cbn [negb].
  replace (if more then Writer.FieldBool 3 true else [])
    with (if negb more then [] else Writer.Field 3 ++ Writer.Bool true) by (by destruct more).
  eapply parses_bind.
  - apply (parses_optField_dflt 3 Reader.Bool (negb more) false (Writer.Bool true)); [by compute|by destruct more| |].
    + destruct more; [|done]. intros _. apply parses_Bool.
    + destruct Hc0 as [->|[w' ->]]; unfold Writer.FieldHugeint; rewrite <- ?app_assoc; cbn [app];
        (apply other_Field; [by compute|lia]).
  - apply Hc; [go_len_tac|unfold Writer.FieldHugeint; rewrite <- app_assoc; apply other_Field; [by compute|lia]|].
    unfold Writer.FieldHugeint. rewrite <- app_assoc.
    eapply parses_bind; [by apply parses_TryField|]. cbn [negb].
    eapply parses_bind; [by apply parses_HugeintVal|].
    eapply parses_bind_last; [apply parses_End|].
    replace (zip_with MkSchemaColumn (ColName <$> cols) (ColType <$> cols)) with (schema_of cols);
      [apply parses_finishWrap|].
    unfold schema_of. clear. induction cols as [|c cols IH]; [done|]. cbn. by rewrite <- IH.
Qed.

(** C16: [EncodePrepareBody] and [DecodePrepare] round-trip: the schema, the
    inline chunks, the more-to-fetch flag and the result handle. *)
Theorem prepare_roundtrip (cols : list Col) (inline : list (list Col)) (more : bool) (uuid : hugeint)
    (Hcols : forall c, c ∈ cols -> encodable (S maxTypeDepth) (ColType c))
    (Hinline : forall t, t ∈ inline -> table_ok t)
    (Hu : in_s 64 (Upper uuid)) (Hl : in_u 64 (Lower uuid)) :
  exists w, EncodePrepareBody cols inline more uuid = Ok w /\
    (go_len w -> forall rest, DecodePrepare (w ++ rest) =
       Ok (MkPrepareResult (schema_of cols) (chunk_of <$> inline) more uuid)).
Proof. by apply prepare_decodes. Qed.

Lemma fetch_decodes (chunks : list (list Col)) (batch : Z)
    (Hc : forall t, t ∈ chunks -> table_ok t) (Hb : in_u 64 batch) :
  exists w, EncodeFetchBody chunks batch = Ok w /\
    (go_len w -> forall rest, DecodeFetch (w ++ rest) = Ok (MkFetchResult (chunk_of <$> chunks) batch)).
Proof.
  destruct (optional_chunk_list 1 chunks ltac:(by compute) Hc) as (wc & Ec & Hw & _).
  eexists. split; [unfold EncodeFetchBody; rewrite Ec; reflexivity|].
  intros Hl rest. apply decode_parses. unfold fetchBody, Writer.FieldUvarint.
  apply Hw; [go_len_tac|rewrite <- app_assoc; rewrite <- app_assoc; apply other_Field; [by compute|lia]|].
  eapply parses_bind; [apply parses_optField; [by compute|by apply parses_Uvarint]|].
  eapply parses_bind_last; [apply parses_End|apply parses_finishWrap].
Qed.

(** C17: [EncodeFetchBody] and [DecodeFetch] round-trip: the chunks of a batch
    in order and its index; no chunks is decoded as no chunks. *)
Theorem fetch_roundtrip (chunks : list (list Col)) (batch : Z)
    (Hc : forall t, t ∈ chunks -> table_ok t) (Hb : in_u 64 batch) :
  exists w, EncodeFetchBody chunks batch = Ok w /\
    (go_len w -> forall rest, DecodeFetch (w ++ rest) = Ok (MkFetchResult (chunk_of <$> chunks) batch)).
Proof. by apply fetch_decodes. Qed.

(** Two rows of scalars, NULLs and nested values. *)
Definition sample_table : list Col :=
  [MkCol (str "i") (T TypeInteger) [VInt32 (-7); VNil];
   MkCol (str "s") (T TypeVarchar) [VString (str "duck"); VString []];
   MkCol (str "b") (T TypeBit) [VString (str "10110"); VString (str "0")];
   MkCol (str "d") (DecimalT 20 2) [VDecimal (MkDecimal 20 2 (-1) (2 ^ 64 - 5)); VNil];
   MkCol (str "l") (MkType TypeList 0 0 (Some (T TypeBigint)) [] [] 0)
     [VSlice [VInt64 1; VNil; VInt64 (2 ^ 62)]; VSlice []];
   MkCol (str "m") (MkType TypeMap 0 0 (Some (MkType TypeStruct 0 0 None
       [MkField (str "key") (T TypeVarchar); MkField (str "value") (T TypeDouble)] [] 0)) [] [] 0)
     [VNil; VMap [MkMapEntry (VString (str "pi")) (VFloat64 4614256656552045848)]];
   MkCol (str "a") (MkType TypeArray 0 0 (Some (MkType TypeEnum 0 0 None [] [str "x"; str "y"] 0)) [] [] 2)
     [VSlice [VString (str "y"); VNil]; VNil]].

Ltac solve_encodable :=
  repeat match goal with
  | |- encodable _ _ => constructor
  | |- is_one_of _ _ = true => reflexivity
  | |- in_u _ _ => by compute
  | |- (_ <= _ <= _)%Z => by compute
  | |- (_ <= _)%Z => by compute
  end.

Lemma sample_table_ok : table_ok sample_table.
Proof.
  split; [by compute|]. intros c Hc. unfold sample_table in Hc.
  repeat (apply elem_of_cons in Hc as [->|Hc]; [split; [solve_encodable|split; [reflexivity|split;
    [repeat constructor|vm_compute; reflexivity]]]|]).
  by apply elem_of_nil in Hc.
Qed.

Lemma chunk_roundtrip_witness :
  exists w, EncodeChunk sample_table = Ok w /\ DecodeChunk w = Ok (chunk_of sample_table).
Proof.
  destruct (chunk_roundtrip sample_table sample_table_ok) as (w & E & Hw). exists w. split; [exact E|].
  rewrite <- (app_nil_r w). apply Hw. vm_compute in E. injection E as <-. by compute.
Defined.

Lemma prepare_roundtrip_witness :
  exists w, EncodePrepareBody sample_table [sample_table] true (Hugeint (-1) 5) = Ok w /\
    DecodePrepare w = Ok (MkPrepareResult (schema_of sample_table) [chunk_of sample_table] true (Hugeint (-1) 5)).
Proof.
  destruct (prepare_roundtrip sample_table [sample_table] true (Hugeint (-1) 5)) as (w & E & Hw).
  - intros c Hc. apply sample_table_ok, Hc.
  - intros t Ht. apply list_elem_of_singleton in Ht. rewrite Ht. apply sample_table_ok.
  - by compute.
  - by compute.
  - exists w. split; [exact E|]. rewrite <- (app_nil_r w). apply Hw.
    vm_compute in E. injection E as <-. by compute.
Defined.

Lemma fetch_roundtrip_witness :
  exists w, EncodeFetchBody [sample_table; sample_table] 3 = Ok w /\
    DecodeFetch w = Ok (MkFetchResult [chunk_of sample_table; chunk_of sample_table] 3).
Proof.
  destruct (fetch_roundtrip [sample_table; sample_table] 3) as (w & E & Hw).
  - intros t Ht. apply elem_of_cons in Ht as [E|Ht]; [rewrite E|apply list_elem_of_singleton in Ht; rewrite Ht]; apply sample_table_ok.
  - by compute.
  - exists w. split; [exact E|]. rewrite <- (app_nil_r w). apply Hw.
    vm_compute in E. injection E as <-. by compute.
Defined.
