(* ===== verification/Messages.v ===== *)
(** * wire/messages.go: the message envelope and the typed bodies

    One encoder and one decoder per message, in the writer and reader of
    [Qser].  The error type covers the whole wire package. *)

From S2P Require Import Prelude Qser QserLib GoFmt.

(** ** Message types *)

Definition MsgInvalid : Z := 0.
Definition MsgConnectionRequest : Z := 1.
Definition MsgConnectionResponse : Z := 2.
Definition MsgPrepareRequest : Z := 3.
Definition MsgPrepareResponse : Z := 4.
Definition MsgFetchRequest : Z := 7.
Definition MsgFetchResponse : Z := 8.
Definition MsgAppendRequest : Z := 9.
Definition MsgSuccess : Z := 10.
Definition MsgDisconnect : Z := 11.
Definition MsgError : Z := 100.

(** [MessageType.String]. *)
Definition MessageType_String (t : Z) : bytes :=
  if t =? MsgConnectionRequest then str "CONNECTION_REQUEST"
  else if t =? MsgConnectionResponse then str "CONNECTION_RESPONSE"
  else if t =? MsgPrepareRequest then str "PREPARE_REQUEST"
  else if t =? MsgPrepareResponse then str "PREPARE_RESPONSE"
  else if t =? MsgFetchRequest then str "FETCH_REQUEST"
  else if t =? MsgFetchResponse then str "FETCH_RESPONSE"
  else if t =? MsgAppendRequest then str "APPEND_REQUEST"
  else if t =? MsgSuccess then str "SUCCESS_RESPONSE"
  else if t =? MsgDisconnect then str "DISCONNECT_MESSAGE"
  else if t =? MsgError then str "ERROR_RESPONSE"
  else str "MESSAGE(" ++ itoa t ++ str ")".

Definition QueryIDAbsent : Z := OptionalIdxAbsent.

(** Errors of package wire.  [ETransport] carries the text of an error of
    net/http, [EContext] the cause of a cancelled context. *)
Inductive werr : Type :=
  | EHeaderNoType
  | EBad (what : String.string) (e : qerr)
  | EServer (status : Z) (message : bytes)
  | ErrClosed
  | EConnectAnswered (t : Z)
  | EMissingConnectionID
  | EQuackVersion (v : Z)
  | EDisconnectAnswered (t : Z)
  | EAnswered (req got : Z)
  | ETransport (text : bytes)
  | EContext
  | EEmptyEndpoint
  | EBadEndpoint
  | EEndpointScheme.

#[global] Instance werr_eq_dec : EqDecision werr.
Proof. solve_decision. Defined.

(** [return m, wrapErr(what, r.Err())]. *)
Definition wrapErr {A} (what : String.string) (m : A) : D werr A :=
  let* e := Reader.Err in
  match e with
  | None => dret m
  | Some e => dfail (EBad what e)
  end.

Definition run {A} (m : D werr A) (body : bytes) : outcome werr A := fst (m (NewReader body)).

(** [if s != "" { w.FieldString(id, s) }]. *)
Definition fieldStringOpt (id : Z) (s : bytes) : bytes :=
  if bool_decide (s = []) then [] else Writer.FieldString id s.

(** ** The envelope *)

Record Header := MkHeader { Type_ : Z; ConnectionID : bytes; QueryID : Z }.

#[global] Instance Header_eq_dec : EqDecision Header.
Proof. solve_decision. Defined.

Definition EncodeEnvelope (h : Header) (body : bytes) : bytes :=
  Writer.FieldUvarint 1 (Type_ h) ++ fieldStringOpt 2 (ConnectionID h) ++
  Writer.FieldUvarint 3 (QueryID h) ++ Writer.End_ ++ Writer.Raw body.

Definition splitEnvelope : D werr (Header * bytes) :=
  let* p := Reader.TryField 1 in
  if negb p then dfail EHeaderNoType
  else
    let* v := Reader.Uvarint in
    let t := u8 v in
    let* connectionID := optField 2 Reader.String_ [] in
    let* queryID := optField 3 Reader.OptionalIdx QueryIDAbsent in
    let* _ := Reader.End_ in
    let* e := Reader.Err in
    match e with
    | Some e => dfail (EBad "message header" e)
    | None => let* rest := Reader.Rest in dret (MkHeader t connectionID queryID, rest)
    end.

Definition SplitEnvelope (buf : bytes) : outcome werr (Header * bytes) := run splitEnvelope buf.

(** ** Bodies *)

Record ConnectionRequest := MkConnectionRequest {
  AuthString : bytes; ClientVersion : bytes; ReqPlatform : bytes; MinVersion : Z; MaxVersion : Z }.

Definition ConnectionRequest_Encode (m : ConnectionRequest) : bytes :=
  fieldStringOpt 1 (AuthString m) ++ fieldStringOpt 2 (ClientVersion m) ++
  fieldStringOpt 3 (ReqPlatform m) ++ Writer.FieldUvarint 4 (MinVersion m) ++
  Writer.FieldUvarint 5 (MaxVersion m) ++ Writer.End_.

Definition DecodeConnectionRequest (body : bytes) : outcome werr ConnectionRequest :=
  run (let* auth := optField 1 Reader.String_ [] in
       let* version := optField 2 Reader.String_ [] in
       let* platform := optField 3 Reader.String_ [] in
       let* lo := optField 4 Reader.Uvarint 0 in
       let* hi := optField 5 Reader.Uvarint 0 in
       let* _ := Reader.End_ in
       wrapErr "connection request" (MkConnectionRequest auth version platform lo hi)) body.

Record ConnectionResponse := MkConnectionResponse {
  ServerVersion : bytes; RespPlatform : bytes; QuackVersion : Z }.

Definition ConnectionResponse_Encode (m : ConnectionResponse) : bytes :=
  fieldStringOpt 1 (ServerVersion m) ++ fieldStringOpt 2 (RespPlatform m) ++
  Writer.FieldUvarint 3 (QuackVersion m) ++ Writer.End_.

Definition DecodeConnectionResponse (body : bytes) : outcome werr ConnectionResponse :=
  run (let* version := optField 1 Reader.String_ [] in
       let* platform := optField 2 Reader.String_ [] in
       let* quack := optField 3 Reader.Uvarint 0 in
       let* _ := Reader.End_ in
       wrapErr "connection response" (MkConnectionResponse version platform quack)) body.

Record PrepareRequest := MkPrepareRequest { SQL : bytes }.

Definition PrepareRequest_Encode (m : PrepareRequest) : bytes :=
  fieldStringOpt 1 (SQL m) ++ Writer.End_.

Definition DecodePrepareRequest (body : bytes) : outcome werr PrepareRequest :=
  run (let* sql := optField 1 Reader.String_ [] in
       let* _ := Reader.End_ in
       wrapErr "prepare request" (MkPrepareRequest sql)) body.

Record FetchRequest := MkFetchRequest { UUID : hugeint }.

Definition FetchRequest_Encode (m : FetchRequest) : bytes :=
  Writer.FieldHugeint 1 (UUID m) ++ Writer.End_.

Definition DecodeFetchRequest (body : bytes) : outcome werr FetchRequest :=
  run (let* uuid := optField 1 Reader.HugeintVal (Hugeint 0 0) in
       let* _ := Reader.End_ in
       wrapErr "fetch request" (MkFetchRequest uuid)) body.

Definition EncodeEmptyBody : bytes := Writer.End_.

Record ErrorMessage := MkErrorMessage { Message : bytes }.

Definition ErrorMessage_Encode (m : ErrorMessage) : bytes :=
  fieldStringOpt 1 (Message m) ++ Writer.End_.

Definition DecodeErrorMessage (body : bytes) : outcome werr ErrorMessage :=
  run (let* message := optField 1 Reader.String_ [] in
       let* _ := Reader.End_ in
       wrapErr "error response" (MkErrorMessage message)) body.

(** ** Round trips *)

Lemma parses_wrapErr {A} what (m : A) tl : parses (wrapErr what m) [] (Ok m) tl.
Proof. unfold wrapErr. eapply parses_bind_nil; [apply parses_Err|apply parses_dret]. Qed.

Lemma run_parses {A} (m : D werr A) w a more : parses m w (Ok a) more -> run m (w ++ more) = Ok a.
Proof. intros H. unfold run. by rewrite (parses_run _ _ _ _ H). Qed.

(** Strings whose length is an [int], as every Go string's. *)
Definition str_ok (s : bytes) : Prop := in_u 63 (Z.of_nat (length s)).

Lemma parses_string_opt id s tl : in_u 16 id -> str_ok s -> other_field id tl ->
  parses (optField id Reader.String_ []) (fieldStringOpt id s) s tl.
Proof.
  intros Hid Hs Ho. unfold fieldStringOpt, Writer.FieldString.
  apply (parses_optField_dflt id Reader.String_ (bool_decide (s = [])) [] (Writer.String_ s)); [done| | |done].
  - by rewrite bool_decide_eq_true.
  - intros _. apply parses_Bytes. unfold str_ok, in_u in *. simpl in *. lia.
Qed.

(** The step that reads an optional string written by [fieldStringOpt]. *)
Ltac other_string := repeat rewrite <- app_assoc; unfold fieldStringOpt; repeat case_bool_decide; cbn [app]; solve_other.
Ltac parse_step :=
  first
    [ eapply parses_bind; [apply parses_string_opt; [by compute|done|other_string]|]
    | eapply parses_bind; [apply parses_optField; [by compute|by first [apply parses_Uvarint|apply parses_HugeintVal]]|]
    | eapply parses_bind_last; [apply parses_End|apply parses_wrapErr] ].

(** No decoder of this package panics. *)
Lemma dyields_wrapErr {A} what (m : A) : dyields (wrapErr what m) (fun _ => True).
Proof.
  eapply dyields_bind; [apply yields_true|]. intros [e|] _; [apply dyields_dfail|by apply dyields_dret].
Qed.

Ltac solve_total :=
  match goal with
  | |- run ?m ?body <> Panic =>
      let H := fresh in
      assert (H : dyields m (fun _ => True));
      [ repeat first [ apply dyields_wrapErr | apply dyields_dfail | by apply dyields_dret
                     | eapply dyields_bind; [apply yields_true|intros ? _] | case_match ]
      | specialize (H (NewReader body)); intros E; unfold run in E; rewrite E in H; exact H ]
  end.

Lemma SplitEnvelope_total buf : SplitEnvelope buf <> Panic.
Proof. unfold SplitEnvelope, splitEnvelope. solve_total. Qed.

Lemma DecodeConnectionRequest_total body : DecodeConnectionRequest body <> Panic.
Proof. unfold DecodeConnectionRequest. solve_total. Qed.

Lemma DecodeConnectionResponse_total body : DecodeConnectionResponse body <> Panic.
Proof. unfold DecodeConnectionResponse. solve_total. Qed.

Lemma DecodePrepareRequest_total body : DecodePrepareRequest body <> Panic.
Proof. unfold DecodePrepareRequest. solve_total. Qed.

Lemma DecodeFetchRequest_total body : DecodeFetchRequest body <> Panic.
Proof. unfold DecodeFetchRequest. solve_total. Qed.

Lemma DecodeErrorMessage_total body : DecodeErrorMessage body <> Panic.
Proof. unfold DecodeErrorMessage. solve_total. Qed.

(** A header whose fields are in the ranges of their Go types. *)
Definition header_ok (h : Header) : Prop :=
  in_u 8 (Type_ h) /\ str_ok (ConnectionID h) /\ in_u 64 (QueryID h).

Lemma split_encode h body : header_ok h -> SplitEnvelope (EncodeEnvelope h body) = Ok (h, body).
Proof.
  intros (Ht & Hc & Hq).
  unfold EncodeEnvelope, Writer.Raw, SplitEnvelope, run.
  set (w := Writer.FieldUvarint 1 (Type_ h) ++ fieldStringOpt 2 (ConnectionID h) ++
            Writer.FieldUvarint 3 (QueryID h) ++ Writer.End_).
  replace (Writer.FieldUvarint 1 (Type_ h) ++ _) with (w ++ body) by (unfold w; by rewrite <- !app_assoc).
  assert (P : parses (splitEnvelope) w (Ok (h, body)) body).
  { unfold splitEnvelope, w, Writer.FieldUvarint. rewrite <- !app_assoc.
    eapply parses_bind; [by apply parses_TryField|]. cbn [negb].
    eapply parses_bind; [apply parses_Uvarint; unfold in_u in *; simpl in *; lia|]. cbv zeta.
    rewrite uwrap_small by done. parse_step. rewrite app_assoc. parse_step.
    eapply parses_bind_last; [apply parses_End|]. eapply parses_bind_nil; [apply parses_Err|]. cbv beta iota.
    intros r Hr. unfold bind, Reader.Rest. destruct Hr as (He & Hb & Hrest). cbn [app] in Hrest.
    rewrite Hrest. unfold dret, ret. rewrite advance_0. by destruct h. }
  by rewrite (parses_run _ _ _ _ P).
Qed.

(** C23: [SplitEnvelope] inverts [EncodeEnvelope]: the header comes back, and
    the body is handed over byte for byte, whatever it is. *)
Theorem envelope_roundtrip (h : Header) (body : bytes) (H : header_ok h) :
  SplitEnvelope (EncodeEnvelope h body) = Ok (h, body).
Proof. by apply split_encode. Qed.

Lemma envelope_roundtrip_witness :
  SplitEnvelope (EncodeEnvelope (MkHeader MsgPrepareRequest (str "conn") 7) (str "body"))
  = Ok (MkHeader MsgPrepareRequest (str "conn") 7, str "body").
Proof. apply envelope_roundtrip. repeat split; by compute. Defined.

(** Each typed body is decoded from its encoding, whatever follows. *)
Lemma connection_request_decodes m more : str_ok (AuthString m) -> str_ok (ClientVersion m) ->
  str_ok (ReqPlatform m) -> in_u 64 (MinVersion m) -> in_u 64 (MaxVersion m) ->
  DecodeConnectionRequest (ConnectionRequest_Encode m ++ more) = Ok m.
Proof. destruct m. intros. apply run_parses. unfold ConnectionRequest_Encode. repeat parse_step. Qed.

Lemma connection_response_decodes m more : str_ok (ServerVersion m) -> str_ok (RespPlatform m) ->
  in_u 64 (QuackVersion m) -> DecodeConnectionResponse (ConnectionResponse_Encode m ++ more) = Ok m.
Proof. destruct m. intros. apply run_parses. unfold ConnectionResponse_Encode. repeat parse_step. Qed.

Lemma prepare_request_decodes m more : str_ok (SQL m) ->
  DecodePrepareRequest (PrepareRequest_Encode m ++ more) = Ok m.
Proof. destruct m. intros. apply run_parses. unfold PrepareRequest_Encode. repeat parse_step. Qed.

Lemma fetch_request_decodes m more : in_s 64 (Upper (UUID m)) -> in_u 64 (Lower (UUID m)) ->
  DecodeFetchRequest (FetchRequest_Encode m ++ more) = Ok m.
Proof. destruct m. intros. apply run_parses. unfold FetchRequest_Encode. repeat parse_step. Qed.

Lemma error_message_decodes m more : str_ok (Message m) ->
  DecodeErrorMessage (ErrorMessage_Encode m ++ more) = Ok m.
Proof. destruct m. intros. apply run_parses. unfold ErrorMessage_Encode. repeat parse_step. Qed.

(** C37: every typed body round-trips through its encoder and decoder, empty
    strings (omitted on the wire) included, and bytes after it are ignored. *)
Theorem bodies_roundtrip (more : bytes) :
  (forall m, str_ok (AuthString m) -> str_ok (ClientVersion m) -> str_ok (ReqPlatform m) ->
     in_u 64 (MinVersion m) -> in_u 64 (MaxVersion m) ->
     DecodeConnectionRequest (ConnectionRequest_Encode m ++ more) = Ok m) /\
  (forall m, str_ok (ServerVersion m) -> str_ok (RespPlatform m) -> in_u 64 (QuackVersion m) ->
     DecodeConnectionResponse (ConnectionResponse_Encode m ++ more) = Ok m) /\
  (forall m, str_ok (SQL m) -> DecodePrepareRequest (PrepareRequest_Encode m ++ more) = Ok m) /\
  (forall m, in_s 64 (Upper (UUID m)) -> in_u 64 (Lower (UUID m)) ->
     DecodeFetchRequest (FetchRequest_Encode m ++ more) = Ok m) /\
  (forall m, str_ok (Message m) -> DecodeErrorMessage (ErrorMessage_Encode m ++ more) = Ok m).
Proof.
  split; [intros; by apply connection_request_decodes|]. split; [intros; by apply connection_response_decodes|].
  split; [intros; by apply prepare_request_decodes|]. split; [intros; by apply fetch_request_decodes|].
  intros; by apply error_message_decodes.
Qed.

Lemma bodies_roundtrip_witness :
  DecodeConnectionRequest (ConnectionRequest_Encode (MkConnectionRequest (str "tok") [] (str "linux") 1 1) ++ [])
  = Ok (MkConnectionRequest (str "tok") [] (str "linux") 1 1).
Proof. apply bodies_roundtrip; by compute. Defined.
