(* ===== verification/Client.v ===== *)
(** * wire: configuration, retry and the client

    config.go, errors.go, retry.go and client.go.  One HTTP exchange is a value
    of [http_reply], what net/http hands back for one POST; a client operation
    is a function from the client's state and the reply it would get to the
    message it posts (if it posts one), its result and the client it leaves.  A
    message counts as posted when it is handed to [roundTrip]: that no request
    can be built for the endpoint is one of the failures [NoResponse] stands
    for.  An error of net/http is known by its text, redacted or not.
    Durations are in nanoseconds. *)

From S2P Require Import Prelude Qser QserLib GoFmt Messages.

(** ** Configuration *)

Record Config := MkConfig {
  Endpoint : bytes; Token : bytes; FetchWorkers : Z; ConnectTimeout : Z;
  MaxRetries : Z; RetryBaseDelay : Z }.

Definition Second : Z := 1000000000.
Definition Millisecond : Z := 1000000.

Section Defaults.
(** The scheme [net/url.Parse] finds, [None] when it fails. *)
Context (url_scheme : bytes -> option bytes).

Definition withDefaults (c : Config) : outcome werr Config :=
  if bool_decide (Endpoint c = []) then Err EEmptyEndpoint
  else match url_scheme (Endpoint c) with
  | None => Err EBadEndpoint
  | Some scheme =>
      if negb (bool_decide (scheme = str "http")) && negb (bool_decide (scheme = str "https"))
      then Err EEndpointScheme
      else Ok (MkConfig (Endpoint c) (Token c)
                 (if FetchWorkers c <=? 0 then 4 else FetchWorkers c)
                 (if ConnectTimeout c <=? 0 then 10 * Second else ConnectTimeout c)
                 (if MaxRetries c =? 0 then 3 else MaxRetries c)
                 (if RetryBaseDelay c <=? 0 then 100 * Millisecond else RetryBaseDelay c))
  end.

End Defaults.

(** ** Errors *)

(** [ServerError.Error]. *)
Definition ServerError_Error (status : Z) (message : bytes) : bytes :=
  if status =? 0 then str "wire: server error: " ++ message
  else if bool_decide (message = []) then str "wire: server returned HTTP " ++ itoa status
  else str "wire: server returned HTTP " ++ itoa status ++ str ": " ++ message.

Definition connectionExpired (msg : bytes) : bool :=
  contains msg (str "Invalid connection id") ||
  contains msg (str "Connection does not exist / already disconnected").

(** [errors.Is(err, ErrConnectionExpired)] for an error of this package. *)
Definition isConnectionExpired (e : werr) : bool :=
  match e with
  | EServer status message => (status =? 0) && connectionExpired message
  | _ => false
  end.

Definition redacted : bytes := str "[redacted]".

Definition redactToken (token s : bytes) : bytes :=
  if bool_decide (token = []) then s else replace_all token redacted s.

(** [redactErr] of an error of net/http, known by its text. *)
Definition redactErr (token text : bytes) : werr := ETransport (redactToken token text).

(** ** One exchange *)

(** What [HTTPClient.Do] and reading the response body give: an error before
    any response, a non-200 status with (at most 4096 bytes of) its body, an
    error while reading a 200 response, or its whole body. *)
Inductive http_reply : Type :=
  | NoResponse (text : bytes)
  | BadStatus (code : Z) (body : bytes)
  | BadBody (text : bytes)
  | OKBody (raw : bytes).

(** [roundTrip]: the HTTP status (0 without a response) and the split message. *)
Definition roundTrip (token : bytes) (reply : http_reply) : Z * outcome werr (Header * bytes) :=
  match reply with
  | NoResponse text => (0, Err (redactErr token text))
  | BadStatus code body => (code, Err (EServer code (redactToken token (take 4096 body))))
  | BadBody text => (200, Err (redactErr token text))
  | OKBody raw => (200, SplitEnvelope raw)
  end.

(** [return ..., c.serverError(body)]. *)
Definition serverError {A} (token body : bytes) : outcome werr A :=
  let! em := DecodeErrorMessage body in Err (EServer 0 (redactToken token (Message em))).

Definition retryableStatus (code : Z) : bool :=
  (code =? 429) || ((500 <=? code) && negb (code =? 501)).

(** ** Retry *)

(** One turn of the loop: what [fn] returns, whether [ctx.Err()] is set after
    it, and whether [ctx.Done()] wins the select of the wait. *)
Record attempt (A : Type) := MkAttempt {
  retryable : bool; result : outcome werr A; ctx_err : bool; ctx_done : bool }.
Arguments MkAttempt {A}. Arguments retryable {A}. Arguments result {A}.
Arguments ctx_err {A}. Arguments ctx_done {A}.

(** [retry]: the result with the delays waited, [None] if the fuel runs out. *)
Fixpoint retry {A} (fuel : nat) (maxRetries : Z) (fn : nat -> attempt A) (n : nat) (delay : Z)
  : option (outcome werr A * list Z) :=
  match fuel with
  | O => None
  | S fuel =>
      let a := fn n in
      match result a with
      | Ok x => Some (Ok x, [])
      | Panic => Some (Panic, [])
      | Err e =>
          if negb (retryable a) || (maxRetries <=? Z.of_nat n) || ctx_err a then Some (Err e, [])
          else if ctx_done a then Some (Err EContext, [])
          else '(r, ds) ← retry fuel maxRetries fn (S n) (i64 (delay * 2)); Some (r, delay :: ds)
      end
  end.

(** Attempts the budget allows; the loop makes no more (see [retry_total]). *)
Definition attempts (maxRetries : Z) : nat := S (Z.to_nat maxRetries).

(** ** The client *)

Definition quackVersionMin : Z := 1.
Definition quackVersionMax : Z := 1.
Definition clientVersion : bytes := str "duckcall/0.4".

Record Client := MkClient {
  cfg : Config; connID : bytes; server : ConnectionResponse; qid : Z; closed : bool }.

(** The message [Connect] posts; [platform] is the build's GOOS_GOARCH. *)
Definition connectMessage (cfg : Config) (platform : bytes) : bytes :=
  EncodeEnvelope (MkHeader MsgConnectionRequest [] QueryIDAbsent)
    (ConnectionRequest_Encode
       (MkConnectionRequest (Token cfg) clientVersion platform quackVersionMin quackVersionMax)).

(** What [Connect] makes of the response to the handshake. *)
Definition connected (cfg : Config) (hdr : Header) (body : bytes) : outcome werr Client :=
  if Type_ hdr =? MsgConnectionResponse then
    if bool_decide (ConnectionID hdr = []) then Err EMissingConnectionID
    else
      let! resp := DecodeConnectionResponse body in
      if (QuackVersion resp <? quackVersionMin) || (quackVersionMax <? QuackVersion resp)
      then Err (EQuackVersion (QuackVersion resp))
      else Ok (MkClient cfg (ConnectionID hdr) resp 0 false)
  else if Type_ hdr =? MsgError then serverError (Token cfg) body
  else Err (EConnectAnswered (Type_ hdr)).

(** The network and the context around [Connect], attempt by attempt. *)
Record world := MkWorld {
  w_reply : nat -> http_reply; w_ctx_err : nat -> bool; w_ctx_done : nat -> bool }.

Definition connectAttempt (cfg : Config) (w : world) (n : nat) : attempt (Header * bytes) :=
  let '(status, res) := roundTrip (Token cfg) (w_reply w n) in
  MkAttempt ((status =? 0) || retryableStatus status) res (w_ctx_err w n) (w_ctx_done w n).

Definition Connect (url_scheme : bytes -> option bytes) (c : Config) (w : world)
  : option (outcome werr Client) :=
  match withDefaults url_scheme c with
  | Err e => Some (Err e)
  | Panic => Some Panic
  | Ok cfg =>
      '(r, _) ← retry (attempts (MaxRetries cfg)) (MaxRetries cfg) (connectAttempt cfg w) 0
                  (RetryBaseDelay cfg);
      Some (let! (hdr, body) := r in connected cfg hdr body)
  end.

(** [call]: the message posted, the result, and the client afterwards. *)
Definition call (c : Client) (req : Z) (body : bytes) (want : Z) (reply : http_reply)
  : option bytes * outcome werr bytes * Client :=
  if closed c then (None, Err ErrClosed, c)
  else
    let q := u64 (qid c + 1) in
    let c := MkClient (cfg c) (connID c) (server c) q (closed c) in
    let msg := EncodeEnvelope (MkHeader req (connID c) q) body in
    let '(_, res) := roundTrip (Token (cfg c)) reply in
    (Some msg,
     (let! (hdr, respBody) := res in
      if Type_ hdr =? want then Ok respBody
      else if Type_ hdr =? MsgError then serverError (Token (cfg c)) respBody
      else Err (EAnswered req (Type_ hdr))), c).

Definition Prepare (c : Client) (sql : bytes) (reply : http_reply) :=
  call c MsgPrepareRequest (PrepareRequest_Encode (MkPrepareRequest sql)) MsgPrepareResponse reply.

Definition Fetch (c : Client) (uuid : hugeint) (reply : http_reply) :=
  call c MsgFetchRequest (FetchRequest_Encode (MkFetchRequest uuid)) MsgFetchResponse reply.

Definition RoundTripRaw (c : Client) (msg : bytes) (reply : http_reply)
  : option bytes * outcome werr (Header * bytes) * Client :=
  if closed c then (None, Err ErrClosed, c)
  else (Some msg, snd (roundTrip (Token (cfg c)) reply), c).

(** [Close]; the compare-and-swap lets one call through. *)
Definition Close (c : Client) (reply : http_reply) : option bytes * outcome werr unit * Client :=
  if closed c then (None, Ok tt, c)
  else
    let msg := EncodeEnvelope (MkHeader MsgDisconnect (connID c) QueryIDAbsent) EncodeEmptyBody in
    let '(_, res) := roundTrip (Token (cfg c)) reply in
    (Some msg,
     (let! (hdr, body) := res in
      if Type_ hdr =? MsgSuccess then Ok tt
      else if Type_ hdr =? MsgError then serverError (Token (cfg c)) body
      else Err (EDisconnectAnswered (Type_ hdr))),
     MkClient (cfg c) (connID c) (server c) (qid c) true).

(** ** Retry: lemmas *)

(** What a run of [retry] from attempt [n] did. *)
Definition retry_run {A} (maxRetries : Z) (fn : nat -> attempt A) (n : nat) (delay : Z)
    (r : outcome werr A) (ds : list Z) : Prop :=
  let last := (n + length ds)%nat in
  (length ds = 0%nat \/ Z.of_nat last <= maxRetries) /\
  (forall k, (k < length ds)%nat ->
     ds !! k = Some (i64 (delay * 2 ^ Z.of_nat k)) /\ retryable (fn (n + k)%nat) = true /\
     exists e, result (fn (n + k)%nat) = Err e) /\
  (r = result (fn last) \/ (r = Err EContext /\ ctx_done (fn last) = true /\ Z.of_nat last < maxRetries)).

Lemma i64_pow_S d k : i64 (i64 (d * 2) * 2 ^ Z.of_nat k) = i64 (d * 2 ^ Z.of_nat (S k)).
Proof.
  rewrite Nat2Z.inj_succ, Z.pow_succ_r by lia.
  assert (E : exists q, i64 (d * 2) = d * 2 + q * 2 ^ 64).
  { unfold swrap. exists (- ((d * 2 + 2 ^ (64 - 1)) / 2 ^ 64)).
    pose proof (Z.div_mod (d * 2 + 2 ^ (64 - 1)) (2 ^ 64) ltac:(lia)). lia. }
  destruct E as [q ->].
  replace ((d * 2 + q * 2 ^ 64) * 2 ^ Z.of_nat k)
    with (d * (2 * 2 ^ Z.of_nat k) + (q * 2 ^ Z.of_nat k) * 2 ^ 64) by ring.
  apply swrap_shift.
Qed.

Lemma retry_spec {A} fuel maxRetries (fn : nat -> attempt A) n delay :
  (Z.to_nat (maxRetries - Z.of_nat n) < fuel)%nat -> in_s 64 delay ->
  exists r ds, retry fuel maxRetries fn n delay = Some (r, ds) /\ retry_run maxRetries fn n delay r ds.
Proof.
  revert n delay. induction fuel as [|fuel IH]; intros n delay Hf Hd; [lia|]. cbn [retry].
  assert (Hstop : forall r, r = result (fn n) \/ (r = Err EContext /\ ctx_done (fn n) = true /\ Z.of_nat n < maxRetries) ->
            retry_run maxRetries fn n delay r []).
  { intros r Hr. unfold retry_run. cbn [length]. rewrite Nat.add_0_r.
    split; [by left|]. split; [lia|done]. }
  destruct (result (fn n)) as [x|e|] eqn:Er; [eexists _, []; split; [done|]; apply Hstop; by left| |
    eexists _, []; split; [done|]; apply Hstop; by left].
  destruct (negb _ || _ || _) eqn:E1; [eexists _, []; split; [done|]; apply Hstop; by left|].
  rewrite !orb_false_iff, negb_false_iff, Z.leb_gt in E1. destruct E1 as [[Hretry Hlt] _].
  destruct (ctx_done (fn n)) eqn:E2; [eexists _, []; split; [done|]; apply Hstop; by right|].
  destruct (IH (S n) (i64 (delay * 2))) as (r & ds & -> & Hlen & Hall & Hr);
    [lia|by apply swrap_in|].
  exists r, (delay :: ds). split; [done|]. unfold retry_run in *. cbn [length].
  rewrite Nat.add_succ_r. cbn [Nat.add] in *. split; [right; lia|]. split; [|done].
  intros [|k] Hk.
  - rewrite Nat.add_0_r. cbn. rewrite Z.mul_1_r, swrap_small by done. eauto.
  - rewrite Nat.add_succ_r. change ((delay :: ds) !! S k) with (ds !! k). destruct (Hall k ltac:(lia)) as (-> & ?).
    by rewrite i64_pow_S.
Qed.

(** C26: [retry] always returns: it makes at most [max 0 MaxRetries + 1]
    attempts, waits [delay, 2 delay, 4 delay, ...] (as int64) between them,
    retries only failures that [fn] reported as retryable, and its result is
    the last attempt's, or the context's error if the context ended a wait. *)
Theorem retry_total {A} (maxRetries : Z) (fn : nat -> attempt A) (delay : Z) (Hd : in_s 64 delay) :
  exists r ds, retry (attempts maxRetries) maxRetries fn 0 delay = Some (r, ds) /\
    retry_run maxRetries fn 0 delay r ds /\ Z.of_nat (length ds) <= Z.max 0 maxRetries.
Proof.
  destruct (retry_spec (attempts maxRetries) maxRetries fn 0 delay) as (r & ds & E & H);
    [unfold attempts; lia|done|].
  exists r, ds. split; [done|]. split; [done|]. destruct H as ([H|H] & _); lia.
Qed.

Lemma retry_total_witness :
  let fn := fun n => MkAttempt (A := Z) true (if (n =? 2)%nat then Ok 7 else Err EContext) false false in
  exists r ds, retry (attempts 3) 3 fn 0 100 = Some (r, ds) /\ r = Ok 7 /\ ds = [100; 200] /\
    Z.of_nat (length ds) <= Z.max 0 3.
Proof.
  intros fn. destruct (retry_total 3 fn 100) as (r & ds & E & _ & Hlen); [by compute|].
  exists r, ds. split; [exact E|]. vm_compute in E. injection E as <- <-. done.
Defined.

(** ** Connect *)

(** What a successful handshake has checked. *)
Lemma connected_ok cfg0 hdr body c : connected cfg0 hdr body = Ok c ->
  Type_ hdr = MsgConnectionResponse /\ connID c = ConnectionID hdr /\ ConnectionID hdr <> [] /\
  DecodeConnectionResponse body = Ok (server c) /\ QuackVersion (server c) = 1 /\
  cfg c = cfg0 /\ qid c = 0 /\ closed c = false.
Proof.
  unfold connected, quackVersionMin, quackVersionMax. destruct (Type_ hdr =? _) eqn:E1.
  - case_bool_decide as E2; [done|]. destruct (DecodeConnectionResponse body) as [resp| |] eqn:E3; [|done..].
    cbn [obind]. destruct (_ || _) eqn:E4; [done|]. intros [= <-]. cbn.
    zify_bools. repeat split; auto; lia.
  - destruct (Type_ hdr =? MsgError); [|done]. unfold serverError.
    by destruct (DecodeErrorMessage body).
Qed.

(** C10: [Connect] always returns.  When it returns a client, one of at most
    [max 0 MaxRetries + 1] handshakes was answered with HTTP 200 and a
    CONNECTION_RESPONSE of quack version 1 that names a connection id; every
    handshake before it failed with no response, 429, or a 5xx other than
    501; and the client starts open, with that id and no query issued. *)
Theorem connect_sound (url_scheme : bytes -> option bytes) (c : Config) (w : world)
    (Hdelay : in_s 64 (RetryBaseDelay c)) :
  exists r, Connect url_scheme c w = Some r /\ forall cl, r = Ok cl ->
    withDefaults url_scheme c = Ok (cfg cl) /\
    exists n raw hdr body,
      Z.of_nat n <= Z.max 0 (MaxRetries (cfg cl)) /\
      w_reply w n = OKBody raw /\ SplitEnvelope raw = Ok (hdr, body) /\
      Type_ hdr = MsgConnectionResponse /\
      DecodeConnectionResponse body = Ok (server cl) /\ QuackVersion (server cl) = 1 /\
      connID cl = ConnectionID hdr /\ connID cl <> [] /\ qid cl = 0 /\ closed cl = false /\
      forall k, (k < n)%nat -> match w_reply w k with
                               | NoResponse _ => True
                               | BadStatus code _ => code = 0 \/ retryableStatus code = true
                               | _ => False
                               end.
Proof.
  unfold Connect. destruct (withDefaults url_scheme c) as [cfg0|e|] eqn:Ed; [|by eexists..].
  assert (Hd : in_s 64 (RetryBaseDelay cfg0)).
  { unfold withDefaults in Ed. repeat (case_match; try done); injection Ed as <-; first [done|by compute]. }
  destruct (retry_spec (attempts (MaxRetries cfg0)) (MaxRetries cfg0) (connectAttempt cfg0 w) 0
    (RetryBaseDelay cfg0)) as (r & ds & -> & Hlen & Hall & Hr); [unfold attempts; lia|done|].
  eexists. split; [done|]. intros cl Hcl. destruct r as [[hdr body]|e|]; [|done..]. cbn [obind] in Hcl.
  apply connected_ok in Hcl as (H1 & H2 & H3 & H4 & H5 & <- & H7 & H8). split; [done|].
  destruct Hr as [Hr|[? _]]; [|done]. cbn [Nat.add] in *.
  unfold connectAttempt in Hr, Hall. exists (length ds).
  destruct (w_reply w (length ds)) as [text|code b|text|raw] eqn:Ew; cbn in Hr; try done.
  exists raw, hdr, body. split; [destruct Hlen; lia|]. repeat split; try done; [congruence|].
  intros k Hk. destruct (Hall k Hk) as (_ & Hre & e & He).
  destruct (w_reply w k) as [text|code b|text|raw']; cbn in Hre, He; try done.
  apply orb_true_iff in Hre as [Hre|Hre]; [left; by zify_bools|by right].
Qed.

(** A server that is down once, then answers. *)
Definition sample_world : world :=
  MkWorld (fun n => if (n =? 0)%nat then BadStatus 503 (str "starting")
    else OKBody (EncodeEnvelope (MkHeader MsgConnectionResponse (str "c1") QueryIDAbsent)
                   (ConnectionResponse_Encode (MkConnectionResponse (str "1.5.3") [] 1))))
    (fun _ => false) (fun _ => false).

Definition sample_config : Config := MkConfig (str "http://h:8888") (str "s3cret") 0 0 0 0.

Definition sample_client : Client :=
  MkClient (MkConfig (str "http://h:8888") (str "s3cret") 4 (10 * Second) 3 (100 * Millisecond))
    (str "c1") (MkConnectionResponse (str "1.5.3") [] 1) 0 false.

Lemma connect_sound_witness :
  exists r, Connect (fun _ => Some (str "http")) sample_config sample_world = Some r /\
    r = Ok sample_client /\ connID sample_client <> [].
Proof.
  destruct (connect_sound (fun _ => Some (str "http")) sample_config sample_world) as (r & E & H); [by compute|].
  exists r. split; [exact E|]. assert (Er : r = Ok sample_client) by (vm_compute in E; by injection E as <-).
  split; [exact Er|]. destruct (H _ Er) as (_ & n & raw & hdr & body & H1). apply H1.
Defined.

(** ** Calls *)

Definition client_ok (c : Client) : Prop := str_ok (connID c) /\ in_u 64 (qid c).

(** What a call returns for each reply of the server. *)
Definition call_result (token : bytes) (req want : Z) (reply : http_reply) : outcome werr bytes :=
  match reply with
  | NoResponse text | BadBody text => Err (ETransport (redactToken token text))
  | BadStatus code body => Err (EServer code (redactToken token (take 4096 body)))
  | OKBody raw =>
      match SplitEnvelope raw with
      | Ok (hdr, body) =>
          if Type_ hdr =? want then Ok body
          else if Type_ hdr =? MsgError then
            match DecodeErrorMessage body with
            | Ok em => Err (EServer 0 (redactToken token (Message em)))
            | Err e => Err e
            | Panic => Panic
            end
          else Err (EAnswered req (Type_ hdr))
      | Err e => Err e
      | Panic => Panic
      end
  end.

Lemma call_open c req body want reply : closed c = false ->
  call c req body want reply =
  (Some (EncodeEnvelope (MkHeader req (connID c) (u64 (qid c + 1))) body),
   call_result (Token (cfg c)) req want reply,
   MkClient (cfg c) (connID c) (server c) (u64 (qid c + 1)) (closed c)).
Proof.
  intros Hc. unfold call. rewrite Hc. cbv zeta. unfold roundTrip, call_result, serverError.
  by destruct reply.
Qed.

(** C24: an open client posts exactly one envelope per call, which carries the
    request type, the connection id, the next query id and the encoded body
    unchanged; the call's result is the raw body of a 200 response of the
    wanted type and otherwise the error for its kind of failure; nothing of
    the client but the query counter changes. *)
Theorem call_spec (c : Client) (req : Z) (body : bytes) (want : Z) (reply : http_reply)
    (Hc : client_ok c) (Hopen : closed c = false) (Hreq : in_u 8 req) :
  exists msg, call c req body want reply =
      (Some msg, call_result (Token (cfg c)) req want reply,
       MkClient (cfg c) (connID c) (server c) (u64 (qid c + 1)) false) /\
    SplitEnvelope msg = Ok (MkHeader req (connID c) (u64 (qid c + 1)), body).
Proof.
  eexists. split; [rewrite (call_open _ _ _ _ _ Hopen), Hopen; reflexivity|].
  apply split_encode. destruct Hc as [Hid _].
  split; [done|]. split; [done|]. by apply uwrap_in.
Qed.

Lemma call_spec_witness :
  let reply := OKBody (EncodeEnvelope (MkHeader MsgError [] QueryIDAbsent)
                         (ErrorMessage_Encode (MkErrorMessage (str "bad s3cret")))) in
  exists msg c', call sample_client MsgPrepareRequest (str "x") MsgPrepareResponse reply =
      (Some msg, Err (EServer 0 (str "bad [redacted]")), c') /\
    SplitEnvelope msg = Ok (MkHeader MsgPrepareRequest (str "c1") 1, str "x").
Proof.
  intros reply. destruct (call_spec sample_client MsgPrepareRequest (str "x") MsgPrepareResponse reply)
    as (msg & E & H); [by split; compute|done|by compute|].
  eexists _, _. split; [rewrite E; vm_compute; reflexivity|]. exact H.
Defined.

(** A sequence of calls on one client, with the messages posted. *)
Fixpoint calls (c : Client) (l : list (Z * bytes * Z * http_reply)) : list (option bytes) * Client :=
  match l with
  | [] => ([], c)
  | (req, body, want, reply) :: l =>
      let '(msg, _, c) := call c req body want reply in
      let '(msgs, c) := calls c l in (msg :: msgs, c)
  end.

Lemma calls_ids c l : closed c = false -> str_ok (connID c) -> 0 <= qid c ->
  qid c + Z.of_nat (length l) < QueryIDAbsent -> Forall (fun x => in_u 8 x.1.1.1) l ->
  forall i x, l !! i = Some x ->
    exists msg, (calls c l).1 !! i = Some (Some msg) /\
      SplitEnvelope msg = Ok (MkHeader x.1.1.1 (connID c) (qid c + Z.of_nat i + 1), x.1.1.2).
Proof.
  revert c. induction l as [|[[[req body] want] reply] l IH]; intros c Hc Hid H0 Hq Hl i x Hi; [done|].
  cbn [calls]. rewrite (call_open _ _ _ _ _ Hc). inversion Hl as [|? ? Hreq Hl']; subst. cbn [length] in Hq.
  assert (E : u64 (qid c + 1) = qid c + 1).
  { apply uwrap_small. unfold in_u, QueryIDAbsent, OptionalIdxAbsent in *. simpl in *. lia. }
  rewrite E. set (c' := MkClient _ _ _ _ _). specialize (IH c' Hc Hid ltac:(cbn; lia) ltac:(cbn; lia) Hl').
  destruct (calls c' l) as [msgs c''] eqn:Ec. cbn [fst]. destruct i as [|i].
  - injection Hi as <-. eexists. split; [reflexivity|]. rewrite Z.add_0_r. apply split_encode.
    split; [exact Hreq|]. split; [done|]. cbn [QueryID].
    unfold in_u, QueryIDAbsent, OptionalIdxAbsent in *. simpl in *. lia.
  - destruct (IH i x Hi) as (msg & Hm & Hs). exists msg. split; [exact Hm|]. rewrite Hs.
    cbn [c' connID qid]. do 3 f_equal. lia.
Qed.

(** C27: the query ids a client sends are distinct: the [i]-th of its calls
    carries query id [i + 1], never the reserved absent id. *)
Theorem query_ids_sequential (c : Client) (l : list (Z * bytes * Z * http_reply))
    (Hc : closed c = false) (Hid : str_ok (connID c)) (Hq0 : qid c = 0)
    (Hl : Forall (fun x => in_u 8 x.1.1.1) l) (Hn : Z.of_nat (length l) < QueryIDAbsent)
    (i : nat) (x : Z * bytes * Z * http_reply) (Hi : l !! i = Some x) :
  exists msg h, (calls c l).1 !! i = Some (Some msg) /\ SplitEnvelope msg = Ok (h, x.1.1.2) /\
    QueryID h = Z.of_nat i + 1 /\ QueryID h <> QueryIDAbsent /\ ConnectionID h = connID c.
Proof.
  destruct (calls_ids c l Hc Hid ltac:(lia) ltac:(lia) Hl i x Hi) as (msg & Hm & Hs).
  eexists msg, _. split; [exact Hm|]. split; [exact Hs|]. cbn. rewrite Hq0.
  apply lookup_lt_Some in Hi. repeat split; lia.
Qed.

Lemma query_ids_sequential_witness :
  let l := [(MsgPrepareRequest, str "a", MsgPrepareResponse, NoResponse []);
            (MsgFetchRequest, str "b", MsgFetchResponse, NoResponse [])] in
  exists msg h, (calls sample_client l).1 !! 1%nat = Some (Some msg) /\ SplitEnvelope msg = Ok (h, str "b") /\
    QueryID h = 2 /\ QueryID h <> QueryIDAbsent /\ ConnectionID h = str "c1".
Proof.
  intros l. apply (query_ids_sequential sample_client l) with (i := 1%nat) (x := (MsgFetchRequest, str "b", MsgFetchResponse, NoResponse []));
    [done|by compute|done| |by compute|done].
  repeat constructor; by compute.
Defined.

(** ** Close *)

(** C28: closing is final and idempotent: after [Close], whatever the server
    answered, queries, fetches, raw round trips and further closes post
    nothing; the former fail with [ErrClosed] and a second close succeeds. *)
Theorem closed_is_final (c : Client) (reply : http_reply) :
  let c' := snd (Close c reply) in
  closed c' = true /\
  (forall sql r, Prepare c' sql r = (None, Err ErrClosed, c')) /\
  (forall uuid r, Fetch c' uuid r = (None, Err ErrClosed, c')) /\
  (forall msg r, RoundTripRaw c' msg r = (None, Err ErrClosed, c')) /\
  (forall r, Close c' r = (None, Ok tt, c')).
Proof.
  unfold Prepare, Fetch, call, RoundTripRaw, Close. destruct (closed c) eqn:E; cbn [snd].
  - rewrite E. repeat split.
  - destruct (roundTrip _ _). repeat split.
Qed.

(** ** Redaction *)

(** Tokens that cannot reappear through the replacement text itself. *)
Definition redactable (token : bytes) : Prop :=
  token <> [] /\ bz 91 ∉ token /\ bz 93 ∉ token /\ contains (str "redacted") token = false.

(** Text that came from the server or the network. *)
Definition foreign_text (e : werr) : bytes :=
  match e with
  | EServer _ message => message
  | ETransport text => text
  | _ => []
  end.

Definition leaks (token : bytes) (e : werr) : bool := contains (foreign_text e) token.

Lemma contains_drop s p : contains s p = false -> forall i, has_prefix p (drop i s) = false.
Proof.
  unfold contains. intros H. assert (Hn : index_of p s = None) by (by destruct (index_of p s)). clear H.
  revert Hn. induction s as [|b s IH]; intros Hn i; cbn [index_of] in Hn.
  - rewrite drop_nil. by destruct (has_prefix p []).
  - destruct (has_prefix p (b :: s)) eqn:E; [done|]. destruct i as [|i]; [done|]. cbn [drop].
    apply IH. by destruct (index_of p s).
Qed.

Lemma redactToken_removes token s : redactable token -> contains (redactToken token s) token = false.
Proof.
  intros (Hne & Ha & Hb & Hm). unfold redactToken. rewrite bool_decide_false by done.
  apply (replace_all_removes token (bz 91) (str "redacted") (bz 93)); [done..|]. by apply contains_drop.
Qed.

Lemma no_text_no_leak token e : redactable token -> foreign_text e = [] -> leaks token e = false.
Proof. intros (Hne & _) E. unfold leaks. rewrite E. by destruct token. Qed.

(** The decoders fail with their own errors. *)
Lemma split_no_text raw e : SplitEnvelope raw = Err e -> foreign_text e = [].
Proof.
  unfold SplitEnvelope, run, splitEnvelope, bind, dfail, dret, ret, Reader.Err, Reader.Rest, optField.
  intros H. repeat (case_match; simplify_eq/=; try done).
Qed.

(** The only errors of [m]. *)
Definition fails_with {A} (m : D werr A) (P : werr -> Prop) : Prop := forall r e, fst (m r) = Err e -> P e.

Lemma fails_bind {A B} (m : M A) (k : A -> D werr B) P : (forall a, fails_with (k a) P) -> fails_with (bind m k) P.
Proof. intros Hk r e. unfold bind. destruct (m r). apply Hk. Qed.

Lemma fails_wrapErr {A} what (m : A) : fails_with (wrapErr what m) (fun e => foreign_text e = []).
Proof. intros r e. unfold wrapErr, bind, Reader.Err. destruct (err r); [by intros [= <-]|done]. Qed.

Lemma error_message_no_text body e : DecodeErrorMessage body = Err e -> foreign_text e = [].
Proof. apply (fails_bind _ _ (fun e => foreign_text e = [])). intros. repeat first [apply fails_wrapErr|apply fails_bind; intros]. Qed.

Lemma connection_response_no_text body e : DecodeConnectionResponse body = Err e -> foreign_text e = [].
Proof. apply (fails_bind _ _ (fun e => foreign_text e = [])). intros. repeat first [apply fails_wrapErr|apply fails_bind; intros]. Qed.

Section Redaction.
Context (token : bytes) (Htoken : redactable token).

Lemma roundTrip_redacted reply e : (roundTrip token reply).2 = Err e -> leaks token e = false.
Proof.
  destruct reply as [text|code b|text|raw]; cbn [roundTrip snd]; [intros [= <-]..|].
  - by apply redactToken_removes.
  - by apply redactToken_removes.
  - by apply redactToken_removes.
  - intros H. by eapply no_text_no_leak, split_no_text.
Qed.

Lemma serverError_redacted {A} body e : serverError (A := A) token body = Err e -> leaks token e = false.
Proof.
  unfold serverError. destruct (DecodeErrorMessage body) as [em|e'|] eqn:E; [|intros [= <-]|done].
  - intros [= <-]. by apply redactToken_removes.
  - by eapply no_text_no_leak, error_message_no_text.
Qed.

Lemma connected_redacted c hdr body e : Token c = token -> connected c hdr body = Err e -> leaks token e = false.
Proof.
  intros Ht. unfold connected. rewrite Ht. assert (Hn : forall e, foreign_text e = [] -> leaks token e = false)
    by (intros; by apply no_text_no_leak).
  repeat case_match; try (intros [= <-]; by apply Hn); try by apply serverError_redacted.
  destruct (DecodeConnectionResponse body) as [resp|e'|] eqn:E; [|intros [= <-]|done]; cbn [obind].
  - case_match; [intros [= <-]; by apply Hn|done].
  - by eapply Hn, connection_response_no_text.
Qed.

Lemma retry_err {A} fuel m (fn : nat -> attempt A) n d e ds :
  retry fuel m fn n d = Some (Err e, ds) -> e = EContext \/ exists k, result (fn k) = Err e.
Proof.
  revert n d ds. induction fuel as [|fuel IH]; intros n d ds H; [done|]. cbn [retry] in H.
  destruct (result (fn n)) as [x|e'|] eqn:E; [done| |done].
  repeat case_match; simplify_eq; eauto.
  destruct (retry fuel m fn (S n) _) as [[r ds']|] eqn:Er; [|done]. cbn in H. injection H as -> <-. eauto.
Qed.

End Redaction.

(** ** Nothing panics *)

Lemma retry_result {A} fuel m (fn : nat -> attempt A) n d r ds :
  retry fuel m fn n d = Some (r, ds) -> r = Err EContext \/ exists k, r = result (fn k).
Proof.
  revert n d ds. induction fuel as [|fuel IH]; intros n d ds H; [done|]. cbn [retry] in H.
  destruct (result (fn n)) as [x|e|] eqn:E.
  - injection H as <- _. right. by exists n.
  - case_match; [injection H as <- _; right; by exists n|]. case_match; [injection H as <- _; by left|].
    destruct (retry fuel m fn (S n) _) as [[r' ds']|] eqn:Er; [|done]. cbn in H. injection H as -> <-. by eapply IH.
  - injection H as <- _. right. by exists n.
Qed.

(** [Connect] always returns, whatever the delays wrap around to. *)
Lemma retry_returns {A} fuel m (fn : nat -> attempt A) n d :
  (Z.to_nat (m - Z.of_nat n) < fuel)%nat -> exists r ds, retry fuel m fn n d = Some (r, ds).
Proof.
  revert n d. induction fuel as [|fuel IH]; intros n d Hf; [lia|]. cbn [retry].
  destruct (result (fn n)); [by eexists _, _| |by eexists _, _].
  destruct (negb _ || _ || _) eqn:E; [by eexists _, _|]. rewrite !orb_false_iff, Z.leb_gt in E. destruct E as [[_ E] _].
  destruct (ctx_done (fn n)); [by eexists _, _|].
  destruct (IH (S n) (i64 (d * 2))) as (r & ds & ->); [lia|]. by eexists _, _.
Qed.

Lemma Connect_returns url_scheme c wld : exists r, Connect url_scheme c wld = Some r.
Proof.
  unfold Connect. destruct (withDefaults url_scheme c) as [cfg0|e|]; [|by eexists..].
  destruct (retry_returns (attempts (MaxRetries cfg0)) (MaxRetries cfg0) (connectAttempt cfg0 wld) 0 (RetryBaseDelay cfg0))
    as (r & ds & ->); [unfold attempts; lia|]. by eexists.
Qed.

Lemma roundTrip_total token rep : (roundTrip token rep).2 <> Panic.
Proof. destruct rep; cbn; try done. apply SplitEnvelope_total. Qed.

Lemma connected_total c hdr body : connected c hdr body <> Panic.
Proof.
  unfold connected, serverError. case_match; [case_bool_decide; [done|]|case_match; [|done]].
  - pose proof (DecodeConnectionResponse_total body). destruct (DecodeConnectionResponse body); cbn [obind]; [by case_match|done|done].
  - pose proof (DecodeErrorMessage_total body). by destruct (DecodeErrorMessage body).
Qed.

Lemma Connect_total url_scheme c wld : Connect url_scheme c wld <> Some Panic.
Proof.
  unfold Connect. destruct (withDefaults url_scheme c) as [cfg|e|] eqn:Ed; [|done|].
  - destruct (retry _ _ _ _ _) as [[r ds]|] eqn:Er; [|done]. cbn [mbind option_bind]. intros [= H].
    apply retry_result in Er as [->|[k ->]]; [done|]. unfold connectAttempt in H.
    pose proof (roundTrip_total (Token cfg) (w_reply wld k)). destruct (roundTrip _ _) as [st [[hdr body]|e|]]; cbn in *; [|done|done].
    by apply connected_total in H.
  - unfold withDefaults in Ed. by repeat case_match.
Qed.

(** A client starts open. *)
Lemma Connect_open url_scheme c wld cl : Connect url_scheme c wld = Some (Ok cl) -> closed cl = false.
Proof.
  unfold Connect. destruct (withDefaults url_scheme c) as [c'|e|]; [|done..].
  destruct (retry _ _ _ _ _) as [[[[hdr body]|e|] ds]|]; cbn [mbind option_bind obind]; [|done..].
  intros [= H]. by apply connected_ok in H as (_ & _ & _ & _ & _ & _ & _ & ?).
Qed.

(** C25: the auth token never comes back in an error: for a token that shares
    no text with the replacement, no error of [Connect], [Prepare], [Fetch],
    [RoundTripRaw] or [Close] contains it in the text it takes from the
    server or the network, whatever they sent. *)
Theorem errors_redacted (c : Client) (H : redactable (Token (cfg c))) :
  let token := Token (cfg c) in
  (forall url w e, Connect url (cfg c) w = Some (Err e) -> leaks token e = false) /\
  (forall req body want reply e, (call c req body want reply).1.2 = Err e -> leaks token e = false) /\
  (forall msg reply e, (RoundTripRaw c msg reply).1.2 = Err e -> leaks token e = false) /\
  (forall reply e, (Close c reply).1.2 = Err e -> leaks token e = false).
Proof.
  intros token. assert (Hn : forall e, foreign_text e = [] -> leaks token e = false)
    by (intros; by apply no_text_no_leak).
  split; [|split; [|split]].
  - intros url w e. unfold Connect. destruct (withDefaults url (cfg c)) as [cf|e'|] eqn:Ed; [| |done].
    2: { unfold withDefaults in Ed. intros [= ->]. repeat case_match; simplify_eq; by apply Hn. }
    assert (Ht : Token cf = token) by (unfold withDefaults in Ed; repeat case_match; by simplify_eq).
    destruct (retry _ _ _ _ _) as [[r ds]|] eqn:Er; [|done]. cbn. intros [= He].
    destruct r as [[hdr body]|e'|]; cbn [obind] in He; [by eapply connected_redacted| |done].
    injection He as ->. apply retry_err in Er as [->|[k Hk]]; [by apply Hn|].
    unfold connectAttempt in Hk. pose proof (roundTrip_redacted _ H (w_reply w k) e) as Hr.
    rewrite Ht in Hk. fold token in Hr. destruct (roundTrip token (w_reply w k)). by apply Hr.
  - intros req body want reply e. destruct (closed c) eqn:Hc.
    { unfold call. rewrite Hc. cbn. intros [= <-]. by apply Hn. }
    unfold call. rewrite Hc. cbv zeta. cbn [cfg]. fold token.
    pose proof (fun e => roundTrip_redacted _ H reply e) as Hr. fold token in Hr.
    destruct (roundTrip token reply) as [st [[hdr b]|e'|]]; cbn [fst snd obind] in *; [| |done].
    + repeat case_match; [done|by apply serverError_redacted|intros [= <-]; by apply Hn].
    + intros [= <-]. by apply Hr.
  - intros msg reply e. unfold RoundTripRaw. destruct (closed c); cbn [fst snd]; [intros [= <-]; by apply Hn|].
    by apply roundTrip_redacted.
  - intros reply e. unfold Close. destruct (closed c); [done|]. fold token.
    pose proof (fun e => roundTrip_redacted _ H reply e) as Hr. fold token in Hr.
    destruct (roundTrip token reply) as [st [[hdr b]|e'|]]; cbn [fst snd obind] in *; [| |done].
    + repeat case_match; [done|by apply serverError_redacted|intros [= <-]; by apply Hn].
    + intros [= <-]. by apply Hr.
Qed.

Lemma errors_redacted_witness :
  (call sample_client MsgPrepareRequest [] MsgPrepareResponse (NoResponse (str "dial s3cret: s3cret refused"))).1.2
    = Err (ETransport (str "dial [redacted]: [redacted] refused")) /\
  leaks (str "s3cret") (ETransport (str "dial [redacted]: [redacted] refused")) = false.
Proof.
  split; [vm_compute; reflexivity|].
  assert (H : redactable (Token (cfg sample_client))).
  { split; [done|]. split; [apply (bool_decide_unpack _); vm_compute; exact I|].
    split; [apply (bool_decide_unpack _); vm_compute; exact I|]. vm_compute. reflexivity. }
  apply (proj1 (proj2 (errors_redacted sample_client H)) MsgPrepareRequest [] MsgPrepareResponse
           (NoResponse (str "dial s3cret: s3cret refused"))). vm_compute. reflexivity.
Defined.
