(* ===== verification/Stream.v ===== *)
(** * duckcall.go: dialling, queries, and the concurrent chunk stream

    [Result.Chunks] as a step relation.  A state holds the batches the server
    still has for the result, the worker goroutines, the buffered channel
    [out], the channels that are only ever closed ([done], [r.stop], the
    context) as flags, and the consuming loop.  The server's side of a fetch is
    its documented behaviour: a fetch pops the next batch, and answers with no
    chunks once there is none; a fetch may also fail, before or after the pop. *)

From stdpp Require Import relations.
From S2P Require Import Prelude Qser QserLib LogicalType Values Vector Chunk CodecGood CodecTypes CodecSafe Messages Client.

(** ** Connections and queries *)

Inductive derr : Type :=
  | EWire (e : werr)
  | ECodec (e : cerr)
  | EDecodePrepare (e : cerr)
  | EDecodeFetch (e : cerr)
  | ECtxCause.

Record Conn := MkConn { w : Client; cd : Z }.

(** The part of [Dial] after [wire.Connect]: the codec for the negotiated
    version, or a closed client and an error. *)
Definition dialed (cl : Client) (reply : http_reply) : outcome derr Conn * Client :=
  match For (QuackVersion (server cl)) with
  | Ok v => (Ok (MkConn cl v), cl)
  | Err e => (Err (ECodec e), snd (Close cl reply))
  | Panic => (Panic, cl)
  end.

(** [Dial]: [wld] is the network during the handshake, [reply] the answer to the
    goodbye of a session without a codec. *)
Definition Dial (url_scheme : bytes -> option bytes) (cfg : Config) (wld : world) (reply : http_reply)
  : option (outcome derr Conn) :=
  r ← Connect url_scheme cfg wld;
  Some (match r with
        | Ok cl => fst (dialed cl reply)
        | Err e => Err (EWire e)
        | Panic => Panic
        end).

(** [Query]: the decoded prepare response is the result. *)
Definition Query (c : Conn) (sql : bytes) (reply : http_reply)
  : option bytes * outcome derr PrepareResult * Client :=
  let '(msg, res, cl) := Prepare (w c) sql reply in
  (msg,
   match res with
   | Ok body => match DecodePrepare body with
                | Ok pr => Ok pr
                | Err e => Err (EDecodePrepare e)
                | Panic => Panic
                end
   | Err e => Err (EWire e)
   | Panic => Panic
   end, cl).

(** ** Streams *)

(** What a worker sends: the chunks of a batch, or an error. *)
Inductive batch : Type :=
  | Chunks (l : list Chunk)
  | Failure (e : derr).

(** A worker goroutine: at the top of its loop, waiting for a fetch, blocked
    on a send, or returned. *)
Inductive worker : Type :=
  | WTop
  | WFetch
  | WSend (b : batch)
  | WExit.

Inductive ending : Type :=
  | Silent                  (** the range ends without an error *)
  | Failed (e : derr)       (** the last pair is [(nil, e)] *)
  | Broken.                 (** [yield] returned false *)

(** The loop body of [Chunks]: ranging over the inline chunks, over the
    chunks of the batch just received, in the last call of [yield], with an
    error, or returned. *)
Inductive consumer : Type :=
  | CInline (l : list Chunk)
  | CRecv (l : list Chunk)
  | CFail (e : derr)
  | CEnd (e : ending).

Record stream := MkStream {
  pending : list bytes;      (** FETCH_RESPONSE bodies the server still has *)
  workers : list worker;
  out : list batch;
  done : bool;
  stop : bool;
  ctx : bool;                (** the caller's context is cancelled *)
  delivered : list Chunk;    (** chunks passed to [yield], in order *)
  loop : consumer
}.

(** The derived context: cancelled by the caller, or by the deferred [cancel]. *)
Definition ctx_dead (s : stream) : bool :=
  ctx s || match loop s with CEnd _ => true | _ => false end.

Definition exited (x : worker) : bool := match x with WExit => true | _ => false end.

(** What a worker makes of a FETCH_RESPONSE body: [None] when it is drained.  The
    decoder never panics ([CodecSafe.decode_safe]), so its last case is never
    taken. *)
Definition fetched (body : bytes) : option batch :=
  match DecodeFetch body with
  | Ok fr => match FChunks fr with [] => None | l => Some (Chunks l) end
  | Err e => Some (Failure (EDecodeFetch e))
  | Panic => Some (Failure ECtxCause)
  end.

Definition set_worker (i : nat) (x : worker) (s : stream) : stream :=
  MkStream (pending s) (<[i := x]> (workers s)) (out s) (done s) (stop s) (ctx s) (delivered s) (loop s).
Definition set_loop (c : consumer) (s : stream) : stream :=
  MkStream (pending s) (workers s) (out s) (done s) (stop s) (ctx s) (delivered s) c.
Definition set_out (o : list batch) (s : stream) : stream :=
  MkStream (pending s) (workers s) o (done s) (stop s) (ctx s) (delivered s) (loop s).
Definition set_pending (p : list bytes) (s : stream) : stream :=
  MkStream p (workers s) (out s) (done s) (stop s) (ctx s) (delivered s) (loop s).
Definition set_done (s : stream) : stream :=
  MkStream (pending s) (workers s) (out s) true (stop s) (ctx s) (delivered s) (loop s).
Definition set_workers (ws : list worker) (s : stream) : stream :=
  MkStream (pending s) ws (out s) (done s) (stop s) (ctx s) (delivered s) (loop s).
Definition deliver (ch : Chunk) (s : stream) : stream :=
  MkStream (pending s) (workers s) (out s) (done s) (stop s) (ctx s) (delivered s ++ [ch]) (loop s).

(** After a send: an error is the worker's last. *)
Definition after_send (b : batch) : worker :=
  match b with Chunks _ => WTop | Failure _ => WExit end.

(** [needsMore] is the result's [NeedsMoreFetch], [n] is [FetchWorkers]. *)
Inductive step (needsMore : bool) (n : nat) : stream -> stream -> Prop :=
  (** the loop over the inline chunks *)
  | InlineYield s ch l : loop s = CInline (ch :: l) ->
      step needsMore n s (set_loop (CInline l) (deliver ch s))
  | InlineBreak s ch l : loop s = CInline (ch :: l) ->
      step needsMore n s (set_loop (CEnd Broken) (deliver ch s))
  | InlineOnly s : loop s = CInline [] -> needsMore = false ->
      step needsMore n s (set_loop (CEnd Silent) s)
  | StartWorkers s : loop s = CInline [] -> needsMore = true ->
      step needsMore n s (set_loop (CRecv []) (set_workers (replicate n WTop) s))
  (** the loop over [out] *)
  | Receive s l o : loop s = CRecv [] -> out s = Chunks l :: o ->
      step needsMore n s (set_loop (CRecv l) (set_out o s))
  | ReceiveError s e o : loop s = CRecv [] -> out s = Failure e :: o ->
      step needsMore n s (set_loop (CFail e) (set_out o s))
  | BatchYield s ch l : loop s = CRecv (ch :: l) ->
      step needsMore n s (set_loop (CRecv l) (deliver ch s))
  | BatchBreak s ch l : loop s = CRecv (ch :: l) ->
      step needsMore n s (set_loop (CEnd Broken) (deliver ch s))
  | OutClosed s : loop s = CRecv [] -> out s = [] -> forallb exited (workers s) = true ->
      step needsMore n s (set_loop (if ctx s then CFail ECtxCause else CEnd Silent) s)
  | FailYielded s e : loop s = CFail e -> step needsMore n s (set_loop (CEnd (Failed e)) s)
  (** the workers *)
  | WorkerQuit s i : workers s !! i = Some WTop -> ctx_dead s || done s || stop s = true ->
      step needsMore n s (set_worker i WExit s)
  | WorkerFetch s i : workers s !! i = Some WTop -> ctx_dead s || done s || stop s = false ->
      step needsMore n s (set_worker i WFetch s)
  | FetchReply s i body p b : workers s !! i = Some WFetch -> pending s = body :: p ->
      fetched body = Some b ->
      step needsMore n s (set_worker i (WSend b) (set_pending p s))
  | FetchNoChunks s i body p : workers s !! i = Some WFetch -> pending s = body :: p ->
      fetched body = None ->
      step needsMore n s (set_worker i WExit (set_done (set_pending p s)))
  | FetchDrained s i : workers s !! i = Some WFetch -> pending s = [] ->
      step needsMore n s (set_worker i WExit (set_done s))
  | FetchFails s i e : workers s !! i = Some WFetch ->
      step needsMore n s (set_worker i (WSend (Failure (EWire e))) s)
  | FetchFailsAfterPop s i body p e : workers s !! i = Some WFetch -> pending s = body :: p ->
      step needsMore n s (set_worker i (WSend (Failure (EWire e))) (set_pending p s))
  | WorkerSend s i b : workers s !! i = Some (WSend b) -> (length (out s) < n)%nat ->
      step needsMore n s (set_worker i (after_send b) (set_out (out s ++ [b]) s))
  | WorkerDrop s i b : workers s !! i = Some (WSend b) -> ctx_dead s = true ->
      step needsMore n s (set_worker i WExit s)
  (** the caller *)
  | Cancel s : ctx s = false ->
      step needsMore n s (MkStream (pending s) (workers s) (out s) (done s) (stop s) true (delivered s) (loop s))
  | CloseResult s : stop s = false ->
      step needsMore n s (MkStream (pending s) (workers s) (out s) (done s) true (ctx s) (delivered s) (loop s)).

Definition start (inline : list Chunk) (bodies : list bytes) : stream :=
  MkStream bodies [] [] false false false [] (CInline inline).

Abbreviation steps needsMore n := (rtc (step needsMore n)).

(** ** The invariant *)

(** The chunks of a batch the server holds. *)
Definition body_chunks (body : bytes) : list Chunk :=
  match fetched body with Some (Chunks l) => l | _ => [] end.

(** A batch a conforming server sends: it decodes, to at least one chunk. *)
Definition good_body (body : bytes) : Prop := exists l, fetched body = Some (Chunks l).

Definition sending (x : worker) : list (list Chunk) :=
  match x with WSend (Chunks l) => [l] | _ => [] end.
Definition queued (b : batch) : list (list Chunk) := match b with Chunks l => [l] | _ => [] end.

Definition failing (x : worker) : bool := match x with WSend (Failure _) => true | _ => false end.
Definition failed (b : batch) : bool := match b with Failure _ => true | _ => false end.

(** The stream is over, cancelled, or ending with an error. *)
Definition doomed (s : stream) : bool :=
  ctx_dead s || match loop s with CFail _ => true | _ => false end.

(** A failure is on its way to the consumer, or the stream is doomed. *)
Definition alarmed (s : stream) : Prop :=
  doomed s = true \/ existsb failing (workers s) = true \/ existsb failed (out s) = true.

Definition current (s : stream) : list Chunk :=
  match loop s with CInline l => l | CRecv l => l | CFail _ | CEnd _ => [] end.

(** The batches accounted for, by where they are. *)
Definition accounted (s : stream) (recvd : list (list Chunk)) : list (list Chunk) :=
  recvd ++ concat (queued <$> out s) ++ concat (sending <$> workers s) ++ (body_chunks <$> pending s).

(** Every batch is received, on its way, still at the server, or lost, and none
    is lost without a failure; chunks are delivered in the order of the batches
    received, [rest] being what a break left out. *)
Definition batches (inline : list Chunk) (bodies : list bytes) (s : stream) : Prop :=
  exists recvd rest lost,
    delivered s ++ current s ++ rest = inline ++ concat recvd /\
    accounted s recvd ++ lost ≡ₚ body_chunks <$> bodies /\
    (lost = [] \/ alarmed s) /\ (rest = [] \/ exists e, loop s = CEnd e).

Record inv (n : nat) (inline : list Chunk) (bodies : list bytes) (s : stream) : Prop := Inv {
  inv_bodies : Forall good_body (pending s);
  inv_batches : batches inline bodies s;
  (** a worker only returns for a reason *)
  inv_exits : alarmed s \/ existsb exited (workers s) = false \/ pending s = [] \/ stop s = true;
  (** [done] means drained *)
  inv_done : done s = true -> pending s = [];
  inv_idle : forall l, loop s = CInline l -> workers s = [] /\ out s = [];
  inv_prefix : forall l, loop s = CInline l -> delivered s ++ l = inline;
  inv_started : forall l, loop s = CRecv l -> length (workers s) = n;
  (** a silent end is a complete one *)
  inv_silent : loop s = CEnd Silent ->
    stop s = true \/ exists order, order ≡ₚ body_chunks <$> bodies /\
      delivered s = inline ++ concat order
}.

(** ** Lemmas on the workers *)

Lemma existsb_delete {A} (f : A -> bool) l i x :
  l !! i = Some x -> existsb f l = f x || existsb f (delete i l).
Proof.
  revert i. induction l as [|y l IH]; intros [|i] H; try done.
  - by injection H as ->.
  - cbn [existsb]. change (delete (S i) (y :: l)) with (y :: delete i l). cbn [existsb].
    rewrite (IH i H). by destruct (f x), (f y).
Qed.

Lemma delete_insert_same {A} (l : list A) i y : delete i (<[i := y]> l) = delete i l.
Proof.
  revert i. induction l as [|x l IH]; intros [|i]; try done.
  change (x :: delete i (<[i := y]> l) = x :: delete i l). by rewrite IH.
Qed.

Lemma existsb_insert {A} (f : A -> bool) l i x y :
  l !! i = Some x -> existsb f (<[i := y]> l) = f y || existsb f (delete i l).
Proof.
  intros H. rewrite (existsb_delete f (<[i := y]> l) i y).
  - by rewrite delete_insert_same.
  - apply list_lookup_insert_eq. by eapply lookup_lt_Some.
Qed.

Lemma concat_delete {A B} (f : A -> list B) l i x :
  l !! i = Some x -> concat (f <$> l) ≡ₚ f x ++ concat (f <$> delete i l).
Proof. intros H. rewrite (delete_Permutation l i x H) at 1. done. Qed.

Lemma concat_insert {A B} (f : A -> list B) l i x y :
  l !! i = Some x -> concat (f <$> <[i := y]> l) ≡ₚ f y ++ concat (f <$> delete i l).
Proof.
  intros H. rewrite (concat_delete f _ i y); [by rewrite delete_insert_same|].
  apply list_lookup_insert_eq. by eapply lookup_lt_Some.
Qed.

(** A worker that is not failing may change state without hiding a failure. *)
Lemma failing_insert ws i x y : ws !! i = Some x -> failing x = false ->
  existsb failing ws = true -> existsb failing (<[i := y]> ws) = true.
Proof.
  intros Hx Hf. rewrite (existsb_delete _ _ _ _ Hx), (existsb_insert _ _ _ _ y Hx), Hf. cbn [orb].
  intros ->. apply orb_true_r.
Qed.

Lemma exited_insert ws i x y : ws !! i = Some x -> exited y = false ->
  existsb exited ws = false -> existsb exited (<[i := y]> ws) = false.
Proof.
  intros Hx Hy. rewrite (existsb_delete _ _ _ _ Hx), (existsb_insert _ _ _ _ y Hx), Hy. cbn [orb].
  by intros [_ ->]%orb_false_iff.
Qed.

Lemma fetched_good body p b : Forall good_body (body :: p) -> fetched body = Some b ->
  exists l, b = Chunks l /\ body_chunks body = l.
Proof.
  intros H E. inversion H as [|? ? [l Hl] _]; subst. exists l. unfold body_chunks. rewrite Hl in *.
  by simplify_eq.
Qed.

Section Invariant.
Context (needsMore : bool) (n : nat) (inline : list Chunk) (bodies : list bytes).
Context (Hn : (0 < n)%nat) (Hneeds : needsMore = false -> bodies = []).
Abbreviation Inv := (inv n inline bodies).

Lemma inv_start : Forall good_body bodies -> Inv (start inline bodies).
Proof.
  intros H. constructor; cbn; try done; try (by intros l [= ->]).
  - exists [], [], []. rewrite !app_nil_r. split; [done|]. split; [done|]. by split; left.
  - by right; left.
Qed.

Lemma dead_alarmed s : ctx_dead s = true -> alarmed s.
Proof. intros H. left. unfold doomed. by rewrite H. Qed.

(** A finished stream stays as it is for the consumer. *)
Lemma alarmed_end s e : loop s = CEnd e -> alarmed s.
Proof. intros H. apply dead_alarmed. unfold ctx_dead. rewrite H. apply orb_true_r. Qed.

Lemma step_pending s s' : step needsMore n s s' -> pending s' = pending s \/ exists b, pending s = b :: pending s'.
Proof. destruct 1; cbn; eauto. Qed.

Lemma step_bodies s s' : Forall good_body (pending s) -> step needsMore n s s' -> Forall good_body (pending s').
Proof.
  intros H Hs. destruct (step_pending _ _ Hs) as [->|[b Hb]]; [done|]. rewrite Hb in H. by inversion H.
Qed.

Lemma step_started s s' : (forall l, loop s = CRecv l -> length (workers s) = n) -> step needsMore n s s' ->
  forall l, loop s' = CRecv l -> length (workers s') = n.
Proof.
  intros H Hs l. destruct Hs; cbn; rewrite ?length_insert, ?length_replicate; try match goal with |- context [if ctx ?s then _ else _] => destruct (ctx s) end; try done; intros; eapply H; eassumption.
Qed.

Lemma step_idle s s' : (forall l, loop s = CInline l -> workers s = [] /\ out s = []) -> step needsMore n s s' ->
  forall l, loop s' = CInline l -> workers s' = [] /\ out s' = [].
Proof.
  intros H Hs l. destruct Hs; cbn; try match goal with |- context [if ctx ?s then _ else _] => destruct (ctx s) end; try done; intros Hl;
    try (destruct (H _ Hl) as [Hw Ho]; rewrite ?Hw, ?Ho in *; done); eauto.
Qed.

Lemma step_done s s' : Forall good_body (pending s) -> (done s = true -> pending s = []) ->
  step needsMore n s s' -> done s' = true -> pending s' = [].
Proof.
  intros Hg H Hs. destruct Hs; cbn; auto.
  - intros Hd. match goal with E : pending _ = _ :: _ |- _ => rewrite (H Hd) in E end. done.
  - match goal with E : pending _ = _ :: _ |- _ => rewrite E in Hg end. inversion Hg as [|? ? [l Hl] _]; congruence.
  - intros Hd. match goal with E : pending _ = _ :: _ |- _ => rewrite (H Hd) in E end. done.
Qed.

(** A doomed stream stays doomed. *)
Lemma step_doomed s s' : step needsMore n s s' -> doomed s = true -> doomed s' = true.
Proof.
  unfold doomed, ctx_dead. intros Hs H. destruct Hs; cbn in *; try done;
    try (match goal with E : loop _ = _ |- _ => rewrite E in H end);
    destruct (ctx s); cbn in *; rewrite ?orb_true_r; done.
Qed.

Lemma step_alarmed s s' : (forall l, loop s = CInline l -> workers s = [] /\ out s = []) ->
  step needsMore n s s' -> alarmed s -> alarmed s'.
Proof.
  intros Hidle Hs [H|[H|H]]; [left; by eapply step_doomed|..].
  - destruct Hs; try (match goal with E : loop _ = CInline _ |- _ => by rewrite (proj1 (Hidle _ E)) in H end);
      unfold alarmed, doomed, ctx_dead; cbn; auto; rewrite ?orb_true_r; auto;
      try (right; left; by eapply failing_insert).
    destruct b as [l|e]; [right; left; by eapply failing_insert|].
    right; right. rewrite existsb_app. cbn. apply orb_true_r.
    left. unfold ctx_dead in H1. by rewrite H1.
  - destruct Hs; unfold alarmed, doomed, ctx_dead; cbn; auto; rewrite ?orb_true_r; auto;
      try (match goal with E : out _ = _ |- _ => rewrite E in H end; cbn in H; auto).
    + right; right. by rewrite existsb_app, H.
Qed.

Lemma accounted_worker s i x y recvd : workers s !! i = Some x -> sending x = sending y ->
  accounted (set_worker i y s) recvd ≡ₚ accounted s recvd.
Proof.
  intros Hx E. unfold accounted. cbn. rewrite (concat_insert _ _ _ _ y Hx), (concat_delete sending _ _ _ Hx).
  by rewrite E.
Qed.

Lemma failing_now s i x e : workers s !! i = Some x -> existsb failing (<[i := WSend (Failure e)]> (workers s)) = true.
Proof. intros Hx. by rewrite (existsb_insert _ _ _ _ _ Hx). Qed.

Lemma accounted_worker_lost s i x y l recvd : workers s !! i = Some x -> sending x = [l] -> sending y = [] ->
  accounted (set_worker i y s) recvd ++ [l] ≡ₚ accounted s recvd.
Proof.
  intros Hx E E'. unfold accounted. cbn. rewrite (concat_insert _ _ _ _ y Hx), (concat_delete sending _ _ _ Hx), E, E'.
  rewrite <- !app_assoc. do 2 apply Permutation_app_head. cbn. rewrite app_assoc. symmetry. apply Permutation_cons_append.
Qed.

Lemma lost_alarmed s s' (lost : list (list Chunk)) : Inv s -> step needsMore n s s' ->
  lost = [] \/ alarmed s -> lost = [] \/ alarmed s'.
Proof. intros Hinv Hs [?|H]; [by left|right]. by apply (step_alarmed _ _ (inv_idle _ _ _ _ Hinv) Hs). Qed.

(** A step that changes neither what is delivered nor the loop. *)
Lemma batches_quiet s s' lost' : Inv s -> step needsMore n s s' ->
  delivered s' = delivered s -> loop s' = loop s -> (lost' = [] \/ alarmed s') ->
  (forall recvd, accounted s' recvd ++ lost' ≡ₚ accounted s recvd) -> batches inline bodies s'.
Proof.
  intros Hinv Hs E1 E2 Hl Ha. destruct (inv_batches _ _ _ _ Hinv) as (recvd & rest & lost & Hd & Hp & Hlost & Hrest).
  exists recvd, rest, (lost' ++ lost). unfold current in *. rewrite E1, E2. split; [done|].
  split; [by rewrite app_assoc, Ha|]. split; [|done].
  destruct Hl as [->|Hl]; [|by right]. by apply (lost_alarmed s).
Qed.

(** A step of the consuming loop, which may receive a batch. *)
Lemma batches_loop s s' recv rest : Inv s -> step needsMore n s s' -> (forall e, loop s <> CEnd e) ->
  delivered s' ++ current s' ++ rest = delivered s ++ current s ++ concat recv ->
  (forall recvd, accounted s' (recvd ++ recv) ≡ₚ accounted s recvd) ->
  (rest = [] \/ exists e, loop s' = CEnd e) -> batches inline bodies s'.
Proof.
  intros Hinv Hs Hl Hd' Ha Hr. destruct (inv_batches _ _ _ _ Hinv) as (recvd & rest0 & lost & Hd & Hp & Hlost & Hrest).
  destruct Hrest as [->|[e He]]; [|by destruct (Hl e)]. rewrite app_nil_r in Hd.
  exists (recvd ++ recv), rest, lost. split; [|split; [by rewrite Ha|split; [by apply (lost_alarmed s)|done]]].
  by rewrite Hd', app_assoc, Hd, concat_app, app_assoc.
Qed.

(** The same when nothing but the loop and what it delivered changes. *)
Lemma batches_consume s s' rest : Inv s -> step needsMore n s s' -> (forall e, loop s <> CEnd e) ->
  delivered s' ++ current s' ++ rest = delivered s ++ current s ->
  (forall recvd, accounted s' recvd = accounted s recvd) ->
  (rest = [] \/ exists e, loop s' = CEnd e) -> batches inline bodies s'.
Proof.
  intros Hinv Hs Hl Hd Ha Hr. apply (batches_loop s s' [] rest); [done..| | |done].
  - by rewrite Hd, app_nil_r.
  - intros recvd. by rewrite app_nil_r, Ha.
Qed.

(** A step of worker [i] that keeps what it holds. *)
Lemma batches_worker s i x y : Inv s -> step needsMore n s (set_worker i y s) ->
  workers s !! i = Some x -> sending x = sending y -> batches inline bodies (set_worker i y s).
Proof.
  intros Hinv Hs Hx Hxy. apply (batches_quiet s _ []); auto. intros. rewrite app_nil_r. by eapply accounted_worker.
Qed.

Lemma not_ended s c : loop s = c -> match c with CEnd _ => False | _ => True end -> forall e, loop s <> CEnd e.
Proof. by intros -> H e ->. Qed.

(** The case of a loop step: what the loop was reading, and the lists. *)
Ltac consumed E rest :=
  eapply (batches_consume _ _ rest); [eassumption|eassumption|eapply not_ended; [exact E|exact I]| |reflexivity|eauto];
  unfold current; rewrite E; cbn; rewrite ?app_nil_r, <- ?app_assoc; reflexivity.

Lemma step_batches s s' : Inv s -> step needsMore n s s' -> batches inline bodies s'.
Proof.
  intros Hinv Hs. pose proof Hs as Hs'. destruct Hs as [s ch l E|s ch l E|s E Hm|s E Hm|s l o E Eo|s e o E Eo
    |s ch l E|s ch l E|s E Eo Hx|s e E|s i E Hc|s i E Hc|s i body p b E Ep Ef|s i body p E Ep Ef|s i E Ep|s i e E
    |s i body p e E Ep|s i b E Hb|s i b E Hc|s Hc|s Hc].
  - consumed E (@nil Chunk).
  - consumed E l.
  - consumed E (@nil Chunk).
  - eapply (batches_loop s _ [] []); [done|done|eapply not_ended; [exact E|exact I]| | |by left].
    + unfold current. rewrite E. done.
    + intros recvd. destruct (inv_idle _ _ _ _ Hinv _ E) as [Hw Ho]. unfold accounted. cbn. rewrite Hw, app_nil_r.
      by assert (concat (sending <$> replicate n WTop) = []) as -> by (clear; induction n; done).
  - eapply (batches_loop s _ [l] []); [done|done|eapply not_ended; [exact E|exact I]| | |by left].
    + unfold current. by rewrite E.
    + intros recvd. unfold accounted. cbn. rewrite Eo. cbn. by rewrite <- !app_assoc.
  - eapply (batches_loop s _ [] []); [done|done|eapply not_ended; [exact E|exact I]| | |by left].
    + unfold current. by rewrite E.
    + intros recvd. unfold accounted. cbn. by rewrite Eo, app_nil_r.
  - consumed E (@nil Chunk).
  - consumed E l.
  - destruct (ctx s); consumed E (@nil Chunk).
  - consumed E (@nil Chunk).
  - by apply (batches_worker s i WTop).
  - by apply (batches_worker s i WTop).
  - pose proof (inv_bodies _ _ _ _ Hinv) as Hg. rewrite Ep in Hg. destruct (fetched_good _ _ _ Hg Ef) as (l & -> & Hl).
    apply (batches_quiet s _ []); auto. intros. rewrite app_nil_r. unfold accounted. cbn.
    rewrite (concat_insert _ _ _ _ _ E), (concat_delete sending _ _ _ E), Ep. cbn. rewrite Hl.
    do 2 apply Permutation_app_head. apply Permutation_middle.
  - pose proof (inv_bodies _ _ _ _ Hinv) as Hg. rewrite Ep in Hg. inversion Hg as [|? ? [l Hl] _]; congruence.
  - apply (batches_quiet s _ []); auto. intros. rewrite app_nil_r. by apply (accounted_worker (set_done s) i WFetch).
  - by apply (batches_worker s i WFetch).
  - apply (batches_quiet s _ [body_chunks body]); auto.
    + right. right. left. by eapply failing_now.
    + intros. unfold accounted. cbn.
      rewrite (concat_insert _ _ _ _ _ E), (concat_delete sending _ _ _ E), Ep. cbn.
      rewrite <- !app_assoc. do 3 apply Permutation_app_head. symmetry. apply Permutation_cons_append.
  - apply (batches_quiet s _ []); auto. intros. rewrite app_nil_r. unfold accounted. cbn.
    rewrite (concat_insert _ _ _ _ _ E), (concat_delete sending _ _ _ E), fmap_app, concat_app. cbn.
    destruct b; cbn; by rewrite <- !app_assoc.
  - destruct b as [l|e]; [|by eapply batches_worker].
    apply (batches_quiet s _ [l]); auto. { right. by apply dead_alarmed. } intros. by eapply accounted_worker_lost.
  - apply (batches_quiet s _ []); auto. intros. by rewrite app_nil_r.
  - apply (batches_quiet s _ []); auto. intros. by rewrite app_nil_r.
Qed.

Lemma step_exits s s' : Inv s -> step needsMore n s s' ->
  alarmed s' \/ existsb exited (workers s') = false \/ pending s' = [] \/ stop s' = true.
Proof.
  intros Hinv Hs. pose proof (step_alarmed _ _ (inv_idle _ _ _ _ Hinv) Hs) as Ha.
  pose proof (step_done _ _ (inv_bodies _ _ _ _ Hinv) (inv_done _ _ _ _ Hinv) Hs) as Hdone.
  destruct (inv_exits _ _ _ _ Hinv) as [H|[H|[H|H]]].
  - left. auto.
  - destruct Hs; try (left; by eapply alarmed_end); cbn in *; auto;
      try (right; left; by eapply exited_insert).
    + right. left. assert (E : forall k, existsb exited (replicate k WTop) = false) by (induction k; [done|exact IHk]). apply E.
    + unfold ctx_dead in *. destruct (ctx s) eqn:E1; [by left; left; unfold doomed, ctx_dead; cbn; rewrite E1|].
      destruct (loop s) eqn:E2; [| |left; left; unfold doomed; cbn; rewrite E2; apply orb_true_r|left; by eapply alarmed_end];
        cbn in *; (destruct (done s); cbn in *; [right; right; left; auto|right; right; right; done]).
    + destruct b as [l|e]; [right; left; by eapply exited_insert|].
      left. right. right. cbn. rewrite existsb_app. apply orb_true_r.
    + left. by apply dead_alarmed.
  - destruct (step_pending _ _ Hs) as [E|[b E]]; [right; right; left; congruence|congruence].
  - right. right. right. by destruct Hs.
Qed.

Lemma step_silent s s' : Inv s -> step needsMore n s s' -> loop s' = CEnd Silent ->
  stop s' = true \/ exists order, order ≡ₚ body_chunks <$> bodies /\ delivered s' = inline ++ concat order.
Proof.
  intros Hinv Hs Hl.
  assert (Hold : loop s = CEnd Silent -> delivered s' = delivered s -> (stop s = true -> stop s' = true) -> 
    stop s' = true \/ exists order, order ≡ₚ body_chunks <$> bodies /\ delivered s' = inline ++ concat order).
  { intros H1 -> H2. destruct (inv_silent _ _ _ _ Hinv H1); auto. }
  destruct Hs; cbn in *; try done; try (apply Hold; done); auto.
  - right. exists []. rewrite (Hneeds H0). split; [done|].
    rewrite <- (inv_prefix _ _ _ _ Hinv _ H), !app_nil_r. done.
  - destruct (ctx s) eqn:Ectx; [done|].
    assert (Hf : existsb failing (workers s) = false).
    { apply not_true_iff_false. rewrite existsb_exists. intros (x & Hin & Hx).
      rewrite forallb_forall in H1. specialize (H1 x Hin). by destruct x. }
    assert (Hna : ~ alarmed s).
    { intros [Ha|[Ha|Ha]]; [unfold doomed, ctx_dead in Ha; by rewrite H, Ectx in Ha|congruence|by rewrite H0 in Ha]. }
    destruct (inv_exits _ _ _ _ Hinv) as [?|[Hx|[Hx|?]]]; [done| | |by left].
    + pose proof (inv_started _ _ _ _ Hinv _ H) as Hlen. destruct (workers s) as [|x ws]; [simpl in Hlen; lia|].
      cbn in *. by destruct (exited x).
    + destruct (inv_batches _ _ _ _ Hinv) as (recvd & rest & lost & Hd & Hp & [->|?] & [->|[? ?]]);
        [|congruence|done|congruence].
      unfold current in Hd. rewrite H, !app_nil_r in Hd. right. exists recvd. split; [|done].
      rewrite <- Hp. unfold accounted. rewrite H0, Hx. cbn. rewrite !app_nil_r.
      assert (E : concat (sending <$> workers s) = []).
      { clear -H1. induction (workers s) as [|x ws IH]; [done|]. cbn in *.
        apply andb_true_iff in H1 as [Hx H1]. rewrite IH by done. by destruct x. }
      by rewrite E, app_nil_r.
Qed.

Lemma step_prefix s s' : Inv s -> step needsMore n s s' -> forall l, loop s' = CInline l -> delivered s' ++ l = inline.
Proof.
  intros Hinv Hs l. destruct Hs; cbn; try match goal with |- context [if ctx ?s then _ else _] => destruct (ctx s) end; try done; intros Hl; try (by apply (inv_prefix _ _ _ _ Hinv)).
  injection Hl as ->. rewrite <- app_assoc. by apply (inv_prefix _ _ _ _ Hinv).
Qed.

Lemma step_inv s s' : Inv s -> step needsMore n s s' -> Inv s'.
Proof.
  intros Hinv Hs. constructor.
  - eapply step_bodies; [apply Hinv|done].
  - by eapply step_batches.
  - by eapply step_exits.
  - eapply step_done; [apply Hinv|apply Hinv|done].
  - eapply step_idle; [apply Hinv|done].
  - by eapply step_prefix.
  - eapply step_started; [apply Hinv|done].
  - by eapply step_silent.
Qed.

Lemma steps_inv s : Forall good_body bodies -> steps needsMore n (start inline bodies) s -> Inv s.
Proof.
  intros Hg Hs. assert (H : forall s0, Inv s0 -> rtc (step needsMore n) s0 s -> Inv s).
  { intros s0 H0 H. induction H; [done|]. eauto using step_inv. }
  apply (H _ (inv_start Hg) Hs).
Qed.

End Invariant.

(** ** Progress and termination *)

Definition finished (s : stream) : Prop :=
  (exists e, loop s = CEnd e) /\ forallb exited (workers s) = true.

Lemma worker_progress needsMore n s i x :
  workers s !! i = Some x -> exited x = false -> (length (out s) < n)%nat \/ ctx_dead s = true ->
  exists s', step needsMore n s s' /\ ctx s' = ctx s /\ stop s' = stop s.
Proof.
  intros Hx He Hroom. destruct x as [| |b|]; [| | |done].
  - destruct (ctx_dead s || done s || stop s) eqn:E.
    + eexists. split; [by eapply WorkerQuit|done].
    + eexists. split; [by eapply WorkerFetch|done].
  - destruct (pending s) as [|body p] eqn:E; [eexists; split; [by eapply FetchDrained|done]|].
    destruct (fetched body) as [b|] eqn:Eb.
    + eexists. split; [by eapply FetchReply|done].
    + eexists. split; [by eapply FetchNoChunks|done].
  - destruct Hroom as [H|H].
    + eexists. split; [by eapply WorkerSend|done].
    + eexists. split; [by eapply WorkerDrop|done].
Qed.

Lemma not_all_exited ws : forallb exited ws = false -> exists i x, ws !! i = Some x /\ exited x = false.
Proof.
  induction ws as [|x ws IH]; [done|]. cbn. destruct (exited x) eqn:E.
  - intros H. destruct (IH H) as (i & y & ?). by exists (S i), y.
  - intros _. by exists 0%nat, x.
Qed.

Lemma progress needsMore n s : (0 < n)%nat ->
  finished s \/ exists s', step needsMore n s s' /\ ctx s' = ctx s /\ stop s' = stop s.
Proof.
  intros Hn. destruct (loop s) as [[|ch l]|[|ch l]|e|e] eqn:El.
  - right. destruct needsMore; eexists; (split; [first [by apply StartWorkers|by apply InlineOnly]|done]).
  - right. eexists. split; [by eapply InlineYield|done].
  - destruct (out s) as [|[l|e] o] eqn:Eo.
    + destruct (forallb exited (workers s)) eqn:Ee.
      * right. eexists. split; [by eapply OutClosed|done].
      * apply not_all_exited in Ee as (i & x & Hx & He). right.
        eapply worker_progress; [done|done|]. left. by rewrite Eo.
    + right. eexists. split; [by eapply Receive|done].
    + right. eexists. split; [by eapply ReceiveError|done].
  - right. eexists. split; [by eapply BatchYield|done].
  - right. eexists. split; [by eapply FailYielded|done].
  - destruct (forallb exited (workers s)) eqn:Ee; [left; by split; eauto|].
    apply not_all_exited in Ee as (i & x & Hx & He). right.
    eapply worker_progress; [done|done|]. right. unfold ctx_dead. rewrite El. apply orb_true_r.
Qed.

(** What is left to do. *)
Definition batch_work (b : batch) : nat := match b with Chunks l => S (length l) | Failure _ => 1 end.
Definition worker_work (x : worker) : nat :=
  match x with
  | WTop => 4
  | WFetch => 3
  | WSend (Chunks l) => length l + 6
  | WSend (Failure _) => 2
  | WExit => 0
  end.
Definition loop_work (n : nat) (c : consumer) : nat :=
  match c with
  | CInline l => length l + 4 * n + 3
  | CRecv l => length l + 2
  | CFail _ => 1
  | CEnd _ => 0
  end.
Definition body_work (body : bytes) : nat := length (body_chunks body) + 4.

Definition work (n : nat) (s : stream) : nat :=
  sum_list_with body_work (pending s) + sum_list_with worker_work (workers s) +
  sum_list_with batch_work (out s) + loop_work n (loop s) +
  (if ctx s then 0 else 1) + (if stop s then 0 else 1).

Lemma sum_insert {A} (f : A -> nat) l i x y : l !! i = Some x ->
  (sum_list_with f (<[i := y]> l) + f x = sum_list_with f l + f y)%nat.
Proof.
  revert i. induction l as [|z l IH]; intros [|i] H; try done.
  - injection H as ->. cbn. lia.
  - change (<[S i := y]> (z :: l)) with (z :: <[i := y]> l). cbn. specialize (IH i H). lia.
Qed.

Lemma sum_app {A} (f : A -> nat) l k : sum_list_with f (l ++ k) = (sum_list_with f l + sum_list_with f k)%nat.
Proof. induction l as [|x l IH]; cbn; [done|]. rewrite IH. lia. Qed.

Lemma sum_replicate {A} (f : A -> nat) k x : sum_list_with f (replicate k x) = (k * f x)%nat.
Proof. induction k as [|k IH]; cbn; [done|]. rewrite IH. lia. Qed.

Lemma step_work needsMore n s s' : step needsMore n s s' -> (work n s' < work n s)%nat.
Proof.
  intros Hs. unfold work. destruct Hs; cbn;
    repeat match goal with E : _ s = _ |- _ => rewrite E end; cbn; rewrite ?length_app; try lia;
    try (match goal with E : workers _ !! _ = Some ?x |- context [<[?i := ?y]> (workers ?s)] =>
           pose proof (sum_insert worker_work (workers s) i x y E) as Hw; cbn in Hw end).
  - rewrite sum_replicate. cbn. lia.
  - destruct (ctx s); cbn; lia.
  - lia.
  - lia.
  - unfold body_work, body_chunks. rewrite H1. destruct b; cbn in *; lia.
  - lia.
  - lia.
  - lia.
  - lia.
  - rewrite sum_app. destruct b; cbn in *; lia.
  - destruct b; cbn in *; lia.
Qed.

Lemma nsteps_work needsMore n k s s' : nsteps (step needsMore n) k s s' -> (work n s' + k <= work n s)%nat.
Proof.
  induction 1 as [|k s1 s2 s3 Hs _ IH]; [lia|]. apply step_work in Hs. lia.
Qed.

(** ** A complete run *)

Section Run.
Context (needsMore : bool) (n : nat).

(** A state in which nobody has closed the result or cancelled. *)
Abbreviation live_state bodies ws o dn d l := (MkStream bodies ws o dn false false d l).

Lemma inline_run bodies l d :
  steps needsMore n (live_state bodies [] [] false d (CInline l)) (live_state bodies [] [] false (d ++ l) (CInline [])).
Proof.
  revert d. induction l as [|ch l IH]; intros d; [by rewrite app_nil_r|].
  eapply rtc_l; [by apply InlineYield|]. unfold set_loop, deliver. cbn. specialize (IH (d ++ [ch])).
  by rewrite <- app_assoc in IH.
Qed.

Lemma batch_run bodies ws o dn l d :
  steps needsMore n (live_state bodies ws o dn d (CRecv l)) (live_state bodies ws o dn (d ++ l) (CRecv [])).
Proof.
  revert d. induction l as [|ch l IH]; intros d; [by rewrite app_nil_r|].
  eapply rtc_l; [by apply BatchYield|]. unfold set_loop, deliver. cbn. specialize (IH (d ++ [ch])).
  by rewrite <- app_assoc in IH.
Qed.

(** The first worker fetches every batch, the consumer taking each at once. *)
Lemma fetch_run bodies ws d : (0 < n)%nat -> Forall good_body bodies ->
  steps needsMore n (live_state bodies (WTop :: ws) [] false d (CRecv []))
    (live_state [] (WTop :: ws) [] false (d ++ concat (body_chunks <$> bodies)) (CRecv [])).
Proof.
  intros Hn Hg. revert d. induction Hg as [|body bodies [l Hl] _ IH]; intros d; [by rewrite app_nil_r|].
  eapply rtc_l; [by apply (WorkerFetch _ _ _ 0)|].
  eapply rtc_l; [by apply (FetchReply _ _ _ 0 body bodies (Chunks l))|].
  eapply rtc_l; [by apply (WorkerSend _ _ _ 0)|].
  eapply rtc_l; [by apply (Receive _ _ _ l [])|].
  etrans; [apply batch_run|]. cbn. specialize (IH (d ++ l)). rewrite <- app_assoc in IH.
  by assert (body_chunks body = l) as -> by (unfold body_chunks; by rewrite Hl).
Qed.

(** Once [done] is closed the workers return one after the other. *)
Lemma quit_run bodies k m d :
  steps needsMore n (live_state bodies (replicate k WExit ++ replicate m WTop) [] true d (CRecv []))
    (live_state bodies (replicate (k + m) WExit) [] true d (CRecv [])).
Proof.
  revert k. induction m as [|m IH]; intros k; [by rewrite app_nil_r, Nat.add_0_r|].
  eapply rtc_l; [apply (WorkerQuit _ _ _ k); [cbn|done]|].
  { by rewrite lookup_app_r, length_replicate, Nat.sub_diag by (by rewrite length_replicate). }
  unfold set_worker. cbn. rewrite insert_app_r_alt by (by rewrite length_replicate).
  rewrite length_replicate, Nat.sub_diag. cbn. rewrite Nat.add_succ_r. specialize (IH (S k)).
  rewrite replicate_S_end, <- app_assoc in IH. exact IH.
Qed.

End Run.

(** The range over a result whose batches are all conforming can end silently,
    for any number of workers. *)
Lemma silent_run needsMore n inline bodies :
  (0 < n)%nat -> (needsMore = false -> bodies = []) -> Forall good_body bodies ->
  exists s, steps needsMore n (start inline bodies) s /\ loop s = CEnd Silent /\ stop s = false.
Proof.
  intros Hn Hneeds Hg. destruct n as [|k]; [lia|]. destruct needsMore; eexists; (split; [etrans; [apply inline_run|]|]).
  - eapply rtc_l; [by apply StartWorkers|]. unfold set_loop, set_workers. cbn.
    cbn [replicate]. etrans; [by apply fetch_run|].
    eapply rtc_l; [by apply (WorkerFetch _ _ _ 0)|].
    eapply rtc_l; [by apply (FetchDrained _ _ _ 0)|].
    unfold set_worker, set_done. cbn. etrans; [apply (quit_run _ _ _ 1 k)|].
    eapply rtc_l; [apply OutClosed; [done|done|]|apply rtc_refl].
    apply forallb_forall. intros x Hx%list_elem_of_In. by apply elem_of_replicate in Hx as [-> _].
  - done.
  - rewrite (Hneeds eq_refl). eapply rtc_l; [by apply InlineOnly|apply rtc_refl].
  - done.
Qed.

(** ** Properties *)

(** C2: no silently short result.  For a server whose batches each decode to
    at least one chunk, when the range over [Chunks] ends without an error and
    without the consumer having stopped it, and the result was not closed
    meanwhile, the consumer has been given every inline chunk in order and
    then every chunk of every server batch exactly once, batches whole, in
    some order: for any number of workers and any interleaving, failures,
    cancellations and lost fetches included. *)
Theorem stream_complete (needsMore : bool) (n : nat) (inline : list Chunk) (bodies : list bytes) (s : stream)
    (Hn : (0 < n)%nat) (Hneeds : needsMore = false -> bodies = []) (Hgood : Forall good_body bodies)
    (Hsteps : steps needsMore n (start inline bodies) s)
    (Hend : loop s = CEnd Silent) (Hopen : stop s = false) :
  exists order, order ≡ₚ body_chunks <$> bodies /\ delivered s = inline ++ concat order.
Proof.
  pose proof (steps_inv needsMore n inline bodies Hn Hneeds s Hgood Hsteps) as Hinv.
  destruct (inv_silent _ _ _ _ Hinv Hend) as [?|?]; [congruence|done].
Qed.

Definition sample_body : bytes :=
  Writer.Field 1 ++ Writer.Uvarint 1 ++ Writer.Bool true ++ Writer.Field 300 ++ sample_chunk ++
  Writer.End_ ++ Writer.FieldUvarint 2 0 ++ Writer.End_.

(** One worker fetches the only batch, the consumer ranges over everything. *)
Lemma sample_run : exists s ch, steps true 1 (start [] [sample_body]) s /\ loop s = CEnd Silent /\
  stop s = false /\ delivered s = [ch] /\ fetched sample_body = Some (Chunks [ch]).
Proof.
  eexists _, _. split.
  - eapply rtc_l; [apply StartWorkers; reflexivity|].
    eapply rtc_l; [apply (WorkerFetch _ _ _ 0); reflexivity|].
    eapply rtc_l; [apply (FetchReply _ _ _ 0 sample_body []); [reflexivity|reflexivity|vm_compute; reflexivity]|].
    eapply rtc_l; [apply (WorkerSend _ _ _ 0); [reflexivity|cbn; lia]|].
    eapply rtc_l; [eapply Receive; reflexivity|].
    eapply rtc_l; [eapply BatchYield; reflexivity|].
    eapply rtc_l; [apply (WorkerFetch _ _ _ 0); reflexivity|].
    eapply rtc_l; [apply (FetchDrained _ _ _ 0); reflexivity|].
    eapply rtc_l; [apply OutClosed; reflexivity|].
    apply rtc_refl.
  - split; [reflexivity|]. split; [reflexivity|]. split; [reflexivity|]. vm_compute. reflexivity.
Defined.

Lemma stream_complete_witness :
  exists s order, loop s = CEnd Silent /\ order ≡ₚ body_chunks <$> [sample_body] /\
    delivered s = [] ++ concat order /\ length (delivered s) = 1%nat.
Proof.
  destruct sample_run as (s & ch & Hs & Hend & Hstop & Hd & Hf).
  destruct (stream_complete true 1 [] [sample_body] s) as (order & H1 & H2);
    [lia|done|constructor; [by exists [ch]|constructor]|exact Hs|exact Hend|exact Hstop|].
  exists s, order. rewrite Hd in H2 |- *. done.
Defined.

(** C9: at every moment of every execution, what was delivered is a prefix of
    the inline chunks followed by distinct server batches: nothing is
    delivered twice, reordered within a batch, or made up. *)
Theorem stream_prefix (needsMore : bool) (n : nat) (inline : list Chunk) (bodies : list bytes) (s : stream)
    (Hn : (0 < n)%nat) (Hneeds : needsMore = false -> bodies = []) (Hgood : Forall good_body bodies)
    (Hsteps : steps needsMore n (start inline bodies) s) :
  exists recvd others, recvd ++ others ≡ₚ body_chunks <$> bodies /\
    delivered s `prefix_of` inline ++ concat recvd.
Proof.
  pose proof (steps_inv needsMore n inline bodies Hn Hneeds s Hgood Hsteps) as Hinv.
  destruct (inv_batches _ _ _ _ Hinv) as (recvd & rest & lost & Hd & Hp & _).
  unfold accounted in Hp. rewrite <- app_assoc in Hp. eexists recvd, _. split; [exact Hp|].
  exists (current s ++ rest). done.
Qed.

Lemma stream_prefix_witness :
  exists s recvd others, recvd ++ others ≡ₚ body_chunks <$> [sample_body] /\
    delivered s `prefix_of` [] ++ concat recvd /\ length (delivered s) = 1%nat.
Proof.
  destruct sample_run as (s & ch & Hs & Hend & Hstop & Hd & Hf). exists s.
  destruct (stream_prefix true 1 [] [sample_body] s) as (recvd & others & H1 & H2);
    [lia|done|constructor; [by exists [ch]|constructor]|exact Hs|].
  exists recvd, others. split; [exact H1|]. split; [exact H2|]. by rewrite Hd.
Defined.

(** C6: the stream always ends and leaks no goroutine: every execution, from
    any start, takes at most [work] steps; and unless the loop has returned
    and all workers have too, some step other than a cancellation or a close
    by the caller is possible, so it cannot block either. *)
Theorem stream_ends (needsMore : bool) (n : nat) (s : stream) (Hn : (0 < n)%nat) :
  (forall k s', nsteps (step needsMore n) k s s' -> (k <= work n s)%nat) /\
  (finished s \/ exists s', step needsMore n s s' /\ ctx s' = ctx s /\ stop s' = stop s).
Proof.
  split; [|by apply progress]. intros k s' H. apply nsteps_work in H. lia.
Qed.

Lemma stream_ends_witness :
  work 2 (start [] [sample_body]) = 18%nat /\
  (forall k s', nsteps (step true 2) k (start [] [sample_body]) s' -> (k <= 18)%nat) /\
  exists s', step true 2 (start [] [sample_body]) s'.
Proof.
  assert (W : work 2 (start [] [sample_body]) = 18%nat) by (vm_compute; reflexivity).
  split; [exact W|]. destruct (stream_ends true 2 (start [] [sample_body]) ltac:(lia)) as [H1 H2].
  rewrite W in H1. split; [exact H1|]. destruct H2 as [[[e He] _]|(s' & Hs & _)]; [discriminate He|by exists s'].
Defined.

(** ** Queries *)

Lemma split_not_panic raw : SplitEnvelope raw <> Panic.
Proof.
  apply (okP_not_panic (fun _ => True)). assert (H : dyields splitEnvelope (fun _ => True)).
  { unfold splitEnvelope. repeat dyields_step; try apply dyields_dfail.
    by apply dyields_dret. }
  apply H.
Qed.

Lemma error_not_panic body : DecodeErrorMessage body <> Panic.
Proof.
  apply (okP_not_panic (fun _ => True)). intros. unfold DecodeErrorMessage, run, wrapErr.
  match goal with |- okP _ (fst (?m _)) => assert (H : dyields m (fun _ => True)) end; [|apply H].
  repeat dyields_step; first [apply dyields_dfail|by apply dyields_dret].
Qed.

(** C29: a query answered in whatever way never panics; if it gives a result,
    the server answered HTTP 200 with a PREPARE_RESPONSE whose body decoded to
    it, and its chunks and schema keep the codec's promises. *)
Theorem query_sound (c : Conn) (sql : bytes) (reply : http_reply) :
  match (Query c sql reply).1.2 with
  | Ok pr => prepare_ok pr /\ exists raw hdr body, reply = OKBody raw /\
      SplitEnvelope raw = Ok (hdr, body) /\ Type_ hdr = MsgPrepareResponse /\ DecodePrepare body = Ok pr
  | Err _ => True
  | Panic => False
  end.
Proof.
  unfold Query, Prepare. destruct (closed (w c)) eqn:Ec; [unfold call; by rewrite Ec|].
  rewrite (call_open _ _ _ _ _ Ec). cbn [fst snd]. unfold call_result.
  destruct reply as [text|code b|text|raw]; try done.
  destruct (SplitEnvelope raw) as [[hdr body]|e|] eqn:Es; [|done|by apply split_not_panic in Es].
  destruct (Type_ hdr =? MsgPrepareResponse) eqn:Et.
  - pose proof (decode_okP _ _ body prepareBody_ok) as Hok. fold (DecodePrepare body) in Hok.
    destruct (DecodePrepare body) as [pr|e|] eqn:Ed; [|done|done]. split; [exact Hok|].
    zify_bools. by exists raw, hdr, body.
  - destruct (Type_ hdr =? MsgError); [|done].
    destruct (DecodeErrorMessage body) eqn:Em; [done|done|by apply error_not_panic in Em].
Qed.
