(* ===== verification/Interpolate.v ===== *)
(** * driver/interpolate.go: client-side placeholder substitution

    [interpolate], [skipQuoted] and [literal], and the lexical structure they
    rely on: the source walks an index through the query, the model walks the
    suffix that starts there.  [strconv.FormatFloat] of a finite float is a
    parameter. *)

From S2P Require Import Prelude GoFmt Values.

(** ** Values and errors *)

(** [database/sql/driver.Value] as [literal] distinguishes it; [DOther] is any
    other dynamic type. *)
Inductive dvalue : Type :=
  | DNil
  | DBool (b : bool)
  | DInt (z : Z)
  | DFloat (bits : Z)
  | DString (s : bytes)
  | DBytes (b : bytes)
  | DTime (t : time)
  | DDecimal (d : Decimal)
  | DOther.

Record NamedValue := MkNamed { NName : bytes; NValue : dvalue }.

Inductive ierr : Type :=
  | ENamed
  | ETooManyPlaceholders (args : Z)
  | ETooManyArgs (args placeholders : Z)
  | ECannotInterpolate.

(** ** Bytes of the syntax *)

Definition quote : byte := bz 39.
Definition dquote : byte := bz 34.
Definition question : byte := bz 63.
Definition dash : byte := bz 45.
Definition slash : byte := bz 47.
Definition star : byte := bz 42.
Definition newline : byte := bz 10.

(** ** Dates *)

(** Year, month and day of a day number (days since 1970-01-01), in the
    proleptic Gregorian calendar. *)
Definition civil (days : Z) : Z * Z * Z :=
  let z := days + 719468 in
  let era := z / 146097 in
  let doe := z mod 146097 in
  let yoe := (doe - doe / 1460 + doe / 36524 - doe / 146096) / 365 in
  let doy := doe - (365 * yoe + yoe / 4 - yoe / 100) in
  let mp := (5 * doy + 2) / 153 in
  let d := doy - (153 * mp + 2) / 5 + 1 in
  let m := if mp <? 10 then mp + 3 else mp - 9 in
  (yoe + era * 400 + (if m <=? 2 then 1 else 0), m, d).

(** A year under the verb [2006]: at least four digits after the sign. *)
Definition fmt_year (y : Z) : bytes :=
  if y <? 0 then str "-" ++ pad0 4 (digits (- y)) else pad0 4 (digits y).

(** [t.UTC().Format("2006-01-02 15:04:05.999999")]. *)
Definition format_timestamp (t : time) : bytes :=
  let '(y, m, d) := civil (t_sec t / 86400) in
  let s := t_sec t mod 86400 in
  fmt_year y ++ str "-" ++ fmt_0d 2 m ++ str "-" ++ fmt_0d 2 d ++ str " " ++
  fmt_0d 2 (s / 3600) ++ str ":" ++ fmt_0d 2 (s / 60 mod 60) ++ str ":" ++ fmt_0d 2 (s mod 60) ++
  fracString (t_nsec t / 1000) 6.

(** ** Literals *)

(** [%02X]. *)
Definition hexdig_upper (d : Z) : byte := nth (Z.to_nat d) (str "0123456789ABCDEF") Byte.x00.

(** The IEEE classes [literal] tests, on the bits of a float64. *)
Definition f64_exp (bits : Z) : Z := Z.shiftr bits 52 mod 2048.
Definition f64_frac (bits : Z) : Z := bits mod 2 ^ 52.
Definition isNaN (bits : Z) : bool := (f64_exp bits =? 2047) && negb (f64_frac bits =? 0).
Definition isInf (bits : Z) (sign : Z) : bool :=
  (f64_exp bits =? 2047) && (f64_frac bits =? 0) && (Z.shiftr bits 63 =? (if sign <? 0 then 1 else 0)).

Section Literals.
(** [strconv.FormatFloat(x, 'g', -1, 64)] of a finite float. *)
Context (formatFloat : Z -> bytes).

Definition literal (v : dvalue) : outcome ierr bytes :=
  match v with
  | DNil => Ok (str "NULL")
  | DBool b => Ok (if b then str "TRUE" else str "FALSE")
  | DInt z => Ok (itoa z)
  | DFloat bits =>
      Ok (if isNaN bits then str "'nan'::DOUBLE"
          else if isInf bits 1 then str "'infinity'::DOUBLE"
          else if isInf bits (-1) then str "'-infinity'::DOUBLE"
          else formatFloat bits)
  | DString s => Ok ([quote] ++ replace_all [quote] [quote; quote] s ++ [quote])
  | DBytes b =>
      Ok ([quote] ++
          concat (fmap (fun c => str "\x" ++ [hexdig_upper (ub c / 16); hexdig_upper (ub c mod 16)]) b) ++
          str "'::BLOB")
  | DTime t => Ok (str "TIMESTAMP '" ++ format_timestamp t ++ [quote])
  | DDecimal d => Ok (Decimal_String d)
  | DOther => Err ECannotInterpolate
  end.

(** ** The scan *)

(** The bytes [skipQuoted] passes after the opening quote [q]; [None] when the
    region is not closed. *)
Fixpoint skip (s : bytes) (q : byte) : option nat :=
  match s with
  | [] => None
  | c :: s' =>
      if bool_decide (c = q) then
        match s' with
        | c' :: s'' =>
            if bool_decide (c' = q) then option_map (fun k => S (S k)) (skip s'' q) else Some 1%nat
        | [] => Some 1%nat
        end
      else option_map S (skip s' q)
  end.

Definition skipQuoted (s : bytes) (start : nat) (q : byte) : nat :=
  match skip (drop (S start) s) q with
  | Some k => S start + k
  | None => length s
  end.

(** The end of the region the byte at the head of [q] opens, for the regions
    that are copied verbatim: quoted text and comments. *)
Definition region (q : bytes) : option nat :=
  match q with
  | [] => None
  | ch :: rest =>
      if bool_decide (ch = quote) || bool_decide (ch = dquote) then Some (skipQuoted q 0 ch)
      else if bool_decide (ch = dash) then
        match rest with
        | c :: _ => if bool_decide (c = dash)
                    then Some (default (length q) (index_of [newline] q)) else None
        | [] => None
        end
      else if bool_decide (ch = slash) then
        match rest with
        | c :: r => if bool_decide (c = star)
                    then Some (match index_of [star; slash] r with
                               | Some e => e + 4
                               | None => length q
                               end)%nat else None
        | [] => None
        end
      else None
  end.

(** The loop: the suffix still to read, the number of arguments used, and the
    output so far.  Every turn moves on, so [length q] turns are enough. *)
Fixpoint interpolate_loop (fuel : nat) (args : list NamedValue) (q : bytes) (arg : nat) (b : bytes)
  : outcome ierr (nat * bytes) :=
  match fuel, q with
  | O, _ => Ok (arg, b)
  | _, [] => Ok (arg, b)
  | S fuel, ch :: rest =>
      if bool_decide (ch = question) then
        match args !! arg with
        | None => Err (ETooManyPlaceholders (Z.of_nat (length args)))
        | Some a =>
            let! lit := literal (NValue a) in
            interpolate_loop fuel args rest (S arg) (b ++ lit)
        end
      else match region q with
           | Some e => interpolate_loop fuel args (drop e q) arg (b ++ take e q)
           | None => interpolate_loop fuel args rest arg (b ++ [ch])
           end
  end.

Definition interpolate (query : bytes) (args : list NamedValue) : outcome ierr bytes :=
  if existsb (fun a => negb (bool_decide (NName a = []))) args then Err ENamed
  else if (length args =? 0)%nat && negb (existsb (fun c => bool_decide (c = question)) query)
  then Ok query
  else
    let! (arg, b) := interpolate_loop (length query) args query 0 [] in
    if negb (arg =? length args)%nat
    then Err (ETooManyArgs (Z.of_nat (length args)) (Z.of_nat arg))
    else Ok b.

(** ** The lexical structure of a query *)

(** What the scan sees: a placeholder, a verbatim region, another byte. *)
Inductive token : Type :=
  | Hole
  | Region (r : bytes)
  | Plain (c : byte).

Fixpoint tokens_aux (fuel : nat) (q : bytes) : list token :=
  match fuel, q with
  | O, _ => []
  | _, [] => []
  | S fuel, ch :: rest =>
      if bool_decide (ch = question) then Hole :: tokens_aux fuel rest
      else match region q with
           | Some e => Region (take e q) :: tokens_aux fuel (drop e q)
           | None => Plain ch :: tokens_aux fuel rest
           end
  end.

Definition tokens (q : bytes) : list token := tokens_aux (length q) q.

(** The text of a token sequence with the holes filled in. *)
Fixpoint fill_tokens (ts : list token) (lits : list bytes) : option bytes :=
  match ts, lits with
  | [], [] => Some []
  | [], _ :: _ => None
  | Hole :: _, [] => None
  | Hole :: ts, l :: lits => t ← fill_tokens ts lits; Some (l ++ t)
  | Region r :: ts, lits => t ← fill_tokens ts lits; Some (r ++ t)
  | Plain c :: ts, lits => t ← fill_tokens ts lits; Some (c :: t)
  end.

Definition is_hole (t : token) : bool := match t with Hole => true | _ => false end.
Definition holes (ts : list token) : nat := length (List.filter is_hole ts).

Definition token_text (t : token) : bytes :=
  match t with Hole => [question] | Region r => r | Plain c => [c] end.

End Literals.

Lemma format_checks :
  format_timestamp (MkTime 0 0) = str "1970-01-01 00:00:00" /\
  format_timestamp (MkTime 951827696 120000000) = str "2000-02-29 12:34:56.12" /\
  format_timestamp (MkTime (-1) 999999999) = str "1969-12-31 23:59:59.999999".
Proof. by vm_compute. Qed.

(** ** The scan moves forward *)

Lemma skip_bound s q k : skip s q = Some k -> (0 < k <= length s)%nat.
Proof.
  assert (H : forall n s k, (length s <= n)%nat -> skip s q = Some k -> (0 < k <= length s)%nat).
  2: { apply (H (length s)). done. }
  clear. induction n as [|n IH]; intros s k Hl H; [destruct s; [done|cbn in Hl; lia]|].
  destruct s as [|c s']; [done|]. cbn [skip length] in *. case_bool_decide.
  - destruct s' as [|c' s'']; [injection H as <-; cbn; lia|]. case_bool_decide; [|injection H as <-; cbn; lia].
    destruct (skip s'' q) as [j|] eqn:E; [|done]. injection H as <-. apply IH in E; cbn in *; lia.
  - destruct (skip s' q) as [j|] eqn:E; [|done]. injection H as <-. apply IH in E; lia.
Qed.

Lemma index_of_bound p s k : index_of p s = Some k -> (k + length p <= length s)%nat.
Proof.
  revert k. induction s as [|c s IH]; intros k H; cbn [index_of] in H.
  - destruct (has_prefix p []) eqn:E; [|done]. injection H as <-. destruct p; [cbn; lia|done].
  - destruct (has_prefix p (c :: s)) eqn:E.
    + injection H as <-. apply has_prefix_app in E as [t Ht]. rewrite Ht, length_app. lia.
    + destruct (index_of p s) as [j|]; [|done]. injection H as <-. specialize (IH j eq_refl). cbn. lia.
Qed.

Lemma skipQuoted_bound ch rest q : (0 < skipQuoted (ch :: rest) 0 q <= length (ch :: rest))%nat.
Proof.
  unfold skipQuoted. change (drop 1 (ch :: rest)) with rest. cbn [length]. destruct (skip rest q) as [k|] eqn:E; [apply skip_bound in E|]; cbn; lia.
Qed.

Lemma region_bound q e : region q = Some e -> (0 < e <= length q)%nat.
Proof.
  destruct q as [|ch rest]; [done|]. unfold region.
  destruct (bool_decide (ch = quote) || bool_decide (ch = dquote)).
  { intros [= <-]. apply skipQuoted_bound. }
  destruct (bool_decide (ch = dash)) eqn:Ed.
  { apply bool_decide_eq_true in Ed as ->.
    destruct rest as [|c r]; [done|]. destruct (bool_decide _); [|done]. intros H. apply (inj Some) in H. rewrite <- H. clear H e.
    destruct (index_of [newline] (dash :: c :: r)) as [e'|] eqn:E; cbn [default from_option id]; [|cbn; lia].
    assert (e' <> 0%nat) by (intros ->; change (option_map S (index_of [newline] (c :: r)) = Some 0%nat) in E; by destruct (index_of _ _)). apply index_of_bound in E. cbn in *. lia. }
  destruct (bool_decide (ch = slash)); [|done].
  destruct rest as [|c r]; [done|]. destruct (bool_decide (c = star)); [|done]. intros H. apply (inj Some) in H. rewrite <- H. clear H e.
  destruct (index_of _ r) as [k|] eqn:E; [apply index_of_bound in E|]; cbn in *; lia.
Qed.

(** Enough fuel is as good as any. *)
Lemma tokens_fuel f g q : (length q <= f)%nat -> (length q <= g)%nat -> tokens_aux f q = tokens_aux g q.
Proof.
  revert g q. induction f as [|f IH]; intros g q Hf Hg; destruct q as [|ch rest]; cbn in Hf, Hg; try lia.
  - by destruct g.
  - by destruct g.
  - destruct g as [|g]; [lia|]. cbn [tokens_aux]. case_bool_decide; [f_equal; apply IH; lia|].
    destruct (region (ch :: rest)) as [e|] eqn:E; [|f_equal; apply IH; lia].
    apply region_bound in E. cbn [length] in E. f_equal. apply IH; rewrite length_drop; cbn [length]; lia.
Qed.

Lemma tokens_cons ch rest : tokens (ch :: rest) =
  if bool_decide (ch = question) then Hole :: tokens rest
  else match region (ch :: rest) with
       | Some e => Region (take e (ch :: rest)) :: tokens (drop e (ch :: rest))
       | None => Plain ch :: tokens rest
       end.
Proof.
  unfold tokens. cbn [length tokens_aux]. case_bool_decide; [done|].
  destruct (region (ch :: rest)) as [e|] eqn:E; [|done]. apply region_bound in E. cbn [length] in E.
  f_equal. apply tokens_fuel; rewrite length_drop; cbn [length]; lia.
Qed.

(** Induction along the scan. *)
Lemma scan_ind (P : bytes -> Prop) :
  P [] ->
  (forall rest, P rest -> P (question :: rest)) ->
  (forall ch rest e, ch <> question -> region (ch :: rest) = Some e -> P (drop e (ch :: rest)) -> P (ch :: rest)) ->
  (forall ch rest, ch <> question -> region (ch :: rest) = None -> P rest -> P (ch :: rest)) ->
  forall q, P q.
Proof.
  intros H0 H1 H2 H3. assert (H : forall n q, (length q <= n)%nat -> P q).
  2: { intros q. apply (H (length q)). done. }
  induction n as [|n IH]; intros q Hl; destruct q as [|ch rest]; cbn in Hl; [done|lia|done|].
  destruct (decide (ch = question)) as [->|Hne]; [apply H1, IH; lia|].
  destruct (region (ch :: rest)) as [e|] eqn:E.
  - apply (H2 _ _ e); auto. apply region_bound in E. apply IH. rewrite length_drop. cbn [length] in *. lia.
  - apply H3; auto. apply IH. lia.
Qed.

Lemma tokens_text q : concat (token_text <$> tokens q) = q.
Proof.
  induction q as [|rest IH|ch rest e Hne E IH|ch rest Hne E IH] using scan_ind; [done|..]; rewrite tokens_cons.
  - rewrite bool_decide_true by done. cbn. by rewrite IH.
  - rewrite bool_decide_false, E by done. cbn [fmap list_fmap concat token_text]. by rewrite IH, take_drop.
  - rewrite bool_decide_false, E by done. cbn. by rewrite IH.
Qed.

(** ** Interpolation fills the holes *)

Lemma fill_app_exact ts lits t : fill_tokens ts lits = Some t -> length lits = holes ts.
Proof.
  revert lits t. induction ts as [|[|r|c] ts IH]; intros lits t H; cbn [fill_tokens] in H.
  - by destruct lits.
  - destruct lits as [|l lits]; [done|]. destruct (fill_tokens ts lits) eqn:E; [|done].
    cbn. f_equal. by eapply IH.
  - destruct (fill_tokens ts lits) eqn:E; [|done]. by eapply IH.
  - destruct (fill_tokens ts lits) eqn:E; [|done]. by eapply IH.
Qed.

Lemma fill_exists ts lits : length lits = holes ts -> exists t, fill_tokens ts lits = Some t.
Proof.
  revert lits. induction ts as [|[|r|c] ts IH]; intros lits H; cbn [fill_tokens].
  - destruct lits; [by eexists|done].
  - destruct lits as [|l lits]; [done|]. destruct (IH lits) as [t ->]; [by injection H|]. by eexists.
  - destruct (IH lits H) as [t ->]. by eexists.
  - destruct (IH lits H) as [t ->]. by eexists.
Qed.

Section Loop.
Context (formatFloat : Z -> bytes) (args : list NamedValue) (lits : list bytes).
Context (Hlits : Forall2 (fun a l => literal formatFloat (NValue a) = Ok l) args lits).

Lemma loop_spec fuel q arg b : (length q <= fuel)%nat ->
  interpolate_loop formatFloat fuel args q arg b =
  if (arg + holes (tokens q) <=? length args)%nat || (holes (tokens q) =? 0)%nat
  then Ok (arg + holes (tokens q),
           b ++ default [] (fill_tokens (tokens q) (take (holes (tokens q)) (drop arg lits))))%nat
  else Err (ETooManyPlaceholders (Z.of_nat (length args))).
Proof.
  revert fuel arg b. induction q as [|rest IH|ch rest e Hne E IH|ch rest Hne E IH] using scan_ind;
    intros fuel arg b Hf.
  - destruct fuel; cbn; rewrite ?orb_true_r, ?Nat.add_0_r, ?app_nil_r; by destruct (drop arg lits).
  - destruct fuel as [|fuel]; [cbn in Hf; lia|]. cbn [interpolate_loop]. rewrite bool_decide_true by done.
    rewrite tokens_cons, bool_decide_true by done.
    change (holes (Hole :: tokens rest)) with (S (holes (tokens rest))).
    change (S (holes (tokens rest)) =? 0)%nat with false. rewrite orb_false_r.
    destruct (args !! arg) as [a|] eqn:Ea.
    + destruct (Forall2_lookup_l _ _ _ _ _ Hlits Ea) as (l & Hl & Hlit). rewrite Hlit. cbn [obind].
      rewrite IH by (cbn in Hf; lia). pose proof (lookup_lt_Some _ _ _ Ea) as Hlt.
      rewrite Nat.add_succ_r. cbn [Nat.add].
      assert (Eb : ((S (arg + holes (tokens rest)) <=? length args)%nat || (holes (tokens rest) =? 0)%nat)
                   = (S (arg + holes (tokens rest)) <=? length args)%nat).
      { destruct (Nat.eqb_spec (holes (tokens rest)) 0) as [->|]; [|apply orb_false_r].
        rewrite orb_true_r. symmetry. apply Nat.leb_le. lia. }
      rewrite Eb. destruct (Nat.leb_spec (S (arg + holes (tokens rest))) (length args)); [|done].
      rewrite (drop_S lits l arg Hl). cbn [take fill_tokens].
      destruct (fill_exists (tokens rest) (take (holes (tokens rest)) (drop (S arg) lits))) as [t Ht].
      { rewrite length_take, length_drop, <- (Forall2_length _ _ _ Hlits). lia. }
      rewrite Ht. cbn. by rewrite <- app_assoc.
    + apply lookup_ge_None in Ea. rewrite (proj2 (Nat.leb_gt _ _)) by lia. done.
  - destruct fuel as [|fuel]; [cbn in Hf; lia|]. cbn [interpolate_loop]. rewrite bool_decide_false, E by done.
    rewrite tokens_cons, bool_decide_false, E by done. apply region_bound in E.
    rewrite IH by (rewrite length_drop; cbn [length] in *; lia).
    set (ts := tokens (drop e (ch :: rest))).
    change (holes (Region (take e (ch :: rest)) :: ts)) with (holes ts).
    destruct (_ || _) eqn:Eg; [|done]. cbn [fill_tokens].
    assert (Hx : exists t, fill_tokens ts (take (holes ts) (drop arg lits)) = Some t).
    { apply fill_exists. rewrite length_take, length_drop, <- (Forall2_length _ _ _ Hlits).
      apply orb_true_iff in Eg as [Eg|Eg]; [apply Nat.leb_le in Eg; lia|apply Nat.eqb_eq in Eg; lia]. }
    destruct Hx as [t ->]. cbn. by rewrite <- app_assoc.
  - destruct fuel as [|fuel]; [cbn in Hf; lia|]. cbn [interpolate_loop]. rewrite bool_decide_false, E by done.
    rewrite tokens_cons, bool_decide_false, E by done. rewrite IH by (cbn in Hf; lia).
    set (ts := tokens rest). change (holes (Plain ch :: ts)) with (holes ts).
    destruct (_ || _) eqn:Eg; [|done]. cbn [fill_tokens].
    assert (Hx : exists t, fill_tokens ts (take (holes ts) (drop arg lits)) = Some t).
    { apply fill_exists. rewrite length_take, length_drop, <- (Forall2_length _ _ _ Hlits).
      apply orb_true_iff in Eg as [Eg|Eg]; [apply Nat.leb_le in Eg; lia|apply Nat.eqb_eq in Eg; lia]. }
    destruct Hx as [t ->]. cbn. by rewrite <- app_assoc.
Qed.

End Loop.

(** ** Literals stay inside their place *)

Lemma option_map_Some {A B} (f : A -> B) o y : option_map f o = Some y -> exists x, o = Some x /\ y = f x.
Proof. destruct o; [|done]. intros [= <-]. eauto. Qed.

(** Strong induction for [skip], which looks two bytes ahead. *)
Lemma skip_ind (q : byte) (P : bytes -> Prop) :
  P [] -> P [q] ->
  (forall s, P s -> P (q :: q :: s)) -> (forall c s, c <> q -> P (q :: c :: s)) ->
  (forall c s, c <> q -> P s -> P (c :: s)) -> forall s, P s.
Proof.
  intros H0 H1 H2 H3 H4 s. assert (H : forall n s, (length s <= n)%nat -> P s).
  2: { apply (H (length s)). done. }
  clear s. induction n as [|n IH]; intros [|c s] Hl; cbn in Hl; [done|lia|done|].
  destruct (decide (c = q)) as [->|Hc]; [|apply H4; [done|apply IH; lia]].
  destruct s as [|c s]; [done|]. destruct (decide (c = q)) as [->|Hc]; [apply H2, IH; cbn in Hl; lia|by apply H3].
Qed.

Lemma skip_qq q s : skip (q :: q :: s) q = option_map (fun k => S (S k)) (skip s q).
Proof. cbn [skip]. by rewrite !bool_decide_true by done. Qed.

Lemma skip_qc q c s : c <> q -> skip (q :: c :: s) q = Some 1%nat.
Proof. intros H. cbn [skip]. by rewrite bool_decide_true, bool_decide_false by done. Qed.

Lemma skip_q q : skip [q] q = Some 1%nat.
Proof. cbn [skip]. by rewrite bool_decide_true by done. Qed.

Lemma skip_c q c s : c <> q -> skip (c :: s) q = option_map S (skip s q).
Proof. intros H. cbn [skip]. by rewrite bool_decide_false by done. Qed.

Lemma skip_extend s q k z : skip s q = Some k -> (k < length s)%nat \/ head z <> Some q ->
  skip (s ++ z) q = Some k.
Proof.
  revert k. induction s as [| |s IH|c s Hc|c s Hc IH] using (skip_ind q); intros k H Hz; cbn [app].
  - done.
  - rewrite skip_q in H. injection H as <-. destruct Hz as [Hz|Hz]; [cbn in Hz; lia|].
    destruct z as [|c z]; [apply skip_q|]. apply skip_qc. by intros ->.
  - rewrite skip_qq in *. apply option_map_Some in H as (j & Hj & ->). rewrite (IH j); [done..|].
    destruct Hz; [left; cbn in *; lia|by right].
  - by rewrite skip_qc in *.
  - rewrite skip_c in * by done. apply option_map_Some in H as (j & Hj & ->). rewrite (IH j); [done..|].
    destruct Hz; [left; cbn in *; lia|by right].
Qed.

Lemma skip_open s q c : c <> q -> skip s q = None -> skip (s ++ [c]) q = None.
Proof.
  intros Hc. induction s as [| |s IH|c' s Hc'|c' s Hc' IH] using (skip_ind q); intros H; cbn [app].
  - by rewrite skip_c.
  - by rewrite skip_q in H.
  - rewrite skip_qq in *. destruct (skip s q); [done|]. by rewrite IH.
  - by rewrite skip_qc in H.
  - rewrite skip_c in * by done. destruct (skip s q); [done|]. by rewrite IH.
Qed.

Lemma skip_last s q : skip s q = Some (length s) -> last s = Some q.
Proof.
  induction s as [| |s IH|c s Hc|c s Hc IH] using (skip_ind q); intros H.
  - done.
  - done.
  - rewrite skip_qq in H. apply option_map_Some in H as (j & Hj & E). cbn in E.
    assert (j = length s) as -> by lia. destruct s; [done|]. by apply IH.
  - by rewrite skip_qc in H by done.
  - rewrite skip_c in H by done. apply option_map_Some in H as (j & Hj & E). cbn in E.
    assert (j = length s) as -> by lia. destruct s; [done|]. by apply IH.
Qed.

Lemma has_prefix_extend p s z : (length p <= length s)%nat -> has_prefix p (s ++ z) = has_prefix p s.
Proof.
  revert s. induction p as [|x p IH]; intros [|y s] H; cbn in *; try done; [lia|]. by rewrite IH by lia.
Qed.

Lemma index_of_extend p s k z : index_of p s = Some k -> index_of p (s ++ z) = Some k.
Proof.
  intros H. pose proof (index_of_bound _ _ _ H) as Hb. revert k H Hb.
  induction s as [|c s IH]; intros k H Hb; cbn [index_of] in H.
  - destruct (has_prefix p []) eqn:E; [|done]. injection H as <-. destruct p; [|done].
    cbn [app]. by destruct z.
  - cbn [app index_of]. change (c :: s ++ z) with ((c :: s) ++ z).
    rewrite has_prefix_extend by lia. destruct (has_prefix p (c :: s)); [done|].
    apply option_map_Some in H as (j & Hj & ->). cbn in Hb. by rewrite (IH j) by (done || lia).
Qed.

Lemma has_prefix_open p s c : c ∉ p -> has_prefix p s = false -> has_prefix p (s ++ [c]) = false.
Proof.
  revert s. induction p as [|x p IH]; intros [|y s] Hc H; try done; cbn in *.
  - rewrite bool_decide_false; [done|]. intros ->. apply Hc. left.
  - apply andb_false_iff in H as [->|H]; [done|]. rewrite IH, andb_false_r; [done| |done].
    intros Hin. apply Hc. by right.
Qed.

Lemma index_of_open p s c : c ∉ p -> p <> [] -> index_of p s = None -> index_of p (s ++ [c]) = None.
Proof.
  intros Hc Hp. induction s as [|y s IH]; intros H; cbn [app index_of] in *.
  - destruct p as [|x p]; [done|]. cbn. rewrite bool_decide_false; [done|]. intros ->. apply Hc. left.
  - destruct (has_prefix p (y :: s)) eqn:E; [done|]. change (y :: s ++ [c]) with ((y :: s) ++ [c]).
    rewrite has_prefix_open by done. destruct (index_of p s); [done|]. by rewrite IH.
Qed.

(** A region that ends before a placeholder ends there whatever follows, if
    it is not a string the next byte would extend. *)
Lemma region_stable w e z :
  region w = Some e -> region (w ++ [question]) = Some e -> last w <> Some quote ->
  region (w ++ quote :: z) = Some e.
Proof.
  intros H1 H2 Hlast. destruct w as [|ch rest]; [done|]. cbn [app] in *. unfold region in *.
  destruct (bool_decide (ch = quote) || bool_decide (ch = dquote)) eqn:Eq.
  - apply (inj Some) in H1, H2. f_equal. unfold skipQuoted in *.
    change (drop 1 (ch :: rest)) with rest in H1. change (drop 1 (ch :: rest ++ [question])) with (rest ++ [question]) in H2.
    change (drop 1 (ch :: rest ++ quote :: z)) with (rest ++ quote :: z).
    assert (Hq : question <> ch).
    { intros <-. by vm_compute in Eq. }
    destruct (skip rest ch) as [k|] eqn:E.
    + rewrite (skip_extend _ _ _ _ E); [done|].
      destruct (Nat.lt_ge_cases k (length rest)) as [|Hge]; [by left|right]. cbn.
      pose proof (skip_bound _ _ _ E). assert (k = length rest) as -> by lia.
      apply skip_last in E. intros [= <-]. apply Hlast. rewrite last_cons, E. done.
    + rewrite (skip_open _ _ _ Hq E) in H2. cbn in H1, H2. rewrite length_app in H2. cbn in H2. lia.
  - destruct (bool_decide (ch = dash)) eqn:Ed.
    + destruct rest as [|c r]; [done|]. cbn [app] in *. destruct (bool_decide (c = dash)); [|done].
      apply (inj Some) in H1, H2. f_equal.
      change (ch :: c :: r ++ [question]) with ((ch :: c :: r) ++ [question]) in H2.
      change (ch :: c :: r ++ quote :: z) with ((ch :: c :: r) ++ quote :: z).
      destruct (index_of [newline] (ch :: c :: r)) as [k|] eqn:E.
      * by rewrite (index_of_extend _ _ _ _ E).
      * rewrite index_of_open in H2; [|by apply (bool_decide_unpack _); vm_compute|done|done].
        cbn [default from_option] in H1, H2. rewrite length_app in H2. cbn in H1, H2. lia.
    + destruct (bool_decide (ch = slash)); [|done].
      destruct rest as [|c r]; [done|]. cbn [app] in *. destruct (bool_decide (c = star)); [|done].
      apply (inj Some) in H1, H2. f_equal.
      destruct (index_of [star; slash] r) as [k|] eqn:E.
      * by rewrite (index_of_extend _ _ _ _ E).
      * rewrite index_of_open in H2; [|by apply (bool_decide_unpack _); vm_compute|done|done].
        cbn in H1, H2. rewrite length_app in H2. cbn in H2. lia.
Qed.

Lemma region_none_quote ch rest z : region (ch :: rest) = None ->
  region (ch :: rest ++ quote :: z) = None.
Proof.
  unfold region. destruct (_ || _); [done|]. destruct (bool_decide (ch = dash)) eqn:Ed.
  - destruct rest as [|c r]; cbn [app]; [by rewrite bool_decide_false|]. by destruct (bool_decide (c = dash)).
  - destruct (bool_decide (ch = slash)); [|done]. destruct rest as [|c r]; cbn [app]; [by rewrite bool_decide_false|].
    by destruct (bool_decide (c = star)).
Qed.

(** The scan is at the top level after [pre]: a placeholder there is one. *)
Definition top_level (pre : bytes) : Prop := tokens (pre ++ [question]) = tokens pre ++ [Hole].

Lemma tokens_before pre z : top_level pre -> last pre <> Some quote ->
  tokens (pre ++ quote :: z) = tokens pre ++ tokens (quote :: z).
Proof.
  unfold top_level. induction pre as [|rest IH|ch rest e Hne E IH|ch rest Hne E IH] using scan_ind;
    intros Ht Hlast.
  - done.
  - cbn [app] in *. rewrite tokens_cons, bool_decide_true in Ht by done.
    rewrite (tokens_cons _ rest), bool_decide_true in Ht by done.
    rewrite (tokens_cons _ (rest ++ _)), (tokens_cons _ rest), !bool_decide_true by done.
    cbn [app] in *. f_equal. apply IH; [by injection Ht|]. intros Hl. apply Hlast. by rewrite last_cons, Hl.
  - assert (E2 : region ((ch :: rest) ++ [question]) = Some e).
    { cbn [app] in *. rewrite (tokens_cons _ (rest ++ _)), (tokens_cons _ rest), !bool_decide_false, E in Ht by done.
      destruct (region (ch :: rest ++ [question])) as [e'|] eqn:E2; [|done]. injection Ht as Ht _. f_equal.
      apply (f_equal length) in Ht. rewrite !length_take in Ht.
      apply region_bound in E, E2. cbn [length] in *. rewrite length_app in *. cbn [length] in *. lia. }
    pose proof (region_stable _ _ z E E2 Hlast) as E3. pose proof (region_bound _ _ E) as Hb.
    cbn [app] in Ht |- *. rewrite (tokens_cons _ (rest ++ _)), (tokens_cons _ rest), !bool_decide_false, E in Ht by done.
    rewrite (tokens_cons _ (rest ++ _)), (tokens_cons _ rest), !bool_decide_false, E by done.
    cbn [app] in E2, E3. rewrite E2 in Ht. rewrite E3.
    change (ch :: rest ++ [question]) with ((ch :: rest) ++ [question]) in Ht.
    change (ch :: rest ++ quote :: z) with ((ch :: rest) ++ quote :: z).
    rewrite take_app_le, drop_app_le in Ht |- * by lia. cbn [app] in *. f_equal. injection Ht as Ht.
    apply IH; [exact Ht|]. intros Hl. apply Hlast. by rewrite <- (take_drop e (ch :: rest)), last_app, Hl.
  - cbn [app] in *. assert (E2 : region (ch :: rest ++ [question]) = None).
    { rewrite (tokens_cons _ (rest ++ _)), (tokens_cons _ rest), !bool_decide_false, E in Ht by done.
      by destruct (region (ch :: rest ++ [question])). }
    rewrite (tokens_cons _ (rest ++ _)), (tokens_cons _ rest), !bool_decide_false, E, E2 in Ht by done.
    rewrite (tokens_cons _ (rest ++ _)), (tokens_cons _ rest), !bool_decide_false, E by done.
    rewrite (region_none_quote _ _ _ E). cbn [app] in *. f_equal.
    apply IH; [by injection Ht|]. intros Hl. apply Hlast. by rewrite last_cons, Hl.
Qed.

(** ** String literals *)

Definition double (s : bytes) : bytes := concat ((fun c => if bool_decide (c = quote) then [quote; quote] else [c]) <$> s).

(** The value of the inside of a quoted string. *)
Fixpoint undouble (s : bytes) : bytes :=
  match s with
  | [] => []
  | c :: s0 =>
      c :: (if bool_decide (c = quote) then
              match s0 with
              | c' :: s' => if bool_decide (c' = quote) then undouble s' else undouble s0
              | [] => []
              end
            else undouble s0)
  end.

Lemma replace_quotes s : replace_all [quote] [quote; quote] s = double s.
Proof.
  unfold replace_all, double. induction s as [|c s IH]; [done|].
  cbn [length replace_all_aux has_prefix fmap list_fmap concat]. rewrite andb_true_r.
  destruct (decide (c = quote)) as [->|Hc].
  - rewrite !bool_decide_true by done. cbn [length app]. change (drop 1 (quote :: s)) with s. by rewrite IH.
  - rewrite !bool_decide_false by congruence. cbn [app]. by rewrite IH.
Qed.

Lemma skip_double s z : head z <> Some quote ->
  skip (double s ++ quote :: z) quote = Some (S (length (double s))).
Proof.
  intros Hz. unfold double. induction s as [|c s IH]; cbn [fmap list_fmap concat].
  - cbn [app length]. destruct z as [|c z]; [apply skip_q|]. apply skip_qc. by intros ->.
  - destruct (decide (c = quote)) as [->|Hc].
    + rewrite bool_decide_true by done. cbn [app]. by rewrite skip_qq, IH.
    + rewrite bool_decide_false by done. cbn [app]. by rewrite skip_c, IH.
Qed.

Lemma undouble_double s : undouble (double s) = s.
Proof.
  unfold double. induction s as [|c s IH]; cbn [fmap list_fmap concat]; [done|].
  destruct (decide (c = quote)) as [->|Hc].
  - rewrite bool_decide_true by done. cbn [app undouble]. rewrite !bool_decide_true by done. by rewrite IH.
  - rewrite bool_decide_false by done. cbn [app undouble]. rewrite bool_decide_false by done. by rewrite IH.
Qed.

(** ** Properties *)

Lemma no_question q : existsb (fun c => bool_decide (c = question)) q = false ->
  holes (tokens q) = 0%nat /\ fill_tokens (tokens q) [] = Some q.
Proof.
  assert (H : forall q : bytes, existsb (fun c => bool_decide (c = question)) q = false -> question ∉ q).
  { intros s H Hin. assert (Ht : existsb (fun c => bool_decide (c = question)) s = true).
    { apply existsb_exists. exists question. split; [by apply list_elem_of_In|by apply bool_decide_eq_true]. }
    congruence. }
  intros Hq. apply H in Hq. clear H.
  induction q as [|rest IH|ch rest e Hne E IH|ch rest Hne E IH] using scan_ind; [done|..].
  - exfalso. apply Hq. by left.
  - rewrite tokens_cons, bool_decide_false, E by done. destruct IH as [H1 H2].
    { intros Hin. apply Hq. rewrite <- (take_drop e (ch :: rest)). apply elem_of_app. by right. }
    split; [exact H1|]. cbn [fill_tokens]. rewrite H2. cbn. by rewrite take_drop.
  - rewrite tokens_cons, bool_decide_false, E by done. destruct IH as [H1 H2].
    { intros Hin. apply Hq. by right. }
    split; [exact H1|]. cbn [fill_tokens]. by rewrite H2.
Qed.

(** A loop that succeeds used one argument per placeholder. *)
Lemma loop_inv formatFloat fuel args q arg b arg' b' : (length q <= fuel)%nat ->
  interpolate_loop formatFloat fuel args q arg b = Ok (arg', b') ->
  arg' = (arg + holes (tokens q))%nat /\
  Forall (fun a => exists l, literal formatFloat (NValue a) = Ok l) (take (holes (tokens q)) (drop arg args)).
Proof.
  revert fuel arg b. induction q as [|rest IH|ch rest e Hne E IH|ch rest Hne E IH] using scan_ind;
    intros fuel arg b Hf H; (destruct fuel as [|fuel]; [cbn in Hf|]); cbn [interpolate_loop] in H; try lia.
  - injection H as <- _. cbn. split; [lia|constructor].
  - injection H as <- _. cbn. split; [lia|constructor].
  - rewrite bool_decide_true in H by done. destruct (args !! arg) as [a|] eqn:Ea; [|done].
    destruct (literal _ _) as [l|err|] eqn:El; try done. cbn [obind] in H. apply IH in H as [-> HF]; [|cbn in Hf; lia].
    rewrite tokens_cons, bool_decide_true by done.
    change (holes (Hole :: tokens rest)) with (S (holes (tokens rest))). split; [lia|].
    rewrite (drop_S _ _ _ Ea). cbn [take]. constructor; [by eexists|done].
  - rewrite bool_decide_false, E in H by done. rewrite tokens_cons, bool_decide_false, E by done.
    apply region_bound in E. apply (IH _ _ _) in H; [exact H|]. rewrite length_drop. cbn [length] in *. lia.
  - rewrite bool_decide_false, E in H by done. rewrite tokens_cons, bool_decide_false, E by done.
    apply (IH _ _ _) in H; [exact H|]. cbn in Hf. lia.
Qed.

Section Properties.
Context (formatFloat : Z -> bytes).

(** C12: for ordinal arguments that all have a literal, interpolation depends
    on the lexical structure alone: the tokens of the query partition its text;
    with one argument per placeholder token the result is the query with the
    k-th placeholder token replaced by the k-th literal and every other byte
    (strings, quoted identifiers, comments included) copied; with fewer or more
    arguments it is the error that names the counts, never a query. *)
Theorem interpolate_spec q args lits :
  Forall (fun a => NName a = []) args ->
  Forall2 (fun a l => literal formatFloat (NValue a) = Ok l) args lits ->
  concat (token_text <$> tokens q) = q /\
  interpolate formatFloat q args =
    match Nat.compare (holes (tokens q)) (length args) with
    | Eq => Ok (default [] (fill_tokens (tokens q) lits))
    | Gt => Err (ETooManyPlaceholders (Z.of_nat (length args)))
    | Lt => Err (ETooManyArgs (Z.of_nat (length args)) (Z.of_nat (holes (tokens q))))
    end /\
  (fill_tokens (tokens q) lits = None <-> holes (tokens q) <> length args).
Proof.
  intros Hn Hl. pose proof (Forall2_length _ _ _ Hl) as Hlen. split; [apply tokens_text|]. split; cycle 1.
  { split.
    - intros Hf He. destruct (fill_exists (tokens q) lits) as [t Ht]; [lia|]. congruence.
    - intros He. destruct (fill_tokens _ _) eqn:E; [|done]. apply fill_app_exact in E. lia. }
  assert (Hnn : existsb (fun a => negb (bool_decide (NName a = []))) args = false).
  { clear -Hn. induction Hn as [|a args Ha _ IH]; [done|]. cbn. by rewrite bool_decide_true, IH. }
  unfold interpolate. rewrite Hnn. destruct ((length args =? 0)%nat && _) eqn:E0.
  - apply andb_true_iff in E0 as [E0 Eq]. apply Nat.eqb_eq in E0. apply negb_true_iff in Eq.
    apply nil_length_inv in E0 as ->. apply Forall2_nil_inv_l in Hl as ->.
    destruct (no_question q Eq) as [H1 H2]. rewrite H1. cbn. by rewrite H2.
  - rewrite (loop_spec formatFloat args lits Hl) by done. cbn [Nat.add]. rewrite drop_0.
    destruct (Nat.compare_spec (holes (tokens q)) (length args)) as [E|E|E].
    + rewrite (proj2 (Nat.leb_le _ _)) by lia. cbn [orb obind]. rewrite (proj2 (Nat.eqb_eq _ _)) by lia.
      rewrite take_ge by lia. done.
    + rewrite (proj2 (Nat.leb_le _ _)) by lia. cbn [orb obind]. by rewrite (proj2 (Nat.eqb_neq _ _)) by lia.
    + rewrite (proj2 (Nat.leb_gt _ _)), (proj2 (Nat.eqb_neq _ _)) by lia. done.
Qed.

(** C14: a string argument cannot escape its place: where the scan is at the
    top level before the literal, and neither neighbour is a quote, the query
    around it is read as before, the literal is exactly one quoted region, and
    undoubling the quotes inside it gives back the argument's bytes. *)
Theorem string_literal_isolated s pre post :
  top_level pre -> last pre <> Some quote -> head post <> Some quote ->
  exists inner,
    literal formatFloat (DString s) = Ok (quote :: inner ++ [quote]) /\
    undouble inner = s /\
    tokens (pre ++ (quote :: inner ++ [quote]) ++ post) =
      tokens pre ++ Region (quote :: inner ++ [quote]) :: tokens post.
Proof.
  intros Ht Hpre Hpost. exists (double s). split; [cbn [literal]; by rewrite replace_quotes|].
  split; [apply undouble_double|]. cbn [app]. rewrite <- app_assoc. cbn [app].
  rewrite tokens_before by done. f_equal. rewrite tokens_cons, bool_decide_false by done.
  unfold region. rewrite bool_decide_true by done. cbn [orb]. unfold skipQuoted.
  change (drop 1 (quote :: double s ++ quote :: post)) with (double s ++ quote :: post).
  rewrite skip_double by done. change (quote :: double s ++ quote :: post) with ((quote :: double s) ++ [quote] ++ post).
  rewrite app_assoc. rewrite take_app_length', drop_app_length' by (rewrite length_app; cbn; lia). done.
Qed.

(** A query comes out of interpolation only when every argument is ordinal
    and has a literal and there is exactly one per placeholder token; named
    arguments, unknown types and miscounts are refused whatever the query. *)
Theorem interpolate_refuses q args r :
  interpolate formatFloat q args = Ok r ->
  Forall (fun a => NName a = []) args /\ length args = holes (tokens q) /\
  Forall (fun a => exists l, literal formatFloat (NValue a) = Ok l) args.
Proof.
  unfold interpolate. destruct (existsb _ args) eqn:En; [done|]. intros H.
  split.
  { apply Forall_forall. intros a Ha. destruct (decide (NName a = [])) as [|Hne]; [done|]. exfalso.
    assert (Ht : existsb (fun a => negb (bool_decide (NName a = []))) args = true); [|congruence].
    apply existsb_exists. exists a. split; [by apply list_elem_of_In|]. by rewrite bool_decide_false. }
  destruct (_ && _) eqn:E0.
  - apply andb_true_iff in E0 as [E0 Eq]. apply Nat.eqb_eq, nil_length_inv in E0 as ->.
    apply negb_true_iff in Eq. destruct (no_question q Eq) as [-> _]. by split.
  - destruct (interpolate_loop _ _ _ _ _ _) as [[arg b]|e|] eqn:El; try done. cbn [obind] in H.
    apply loop_inv in El; [|done]. destruct (Nat.eqb_spec arg (length args)) as [->|]; [|done].
    destruct El as [E1 E2]. cbn in E1. split; [done|]. rewrite drop_0, <- E1, take_ge in E2 by done. done.
Qed.

End Properties.

(** No float argument occurs in the concrete inputs below. *)
Definition no_float (_ : Z) : bytes := [].

Definition sample_args : list NamedValue :=
  [MkNamed [] (DString (str "it's")); MkNamed [] (DInt (-7)); MkNamed [] (DBytes [bz 0; bz 171])].

Lemma interpolate_spec_witness :
  interpolate no_float (str "SELECT ?, '?', ? /* ? */, ?") sample_args =
    Ok (str "SELECT 'it''s', '?', -7 /* ? */, '\x00\xAB'::BLOB").
Proof.
  destruct (interpolate_spec no_float (str "SELECT ?, '?', ? /* ? */, ?") sample_args
    [str "'it''s'"; str "-7"; str "'\x00\xAB'::BLOB"]) as (_ & -> & _).
  - repeat constructor.
  - repeat constructor.
  - vm_compute. reflexivity.
Defined.

Lemma string_literal_isolated_witness :
  exists inner, literal no_float (DString (str "' OR 1=1 --")) = Ok (quote :: inner ++ [quote]) /\
    undouble inner = str "' OR 1=1 --" /\
    tokens (str "a=" ++ (quote :: inner ++ [quote]) ++ str ";") =
      tokens (str "a=") ++ Region (quote :: inner ++ [quote]) :: tokens (str ";").
Proof.
  apply (string_literal_isolated no_float (str "' OR 1=1 --") (str "a=") (str ";")).
  - vm_compute. reflexivity.
  - vm_compute. discriminate.
  - vm_compute. discriminate.
Defined.

Lemma interpolate_refuses_witness :
  Forall (fun a => NName a = []) sample_args /\
  length sample_args = holes (tokens (str "?,?,?")) /\
  Forall (fun a => exists l, literal no_float (NValue a) = Ok l) sample_args.
Proof.
  apply (interpolate_refuses no_float (str "?,?,?") sample_args (str "'it''s',-7,'\x00\xAB'::BLOB")).
  vm_compute. reflexivity.
Defined.

(** An integer argument can change the structure of the query around it: a
    negative number after a minus sign starts a comment. *)
Theorem negative_after_minus_is_comment :
  interpolate no_float (str "SELECT 5-? AS x") [MkNamed [] (DInt (-3))] = Ok (str "SELECT 5--3 AS x") /\
  holes (tokens (str "SELECT 5-? AS x")) = 1%nat /\
  In (Region (str "--3 AS x")) (tokens (str "SELECT 5--3 AS x")).
Proof. split; [by vm_compute|]. split; [by vm_compute|]. vm_compute. tauto. Qed.

(** ** The grammar of the scan *)

(** Every [q] of [s] comes as a pair. *)
Fixpoint doubled (q : byte) (s : bytes) : bool :=
  match s with
  | [] => true
  | c :: s0 =>
      if bool_decide (c = q) then
        match s0 with
        | c' :: s' => bool_decide (c' = q) && doubled q s'
        | [] => false
        end
      else doubled q s0
  end.

Definition is_quote (c : byte) : Prop := c = quote \/ c = dquote.

(** [c] has no special meaning before [rest]. *)
Definition plain (c : byte) (rest : bytes) : Prop :=
  c <> question /\ ~ is_quote c /\ ~ (c = dash /\ head rest = Some dash) /\
  ~ (c = slash /\ head rest = Some star).

(** What the text of a query means, without an index or a scan: quoted text
    runs to a quote that is not doubled, a line comment to the newline, a block
    comment to the first star-slash after its opening, and each of them to the
    end of the query if there is no such end. *)
Inductive lex : bytes -> list token -> Prop :=
  | lex_nil : lex [] []
  | lex_hole rest ts : lex rest ts -> lex (question :: rest) (Hole :: ts)
  | lex_plain c rest ts : plain c rest -> lex rest ts -> lex (c :: rest) (Plain c :: ts)
  | lex_quoted c inner rest ts : is_quote c -> doubled c inner = true -> head rest <> Some c ->
      lex rest ts -> lex (c :: inner ++ c :: rest) (Region (c :: inner ++ [c]) :: ts)
  | lex_unclosed c inner : is_quote c -> doubled c inner = true -> lex (c :: inner) [Region (c :: inner)]
  | lex_line text rest ts : newline ∉ text -> lex (newline :: rest) ts ->
      lex (dash :: dash :: text ++ newline :: rest) (Region (dash :: dash :: text) :: ts)
  | lex_last_line text : newline ∉ text -> lex (dash :: dash :: text) [Region (dash :: dash :: text)]
  | lex_block text rest ts : contains (text ++ [star]) [star; slash] = false -> lex rest ts ->
      lex (slash :: star :: text ++ star :: slash :: rest) (Region (slash :: star :: text ++ [star; slash]) :: ts)
  | lex_open_block text : contains text [star; slash] = false ->
      lex (slash :: star :: text) [Region (slash :: star :: text)].

Lemma skip_doubled q inner rest : doubled q inner = true -> head rest <> Some q ->
  skip (inner ++ q :: rest) q = Some (S (length inner)).
Proof.
  intros H Hr. induction inner as [| |s IH|c s Hc|c s Hc IH] using (skip_ind q); cbn [doubled app length] in *.
  - destruct rest as [|c rest]; [apply skip_q|]. apply skip_qc. by intros ->.
  - by rewrite bool_decide_true in H.
  - rewrite !bool_decide_true in H by done. by rewrite skip_qq, IH.
  - by rewrite bool_decide_true, bool_decide_false in H.
  - rewrite bool_decide_false in H by done. by rewrite skip_c, IH.
Qed.

Lemma skip_none q s : skip s q = None <-> doubled q s = true.
Proof.
  induction s as [| |s IH|c s Hc|c s Hc IH] using (skip_ind q); cbn [doubled].
  - done.
  - by rewrite skip_q, bool_decide_true.
  - rewrite skip_qq, !bool_decide_true by done. cbn [andb]. rewrite <- IH. by destruct (skip s q).
  - by rewrite skip_qc, bool_decide_true, bool_decide_false by done.
  - rewrite skip_c, bool_decide_false by done. rewrite <- IH. by destruct (skip s q).
Qed.

Lemma skip_some q s k : skip s q = Some k ->
  exists inner rest, s = inner ++ q :: rest /\ k = S (length inner) /\ doubled q inner = true /\ head rest <> Some q.
Proof.
  revert k. induction s as [| |s IH|c s Hc|c s Hc IH] using (skip_ind q); intros k H.
  - done.
  - rewrite skip_q in H. injection H as <-. by exists [], [].
  - rewrite skip_qq in H. apply option_map_Some in H as (j & Hj & ->).
    destruct (IH _ Hj) as (inner & rest & -> & -> & Hd & Hr). exists (q :: q :: inner), rest.
    split; [done|]. split; [done|]. split; [|done]. cbn [doubled]. by rewrite !bool_decide_true.
  - rewrite skip_qc in H by done. injection H as <-. exists [], (c :: s). repeat (split; [done|]).
    cbn. by intros [= ->].
  - rewrite skip_c in H by done. apply option_map_Some in H as (j & Hj & ->).
    destruct (IH _ Hj) as (inner & rest & -> & -> & Hd & Hr). exists (c :: inner), rest.
    split; [done|]. split; [done|]. split; [|done]. cbn [doubled]. by rewrite bool_decide_false.
Qed.

(** [strings.Index] by its specification. *)
Lemma index_of_first p s k : p <> [] -> index_of p s = Some k <->
  has_prefix p (drop k s) = true /\ (forall i, has_prefix p (drop i s) = true -> (k <= i)%nat).
Proof.
  intros Hp. revert k. induction s as [|c s IH]; intros k; cbn [index_of].
  - assert (E : forall i, has_prefix p (drop i (@nil byte)) = false) by (intros [|i]; by destruct p).
    rewrite (E 0%nat : has_prefix p [] = false). split; [done|]. intros [H _]. by rewrite E in H.
  - destruct (has_prefix p (c :: s)) eqn:E.
    + split.
      * intros [= <-]. split; [done|]. intros; lia.
      * intros [H1 H2]. specialize (H2 0%nat E). assert (k = 0%nat) as -> by lia. done.
    + split.
      * intros H. apply option_map_Some in H as (j & Hj & ->). apply IH in Hj as [H1 H2]. split; [done|].
        intros [|i] Hi; [by cbn in Hi; rewrite E in Hi|]. apply H2 in Hi. lia.
      * intros [H1 H2]. destruct k as [|k]; [by cbn in H1; rewrite E in H1|].
        rewrite (proj2 (IH k)); [done|]. split; [done|]. intros i Hi. specialize (H2 (S i) Hi). lia.
Qed.

Lemma index_of_byte c s k : index_of [c] s = Some k <->
  exists text rest, s = text ++ c :: rest /\ c ∉ text /\ k = length text.
Proof.
  revert k. induction s as [|x s IH]; intros k; cbn [index_of has_prefix].
  - split; [done|]. by intros ([|? ?] & rest & H & _).
  - rewrite andb_true_r. case_bool_decide as E.
    + subst x. split.
      * intros [= <-]. exists [], s. split; [done|]. split; [|done]. apply not_elem_of_nil.
      * intros (text & rest & H & Hn & ->). destruct text as [|y text]; [done|]. injection H as -> _.
        exfalso. apply Hn. left.
    + split.
      * intros H. apply option_map_Some in H as (j & Hj & ->). apply IH in Hj as (text & rest & -> & Hn & ->).
        exists (x :: text), rest. split; [done|]. split; [|done]. intros [->|]%elem_of_cons; done.
      * intros (text & rest & H & Hn & ->). destruct text as [|y text]; [injection H as -> _; done|].
        injection H as -> ->. rewrite (proj2 (IH (length text))); [done|].
        exists text, rest. split; [done|]. split; [|done]. intros Hin. apply Hn. by right.
Qed.

Lemma index_of_byte_none c s : index_of [c] s = None <-> c ∉ s.
Proof.
  split.
  - intros H Hin. apply list_elem_of_split_l in Hin as (text & rest & -> & Hn).
    assert (E : index_of [c] (text ++ c :: rest) = Some (length text)) by (apply index_of_byte; eauto).
    congruence.
  - intros Hn. destruct (index_of [c] s) eqn:E; [|done]. apply index_of_byte in E as (text & rest & -> & _).
    exfalso. apply Hn. apply elem_of_app. right. left.
Qed.

Lemma contains_none s p i : contains s p = false -> has_prefix p (drop i s) = false.
Proof.
  unfold contains. destruct (index_of p s) eqn:E; [done|]. intros _. revert i.
  induction s as [|c s IH]; cbn [index_of] in E; intros [|i].
  - change (has_prefix p [] = false). by destruct (has_prefix p []).
  - change (has_prefix p [] = false). by destruct (has_prefix p []).
  - change (has_prefix p (c :: s) = false). by destruct (has_prefix p (c :: s)).
  - destruct (has_prefix p (c :: s)); [done|]. change (has_prefix p (drop i s) = false). apply IH. by destruct (index_of p s).
Qed.

Lemma region_plain c rest : region (c :: rest) = None -> c <> question -> plain c rest.
Proof.
  intros H Hq. split; [done|]. unfold region in H.
  destruct (bool_decide (c = quote) || bool_decide (c = dquote)) eqn:E; [done|].
  apply orb_false_iff in E as [E1%bool_decide_eq_false E2%bool_decide_eq_false].
  split; [by intros [?|?]|]. split.
  - intros [-> Hr]. rewrite bool_decide_true in H by done. destruct rest as [|c r]; [done|].
    injection Hr as ->. by rewrite bool_decide_true in H.
  - intros [-> Hr]. rewrite bool_decide_false, bool_decide_true in H by done. destruct rest as [|c r]; [done|].
    injection Hr as ->. by rewrite bool_decide_true in H.
Qed.

Lemma plain_region c rest : plain c rest -> region (c :: rest) = None.
Proof.
  intros (_ & Hq & Hd & Hs). unfold region. rewrite (bool_decide_false (c = quote)), (bool_decide_false (c = dquote)).
  2-3: intros ->; apply Hq; unfold is_quote; auto.
  cbn [orb]. case_bool_decide as E1.
  - destruct rest as [|c' r]; [done|]. rewrite bool_decide_false; [done|]. intros ->. by apply Hd.
  - case_bool_decide as E2; [|done]. destruct rest as [|c' r]; [done|]. rewrite bool_decide_false; [done|].
    intros ->. by apply Hs.
Qed.

Lemma region_quote c s : is_quote c -> region (c :: s) = Some (skipQuoted (c :: s) 0 c).
Proof. intros [-> | ->]; reflexivity. Qed.

Lemma region_line s : region (dash :: dash :: s) = Some (match index_of [newline] s with Some k => S (S k) | None => S (S (length s)) end).
Proof.
  unfold region. cbn -[index_of newline]. cbn [index_of]. cbn [has_prefix].
  rewrite !bool_decide_false by done. cbn [andb]. by destruct (index_of [newline] s).
Qed.

Lemma region_block s : region (slash :: star :: s) =
  Some (match index_of [star; slash] s with Some k => k + 4 | None => S (S (length s)) end)%nat.
Proof. unfold region. by rewrite !bool_decide_false, !bool_decide_true by done. Qed.

(** A first star-slash and the text before it. *)
Lemma block_split s k : index_of [star; slash] s = Some k <->
  exists text rest, s = text ++ star :: slash :: rest /\ contains (text ++ [star]) [star; slash] = false /\ k = length text.
Proof.
  rewrite index_of_first by done. split.
  - intros [H1 H2]. apply has_prefix_app in H1 as [rest Hr].
    assert (Hk : (k < length s)%nat).
    { destruct (Nat.lt_ge_cases k (length s)); [done|]. rewrite drop_ge in Hr by done. done. }
    exists (take k s), rest. split; [by rewrite <- (take_drop k s) at 1; rewrite Hr|].
    split; [|rewrite length_take; lia]. apply contains_false. intros i.
    destruct (has_prefix _ _) eqn:E; [|done]. exfalso. apply has_prefix_app in E as [t Ht].
    assert (Hl : (S (S i) <= length (take k s ++ [star]))%nat).
    { apply (f_equal length) in Ht. rewrite length_drop in Ht. cbn [length app] in Ht. lia. }
    rewrite length_app, length_take in Hl. cbn [length] in Hl.
    assert (Hi : has_prefix [star; slash] (drop i s) = true); [|apply H2 in Hi; lia].
    rewrite <- (take_drop k s), Hr. cbn [app]. change (star :: slash :: rest) with ([star] ++ slash :: rest).
    rewrite app_assoc, drop_app_le by (rewrite length_app, length_take; cbn; lia). by rewrite Ht.
  - intros (text & rest & -> & Hc & ->). split; [by rewrite drop_app_length|].
    intros i Hi. destruct (Nat.le_gt_cases (length text) i) as [|Hlt]; [done|]. exfalso.
    pose proof (contains_none _ _ i Hc) as Hf.
    change (star :: slash :: rest) with ([star] ++ slash :: rest) in Hi.
    rewrite app_assoc, drop_app_le in Hi by (rewrite length_app; cbn; lia).
    rewrite has_prefix_extend in Hi; [congruence|]. rewrite length_drop, length_app. cbn. lia.
Qed.

Lemma block_none s : index_of [star; slash] s = None <-> contains s [star; slash] = false.
Proof. unfold contains. by destruct (index_of _ s). Qed.

Lemma tokens_region c rest e : region (c :: rest) = Some e -> c <> question ->
  tokens (c :: rest) = Region (take e (c :: rest)) :: tokens (drop e (c :: rest)).
Proof. intros H Hq. by rewrite tokens_cons, bool_decide_false, H. Qed.

(** The scan of a region followed by [rest]. *)
Lemma tokens_region_app r rest : head r <> Some question -> r <> [] ->
  region (r ++ rest) = Some (length r) -> tokens (r ++ rest) = Region r :: tokens rest.
Proof.
  intros Hq Hr H. destruct r as [|c r]; [done|]. cbn [app] in *.
  rewrite (tokens_region c (r ++ rest) _ H) by (intros ->; by apply Hq).
  change (c :: r ++ rest) with ((c :: r) ++ rest). by rewrite take_app_length, drop_app_length.
Qed.

Lemma quote_not_question c : is_quote c -> c <> question.
Proof. by intros [-> | ->]. Qed.

Lemma lex_nil_inv ts : lex [] ts -> ts = [].
Proof. by inversion 1. Qed.

(** Every region of the scan is one of the grammar's. *)
Lemma region_lex ch rest e : region (ch :: rest) = Some e ->
  exists r rest', ch :: rest = r ++ rest' /\ e = length r /\
    (forall ts, lex rest' ts -> lex (r ++ rest') (Region r :: ts)).
Proof.
  intros E. destruct (decide (ch = quote \/ ch = dquote)) as [Hq|Hq].
  - rewrite region_quote in E by done. apply (inj Some) in E. subst e. unfold skipQuoted.
    change (drop 1 (ch :: rest)) with rest. destruct (skip rest ch) as [k|] eqn:Es.
    + apply skip_some in Es as (inner & r & -> & -> & Hd & Hr). exists (ch :: inner ++ [ch]), r.
      split; [by cbn; rewrite <- app_assoc|]. split; [cbn; rewrite length_app; cbn; lia|].
      intros ts H. cbn [app]. rewrite <- app_assoc. by apply lex_quoted.
    + apply skip_none in Es. exists (ch :: rest), []. rewrite app_nil_r. split; [done|]. split; [done|].
      intros ts ->%lex_nil_inv. by apply lex_unclosed.
  - destruct (decide (ch = dash /\ head rest = Some dash)) as [[-> Hr]|Hd];
      [|destruct (decide (ch = slash /\ head rest = Some star)) as [[-> Hr]|Hs]].
    + destruct rest as [|c r]; [done|]. injection Hr as ->. rewrite region_line in E. apply (inj Some) in E. subst e.
      destruct (index_of [newline] r) as [k|] eqn:Ei.
      * apply index_of_byte in Ei as (text & r' & -> & Hn & ->). exists (dash :: dash :: text), (newline :: r').
        split; [done|]. split; [done|]. intros ts H. by apply lex_line.
      * apply index_of_byte_none in Ei. exists (dash :: dash :: r), []. rewrite app_nil_r. split; [done|]. split; [done|].
        intros ts ->%lex_nil_inv. by apply lex_last_line.
    + destruct rest as [|c r]; [done|]. injection Hr as ->. rewrite region_block in E. apply (inj Some) in E. subst e.
      destruct (index_of [star; slash] r) as [k|] eqn:Ei.
      * apply block_split in Ei as (text & r' & -> & Hn & ->). exists (slash :: star :: text ++ [star; slash]), r'.
        split; [by cbn; rewrite <- app_assoc|]. split; [cbn; rewrite length_app; cbn; lia|].
        intros ts H. cbn [app]. rewrite <- app_assoc. by apply lex_block.
      * apply block_none in Ei. exists (slash :: star :: r), []. rewrite app_nil_r. split; [done|]. split; [done|].
        intros ts ->%lex_nil_inv. by apply lex_open_block.
    + exfalso. rewrite plain_region in E; [done|]. split; [|done]. intros ->. done.
Qed.

(** C13: the scan of [interpolate] is the lexical grammar: its token sequence is
    the one the grammar gives the query, and every query has exactly one. *)
Theorem tokens_grammar q ts : lex q ts <-> tokens q = ts.
Proof.
  split.
  - induction 1 as [|rest ts _ IH|c rest ts Hp _ IH|c inner rest ts Hc Hd Hr _ IH|c inner Hc Hd
      |text rest ts Hn _ IH|text Hn|text rest ts Hn _ IH|text Hn].
    + done.
    + by rewrite tokens_cons, bool_decide_true, IH.
    + rewrite tokens_cons, bool_decide_false, plain_region, IH by (done || by apply Hp). done.
    + rewrite <- IH. change (c :: inner ++ c :: rest) with ((c :: inner) ++ [c] ++ rest). rewrite app_assoc.
      apply (tokens_region_app (c :: inner ++ [c])); [cbn; intros [= ?]; by apply (quote_not_question c)|done|].
      cbn [app]. rewrite region_quote by done. unfold skipQuoted. change (drop 1 (c :: (inner ++ [c]) ++ rest)) with ((inner ++ [c]) ++ rest).
      rewrite <- app_assoc. cbn [app]. rewrite skip_doubled by done. cbn. by rewrite length_app, Nat.add_comm.
    + rewrite <- (app_nil_r (c :: inner)) at 1. rewrite tokens_region_app; [done|cbn; intros [= ?]; by apply (quote_not_question c)|done|].
      rewrite app_nil_r, region_quote by done. unfold skipQuoted. change (drop 1 (c :: inner)) with inner. by rewrite (proj2 (skip_none _ _)).
    + rewrite <- IH. apply (tokens_region_app (dash :: dash :: text)); [done|done|]. cbn [app]. rewrite region_line.
      rewrite (proj2 (index_of_byte newline _ (length text))); [done|]. by exists text, rest.
    + rewrite <- (app_nil_r (dash :: dash :: text)) at 1. rewrite tokens_region_app; [done|done|done|].
      rewrite app_nil_r, region_line. by rewrite (proj2 (index_of_byte_none _ _)).
    + rewrite <- IH. change (slash :: star :: text ++ star :: slash :: rest) with ((slash :: star :: text) ++ [star; slash] ++ rest).
      rewrite app_assoc. apply (tokens_region_app (slash :: star :: text ++ [star; slash])); [done|done|]. cbn [app].
      rewrite region_block, <- app_assoc. cbn [app].
      rewrite (proj2 (block_split _ (length text))); [|by exists text, rest]. cbn. rewrite length_app. cbn. f_equal. lia.
    + rewrite <- (app_nil_r (slash :: star :: text)) at 1. rewrite tokens_region_app; [done|done|done|].
      rewrite app_nil_r, region_block. by rewrite (proj2 (block_none _)).
  - intros <-. induction q as [|rest IH|ch rest e Hne E IH|ch rest Hne E IH] using scan_ind.
    + constructor.
    + rewrite tokens_cons, bool_decide_true by done. by constructor.
    + rewrite (tokens_region _ _ _ E Hne). destruct (region_lex _ _ _ E) as (r & rest' & Er & -> & Hr).
      rewrite Er in *. rewrite take_app_length, drop_app_length in *. by apply Hr.
    + rewrite tokens_cons, bool_decide_false, E by done. constructor; [by apply region_plain|done].
Qed.
