(* ===== verification/Json.v ===== *)
(** * Strings as JSON, the way encoding/json writes them

    UTF-8 as package unicode/utf8 decodes it, [json.Marshal] of a string, the
    grammar of JSON texts (RFC 8259), and an independent reader of string
    literals. *)

From S2P Require Import Prelude GoFmt.

(** ** UTF-8 *)

Definition in_range (lo hi : Z) (b : byte) : bool := (lo <=? ub b) && (ub b <=? hi).
Definition cont (b : byte) : bool := in_range 128 191 b.

(** The size of the rune [utf8.DecodeRune] finds at the head of [s]; 0 when it
    reports an encoding error (or [s] is empty). *)
Definition rune_size (s : bytes) : nat :=
  match s with
  | [] => O
  | b0 :: s1 =>
      if ub b0 <? 128 then 1%nat
      else match s1 with
      | [] => O
      | b1 :: s2 =>
          if in_range 194 223 b0 then if cont b1 then 2%nat else O
          else match s2 with
          | [] => O
          | b2 :: s3 =>
              if in_range 224 239 b0 then
                if in_range (if ub b0 =? 224 then 160 else 128) (if ub b0 =? 237 then 159 else 191) b1 && cont b2
                then 3%nat else O
              else match s3 with
              | [] => O
              | b3 :: _ =>
                  if in_range 240 244 b0 then
                    if in_range (if ub b0 =? 240 then 144 else 128) (if ub b0 =? 244 then 143 else 191) b1
                       && cont b2 && cont b3 then 4%nat else O
                  else O
              end
          end
      end
  end.

(** [utf8.ValidString].  The scans below walk byte by byte; [skip] is what is
    left of a rune already seen. *)
Fixpoint utf8_valid_from (skip : nat) (s : bytes) : bool :=
  match s, skip with
  | [], _ => true
  | _ :: s', S k => utf8_valid_from k s'
  | _ :: s', O => match rune_size s with O => false | S k => utf8_valid_from k s' end
  end.
Definition utf8_valid (s : bytes) : bool := utf8_valid_from 0 s.

(** ** Writing a string *)

Definition jquote : byte := bz 34.
Definition backslash : byte := bz 92.
Definition hex4 (z : Z) : byte := nth (Z.to_nat z) (str "0123456789abcdef") Byte.x00.

(** A byte below 0x80: copied when it is safe in JSON and HTML. *)
Definition json_ascii (b : byte) : bytes :=
  let z := ub b in
  if (z =? 34) || (z =? 92) then [backslash; b]
  else if z =? 8 then str "\b"
  else if z =? 12 then str "\f"
  else if z =? 10 then str "\n"
  else if z =? 13 then str "\r"
  else if z =? 9 then str "\t"
  else if (z <? 32) || (z =? 60) || (z =? 62) || (z =? 38)
  then str "\u00" ++ [hex4 (z / 16); hex4 (z mod 16)]
  else [b].

(** A valid multi-byte rune: the line separators are escaped. *)
Definition json_wide (r : bytes) : bytes :=
  if bool_decide (r = [bz 226; bz 128; bz 168]) then str "\u2028"
  else if bool_decide (r = [bz 226; bz 128; bz 169]) then str "\u2029"
  else r.

(** The inside of the literal; an invalid byte becomes the replacement
    character. *)
Fixpoint json_body_from (skip : nat) (s : bytes) : bytes :=
  match s, skip with
  | [], _ => []
  | _ :: s', S k => json_body_from k s'
  | b :: s', O =>
      match rune_size s with
      | O => str "\ufffd" ++ json_body_from 0 s'
      | S O => json_ascii b ++ json_body_from 0 s'
      | S k => json_wide (take (S k) s) ++ json_body_from k s'
      end
  end.
Definition json_body (s : bytes) : bytes := json_body_from 0 s.

(** [json.Marshal] of a string. *)
Definition json_string (s : bytes) : bytes := [jquote] ++ json_body s ++ [jquote].

Lemma json_checks :
  json_string (str "a<b>\c" ++ [bz 1; bz 10; bz 195; bz 169; bz 255]) =
    [jquote] ++ str "a\u003cb\u003e\\c\u0001\n" ++ [bz 195; bz 169] ++ str "\ufffd" ++ [jquote].
Proof. by vm_compute. Qed.

(** ** The grammar *)

Definition hex_value (b : byte) : option Z :=
  let z := ub b in
  if (48 <=? z) && (z <=? 57) then Some (z - 48)
  else if (97 <=? z) && (z <=? 102) then Some (z - 87)
  else if (65 <=? z) && (z <=? 70) then Some (z - 55)
  else None.

(** The UTF-8 form of a code point below 2^16. *)
Definition utf8_encode (z : Z) : bytes :=
  if z <? 128 then [bz z]
  else if z <? 2048 then [bz (192 + z / 64); bz (128 + z mod 64)]
  else [bz (224 + z / 4096); bz (128 + z / 64 mod 64); bz (128 + z mod 64)].

(** The text of one escape after the backslash: what it stands for and the
    bytes it takes. *)
Definition json_escape (s : bytes) : option (bytes * nat) :=
  match s with
  | [] => None
  | c :: s =>
      let z := ub c in
      if (z =? 34) || (z =? 92) || (z =? 47) then Some ([c], 1%nat)
      else if z =? 98 then Some ([bz 8], 1%nat)
      else if z =? 102 then Some ([bz 12], 1%nat)
      else if z =? 110 then Some ([bz 10], 1%nat)
      else if z =? 114 then Some ([bz 13], 1%nat)
      else if z =? 116 then Some ([bz 9], 1%nat)
      else if z =? 117 then
        match s with
        | a :: b :: c :: d :: _ =>
            a ← hex_value a; b ← hex_value b; c ← hex_value c; d ← hex_value d;
            let u := 4096 * a + 256 * b + 16 * c + d in
            if (55296 <=? u) && (u <=? 57343) then None else Some (utf8_encode u, 5%nat)
        | _ => None
        end
      else None
  end.

(** The text a string literal denotes, from the inside of the literal; [None]
    when it is not one: a quote or a control byte that is not escaped, a bad
    escape, or bytes that are not UTF-8. *)
Fixpoint json_read_from (skip : nat) (s : bytes) : option bytes :=
  match s, skip with
  | [], _ => Some []
  | _ :: s', S k => json_read_from k s'
  | b :: s', O =>
      if bool_decide (b = backslash) then
        '(d, n) ← json_escape s'; t ← json_read_from n s'; Some (d ++ t)
      else if bool_decide (b = jquote) || (ub b <? 32) then None
      else match rune_size s with
           | O => None
           | S k => t ← json_read_from k s'; Some (take (S k) s ++ t)
           end
  end.
Definition json_read (s : bytes) : option bytes := json_read_from 0 s.

(** An integer part, with no leading zero. *)
Definition json_int (s : bytes) : bool :=
  match s with
  | [] => false
  | [c] => is_digit c
  | c :: s => is_digit c && negb (ub c =? 48) && forallb is_digit s
  end.

Definition json_frac (s : bytes) : bool :=
  match s with
  | [] => true
  | c :: s => (ub c =? 46) && negb (length s =? 0)%nat && forallb is_digit s
  end.

Definition json_exp (s : bytes) : bool :=
  match s with
  | [] => true
  | c :: s =>
      ((ub c =? 101) || (ub c =? 69)) &&
      let s := match s with c :: s' => if (ub c =? 43) || (ub c =? 45) then s' else s | [] => s end in
      negb (length s =? 0)%nat && forallb is_digit s
  end.

Definition json_number (s : bytes) : Prop :=
  exists sign i f e, s = sign ++ i ++ f ++ e /\ (sign = [] \/ sign = str "-") /\
    json_int i = true /\ json_frac f = true /\ json_exp e = true.

Definition json_literal (s : bytes) : Prop :=
  exists body text, s = [jquote] ++ body ++ [jquote] /\ json_read body = Some text.

Definition comma_separated (l : list bytes) : bytes :=
  match l with
  | [] => []
  | x :: l => x ++ concat ((fun y => str "," ++ y) <$> l)
  end.

Inductive json : bytes -> Prop :=
  | json_null : json (str "null")
  | json_bool b : json (if b : bool then str "true" else str "false")
  | json_num s : json_number s -> json s
  | json_str s : json_literal s -> json s
  | json_array l : (forall x, x ∈ l -> json x) -> json (str "[" ++ comma_separated l ++ str "]")
  | json_object (l : list (bytes * bytes)) : (forall kv, kv ∈ l -> json_literal kv.1) ->
      (forall kv, kv ∈ l -> json kv.2) ->
      json (str "{" ++ comma_separated ((fun kv => kv.1 ++ str ":" ++ kv.2) <$> l) ++ str "}").

(** ** Runes *)

Lemma rune_size_bound s : (rune_size s <= length s)%nat.
Proof. unfold rune_size. repeat case_match; subst; cbn; lia. Qed.

Lemma rune_size_take s n : rune_size s = n -> rune_size (take n s) = n.
Proof.
  intros <-. destruct s as [|b0 s]; [done|]. unfold rune_size at 2 3.
  destruct (ub b0 <? 128) eqn:E0; [cbn; by rewrite E0|].
  destruct s as [|b1 s]; [done|]. destruct (in_range 194 223 b0) eqn:E1.
  { destruct (cont b1) eqn:E2; [|done]. cbn. by rewrite E0, E1, E2. }
  destruct s as [|b2 s]; [done|]. destruct (in_range 224 239 b0) eqn:E2.
  { destruct (_ && cont b2) eqn:E3; [|done]. cbn [take rune_size]. by rewrite E0, E1, E2, E3. }
  destruct s as [|b3 s]; [done|]. destruct (in_range 240 244 b0) eqn:E3; [|done].
  destruct (_ && cont b3) eqn:E4; [|done]. cbn [take rune_size]. by rewrite E0, E1, E2, E3, E4.
Qed.

Lemma rune_size_app r rest : rune_size r = length r -> r <> [] -> rune_size (r ++ rest) = length r.
Proof.
  intros H Hr. destruct r as [|b0 r]; [done|]. cbn [app]. unfold rune_size in H |- *.
  destruct (ub b0 <? 128) eqn:E0; [done|]. destruct r as [|b1 r]; [done|]. cbn [app].
  destruct (in_range 194 223 b0) eqn:E1; [done|]. destruct r as [|b2 r]; [by repeat case_match|]. cbn [app].
  destruct (in_range 224 239 b0) eqn:E2; [done|]. destruct r as [|b3 r]; [done|]. done.
Qed.

Lemma body_skip k s : json_body_from k s = json_body (drop k s).
Proof. revert k. induction s as [|b s IH]; intros [|k]; [done..|]. apply IH. Qed.
Lemma read_skip k s : json_read_from k s = json_read (drop k s).
Proof. revert k. induction s as [|b s IH]; intros [|k]; [done..|]. apply IH. Qed.
Lemma valid_skip k s : utf8_valid_from k s = utf8_valid (drop k s).
Proof. revert k. induction s as [|b s IH]; intros [|k]; [done..|]. apply IH. Qed.

(** A rune of more than one byte. *)
Definition wide (r : bytes) : Prop := rune_size r = length r /\ (2 <= length r)%nat.

Lemma rune_size_1 b s : rune_size (b :: s) = 1%nat <-> ub b < 128.
Proof.
  unfold rune_size. destruct (Z.ltb_spec (ub b) 128); [done|]. split; [|lia]. repeat case_match; done.
Qed.

(** Induction along the runes. *)
Lemma rune_ind (P : bytes -> Prop) :
  P [] -> (forall b s, ub b < 128 -> P s -> P (b :: s)) -> (forall r s, wide r -> P s -> P (r ++ s)) ->
  (forall b s, rune_size (b :: s) = O -> P s -> P (b :: s)) -> forall s, P s.
Proof.
  intros H0 H1 H2 H3. assert (H : forall n s, (length s <= n)%nat -> P s).
  2: { intros s. by apply (H (length s)). }
  induction n as [|n IH]; intros [|b s] Hl; cbn in Hl; [done|lia|done|].
  destruct (rune_size (b :: s)) as [|[|k]] eqn:E.
  - apply H3; [done|]. apply IH. lia.
  - apply H1; [by apply rune_size_1 in E|]. apply IH. lia.
  - pose proof (rune_size_bound (b :: s)) as Hb. rewrite E in Hb.
    rewrite <- (take_drop (S (S k)) (b :: s)). apply H2.
    + split; [|rewrite length_take; lia]. rewrite (rune_size_take _ _ E), length_take. lia.
    + apply IH. rewrite length_drop. cbn [length] in *. lia.
Qed.

(** One step of the writer, the validator and the reader. *)
Lemma body_ascii b s : ub b < 128 -> json_body (b :: s) = json_ascii b ++ json_body s.
Proof.
  intros H. unfold json_body at 1. cbn [json_body_from]. by rewrite (proj2 (rune_size_1 b s) H).
Qed.
Lemma body_bad b s : rune_size (b :: s) = O -> json_body (b :: s) = str "\ufffd" ++ json_body s.
Proof. intros H. unfold json_body at 1. cbn [json_body_from]. by rewrite H. Qed.
Lemma body_wide r s : wide r -> json_body (r ++ s) = json_wide r ++ json_body s.
Proof.
  intros [H1 H2]. pose proof (rune_size_app r s H1) as H. destruct r as [|b [|b' r]]; [cbn in H2; lia..|].
  unfold json_body at 1. cbn [app json_body_from]. change (b :: b' :: r ++ s) with ((b :: b' :: r) ++ s).
  rewrite H by done. cbn [length]. rewrite body_skip.
  change (S (S (length r))) with (length (b :: b' :: r)). rewrite take_app_length. f_equal.
  change (S (length r)) with (length (b' :: r)). change (b' :: r ++ s) with ((b' :: r) ++ s). by rewrite drop_app_length.
Qed.
Lemma valid_wide r s : wide r -> utf8_valid (r ++ s) = utf8_valid s.
Proof.
  intros [H1 H2]. pose proof (rune_size_app r s H1) as H. destruct r as [|b r]; [cbn in H2; lia|].
  unfold utf8_valid at 1. cbn [app utf8_valid_from]. change (b :: r ++ s) with ((b :: r) ++ s).
  rewrite H by done. cbn [length]. by rewrite valid_skip, drop_app_length.
Qed.

Lemma read_ascii b rest : ub b < 128 ->
  json_read (json_ascii b ++ rest) = (t ← json_read rest; Some (b :: t)).
Proof. intros H. destruct b; try (exfalso; revert H; vm_compute; done); reflexivity. Qed.

Lemma read_bad rest : json_read (str "\ufffd" ++ rest) = (t ← json_read rest; Some ([bz 239; bz 191; bz 189] ++ t)).
Proof. reflexivity. Qed.

Lemma wide_head r : wide r -> exists b r', r = b :: r' /\ 128 <= ub b.
Proof.
  intros [H1 H2]. destruct r as [|b r']; [cbn in H2; lia|]. exists b, r'. split; [done|].
  destruct (Z.lt_ge_cases (ub b) 128); [|done]. rewrite (proj2 (rune_size_1 b r')) in H1 by done. lia.
Qed.

Lemma read_wide r rest : wide r -> json_read (json_wide r ++ rest) = (t ← json_read rest; Some (r ++ t)).
Proof.
  intros Hw. unfold json_wide. case_bool_decide as E1; [by subst r|]. case_bool_decide as E2; [by subst r|].
  destruct (wide_head r Hw) as (b & r' & -> & Hb). destruct Hw as [H1 H2].
  pose proof (rune_size_app (b :: r') rest H1) as H.
  unfold json_read at 1. cbn [app json_read_from]. change (b :: r' ++ rest) with ((b :: r') ++ rest).
  rewrite H by done. cbn [length]. rewrite !bool_decide_false by (intros ->; by vm_compute in Hb).
  rewrite (proj2 (Z.ltb_ge _ _)) by lia. cbn [orb]. rewrite read_skip, drop_app_length.
  change (S (length r')) with (length (b :: r')). by rewrite take_app_length.
Qed.

(** ** What is written can be read *)

(** The text [json.Marshal] keeps: every byte that is not part of a rune is
    the replacement character. *)
Fixpoint scrub_from (skip : nat) (s : bytes) : bytes :=
  match s, skip with
  | [], _ => []
  | _ :: s', S k => scrub_from k s'
  | _ :: s', O =>
      match rune_size s with
      | O => [bz 239; bz 191; bz 189] ++ scrub_from 0 s'
      | S k => take (S k) s ++ scrub_from k s'
      end
  end.
Definition scrub (s : bytes) : bytes := scrub_from 0 s.

Lemma scrub_skip k s : scrub_from k s = scrub (drop k s).
Proof. revert k. induction s as [|b s IH]; intros [|k]; [done..|]. apply IH. Qed.

Lemma scrub_rune r s : rune_size r = length r -> r <> [] -> scrub (r ++ s) = r ++ scrub s.
Proof.
  intros H1 H2. pose proof (rune_size_app r s H1 H2) as H. destruct r as [|b r]; [done|].
  unfold scrub at 1. cbn [app scrub_from]. change (b :: r ++ s) with ((b :: r) ++ s). rewrite H. cbn [length].
  rewrite scrub_skip, drop_app_length. change (S (length r)) with (length (b :: r)). by rewrite take_app_length.
Qed.

Lemma json_read_body s : json_read (json_body s) = Some (scrub s).
Proof.
  induction s as [|b s Hb IH|r s Hr IH|b s Hb IH] using rune_ind.
  - done.
  - rewrite body_ascii, read_ascii, IH by done. cbn [mbind option_bind]. change (b :: s) with ([b] ++ s).
    rewrite scrub_rune; [done| |done]. by apply rune_size_1.
  - rewrite body_wide, read_wide, IH by done. cbn [mbind option_bind]. rewrite scrub_rune; [done|by apply Hr|].
    intros ->. destruct Hr as [_ Hr]. cbn in Hr. lia.
  - rewrite body_bad, read_bad, IH by done. cbn [mbind option_bind]. f_equal. unfold scrub at 2. cbn [scrub_from].
    by rewrite Hb.
Qed.

Lemma scrub_valid s : utf8_valid s = true -> scrub s = s.
Proof.
  induction s as [|b s Hb IH|r s Hr IH|b s Hb IH] using rune_ind; intros H.
  - done.
  - change (b :: s) with ([b] ++ s). rewrite scrub_rune; [|by apply rune_size_1|done].
    unfold utf8_valid in H. cbn [utf8_valid_from] in H. rewrite (proj2 (rune_size_1 b s) Hb) in H. by rewrite IH.
  - rewrite valid_wide in H by done. rewrite scrub_rune; [by rewrite IH|by apply Hr|].
    intros ->. destruct Hr as [_ Hr]. cbn in Hr. lia.
  - unfold utf8_valid in H. cbn [utf8_valid_from] in H. by rewrite Hb in H.
Qed.

Lemma json_string_literal s : json_literal (json_string s).
Proof. exists (json_body s), (scrub s). split; [done|]. apply json_read_body. Qed.
