(* ===== verification/TypeName.v ===== *)
(** * codec/logicaltype.go: the rendering of types

    [LogicalType.String] calls itself directly for the element of a LIST or
    ARRAY, where a nil [Child] is a nil dereference, and through package fmt
    for the parts of a STRUCT or MAP, where fmt catches the panic and prints
    it. *)

From S2P Require Import Prelude Qser LogicalType GoFmt Values Vector Chunk Codectest CodecRoundtrip.

Definition typeNames (id : Z) : option bytes :=
  if id =? TypeSQLNull then Some (str "NULL")
  else if id =? TypeBoolean then Some (str "BOOLEAN")
  else if id =? TypeTinyint then Some (str "TINYINT")
  else if id =? TypeSmallint then Some (str "SMALLINT")
  else if id =? TypeInteger then Some (str "INTEGER")
  else if id =? TypeBigint then Some (str "BIGINT")
  else if id =? TypeUTinyint then Some (str "UTINYINT")
  else if id =? TypeUSmallint then Some (str "USMALLINT")
  else if id =? TypeUInteger then Some (str "UINTEGER")
  else if id =? TypeUBigint then Some (str "UBIGINT")
  else if id =? TypeHugeint then Some (str "HUGEINT")
  else if id =? TypeUHugeint then Some (str "UHUGEINT")
  else if id =? TypeFloat then Some (str "FLOAT")
  else if id =? TypeDouble then Some (str "DOUBLE")
  else if id =? TypeVarchar then Some (str "VARCHAR")
  else if id =? TypeBlob then Some (str "BLOB")
  else if id =? TypeBit then Some (str "BIT")
  else if id =? TypeDate then Some (str "DATE")
  else if id =? TypeTime then Some (str "TIME")
  else if id =? TypeTimeTZ then Some (str "TIMETZ")
  else if id =? TypeTimeNS then Some (str "TIME_NS")
  else if id =? TypeTimestampSec then Some (str "TIMESTAMP_S")
  else if id =? TypeTimestampMS then Some (str "TIMESTAMP_MS")
  else if id =? TypeTimestamp then Some (str "TIMESTAMP")
  else if id =? TypeTimestampNS then Some (str "TIMESTAMP_NS")
  else if id =? TypeTimestampTZ then Some (str "TIMESTAMPTZ")
  else if id =? TypeInterval then Some (str "INTERVAL")
  else if id =? TypeUUID then Some (str "UUID")
  else if id =? TypeGeometry then Some (str "GEOMETRY")
  else if id =? TypeUnion then Some (str "UNION")
  else if id =? TypeVariant then Some (str "VARIANT")
  else None.

(** What fmt prints for the verb [%s] of an operand whose [String] method gives
    [o]: a panic of the method is caught and printed. *)
Definition fmt_stringer (o : outcome cerr bytes) : bytes :=
  match o with
  | Ok s => s
  | _ => str "%!s(PANIC=String method: runtime error: invalid memory address or nil pointer dereference)"
  end.

Fixpoint TypeString (t : LogicalType) : outcome cerr bytes :=
  let '(MkType id width scale child fields enum asize) := t in
  if id =? TypeDecimal then Ok (str "DECIMAL(" ++ itoa width ++ str "," ++ itoa scale ++ str ")")
  else if id =? TypeList then
    match child with
    | Some c => let! s := TypeString c in Ok (s ++ str "[]")
    | None => Panic
    end
  else if id =? TypeArray then
    match child with
    | Some c => let! s := TypeString c in Ok (s ++ str "[" ++ itoa asize ++ str "]")
    | None => Panic
    end
  else if id =? TypeStruct then
    Ok (str "STRUCT(" ++
        (fix go (first : bool) (fs : list StructField) : bytes :=
           match fs with
           | [] => []
           | MkField name ft :: fs =>
               (if first then [] else str ", ") ++ name ++ str " " ++ fmt_stringer (TypeString ft) ++ go false fs
           end) true fields ++ str ")")
  else if id =? TypeMap then
    match child with
    | Some (MkType _ _ _ _ [MkField _ kt; MkField _ vt] _ _) =>
        Ok (str "MAP(" ++ fmt_stringer (TypeString kt) ++ str ", " ++ fmt_stringer (TypeString vt) ++ str ")")
    | _ => Ok (str "MAP")
    end
  else if id =? TypeEnum then Ok (str "ENUM(" ++ itoa (Z.of_nat (length enum)) ++ str " values)")
  else match typeNames id with
       | Some n => Ok n
       | None => Ok (str "TYPE(" ++ itoa (u32 id) ++ str ")")
       end.

Lemma type_names :
  TypeString (MkType TypeStruct 0 0 None
    [MkField (str "a") (MkType TypeList 0 0 (Some (T TypeInteger)) [] [] 0); MkField (str "b") (T 77)] [] 0)
  = Ok (str "STRUCT(a INTEGER[], b TYPE(77))").
Proof. by vm_compute. Qed.

(** ** Which types render *)

(** The chain of LIST and ARRAY types that [TypeString] follows directly has a
    child at every step. *)
Fixpoint has_elements (t : LogicalType) : bool :=
  let '(MkType id _ _ child _ _ _) := t in
  if (id =? TypeList) || (id =? TypeArray) then
    match child with Some c => has_elements c | None => false end
  else true.

Lemma type_string_ok t : if has_elements t then exists s, TypeString t = Ok s else TypeString t = Panic.
Proof.
  revert t. fix IH 1. intros [id w sc child fields enum asize]. cbn [has_elements TypeString].
  destruct (Z.eqb_spec id TypeDecimal) as [->|]; [by eexists|].
  destruct (Z.eqb_spec id TypeList) as [->|].
  { cbn [orb Z.eqb]. destruct child as [c|]; [|done]. specialize (IH c). cbn.
    destruct (has_elements c); [destruct IH as [s ->]; by eexists|by rewrite IH]. }
  destruct (Z.eqb_spec id TypeArray) as [->|].
  { cbn [orb Z.eqb]. destruct child as [c|]; [|done]. specialize (IH c). cbn.
    destruct (has_elements c); [destruct IH as [s ->]; by eexists|by rewrite IH]. }
  cbn [orb]. clear IH. repeat case_match; by eexists.
Qed.

(** C38: [LogicalType.String] gives a text exactly for the types whose chain of
    LIST and ARRAY elements is complete, and panics on the others; every type
    tree with a wire form of its own is of the former kind. *)
Theorem type_string_total t :
  ((exists s, TypeString t = Ok s) <-> has_elements t = true) /\
  (TypeString t = Panic <-> has_elements t = false) /\
  (forall n, encodable n t -> has_elements t = true).
Proof.
  pose proof (type_string_ok t) as H. split; [|split].
  - destruct (has_elements t); [by split|]. rewrite H. by split; [intros []|].
  - destruct (has_elements t); [|by split]. destruct H as [s ->]. by split.
  - intros n Hn. clear H. induction Hn as [n id Hid| | |n c _ IH| | |n c a _ IH _]; try done.
    unfold T. cbn [has_elements]. destruct (Z.eqb_spec id TypeList) as [->|]; [by vm_compute in Hid|].
    by destruct (Z.eqb_spec id TypeArray) as [->|]; [vm_compute in Hid|].
Qed.

(** A PREPARE_RESPONSE whose only column is a LIST without type info. *)
Definition bare_list_body : bytes :=
  Writer.Field 1 ++ Writer.Uvarint 1 ++ Writer.FieldUvarint 100 TypeList ++ Writer.End_ ++
  Writer.Field 2 ++ Writer.Uvarint 1 ++ Writer.String_ (str "x") ++
  Writer.FieldHugeint 5 (Hugeint 0 0) ++ Writer.End_.

(** The decoder accepts a response whose column type makes
    [LogicalType.String] panic. *)
Theorem bare_list_type_panics :
  exists p, DecodePrepare bare_list_body = Ok p /\
    fmap (fun c => TypeString (SType c)) (Schema p) = [Panic].
Proof. eexists. split; [by vm_compute|]. by vm_compute. Qed.
