(* ===== verification/Corpus.v ===== *)
(** * testdata/corpus: what a real server sent, and what nobody should send

    The captured frames of testdata/corpus, decoded by the definitions of this
    development, with the values the repository's own tests expect
    (corpus_test.go, wire_test.go), and the malformed chunks, each with the
    error that codec/malformed_test.go asks for.  The payloads are written in
    hexadecimal. *)

From stdpp Require Import gmap.
From S2P Require Import Prelude Qser LogicalType Values Chunk Messages TypeName.

Definition nibble (a : Ascii.ascii) : option Z :=
  let n := Z.of_nat (Ascii.nat_of_ascii a) in
  if (48 <=? n) && (n <=? 57) then Some (n - 48)
  else if (97 <=? n) && (n <=? 102) then Some (n - 87) else None.

Fixpoint nibbles (s : String.string) : list Z :=
  match s with
  | String.EmptyString => []
  | String.String a s => match nibble a with Some d => d :: nibbles s | None => nibbles s end
  end.

Fixpoint pairs (l : list Z) : bytes :=
  match l with
  | a :: b :: l => bz (16 * a + b) :: pairs l
  | _ => []
  end.

(** The bytes of a hexadecimal text, white space aside. *)
Definition unhex (s : String.string) : bytes := pairs (nibbles s).

(** [decodeFrame] of corpus_test.go. *)
Definition decodeFrame (raw : bytes) : option PrepareResult :=
  match SplitEnvelope raw with
  | Ok (hdr, body) =>
      if Type_ hdr =? MsgPrepareResponse then
        match DecodePrepare body with Ok pr => Some pr | _ => None end
      else None
  | _ => None
  end.

(** [frameRows]: each row of each chunk, cell by cell as [Chunk.Value] gives it. *)
Definition frameRows (pr : PrepareResult) : list (list (outcome cerr any)) :=
  concat (fmap (fun ch => fmap (fun r => fmap (fun c => Chunk_Value ch (Z.of_nat c) (Z.of_nat r))
                                             (seq 0 (length (cols ch))))
                              (seq 0 (Z.to_nat (rows ch)))) (PChunks pr)).

(** The schema, its types as [LogicalType.String] writes them. *)
Definition column_names (pr : PrepareResult) : list (bytes * outcome cerr bytes) :=
  fmap (fun c => (SName c, TypeString (SType c))) (Schema pr).

(** quack-v1.5.4-capture.txt, the body of request 1 *)
Definition captured_connect : bytes := unhex "
  010001030004ffff01000a64656d6f2d746f6b656e02000676312e352e340300096f73785f61726d3634040001050001ffff"%string.

(** quack-v1.5.4-capture.txt, the body of response 1 *)
Definition captured_connected : bytes := unhex "
  01000202002034393744374434463445393533464132313731463137363832323936363036310300ffffffffffffffffff01
  ffff01000676312e352e340200096f73785f61726d3634030001ffff"%string.

(** quack-v1.5.4-capture.txt, the body of request 2 *)
Definition captured_query : bytes := unhex "
  0100030200203439374437443446344539353346413231373146313736383232393636303631030004ffff01004b53454c45
  43542070726f647563742c2073756d28746f74616c2920415320726576656e75652046524f4d2073616c65732047524f5550
  2042592031204f5244455220425920322044455343ffff"%string.

(** quack-v1.5.4-capture.txt, the body of response 2 *)
Definition captured_revenue : bytes := unhex "
  0100040300ffffffffffffffffff01ffff010002640019ffff640015650001640002c80026c90002ffffffff020002077072
  6f6475637407726576656e7565040001012c01640004650002640019ffff640015650001640002c80026c90002ffffffff66
  000264000066000406776164657273056465636f79096475636b2063616c6c0b706f6e6420736e61636b73ffff6400006600
  40c4220000000000000000000000000000f41a00000000000000000000000000006d170000000000000000000000000000a9
  010000000000000000000000000000ffffffffffff0500db87a5b4a6b499c4997f87f7ccdcc9b7f0d2b901ffff"%string.

(** quack-v1.5.4-capture.txt, the body of request 3 *)
Definition captured_goodbye : bytes := unhex "
  01000b02002034393744374434463445393533464132313731463137363832323936363036310300ffffffffffffffffff01
  ffffffff"%string.

(** quack-v1.5.4-capture.txt, the body of response 3 *)
Definition captured_success : bytes := unhex "
  01000a0300ffffffffffffffffff01ffffffff"%string.

(** quack-v1.5.4-capture.txt, the body of response 7 *)
Definition captured_refused : bytes := unhex "
  0100640300ffffffffffffffffff01ffff01001541757468656e7469636174696f6e206661696c6564ffff"%string.

(** testdata/corpus/frames/prepare-tier2.bin *)
Definition frame_tier2 : bytes := unhex "
  0100040300ffffffffffffffffff01ffff01000c64000dffff640065650001640004c80064000dffffffffffff6400646500
  01640005c800020000026964010064000dffffffff00000270740100640064650001640005c8000200000178010064000dff
  ffffff000001790100640019ffffffffffffffffffffffffffff640066650001640004c800640064650001640005c8000200
  00036b65790100640019ffffffff00000576616c7565010064000dffffffffffffffffffffffff64006c650001640009c800
  64000dffffc90003ffffffff640032ffff640031ffff640036ffff64001bffff640022ffff640023ffff640024ffff02000c
  026964026c69027374016d03617272016802756801750269760374747a03746e730462697473040001012c0164000365000c
  64000dffff640065650001640004c80064000dffffffffffff640064650001640005c800020000026964010064000dffffff
  ff00000270740100640064650001640005c8000200000178010064000dffffffff000001790100640019ffffffffffffffff
  ffffffffffff640066650001640004c800640064650001640005c800020000036b65790100640019ffffffff00000576616c
  7565010064000dffffffffffffffffffffffff64006c650001640009c80064000dffffc90003ffffffff640032ffff640031
  ffff640036ffff64001bffff640022ffff640023ffff640024ffff66000c64000066000c010000000200000003000000ffff
  640001650008fdffffffffffffff680003690003640000650003ffff640000650000ffff640003650000ffff6a0064000165
  0008fdffffffffffffff66000c010000000000008003000000ffffffff640001650008fdffffffffffffff67000264000165
  0008f9ffffffffffffff66000c070000000000008000000080ffff640001650008f9ffffffffffffff670002640001650008
  f9ffffffffffffff66000c010000000000008000000080ffff640001650008f9ffffffffffffff660003016101800180ffff
  ffffffff640001650008fdffffffffffffff680002690003640000650002ffff640000650000ffff640002650000ffff6a00
  64000067000264000066000201610162ffff640001650008fdffffffffffffff6600080100000000000080ffffffffffff64
  0001650008fdffffffffffffff6700036800640001650008c5ffffffffffffff660024010000000000008003000000000000
  800000008000000080000000000000000000000000ffffffff640001650008fdffffffffffffff660030ffffffffffffffff
  ffffffffffffff7f0000000000000000000000000000008001000000000000000000000000000080ffff640001650008fdff
  ffffffffffff660030ffffffffffffffffffffffffffffffff00000000000000000000000000000000000000000000000000
  00000000000000ffff640001650008fdffffffffffffff6600308c288628630f228ac340051ca95c18480000000000000000
  000000000000008000000000000000000000000000000080ffff640001650008fdffffffffffffff6600300e000000030000
  0020aa44000000000000000080000000800000000000000080ffffffff000000000000000000000000ffff640001650008fd
  ffffffffffffff660018a79300c0631a7b0a00000000000000800fef000100000000ffff640001650008fdffffffffffffff
  660018157371e6f028000000000000000000800100000000000000ffff640001650008fdffffffffffffff6600030307feb6
  01800207ffffffffffffff0500988ebd9a85dffea6df0082fa9ad9abcfafe6b301ffff"%string.

(** testdata/corpus/frames/prepare-listlist.bin *)
Definition frame_listlist : bytes := unhex "
  0100040300ffffffffffffffffff01ffff01000264000dffff640065650001640004c800640065650001640004c80064000d
  ffffffffffffffffffff020002026964026c6c040001012c0164000365000264000dffff640065650001640004c800640065
  650001640004c80064000dffffffffffffffffffff66000264000066000c010000000200000003000000ffff640001650008
  fdffffffffffffff680003690003640000650002ffff640000650000ffff640002650001ffff6a00640001650008fdffffff
  ffffffff680001690003640000650001ffff640000650000ffff640001650000ffff6a0064000066000401000000ffffffff
  ffffffffffff05009294f1edfdf0f6f0568bf69694d6f7ffbb8f01ffff"%string.

(** testdata/corpus/frames/prepare-mapint.bin *)
Definition frame_mapint : bytes := unhex "
  0100040300ffffffffffffffffff01ffff01000264000dffff640066650001640004c800640064650001640005c800020000
  036b6579010064000dffffffff00000576616c75650100640019ffffffffffffffffffffffff020002026964026d69040001
  012c0164000265000264000dffff640066650001640004c800640064650001640005c800020000036b6579010064000dffff
  ffff00000576616c75650100640019ffffffffffffffffffffffff6600026400006600080100000002000000ffff64000165
  0008fdffffffffffffff680001690002640000650001ffff640000650000ffff6a006400006700026400006600040a000000
  ffff6400006600010374656effffffffffffffffffff05008792f5e0f4899ae0ca00efdbebd0c58fb4da8b01ffff"%string.

(** testdata/corpus/frames/prepare-union.bin *)
Definition frame_union : bytes := unhex "
  0100040300ffffffffffffffffff01ffff01000364000dffff64006b650001640005c80002000000010064001cffffffff00
  00036e756d010064000dffffffffffffffff640019ffff0200030269640275760173040001012c0164000165000364000dff
  ff64006b650001640005c80002000000010064001cffffffff0000036e756d010064000dffffffffffffffff640019ffff66
  000364000066000401000000ffff64000067000264000066000100ffff64000066000402000000ffffffff64000066000108
  6e65696768626f72ffffffffffff0500909c8991fea4ba812fad9ffa839da8b2a5ba01ffff"%string.

(** testdata/corpus/malformed/truncated-mid.bin *)
Definition malformed_truncated_mid : bytes := unhex "
  64000365000d640032ffff640031ffff640036ffff64001bffff640022ffff640023ffff640024ffff640065650001640004
  c80064000dffffffffffff640065650001640004c800640065650001640004c80064000dffffffffffffffffffff64006465
  0001640005c800020000026964010064000dffffffff00000270740100640064650001640005c8000200000178010064000d
  ffffffff000001790100640019ffffffffffffffffffffffffffff640066650001640004c800640064650001640005c80002
  0000036b65790100640019ffffffff00000576616c7565010064000dffffffffffffffffffffffff640066650001640004c8
  00640064650001640005c800020000036b6579010064000dffffffff00000576616c75650100640019ffffffffffffffffff
  ffffff64006c650001640009c80064000dffffc90003ffffffff66000d640001650008050000000000000066003001000000
  000000000000000000000080000000000000000000000000000000002a000000000000000000000000000000ffff64000165
  00080500000000000000660030ffffffffffffffffffffffffffffffff000000000000000000000000000000000000000000
  0000000000000000000000ffff64000165000805000000000000006600308c288628630f228ac340051ca95c184800000000
  000000000000000000000000ffffffffffffffffffffffffffffff7fffff64000165000805000000000000006600300e0000
  000300000020aa44000000000000000000000000000000000000000000ffffffff00000000ffffffffffffffffffff640001
  6500080500000000000000660018a79300c0631a7b0a00000000000000000fef000100000000ffff64000165000805000000
  00000000660018157371e6f028000000000000000000000100000000000000ffff6400016500080500000000000000660003
  0307feb6000207ffffff6400016500080500000000000000680003690003640000650003ffff640003650000ffff64000365
  0000ffff6a0064000165000805"%string.

(** testdata/corpus/malformed/truncated-tail.bin *)
Definition malformed_truncated_tail : bytes := unhex "
  64000365000d640032ffff640031ffff640036ffff64001bffff640022ffff640023ffff640024ffff640065650001640004
  c80064000dffffffffffff640065650001640004c800640065650001640004c80064000dffffffffffffffffffff64006465
  0001640005c800020000026964010064000dffffffff00000270740100640064650001640005c8000200000178010064000d
  ffffffff000001790100640019ffffffffffffffffffffffffffff640066650001640004c800640064650001640005c80002
  0000036b65790100640019ffffffff00000576616c7565010064000dffffffffffffffffffffffff640066650001640004c8
  00640064650001640005c800020000036b6579010064000dffffffff00000576616c75650100640019ffffffffffffffffff
  ffffff64006c650001640009c80064000dffffc90003ffffffff66000d640001650008050000000000000066003001000000
  000000000000000000000080000000000000000000000000000000002a000000000000000000000000000000ffff64000165
  00080500000000000000660030ffffffffffffffffffffffffffffffff000000000000000000000000000000000000000000
  0000000000000000000000ffff64000165000805000000000000006600308c288628630f228ac340051ca95c184800000000
  000000000000000000000000ffffffffffffffffffffffffffffff7fffff64000165000805000000000000006600300e0000
  000300000020aa44000000000000000000000000000000000000000000ffffffff00000000ffffffffffffffffffff640001
  6500080500000000000000660018a79300c0631a7b0a00000000000000000fef000100000000ffff64000165000805000000
  00000000660018157371e6f028000000000000000000000100000000000000ffff6400016500080500000000000000660003
  0307feb6000207ffffff6400016500080500000000000000680003690003640000650003ffff640003650000ffff64000365
  0000ffff6a00640001650008050000000000000066000c010000000000000003000000ffffffff6400016500080500000000
  000000680003690003640000650002ffff640002650000ffff640002650001ffff6a00640001650008050000000000000068
  0001690003640000650001ffff640001650000ffff640001650000ffff6a0064000066000401000000ffffffffffff640001
  6500080500000000000000670002640001650008010000000000000066000c070000000000000000000000ffff6400016500
  080100000000000000670002640001650008010000000000000066000c010000000000000000000000ffff64000165000801
  0000000000000066000301610000ffffffffffff6400016500080500000000000000680002690003640000650002ffff6400
  02650000ffff640002650000ffff6a0064000067000264000066000201610162ffff64000165000801000000000000006600
  080100000000000000ffffffffffff6400016500080300000000000000680001690003640000650001ffff640001650000ff
  ff640001650000ffff6a006400006700026400006600040a000000ffff6400006600010374656effffffffffff6400016500
  0805000000000000006700036800640001650008c50100000000000066002401000000000000000300000000000000000000
  0000000000000000000000000000000000ffffff"%string.

(** testdata/corpus/malformed/rowcount-implausible.bin *)
Definition malformed_rowcount_implausible : bytes := unhex "
  6400808040ffff"%string.

(** testdata/corpus/malformed/vector-count-mismatch.bin *)
Definition malformed_vector_count_mismatch : bytes := unhex "
  64000165000164000dffff66000264000066000401000000ffff64000066000401000000ffffffff"%string.

(** testdata/corpus/malformed/missing-vector.bin *)
Definition malformed_missing_vector : bytes := unhex "
  64000165000164000dffff660000ffff"%string.

(** testdata/corpus/malformed/short-data.bin *)
Definition malformed_short_data : bytes := unhex "
  64000265000164000dffff66000164000066000401000000ffffffff"%string.

(** testdata/corpus/malformed/short-validity.bin *)
Definition malformed_short_validity : bytes := unhex "
  64006465000164000dffff660001640001650001ff6600900300000000000000000000000000000000000000000000000000
  0000000000000000000000000000000000000000000000000000000000000000000000000000000000000000000000000000
  0000000000000000000000000000000000000000000000000000000000000000000000000000000000000000000000000000
  0000000000000000000000000000000000000000000000000000000000000000000000000000000000000000000000000000
  0000000000000000000000000000000000000000000000000000000000000000000000000000000000000000000000000000
  0000000000000000000000000000000000000000000000000000000000000000000000000000000000000000000000000000
  0000000000000000000000000000000000000000000000000000000000000000000000000000000000000000000000000000
  0000000000000000000000000000000000000000000000000000000000000000000000000000000000000000000000000000
  00000000000000000000000000000000000000000000000000ffffffff"%string.

(** testdata/corpus/malformed/sel-out-of-range.bin *)
Definition malformed_sel_out_of_range : bytes := unhex "
  640001650001640019ffff6600015a00035b0004070000005c000264000066000201610162ffffffff"%string.

(** testdata/corpus/malformed/oversized-list-size.bin *)
Definition malformed_oversized_list_size : bytes := unhex "
  640001650001640065650001640004c80064000dffffffffffff66000164000068008080808004ffffffff"%string.

(** testdata/corpus/malformed/list-entry-out-of-range.bin *)
Definition malformed_list_entry_out_of_range : bytes := unhex "
  640001650001640065650001640004c80064000dffffffffffff660001640000680003690001640005650005ffff6a006400
  0066000c010000000200000003000000ffffffffffff"%string.

(** testdata/corpus/malformed/struct-child-mismatch.bin *)
Definition malformed_struct_child_mismatch : bytes := unhex "
  640001650001640064650001640005c8000200000161010064000dffffffff00000162010064000dffffffffffffffff6600
  0164000067000164000066000401000000ffffffffffff"%string.

(** testdata/corpus/malformed/bit-bad-padding.bin *)
Definition malformed_bit_bad_padding : bytes := unhex "
  640001650001640024ffff6600016400006600010209ffffffffff"%string.

(** testdata/corpus/malformed/unknown-field.bin *)
Definition malformed_unknown_field : bytes := unhex "
  6400014d0009ffff"%string.

(** ** The captured session *)

(** The envelope and the request of the official client are read, and written
    back byte for byte. *)
Definition official_request : ConnectionRequest :=
  MkConnectionRequest (str "demo-token") (str "v1.5.4") (str "osx_arm64") 1 1.

Lemma captured_connect_reads :
  exists hdr body, SplitEnvelope captured_connect = Ok (hdr, body) /\
    hdr = MkHeader MsgConnectionRequest [] 4 /\
    DecodeConnectionRequest body = Ok official_request /\
    EncodeEnvelope hdr (ConnectionRequest_Encode official_request) = captured_connect.
Proof. eexists _, _. split; [by vm_compute|]. split; [done|]. split; by vm_compute. Qed.

(** The server's answer, with the connection id the session uses from then on. *)
Definition captured_id : bytes := str "497D7D4F4E953FA2171F176822966061".
Definition official_response : ConnectionResponse := MkConnectionResponse (str "v1.5.4") (str "osx_arm64") 1.

Lemma captured_connected_reads :
  exists hdr body, SplitEnvelope captured_connected = Ok (hdr, body) /\
    hdr = MkHeader MsgConnectionResponse captured_id OptionalIdxAbsent /\
    DecodeConnectionResponse body = Ok official_response /\
    EncodeEnvelope hdr (ConnectionResponse_Encode official_response) = captured_connected.
Proof. eexists _, _. split; [by vm_compute|]. split; [done|]. split; by vm_compute. Qed.

Lemma captured_query_reads :
  exists body sql, SplitEnvelope captured_query = Ok (MkHeader MsgPrepareRequest captured_id 4, body) /\
    sql = str "SELECT product, sum(total) AS revenue FROM sales GROUP BY 1 ORDER BY 2 DESC" /\
    DecodePrepareRequest body = Ok (MkPrepareRequest sql) /\
    EncodeEnvelope (MkHeader MsgPrepareRequest captured_id 4) (PrepareRequest_Encode (MkPrepareRequest sql))
      = captured_query.
Proof. eexists _, _. split; [by vm_compute|]. split; [reflexivity|]. split; by vm_compute. Qed.

(** A goodbye and its acknowledgement have no body but the terminator. *)
Lemma captured_goodbye_reads :
  SplitEnvelope captured_goodbye = Ok (MkHeader MsgDisconnect captured_id OptionalIdxAbsent, Writer.End_) /\
  SplitEnvelope captured_success = Ok (MkHeader MsgSuccess [] OptionalIdxAbsent, Writer.End_).
Proof. split; by vm_compute. Qed.

Lemma captured_refused_reads :
  exists body, SplitEnvelope captured_refused = Ok (MkHeader MsgError [] OptionalIdxAbsent, body) /\
    DecodeErrorMessage body = Ok (MkErrorMessage (str "Authentication failed")).
Proof. eexists. split; [by vm_compute|]. by vm_compute. Qed.

(** The answer to the query, its decimals as text. *)
Definition revenue_cell (c : outcome cerr any) : option bytes :=
  match c with
  | Ok (VString s) => Some s
  | Ok (VDecimal d) => Some (Decimal_String d)
  | _ => None
  end.

Lemma captured_revenue_reads :
  exists pr, decodeFrame captured_revenue = Some pr /\ NeedsMoreFetch pr = false /\
    column_names pr = [(str "product", Ok (str "VARCHAR")); (str "revenue", Ok (str "DECIMAL(38,2)"))] /\
    map (map revenue_cell) (frameRows pr) =
      [[Some (str "waders"); Some (str "89.00")]; [Some (str "decoy"); Some (str "69.00")];
       [Some (str "duck call"); Some (str "59.97")]; [Some (str "pond snacks"); Some (str "4.25")]].
Proof. eexists. split; [by vm_compute|]. split; [done|]. split; by vm_compute. Qed.

(** ** The captured frames *)

Lemma tier2_schema :
  column_names <$> decodeFrame frame_tier2 = Some
    [(str "id", Ok (str "INTEGER")); (str "li", Ok (str "INTEGER[]"));
     (str "st", Ok (str "STRUCT(id INTEGER, pt STRUCT(x INTEGER, y VARCHAR))"));
     (str "m", Ok (str "MAP(VARCHAR, INTEGER)")); (str "arr", Ok (str "INTEGER[3]"));
     (str "h", Ok (str "HUGEINT")); (str "uh", Ok (str "UHUGEINT")); (str "u", Ok (str "UUID"));
     (str "iv", Ok (str "INTERVAL")); (str "ttz", Ok (str "TIMETZ")); (str "tns", Ok (str "TIME_NS"));
     (str "bits", Ok (str "BIT"))].
Proof. by vm_compute. Qed.

(** One row of values, one of NULLs, one of edge values. *)
Lemma tier2_rows :
  frameRows <$> decodeFrame frame_tier2 = Some (map (map Ok)
    [[VInt32 1; VSlice [VInt32 1; VNil; VInt32 3];
      VStruct [MkEntry (str "id") (VInt32 7);
               MkEntry (str "pt") (VStruct [MkEntry (str "x") (VInt32 1); MkEntry (str "y") (VString (str "a"))])];
      VMap [MkMapEntry (VString (str "a")) (VInt32 1); MkMapEntry (VString (str "b")) VNil];
      VSlice [VInt32 1; VNil; VInt32 3];
      VBigInt 170141183460469231731687303715884105727;
      VBigInt 340282366920938463463374607431768211455;
      VUUID (unhex "c8185ca91c0540c38a220f632886288c");
      VInterval (MkInterval 14 3 4500000); VTimeTZ (MkTimeTZ 45015000000 19800);
      VTimeNS 45015123456789; VString (str "010110110")];
     VInt32 2 :: replicate 11 VNil;
     [VInt32 3; VSlice []; VStruct [MkEntry (str "id") VNil; MkEntry (str "pt") VNil]; VMap [];
      VSlice [VInt32 0; VInt32 0; VInt32 0];
      VBigInt (-170141183460469231731687303715884105727); VBigInt 0; VUUID (replicate 16 (bz 0));
      VInterval (MkInterval (-1) 0 0); VTimeTZ (MkTimeTZ 1 (-3600)); VTimeNS 1; VString (str "1")]]).
Proof. by vm_compute. Qed.

Lemma listlist_rows :
  frameRows <$> decodeFrame frame_listlist = Some (map (map Ok)
    [[VInt32 1; VSlice [VSlice [VInt32 1]; VNil]]; [VInt32 2; VNil]; [VInt32 3; VSlice [VSlice []]]]).
Proof. by vm_compute. Qed.

Lemma mapint_rows :
  column_names <$> decodeFrame frame_mapint =
    Some [(str "id", Ok (str "INTEGER")); (str "mi", Ok (str "MAP(INTEGER, VARCHAR)"))] /\
  frameRows <$> decodeFrame frame_mapint = Some (map (map Ok)
    [[VInt32 1; VMap [MkMapEntry (VInt32 10) (VString (str "ten"))]]; [VInt32 2; VNil]]).
Proof. split; by vm_compute. Qed.

(** A UNION is an error of its own column; its neighbours decode. *)
Lemma union_rows :
  exists t, ID t = TypeUnion /\ frameRows <$> decodeFrame frame_union =
    Some [[Ok (VInt32 1); Err (ErrUnsupportedType t); Ok (VString (str "neighbor"))]].
Proof. eexists. split; [|by vm_compute]. done. Qed.

(** ** The malformed chunks *)

(** The error below the column it is reported for. *)
Definition cause {A} (o : outcome cerr A) : option cerr :=
  match o with
  | Err (EColumn _ e) => Some e
  | Err e => Some e
  | _ => None
  end.

Lemma malformed_refused :
  fmap (fun b => cause (DecodeChunk b))
    [malformed_truncated_mid; malformed_truncated_tail; malformed_rowcount_implausible;
     malformed_vector_count_mismatch; malformed_missing_vector; malformed_short_data;
     malformed_short_validity; malformed_sel_out_of_range; malformed_oversized_list_size;
     malformed_list_entry_out_of_range; malformed_struct_child_mismatch; malformed_bit_bad_padding;
     malformed_unknown_field] =
  fmap Some
    [ECount "mask bytes for rows" 0 3; EQser ErrTruncated; EImplausible "row count" (2 ^ 20);
     ECount "columns for types" 2 1; ECount "columns for types" 0 1; ECount "data bytes for rows" 4 2;
     ECount "mask bytes for rows" 1 100; EDictIndex 7 2; EImplausible "list size" (2 ^ 30);
     EListEntry 5 5 3; ECount "children for fields" 1 2; EBit 9 1; EMissingField "types"]%string.
Proof. by vm_compute. Qed.
