(* ===== verification/Rows.v ===== *)
(** * driver/rows.go: decoded values as database/sql values

    [toDriverValue], [appendJSON] and their helpers, and [rows] as the state of
    an iteration over the pulled chunks.  [strconv.FormatFloat] of a finite
    float is a parameter; float conversions are written on the IEEE bits. *)

From S2P Require Import Prelude Qser LogicalType GoFmt Values Vector Chunk CodecTypes Codectest CodecRoundtrip.
From S2P Require Import Interpolate Json Messages Stream TypeName.

(** ** Conversions *)

(** [float64(x)] of the float32 with these bits; a NaN becomes quiet. *)
Definition widen_float (b : Z) : Z :=
  let s := Z.shiftl (Z.shiftr b 31) 63 in
  let e := Z.shiftr b 23 mod 256 in
  let f := b mod 2 ^ 23 in
  if e =? 255 then s + Z.shiftl 2047 52 + (if f =? 0 then 0 else Z.shiftl (Z.lor f (2 ^ 22)) 29)
  else if e =? 0 then
    if f =? 0 then s
    else let k := Z.log2 f in s + Z.shiftl (k - 149 + 1023) 52 + Z.shiftl (f - 2 ^ k) (52 - k)
  else s + Z.shiftl (e - 127 + 1023) 52 + Z.shiftl f 29.

(** 1.5, the smallest subnormal, minus infinity. *)
Lemma widen_checks :
  widen_float 0x3FC00000 = 0x3FF8000000000000 /\ widen_float 1 = 0x36A0000000000000 /\
  widen_float 0xFF800000 = 0xFFF0000000000000.
Proof. by vm_compute. Qed.

Inductive rerr : Type :=
  | ENoMapping                       (** no driver.Value mapping *)
  | EValueIs (t : LogicalType)       (** the value is not of the type's shape *)
  | ENoRendering                     (** no JSON rendering *)
  | ECell (e : cerr)                 (** [Chunk.Value] *)
  | EStream (e : derr)               (** the second value of the stream *)
  | EEOF.                            (** [io.EOF] *)

Definition nested (id : Z) : bool := is_one_of id [TypeList; TypeArray; TypeStruct; TypeMap].

(** The second switch of [toDriverValue]. *)
Definition scalarValue (v : any) : outcome rerr dvalue :=
  match v with
  | VNil => Ok DNil
  | VBool b => Ok (DBool b)
  | VInt64 z | VInt8 z | VInt16 z | VInt32 z | VUint8 z | VUint16 z | VUint32 z => Ok (DInt z)
  | VUint64 z => Ok (if 2 ^ 63 - 1 <? z then DString (itoa z) else DInt z)
  | VFloat32 bits => Ok (DFloat (widen_float bits))
  | VFloat64 bits => Ok (DFloat bits)
  | VString s => Ok (DString s)
  | VBytes b => Ok (DBytes b)
  | VBigInt z => Ok (if in_sb 64 z then DInt z else DString (itoa z))
  | VDecimal d => Ok (DString (Decimal_String d))
  | VTime t => Ok (DString (Time_String t))
  | VTimeNS t => Ok (DString (TimeNS_String t))
  | VTimeTZ t => Ok (DString (TimeTZ_String t))
  | VInterval iv => Ok (DString (Interval_String iv))
  | VUUID u => Ok (DString (UUID_String u))
  | VInstant t => Ok (DTime t)
  | VSlice _ | VStruct _ | VMap _ => Err ENoMapping
  end.

(** [toDriverValue], given [appendJSON] for the type. *)
Definition driverValueWith (json : any -> outcome rerr bytes) (id : Z) (v : any) : outcome rerr dvalue :=
  if nested id then
    match v with
    | VNil => Ok DNil
    | _ => let! b := json v in Ok (DString b)
    end
  else scalarValue v.

Definition jsonNumberSafe (id : Z) : bool := is_one_of id [TypeDecimal; TypeHugeint; TypeUHugeint; TypeUBigint].

Definition appendJSONString (s : bytes) : bytes := json_string s.

(** ["2006-01-02"] and ["15:04:05.999999999"] of a UTC time. *)
Definition format_date (t : time) : bytes :=
  let '(y, m, d) := civil (t_sec t / 86400) in
  fmt_year y ++ str "-" ++ fmt_0d 2 m ++ str "-" ++ fmt_0d 2 d.

Definition format_clock (t : time) : bytes :=
  let s := t_sec t mod 86400 in
  fmt_0d 2 (s / 3600) ++ str ":" ++ fmt_0d 2 (s / 60 mod 60) ++ str ":" ++ fmt_0d 2 (s mod 60) ++
  fracString (t_nsec t) 9.

Definition timeString (id : Z) (ts : time) : bytes :=
  if id =? TypeDate then format_date ts
  else if id =? TypeTimestampTZ then format_date ts ++ str " " ++ format_clock ts ++ str "+00"
  else format_date ts ++ str " " ++ format_clock ts.

(** [for i, e := range l] with an early return of an error. *)
Fixpoint omap_all {E A B} (f : A -> outcome E B) (l : list A) : outcome E (list B) :=
  match l with
  | [] => Ok []
  | a :: l => let! b := f a in let! bs := omap_all f l in Ok (b :: bs)
  end.

Section Floats.
Context (formatFloat : Z -> bytes).

(** [strconv.FormatFloat(x, 'g', -1, 64)]. *)
Definition formatG (bits : Z) : bytes :=
  if isNaN bits then str "NaN"
  else if isInf bits 1 then str "+Inf"
  else if isInf bits (-1) then str "-Inf"
  else formatFloat bits.

Definition appendJSONFloat (bits : Z) : bytes :=
  if isInf bits 1 || isInf bits (-1) || isNaN bits then appendJSONString (formatG bits)
  else formatFloat bits.

(** [keyString]; the default case is [fmt.Sprint]: a [time.Time] prints with
    its [String] method, a [Decimal] with its own. *)
Definition keyString (v : dvalue) : bytes :=
  match v with
  | DString s => s
  | DBytes b => b
  | DInt z => itoa z
  | DFloat bits => formatG bits
  | DBool b => if b then str "true" else str "false"
  | DNil => str "null"
  | DTime t => format_date t ++ str " " ++ format_clock t ++ str " +0000 UTC"
  | DDecimal d => Decimal_String d
  | DOther => []
  end.

(** The scalar leaf of [appendJSON]. *)
Definition leafJSON (id : Z) (v : any) : outcome rerr bytes :=
  let! dv := scalarValue v in
  match dv with
  | DBool b => Ok (if b then str "true" else str "false")
  | DInt z => Ok (itoa z)
  | DFloat bits => Ok (appendJSONFloat bits)
  | DString s => Ok (if jsonNumberSafe id then s else appendJSONString s)
  | DBytes b => Ok (appendJSONString b)
  | DTime t => Ok (appendJSONString (timeString id t))
  | _ => Err ENoRendering
  end.

(** [appendJSON]: what it appends. *)
Fixpoint appendJSON (t : LogicalType) (v : any) {struct t} : outcome rerr bytes :=
  let '(MkType id _ _ child fields _ _) := t in
  match v with
  | VNil => Ok (str "null")
  | _ =>
      if (id =? TypeList) || (id =? TypeArray) then
        match v with
        | VSlice vals =>
            let! es := omap_all (fun e => match child with
                                          | Some c => appendJSON c e
                                          | None => Panic
                                          end) vals in
            Ok (str "[" ++ comma_separated es ++ str "]")
        | _ => Err (EValueIs t)
        end
      else if id =? TypeStruct then
        match v with
        | VStruct s =>
            if negb (length s =? length fields)%nat then Err (EValueIs t)
            else
              let! es :=
                (fix go (fs : list StructField) (s : list StructEntry) : outcome rerr (list bytes) :=
                   match fs, s with
                   | MkField _ ft :: fs, MkEntry n v :: s =>
                       let! j := appendJSON ft v in
                       let! js := go fs s in
                       Ok ((appendJSONString n ++ str ":" ++ j) :: js)
                   | _, _ => Ok []
                   end) fields s in
              Ok (str "{" ++ comma_separated es ++ str "}")
        | _ => Err (EValueIs t)
        end
      else if id =? TypeMap then
        match v, child with
        | VMap entries, Some (MkType _ _ _ _ [MkField _ kt; MkField _ vt] _ _) =>
            let! es := omap_all (fun '(MkMapEntry k v) =>
                let! key := driverValueWith (appendJSON kt) (ID kt) k in
                let! j := appendJSON vt v in
                Ok (appendJSONString (keyString key) ++ str ":" ++ j)) entries in
            Ok (str "{" ++ comma_separated es ++ str "}")
        | _, _ => Err (EValueIs t)
        end
      else leafJSON id v
  end.

Definition toDriverValue (t : LogicalType) (v : any) : outcome rerr dvalue :=
  driverValueWith (appendJSON t) (ID t) v.

(** ** The iteration *)

(** [rows]: the chunks still to pull and the error the stream ends with, the
    current chunk, the row in it, and whether [Close] was called. *)
Record rows := MkRows {
  r_chunks : list Chunk; r_end : option derr; r_chunk : option Chunk; r_row : Z; r_closed : bool }.

Definition newRows (chunks : list Chunk) (e : option derr) : rows := MkRows chunks e None 0 false.

(** The loop of [Next] that pulls until the current chunk has a row left:
    the chunk and the row, or how the pulling ended, and the state. *)
Fixpoint pull (chunks : list Chunk) (e : option derr) (cur : option Chunk) (row : Z) (closed : bool)
  : outcome rerr Chunk * rows :=
  match cur with
  | Some c =>
      if row <? RowCount c then (Ok c, MkRows chunks e cur row closed)
      else match chunks with
           | c' :: chunks => pull chunks e (Some c') 0 closed
           | [] => (Err (match e with Some e => EStream e | None => EEOF end), MkRows [] None cur row closed)
           end
  | None =>
      match chunks with
      | c' :: chunks => pull chunks e (Some c') 0 closed
      | [] => (Err (match e with Some e => EStream e | None => EEOF end), MkRows [] None cur row closed)
      end
  end.

(** The loop over [dest]: the cells of one row. *)
Definition rowValues (c : Chunk) (row : Z) (n : nat) : outcome rerr (list dvalue) :=
  omap_all (fun i =>
    match Chunk_Value c (Z.of_nat i) row with
    | Ok v => match cols c !! i with
              | Some col => toDriverValue (CType col) v
              | None => Panic
              end
    | Err e => Err (ECell e)
    | Panic => Panic
    end) (seq 0 n).

(** [Next] with a [dest] of [n] cells. *)
Definition Next (r : rows) (n : nat) : outcome rerr (list dvalue) * rows :=
  let '(c, r) := pull (r_chunks r) (r_end r) (r_chunk r) (r_row r) (r_closed r) in
  match c with
  | Ok c =>
      match rowValues c (r_row r) n with
      | Ok vs => (Ok vs, MkRows (r_chunks r) (r_end r) (r_chunk r) (r_row r + 1) (r_closed r))
      | Err e => (Err e, r)
      | Panic => (Panic, r)
      end
  | Err e => (Err e, r)
  | Panic => (Panic, r)
  end.

(** [Close]: [stop] ends the pulled iteration, once. *)
Definition rows_Close (r : rows) : rows :=
  if r_closed r then r else MkRows [] None (r_chunk r) (r_row r) true.

Definition Columns (s : list SchemaColumn) : list bytes := map SName s.

Definition ColumnTypeDatabaseTypeName (s : list SchemaColumn) (i : nat) : outcome cerr bytes :=
  match s !! i with Some c => TypeString (SType c) | None => Panic end.

End Floats.

(** ** Numbers *)

Lemma json_int_digits z : 0 <= z -> json_int (digits z) = true.
Proof.
  intros Hz. destruct (Z.eq_dec z 0) as [->|Hne]; [done|].
  destruct (digits_aux_head (S (Z.to_nat (Z.log2 z))) z []) as (d & l & E & Hd).
  { split; [lia|]. rewrite Nat2Z.inj_succ, Z2Nat.id by apply Z.log2_nonneg. apply Z.log2_spec. lia. }
  destruct (digits_spec z Hz) as (_ & _ & Hall). unfold digits in *. rewrite E in *. cbn [forallb] in Hall.
  apply andb_true_iff in Hall as [Hc Hl]. unfold json_int. destruct l as [|c l]; [done|].
  rewrite Hc, ub_digit by lia. rewrite (proj2 (Z.eqb_neq _ _)) by lia. cbn [negb andb]. exact Hl.
Qed.

(** Any prefix of an integer part is one. *)
Lemma json_int_take n s : json_int s = true -> (0 < n)%nat -> json_int (take n s) = true.
Proof.
  intros H Hn. destruct n as [|n]; [lia|]. destruct s as [|c [|c' s]]; [done|by destruct n|].
  cbn [json_int] in H. apply andb_true_iff in H as [[H1 H2]%andb_true_iff H3].
  cbn [take]. destruct n as [|n]; [done|]. cbn [take json_int]. rewrite H1, H2. cbn [forallb] in H3 |- *.
  apply andb_true_iff in H3 as [-> H3]. cbn [andb].
  apply forallb_forall. intros x Hx. apply (proj1 (forallb_forall _ _) H3).
  apply list_elem_of_In in Hx. apply list_elem_of_In. by eapply elem_of_take in Hx as (i & Hi & _); apply list_elem_of_lookup; exists i.
Qed.

(** [s] is the decimal numeral of [v] times ten to the [- scale], with exactly
    [scale] digits after the point. *)
Definition decimal_reads (s : bytes) (scale v : Z) : Prop :=
  exists ip fp, s = (if v <? 0 then str "-" else []) ++ ip ++ (if 0 <? scale then str "." ++ fp else []) /\
    json_int ip = true /\ forallb is_digit fp = true /\ Z.of_nat (length fp) = Z.max 0 scale /\
    dec_value (ip ++ fp) = Z.abs v.

Lemma itoa_reads z : decimal_reads (itoa z) 0 z.
Proof.
  exists (digits (Z.abs z)), []. rewrite !app_nil_r. unfold itoa.
  split.
  { rewrite ?app_nil_r. destruct (Z.ltb_spec z 0); [by rewrite Z.abs_neq by lia|by rewrite Z.abs_eq]. }
  split; [apply json_int_digits; lia|]. split; [done|]. split; [done|]. apply digits_spec. lia.
Qed.

Lemma Decimal_String_reads d : decimal_reads (Decimal_String d) (DScale d) (BigInt d).
Proof.
  unfold Decimal_String. set (v := BigInt d). clearbody v. set (scale := Z.to_nat (DScale d)).
  replace (if v <? 0 then - v else v) with (Z.abs v) by (destruct (Z.ltb_spec v 0); lia).
  destruct (digits_spec (Z.abs v)) as (Hv & Hne & Hd); [lia|]. pose proof (json_int_digits (Z.abs v)) as Hi.
  set (s := digits (Z.abs v)) in *. clearbody s. destruct (Z.ltb_spec 0 (DScale d)) as [Hs|Hs]; cycle 1.
  { exists s, []. rewrite (proj2 (Nat.leb_gt _ _)) by (destruct s; [done|cbn; lia]).
    rewrite (proj2 (Z.ltb_ge 0 (DScale d))), !app_nil_r by lia.
    split; [by destruct (v <? 0)|]. split; [apply Hi; lia|]. split; [done|]. split; [cbn; lia|done]. }
  set (p := if (length s <=? scale)%nat then pad0 (S scale) s else s).
  assert (Hp : dec_value p = Z.abs v /\ forallb is_digit p = true /\ (scale < length p)%nat /\
               json_int (take (length p - scale) p) = true).
  { unfold p. destruct (Nat.leb_spec (length s) scale).
    - rewrite dec_value_pad0, forallb_pad0, length_pad0. split; [done|]. split; [done|]. split; [lia|].
      replace (Nat.max (S scale) (length s) - scale)%nat with 1%nat by lia. unfold pad0.
      replace (S scale - length s)%nat with (S (scale - length s)) by lia. reflexivity.
    - split; [done|]. split; [done|]. split; [done|]. apply json_int_take; [apply Hi|]; lia. }
  destruct Hp as (Hv' & Hd' & Hl & Hi'). clearbody p.
  exists (take (length p - scale) p), (drop (length p - scale) p).
  rewrite (proj2 (Z.ltb_lt 0 (DScale d))) by lia.
  split; [by destruct (v <? 0)|]. split; [done|]. split.
  { rewrite <- (take_drop (length p - scale) p), forallb_app in Hd'. by apply andb_true_iff in Hd' as [_ ?]. }
  split; [rewrite length_drop; lia|]. by rewrite take_drop.
Qed.

Lemma decimal_reads_number s scale v : decimal_reads s scale v -> json_number s.
Proof.
  intros (ip & fp & -> & Hi & Hf & Hl & _).
  exists (if v <? 0 then str "-" else []), ip, (if 0 <? scale then str "." ++ fp else []), [].
  rewrite app_nil_r. split; [done|]. split; [destruct (v <? 0); auto|]. split; [done|]. split; [|done].
  destruct (Z.ltb_spec 0 scale); [|done]. cbn [str]. change (str "." ++ fp) with (bz 46 :: fp). cbn [json_frac].
  rewrite Hf. destruct fp as [|x fp]; [cbn in Hl; lia|done].
Qed.

(** ** Conversions of scalars *)

Lemma nested_cases id : nested id = false ->
  (id =? TypeList) = false /\ (id =? TypeArray) = false /\ (id =? TypeStruct) = false /\ (id =? TypeMap) = false.
Proof.
  unfold nested. cbn [is_one_of existsb]. by intros (-> & (-> & (-> & (-> & _)%orb_false_iff)%orb_false_iff)%orb_false_iff)%orb_false_iff.
Qed.

Lemma typed_not_nested strict t v : typed strict t v = true -> nested (ID t) = false ->
  match v with VSlice _ | VStruct _ | VMap _ => False | _ => True end.
Proof.
  destruct t as [id w sc child fields enum asize]. cbn [typed ID]. intros H (H1 & H2 & H3 & H4)%nested_cases.
  destruct v; try exact I; rewrite ?H1, ?H2, ?H3, ?H4 in H; cbn in H; done.
Qed.

(** C20: numbers, texts, blobs, booleans and instants cross to database/sql
    exactly: an integer of any width is an int64 when it fits and otherwise its
    decimal numeral, a DECIMAL is the numeral of its unscaled value with the
    point at its scale, and everything else listed is unchanged. *)
Theorem scalar_exact formatFloat strict t v :
  typed strict t v = true ->
  match v with
  | VInt8 z | VInt16 z | VInt32 z | VInt64 z | VUint8 z | VUint16 z | VUint32 z =>
      toDriverValue formatFloat t v = Ok (DInt z) /\ in_s 64 z
  | VUint64 z | VBigInt z =>
      (in_s 64 z /\ toDriverValue formatFloat t v = Ok (DInt z)) \/
      (~ in_s 64 z /\ exists s, toDriverValue formatFloat t v = Ok (DString s) /\ decimal_reads s 0 z)
  | VDecimal d => exists s, toDriverValue formatFloat t v = Ok (DString s) /\ decimal_reads s (Scale t) (BigInt d)
  | VNil => toDriverValue formatFloat t v = Ok DNil
  | VBool b => toDriverValue formatFloat t v = Ok (DBool b)
  | VFloat64 z => toDriverValue formatFloat t v = Ok (DFloat z)
  | VString s => toDriverValue formatFloat t v = Ok (DString s)
  | VBytes b => toDriverValue formatFloat t v = Ok (DBytes b)
  | VInstant i => toDriverValue formatFloat t v = Ok (DTime i)
  | _ => True
  end.
Proof.
  intros H. destruct t as [id w sc child fields enum asize].
  assert (Hn : forall i, (id =? i) = true -> nested i = false -> nested id = false).
  { intros i Hi Hx. by apply Z.eqb_eq in Hi as ->. }
  unfold toDriverValue, driverValueWith. cbn [ID Scale typed] in *.
  destruct v; try exact I; repeat rewrite ?andb_true_iff, ?in_sb_spec, ?in_ub_spec in H.
  - by destruct (nested id).
  - by rewrite (Hn _ H).
  - destruct H as [H Hr]. rewrite (Hn _ H) by done. split; [done|]. unfold in_s in *. lia.
  - destruct H as [H Hr]. rewrite (Hn _ H) by done. split; [done|]. unfold in_s in *. lia.
  - destruct H as [H Hr]. rewrite (Hn _ H) by done. split; [done|]. unfold in_s in *. lia.
  - destruct H as [H Hr]. rewrite (Hn _ H) by done. split; [done|]. unfold in_s in *. lia.
  - destruct H as [H Hr]. rewrite (Hn _ H) by done. split; [done|]. unfold in_s, in_u in *. lia.
  - destruct H as [H Hr]. rewrite (Hn _ H) by done. split; [done|]. unfold in_s, in_u in *. lia.
  - destruct H as [H Hr]. rewrite (Hn _ H) by done. split; [done|]. unfold in_s, in_u in *. lia.
  - destruct H as [H Hr]. rewrite (Hn _ H) by done. unfold in_s, in_u in *. cbn [scalarValue].
    destruct (Z.ltb_spec (2 ^ 63 - 1) z).
    + right. split; [lia|]. eexists. split; [done|]. apply itoa_reads.
    + left. split; [lia|done].
  - destruct H as [H _]. by rewrite (Hn _ H).
  - assert (Hs : nested id = false).
    { apply orb_true_iff in H as [[H|H]%orb_true_iff|H]; [by apply (Hn _ H)|..];
        apply andb_true_iff in H as [H _]; by apply (Hn _ H). }
    by rewrite Hs.
  - by rewrite (Hn _ H).
  - assert (Hs : nested id = false).
    { apply orb_true_iff in H as [H|H]; apply andb_true_iff in H as [H _]; by apply (Hn _ H). }
    rewrite Hs. cbn [scalarValue]. destruct (in_sb 64 z) eqn:E.
    + left. split; [by apply in_sb_spec|done].
    + right. split; [intros Hi%in_sb_spec; congruence|]. eexists. split; [done|]. apply itoa_reads.
  - destruct H as [H Hd]. rewrite (Hn _ H) by done. eexists. split; [done|].
    unfold decimal_typed in Hd. repeat rewrite andb_true_iff in Hd. destruct Hd as [[[[_ Hs] _] _] _].
    apply Z.eqb_eq in Hs. cbn [Scale] in Hs. rewrite <- Hs. apply Decimal_String_reads.
  - assert (Hs : nested id = false); [|by rewrite Hs].
    apply orb_true_iff in H as [H|H].
    + repeat rewrite andb_true_iff in H. destruct H as [[H _] _]. by apply (Hn _ H).
    + repeat rewrite andb_true_iff in H. destruct H as [[H _] _]. unfold is_one_of in H.
      apply existsb_exists in H as (i & Hi & ->%Z.eqb_eq). apply list_elem_of_In in Hi.
      unfold timestamp_ids in Hi. revert Hi. rewrite !elem_of_cons.
      intros [->|[->|[->|[->|[->|Hi]]]]]; [done..|]. by apply elem_of_nil in Hi.
Qed.

Lemma scalar_exact_witness :
  exists s, toDriverValue no_float (DecimalT 10 2) (VDecimal (NewDecimal 10 2 (-5))) = Ok (DString s) /\
    decimal_reads s 2 (-5).
Proof.
  apply (scalar_exact no_float true (DecimalT 10 2) (VDecimal (NewDecimal 10 2 (-5)))). vm_compute. reflexivity.
Defined.

(** ** Nested values as JSON *)

(** The outcome is a value that satisfies [P], or an error and [B]; never a
    panic. *)
Definition settled {E A} (P : A -> Prop) (B : Prop) (o : outcome E A) : Prop :=
  match o with Ok a => P a | Err _ => B | Panic => False end.

Lemma settled_bind {E A C} (P : A -> Prop) (Q : C -> Prop) (B : Prop) (o : outcome E A) (k : A -> outcome E C) :
  settled P B o -> (forall a, P a -> settled Q B (k a)) -> settled Q B (obind o k).
Proof. destruct o; cbn; auto. Qed.

Lemma settled_weaken {E A} (P P' : A -> Prop) (B B' : Prop) (o : outcome E A) :
  settled P B o -> (forall a, P a -> P' a) -> (B -> B') -> settled P' B' o.
Proof. destruct o; cbn; auto. Qed.

Lemma settled_omap {E A C} (f : A -> outcome E C) (P : C -> Prop) (B : Prop) (l : list A) :
  (forall a, a ∈ l -> settled P B (f a)) -> settled (fun bs => forall b, b ∈ bs -> P b) B (omap_all f l).
Proof.
  induction l as [|a l IH]; intros H; cbn [omap_all].
  - intros b Hb. by apply elem_of_nil in Hb.
  - eapply settled_bind; [apply H; left|]. intros b Hb.
    eapply settled_bind; [apply IH; intros x Hx; apply H; by right|]. intros bs Hbs x [->|Hx]%elem_of_cons; auto.
Qed.

(** Every MAP in the tree has a child with a key and a value field; the decoder
    does not ask for it. *)
Fixpoint maps_ok (t : LogicalType) : bool :=
  let '(MkType id _ _ child fields _ _) := t in
  if (id =? TypeList) || (id =? TypeArray) then match child with Some c => maps_ok c | None => true end
  else if id =? TypeStruct then
    (fix go (fs : list StructField) : bool :=
       match fs with [] => true | MkField _ ft :: fs => maps_ok ft && go fs end) fields
  else if id =? TypeMap then
    match child with
    | Some (MkType _ _ _ _ [MkField _ kt; MkField _ vt] _ _) => maps_ok kt && maps_ok vt
    | _ => false
    end
  else true.

(** Induction over type trees, through children and fields. *)
Lemma type_induction (P : LogicalType -> Prop) :
  (forall id w sc child fields enum a, (forall c, child = Some c -> P c) ->
     (forall f, f ∈ fields -> P (LogicalType.Type_ f)) -> P (MkType id w sc child fields enum a)) ->
  forall t, P t.
Proof.
  intros H. fix IH 1. intros [id w sc child fields enum a]. apply H.
  - destruct child as [c|]; intros c' E; [injection E as <-; apply IH|discriminate].
  - induction fields as [|[n ft] fs IHf]; intros f Hf; [apply elem_of_nil in Hf; destruct Hf|].
    apply elem_of_cons in Hf as [->|Hf]; [exact (IH ft)|exact (IHf f Hf)].
Qed.

Lemma encodable_maps n t : encodable n t -> maps_ok t = true.
Proof.
  induction 1 as [n id Hid|n w s _ _|n e _|n c _ IH|n kn kt vn vt _ IHk _ IHv|n fs _ IH|n c a _ IH _]; try done.
  - revert Hid. unfold is_one_of. intros (i & Hi & ->%Z.eqb_eq)%existsb_exists. unfold scalar_ids in Hi. cbn [In] in Hi.
    repeat destruct Hi as [<-|Hi]; try done.
  - cbn. by rewrite IHk, IHv.
  - cbn [maps_ok]. change ((TypeStruct =? TypeList) || (TypeStruct =? TypeArray)) with false.
    change (TypeStruct =? TypeStruct) with true. cbv iota.
    induction fs as [|[m ft] fs IHf]; [done|]. rewrite (IH (MkField m ft) ltac:(left) : maps_ok ft = true). apply IHf. intros f Hf. apply IH. by right.
Qed.

Section Json.
Context (formatFloat : Z -> bytes).

(** [FormatFloat] of a finite float is a JSON number. *)
Context (Hfloat : forall bits, isNaN bits = false -> isInf bits 1 = false -> isInf bits (-1) = false ->
                  json_number (formatFloat bits)).

(** What [appendJSON] makes of a value: JSON, or an error that only a MAP
    without a key and a value field explains. *)
Definition rendered (t : LogicalType) (v : any) : Prop :=
  settled json (maps_ok t = false) (appendJSON formatFloat t v).

Lemma json_of_string s : json (appendJSONString s).
Proof. apply json_str, json_string_literal. Qed.

Lemma json_of_float bits : json (appendJSONFloat formatFloat bits).
Proof.
  unfold appendJSONFloat. destruct (isInf bits 1) eqn:E1; [apply json_of_string|].
  destruct (isInf bits (-1)) eqn:E2; [apply json_of_string|]. destruct (isNaN bits) eqn:E3; [apply json_of_string|].
  cbn [orb]. by apply json_num, Hfloat.
Qed.

Lemma json_of_number s scale v : decimal_reads s scale v -> json s.
Proof. intros H. by eapply json_num, decimal_reads_number. Qed.

Lemma json_of_itoa z : json (itoa z).
Proof. eapply json_of_number, itoa_reads. Qed.

Lemma number_safe id i : (id =? i) = true -> jsonNumberSafe i = false -> jsonNumberSafe id = false.
Proof. by intros ->%Z.eqb_eq. Qed.

Lemma leaf_rendered strict t v : typed strict t v = true -> nested (ID t) = false -> v <> VNil ->
  exists j, leafJSON formatFloat (ID t) v = Ok j /\ json j.
Proof.
  intros H Hn Hv. pose proof (typed_not_nested _ _ _ H Hn) as Hs.
  assert (Hstr : forall i s, (ID t =? i) = true -> jsonNumberSafe i = false ->
            json (if jsonNumberSafe (ID t) then s else appendJSONString s)).
  { intros i s Hi Hx. rewrite (number_safe _ _ Hi Hx). apply json_of_string. }
  destruct t as [id w sc child fields enum asize]. cbn [ID typed] in *. unfold leafJSON.
  destruct v; try done; cbn [scalarValue obind];
    try (eexists; split; [reflexivity|]; first [apply json_of_itoa | apply json_of_float | apply json_of_string | apply (json_bool b)]).
  - destruct (2 ^ 63 - 1 <? z); cbn [obind].
    + eexists. split; [done|]. case_match; [apply json_of_itoa|apply json_of_string].
    + eexists. split; [done|]. apply json_of_itoa.
  - eexists. split; [done|]. apply orb_true_iff in H as [[H|H]%orb_true_iff|H];
      [|apply andb_true_iff in H as [H _]..]; by apply (Hstr _ _ H).
  - destruct (in_sb 64 z); cbn [obind].
    + eexists. split; [done|]. apply json_of_itoa.
    + eexists. split; [done|]. case_match; [apply json_of_itoa|apply json_of_string].
  - eexists. split; [done|]. case_match; [|apply json_of_string]. eapply json_of_number, Decimal_String_reads.
  - apply andb_true_iff in H as [H _]. eexists. split; [done|]. by apply (Hstr _ _ H).
  - apply andb_true_iff in H as [H _]. eexists. split; [done|]. by apply (Hstr _ _ H).
  - apply andb_true_iff in H as [[H _]%andb_true_iff _]. eexists. split; [done|]. by apply (Hstr _ _ H).
  - repeat rewrite andb_true_iff in H. destruct H as [[[H _] _] _]. eexists. split; [done|]. by apply (Hstr _ _ H).
  - apply andb_true_iff in H as [H _]. eexists. split; [done|]. by apply (Hstr _ _ H).
Qed.

Lemma appendJSON_leaf t v : nested (ID t) = false -> v <> VNil ->
  appendJSON formatFloat t v = leafJSON formatFloat (ID t) v.
Proof.
  destruct t as [id w sc child fields enum asize]. cbn [ID]. intros (H1 & H2 & H3 & H4)%nested_cases Hv.
  cbn [appendJSON]. rewrite H1, H2, H3, H4. by destruct v.
Qed.

Lemma rendered_nil t : rendered t VNil.
Proof. unfold rendered. destruct t. apply json_null. Qed.

Lemma rendered_leaf strict t v : typed strict t v = true -> nested (ID t) = false -> rendered t v.
Proof.
  intros H Hn. assert (Hd : v = VNil \/ v <> VNil) by (destruct v; auto). destruct Hd as [->|Hv]; [apply rendered_nil|].
  unfold rendered. rewrite appendJSON_leaf by done. by destruct (leaf_rendered _ _ _ H Hn Hv) as (j & -> & Hj).
Qed.

(** A member of an object. *)
Definition member (b : bytes) : Prop := exists k j, b = k ++ str ":" ++ j /\ json_literal k /\ json j.

Lemma json_members es : (forall b, b ∈ es -> member b) -> json (str "{" ++ comma_separated es ++ str "}").
Proof.
  intros H. assert (Hl : exists l, es = (fun kv => kv.1 ++ str ":" ++ kv.2) <$> l /\
    (forall kv, kv ∈ l -> json_literal kv.1 /\ json kv.2)).
  { induction es as [|b es IH]; [exists []; split; [done|]; intros kv Hkv; by apply elem_of_nil in Hkv|].
    destruct IH as (l & -> & Hl); [intros x Hx; apply H; by right|].
    destruct (H b) as (k & j & -> & Hk & Hj); [left|]. exists ((k, j) :: l). split; [done|].
    intros kv [->|Hkv]%elem_of_cons; [done|]. by apply Hl. }
  destruct Hl as (l & -> & Hl). apply json_object; intros kv Hkv; by apply Hl.
Qed.

Lemma member_of_string n j : json j -> member (appendJSONString n ++ str ":" ++ j).
Proof. intros Hj. exists (appendJSONString n), j. split; [done|]. split; [apply json_string_literal|done]. Qed.

(** The fields of a struct row, member by member. *)
Lemma struct_rendered strict fs s :
  (forall f, f ∈ fs -> forall v, typed strict (LogicalType.Type_ f) v = true -> rendered (LogicalType.Type_ f) v) ->
  (fix go (fs : list StructField) (s : list StructEntry) : bool :=
     match fs, s with
     | [], [] => true
     | MkField n ft :: fs, MkEntry n' v :: s => bool_decide (n' = n) && typed strict ft v && go fs s
     | _, _ => false
     end) fs s = true ->
  length s = length fs /\
  settled (fun es => forall b, b ∈ es -> member b)
    ((fix go (fs : list StructField) : bool :=
        match fs with [] => true | MkField _ ft :: fs => maps_ok ft && go fs end) fs = false)
    ((fix go (fs : list StructField) (s : list StructEntry) : outcome rerr (list bytes) :=
       match fs, s with
       | MkField _ ft :: fs, MkEntry n v :: s =>
           let! j := appendJSON formatFloat ft v in
           let! js := go fs s in
           Ok ((appendJSONString n ++ str ":" ++ j) :: js)
       | _, _ => Ok []
       end) fs s).
Proof.
  revert s. induction fs as [|[n ft] fs IH]; intros [|[n' v] s] Hf H; try done.
  - split; [done|]. intros b Hb. by apply elem_of_nil in Hb.
  - apply andb_true_iff in H as [[_ Hv]%andb_true_iff H].
    destruct (IH s) as (Hl & Hes); [intros f Hin; apply Hf; by right|done|].
    assert (Hr : rendered ft v) by (apply (Hf (MkField n ft)); [left|done]).
    split; [cbn; lia|]. eapply settled_bind; [apply (settled_weaken _ _ _ _ _ Hr); [exact (fun _ H => H)|by intros ->]|].
    intros j Hj. eapply settled_bind; [apply (settled_weaken _ _ _ _ _ Hes); [exact (fun _ H => H)|intros ->; apply andb_false_r]|].
    intros es Hm b [->|Hb]%elem_of_cons; [by apply member_of_string|by apply Hm].
Qed.

(** A key of a map: any driver value has a text. *)
Lemma key_ok strict kt k : typed strict kt k = true -> rendered kt k ->
  settled (fun _ => True) (maps_ok kt = false) (driverValueWith (appendJSON formatFloat kt) (ID kt) k).
Proof.
  intros Hk Hr. unfold driverValueWith. destruct (nested (ID kt)) eqn:En.
  - assert (Hs : settled (fun _ => True) (maps_ok kt = false) (let! b := appendJSON formatFloat kt k in Ok (E := rerr) (DString b))).
    { eapply settled_bind; [exact Hr|]. by intros. }
    by destruct k.
  - pose proof (typed_not_nested _ _ _ Hk En). by destruct k.
Qed.

Lemma map_entry_rendered strict kt vt k x :
  (forall v, typed strict kt v = true -> rendered kt v) -> (forall v, typed strict vt v = true -> rendered vt v) ->
  typed strict kt k = true -> typed strict vt x = true ->
  settled member (maps_ok kt && maps_ok vt = false)
    (let! key := driverValueWith (appendJSON formatFloat kt) (ID kt) k in
     let! j := appendJSON formatFloat vt x in
     Ok (E := rerr) (appendJSONString (keyString formatFloat key) ++ str ":" ++ j)).
Proof.
  intros IHk IHv Hk Hx. eapply settled_bind; [eapply settled_weaken; [by apply (key_ok strict), IHk|exact (fun _ H => H)|by intros ->]|].
  intros dv _. eapply settled_bind; [eapply settled_weaken; [by apply IHv|exact (fun _ H => H)|intros ->; apply andb_false_r]|].
  intros j Hj. by apply member_of_string.
Qed.

Definition fields_rendered (strict : bool) (t : LogicalType) : Prop :=
  forall f, f ∈ Fields t -> forall v, typed strict (LogicalType.Type_ f) v = true -> rendered (LogicalType.Type_ f) v.

Lemma list_rendered strict id w sc child fs enum a l : (id =? TypeList) || (id =? TypeArray) = true ->
  (forall c, child = Some c -> forall v, typed strict c v = true -> rendered c v) ->
  typed strict (MkType id w sc child fs enum a) (VSlice l) = true ->
  rendered (MkType id w sc child fs enum a) (VSlice l).
Proof.
  intros Hid IH Hv. unfold rendered. cbn [typed appendJSON maps_ok] in *. rewrite Hid in *.
  apply andb_true_iff in Hv as [_ Hv]. destruct child as [c|]; [|done].
  eapply settled_bind; [apply (settled_omap _ json)|].
  - intros e He. apply (IH c eq_refl). apply (proj1 (forallb_forall _ _) Hv). by apply list_elem_of_In.
  - intros es Hes. by apply json_array.
Qed.

Lemma struct_row_rendered strict w sc child fs enum a s :
  fields_rendered strict (MkType TypeStruct w sc child fs enum a) ->
  typed strict (MkType TypeStruct w sc child fs enum a) (VStruct s) = true ->
  rendered (MkType TypeStruct w sc child fs enum a) (VStruct s).
Proof.
  intros IH Hv. apply andb_true_iff in Hv as [_ Hv]. destruct (struct_rendered strict fs s IH Hv) as [Hl Hes].
  unfold rendered. cbn [appendJSON maps_ok]. change ((TypeStruct =? TypeList) || (TypeStruct =? TypeArray)) with false.
  change (TypeStruct =? TypeStruct) with true. cbv iota. rewrite Hl, Nat.eqb_refl. cbn [negb].
  eapply settled_bind; [exact Hes|]. intros es Hm. by apply json_members.
Qed.

Lemma map_rendered strict w sc child fs enum a l :
  (forall c, child = Some c -> fields_rendered strict c) ->
  typed strict (MkType TypeMap w sc child fs enum a) (VMap l) = true ->
  rendered (MkType TypeMap w sc child fs enum a) (VMap l).
Proof.
  intros IH Hv. apply andb_true_iff in Hv as [_ Hv].
  destruct child as [[cid cw csc cc [|[kn kt] [|[vn vt] [|f fs']]] ce ca]|]; try done.
  specialize (IH _ eq_refl). unfold rendered. cbn [appendJSON maps_ok].
  change ((TypeMap =? TypeList) || (TypeMap =? TypeArray)) with false. change (TypeMap =? TypeStruct) with false.
  change (TypeMap =? TypeMap) with true. cbv iota.
  eapply settled_bind; [apply (settled_omap _ member)|]; [|intros es Hm; by apply json_members].
  intros [k x] Hin. apply list_elem_of_In in Hin. apply (proj1 (forallb_forall _ _) Hv) in Hin.
  assert (Ht : typed strict kt k = true /\ typed strict vt x = true).
  { apply orb_true_iff in Hin as [Hin|Hin].
    - apply andb_true_iff in Hin as [Hin _]. by apply andb_true_iff in Hin.
    - apply andb_true_iff in Hin as [H1 H2]. destruct k, x; try done. by destruct kt, vt. }
  destruct Ht as [Hk Hx]. apply (map_entry_rendered strict); [|  |done..].
  - apply (IH (MkField kn kt)). left.
  - apply (IH (MkField vn vt)). right. left.
Qed.

(** Every decoded value, at any depth. *)
Lemma typed_rendered strict t v : typed strict t v = true -> rendered t v.
Proof.
  revert v. assert (H : (forall v, typed strict t v = true -> rendered t v) /\ fields_rendered strict t); [|apply H].
  induction t as [id w sc child fs enum a IHc IHf] using type_induction.
  assert (Hf : fields_rendered strict (MkType id w sc child fs enum a)) by (intros f Hf; by apply IHf).
  split; [|exact Hf]. intros v Hv. destruct (nested id) eqn:En; [|by apply (rendered_leaf strict)].
  assert (Hd : v = VNil \/ v <> VNil) by (destruct v; auto). destruct Hd as [->|Hne]; [apply rendered_nil|].
  unfold nested, is_one_of in En. apply existsb_exists in En as (i & Hi & ->%Z.eqb_eq). cbn [In] in Hi.
  repeat destruct Hi as [<-|Hi]; try done; destruct v; try done.
  - apply (list_rendered strict); [done| |done]. intros c E. by apply IHc.
  - apply (list_rendered strict); [done| |done]. intros c E. by apply IHc.
  - by apply (struct_row_rendered strict).
  - apply (map_rendered strict); [|done]. intros c E. by apply IHc.
Qed.

(** C15: every decoded value of a nested type crosses to database/sql as one
    JSON text: for a type whose MAPs, at any depth, have a key and a value field
    and a value the decoder can give it, [toDriverValue] succeeds, and on a
    LIST, ARRAY, STRUCT or MAP that is not NULL its string is in the grammar of
    JSON. *)
Theorem nested_as_json strict t v : maps_ok t = true -> typed strict t v = true ->
  nested (ID t) = true -> v <> VNil ->
  exists j, toDriverValue formatFloat t v = Ok (DString j) /\ json j.
Proof.
  intros Ht Hv Hn Hne. pose proof (typed_rendered strict t v Hv) as Hr. unfold rendered in Hr.
  unfold toDriverValue, driverValueWith. rewrite Hn.
  destruct (appendJSON formatFloat t v) as [j|e|]; [|cbn in Hr; congruence|done].
  exists j. split; [by destruct v|exact Hr].
Qed.

End Json.

Lemma nested_as_json_witness :
  exists j, toDriverValue (fun _ => str "0.5") (MkType TypeList 0 0 (Some (DecimalT 10 2)) [] [] 0)
      (VSlice [VDecimal (NewDecimal 10 2 (-5)); VNil]) = Ok (DString j) /\ json j.
Proof.
  apply (nested_as_json (fun _ => str "0.5")) with (strict := true).
  - intros bits _ _ _. exists [], (str "0"), (str ".5"), []. repeat split; auto.
  - reflexivity.
  - vm_compute. reflexivity.
  - reflexivity.
  - discriminate.
Defined.

(** C40: a text or blob written as a JSON string reads back as itself if it is
    UTF-8, and in any case with each byte outside the encoding read back as the
    replacement character: two blobs can render alike, and do in nested values. *)
Theorem json_text_exact s :
  (exists body, appendJSONString s = [jquote] ++ body ++ [jquote] /\ json_read body = Some (scrub s)) /\
  (utf8_valid s = true -> scrub s = s) /\
  toDriverValue no_float (MkType TypeList 0 0 (Some (T TypeBlob)) [] [] 0) (VSlice [VBytes [bz 255]]) =
  toDriverValue no_float (MkType TypeList 0 0 (Some (T TypeBlob)) [] [] 0) (VSlice [VBytes [bz 254]]).
Proof.
  split; [exists (json_body s); split; [done|apply json_read_body]|]. split; [apply scrub_valid|]. by vm_compute.
Qed.

(** A DATE inside a LIST renders as a date, but as the key of a MAP it
    renders as Go prints an instant. *)
Theorem date_key_differs :
  toDriverValue no_float (MkType TypeList 0 0 (Some (T TypeDate)) [] [] 0) (VSlice [VInstant (dateValue 0)]) =
    Ok (DString ([bz 91] ++ json_string (str "1970-01-01") ++ [bz 93])) /\
  toDriverValue no_float
    (MkType TypeMap 0 0 (Some (MkType TypeStruct 0 0 None
       [MkField (str "key") (T TypeDate); MkField (str "value") (T TypeInteger)] [] 0)) [] [] 0)
    (VMap [MkMapEntry (VInstant (dateValue 0)) (VInt32 1)]) =
    Ok (DString ([bz 123] ++ json_string (str "1970-01-01 00:00:00 +0000 UTC") ++ str ":1" ++ [bz 125])).
Proof. by vm_compute. Qed.

(** ** The iteration *)

Section Iteration.
Context (formatFloat : Z -> bytes) (n : nat).

Abbreviation next := (fun r => Next formatFloat r n).

(** The rows of a chunk, each as [Next] gives it. *)
Definition rows_of (c : Chunk) : list (outcome rerr (list dvalue)) :=
  (fun i => rowValues formatFloat c (Z.of_nat i) n) <$> seq 0 (Z.to_nat (RowCount c)).

Definition ending_error (e : option derr) : rerr := match e with Some e => EStream e | None => EEOF end.

(** What a caller sees of [l]: the rows up to the first failure, and it. *)
Fixpoint until_error (l : list (outcome rerr (list dvalue))) (e : rerr) : list (list dvalue) * outcome rerr unit :=
  match l with
  | [] => ([], Err e)
  | Ok vs :: l => let '(rs, x) := until_error l e in (vs :: rs, x)
  | Err e' :: _ => ([], Err e')
  | Panic :: _ => ([], Panic)
  end.

(** The loop of a caller: [Next] until it does not give a row. *)
Fixpoint drain (fuel : nat) (r : rows) : list (list dvalue) * outcome rerr unit :=
  match fuel with
  | O => ([], Ok tt)
  | S fuel =>
      match next r with
      | (Ok vs, r') => let '(rs, x) := drain fuel r' in (vs :: rs, x)
      | (Err e, _) => ([], Err e)
      | (Panic, _) => ([], Panic)
      end
  end.

(** The rows still to come in a state of the iteration. *)
Definition remaining_rows (r : rows) : list (outcome rerr (list dvalue)) :=
  match r_chunk r with Some c => drop (Z.to_nat (r_row r)) (rows_of c) | None => [] end ++
  concat (rows_of <$> r_chunks r).

Lemma rows_of_drop c row : 0 <= row < RowCount c ->
  drop (Z.to_nat row) (rows_of c) = rowValues formatFloat c row n :: drop (Z.to_nat (row + 1)) (rows_of c).
Proof.
  intros H. replace (Z.to_nat (row + 1)) with (S (Z.to_nat row)) by lia. apply drop_S.
  unfold rows_of. rewrite list_lookup_fmap, lookup_seq_lt by lia. cbn. by rewrite Z2Nat.id by lia.
Qed.

Lemma rows_done c row : RowCount c <= row -> drop (Z.to_nat row) (rows_of c) = [].
Proof. intros Hc. apply drop_ge. unfold rows_of. rewrite length_fmap, length_seq. lia. Qed.

Lemma pull_spec chunks e cur row closed : 0 <= row ->
  match remaining_rows (MkRows chunks e cur row closed) with
  | [] => fst (pull chunks e cur row closed) = Err (ending_error e)
  | x :: l => exists c r, pull chunks e cur row closed = (Ok c, r) /\ r_end r = e /\ 0 <= r_row r /\
      r_chunk r = Some c /\ x = rowValues formatFloat c (r_row r) n /\
      l = drop (Z.to_nat (r_row r + 1)) (rows_of c) ++ concat (rows_of <$> r_chunks r)
  end.
Proof.
  revert cur row. induction chunks as [|c' chunks IH]; intros cur row Hrow.
  - unfold remaining_rows. cbn [r_chunk r_row r_chunks fmap list_fmap concat]. rewrite app_nil_r.
    destruct cur as [c|]; [|by destruct e]. cbn [pull]. destruct (Z.ltb_spec row (RowCount c)).
    + rewrite rows_of_drop by lia. eexists _, _. split; [done|]. cbn. rewrite app_nil_r. by repeat split.
    + rewrite rows_done by lia. by destruct e.
  - specialize (IH (Some c') 0). unfold remaining_rows in *. cbn [r_chunk r_row r_chunks fmap list_fmap concat] in *.
    rewrite drop_0 in IH. pose proof (IH (Z.le_refl 0)) as IH'.
    destruct cur as [c|]; cbn [pull]; [|exact IH']. destruct (Z.ltb_spec row (RowCount c)).
    + rewrite rows_of_drop by lia. eexists _, _. split; [done|]. cbn. by repeat split.
    + rewrite rows_done by lia. exact IH'.
Qed.

Lemma drain_spec fuel r : 0 <= r_row r -> (length (remaining_rows r) < fuel)%nat ->
  drain fuel r = until_error (remaining_rows r) (ending_error (r_end r)).
Proof.
  revert r. induction fuel as [|fuel IH]; intros r Hrow Hf; [lia|]. cbn [drain].
  destruct r as [chunks e cur row closed]. cbn [r_row r_end] in *.
  pose proof (pull_spec chunks e cur row closed Hrow) as Hp. unfold Next. cbn [r_chunks r_end r_chunk r_row r_closed].
  destruct (remaining_rows (MkRows chunks e cur row closed)) as [|x l].
  - destruct (pull chunks e cur row closed) as [c r]. cbn [fst] in Hp. subst c. done.
  - destruct Hp as (c & r & -> & He & Hr & Hc & -> & ->). cbn [until_error].
    destruct (rowValues formatFloat c (r_row r) n) as [vs|e'|]; [|done|done].
    rewrite IH; unfold remaining_rows in *; cbn [r_row r_end r_chunk r_chunks] in *; rewrite ?Hc, ?He; [done|lia|].
    cbn [length] in Hf. lia.
Qed.

(** C19: a caller of [Next] receives every row of every chunk, in order, once,
    empty chunks skipped, up to the first cell error; after the last row it
    receives the stream's own error, or [io.EOF] if the stream has none: a
    failed stream never looks like a complete one. *)
Theorem rows_drain chunks e :
  drain (S (length (concat (rows_of <$> chunks)))) (newRows chunks e) =
  until_error (concat (rows_of <$> chunks)) (match e with Some e => EStream e | None => EEOF end).
Proof.
  rewrite drain_spec; [done|done|]. unfold remaining_rows, newRows. cbn [r_chunk r_chunks app]. lia.
Qed.

End Iteration.
