(* ===== verification/RowsTyped.v ===== *)
(** * What a database/sql caller gets of a decoded result

    The composition of the codec and the driver: every cell of a chunk the
    decoder accepted, as [Next] hands it over, has the driver type its column's
    type has, and the only errors are the columns' own and that of a missing column. *)

From stdpp Require Import list.
From S2P Require Import Prelude Qser LogicalType GoFmt Values Vector Chunk CodecTypes CodecSafe Codectest CodecRoundtrip.
From S2P Require Import Interpolate Json Messages Stream TypeName Rows.

(** The type of [driver.Value] of each logical type: one that crosses exactly,
    or a string; an integer too wide for int64 is a string too. *)
Definition driver_typed (id : Z) (v : dvalue) : bool :=
  match v with
  | DNil => true
  | DBool _ => id =? TypeBoolean
  | DInt z =>
      is_one_of id [TypeTinyint; TypeSmallint; TypeInteger; TypeBigint; TypeUTinyint; TypeUSmallint; TypeUInteger;
                    TypeUBigint; TypeHugeint; TypeUHugeint] && in_sb 64 z
  | DFloat _ => is_one_of id [TypeFloat; TypeDouble]
  | DString _ =>
      is_one_of id [TypeVarchar; TypeEnum; TypeBit; TypeDecimal; TypeUBigint; TypeHugeint; TypeUHugeint; TypeTime;
                    TypeTimeNS; TypeTimeTZ; TypeInterval; TypeUUID] || nested id
  | DBytes _ => id =? TypeBlob
  | DTime _ => is_one_of id (TypeDate :: timestamp_ids)
  | DDecimal _ | DOther => false
  end.

Lemma is_one_of_eq id i l : (id =? i) = true -> is_one_of i l = true -> is_one_of id l = true.
Proof. by intros ->%Z.eqb_eq. Qed.

(** Cells of scalar types. *)
Lemma scalar_driver_typed t v : typed false t v = true -> nested (ID t) = false ->
  settled (fun dv => driver_typed (ID t) dv = true) False (scalarValue v).
Proof.
  intros H Hn. pose proof (typed_not_nested _ _ _ H Hn) as Hs. destruct t as [id w sc child fields enum a].
  cbn [ID typed] in *. destruct v; try done; cbn [scalarValue settled driver_typed];
    try (repeat rewrite ?andb_true_iff, ?in_sb_spec, ?in_ub_spec in H; destruct H as [H Hr]; rewrite (is_one_of_eq _ _ _ H) by done;
         apply in_sb_spec; unfold in_s, in_u in *; lia).
  - apply andb_true_iff in H as [H Hr]. apply in_ub_spec in Hr. unfold in_u in Hr.
    destruct (Z.ltb_spec (2 ^ 63 - 1) z); cbn [driver_typed]; rewrite (is_one_of_eq _ _ _ H) by done; [done|].
    apply in_sb_spec. unfold in_s. lia.
  - apply andb_true_iff in H as [H _]. by apply (is_one_of_eq _ _ _ H).
  - apply andb_true_iff in H as [H _]. by apply (is_one_of_eq _ _ _ H).
  - apply orb_true_iff. left. apply orb_true_iff in H as [[H|H]%orb_true_iff|H];
      [|apply andb_true_iff in H as [H _]..]; by apply (is_one_of_eq _ _ _ H).
  - assert (Hid : (id =? TypeHugeint) = true \/ (id =? TypeUHugeint) = true)
      by (apply orb_true_iff in H as [[H _]%andb_true_iff|[H _]%andb_true_iff]; auto).
    destruct (in_sb 64 z) eqn:E; cbn [driver_typed]; destruct Hid as [Hid|Hid]; by rewrite (is_one_of_eq _ _ _ Hid).
  - apply andb_true_iff in H as [H _]. by rewrite (is_one_of_eq _ _ _ H).
  - apply orb_true_iff in H as [[[H _]%andb_true_iff _]%andb_true_iff|[[H _]%andb_true_iff _]%andb_true_iff].
    + by apply (is_one_of_eq _ _ _ H).
    + unfold is_one_of in *. cbn [existsb]. rewrite H. apply orb_true_r.
  - apply andb_true_iff in H as [H _]. by rewrite (is_one_of_eq _ _ _ H).
  - apply andb_true_iff in H as [H _]. by rewrite (is_one_of_eq _ _ _ H).
  - apply andb_true_iff in H as [[H _]%andb_true_iff _]. by rewrite (is_one_of_eq _ _ _ H).
  - repeat rewrite andb_true_iff in H. destruct H as [[[H _] _] _]. by rewrite (is_one_of_eq _ _ _ H).
  - apply andb_true_iff in H as [H _]. by rewrite (is_one_of_eq _ _ _ H).
Qed.

(** ** Cells and rows *)

(** A cell of a column: the driver type of the column, nested values as JSON. *)
Definition cell_ok (t : LogicalType) (dv : dvalue) : Prop :=
  driver_typed (ID t) dv = true /\ (nested (ID t) = true -> dv <> DNil -> exists j, dv = DString j /\ json j).

(** Why a row of a decoded chunk can fail when [n] cells are asked of it: a
    column of theirs whose type the decoder does not support, or is a MAP
    without a key and a value field, or a chunk with fewer columns. *)
Definition row_error_ok (n : nat) (c : Chunk) (row : Z) (e : rerr) : Prop :=
  (exists col e', col ∈ take n (cols c) /\ cerr_ col = Some e' /\ isUnsupported e' = true /\ e = ECell e') \/
  (exists col, col ∈ take n (cols c) /\ maps_ok (CType col) = false) \/
  ((length (cols c) < n)%nat /\ e = ECell (EValueIndex (ColumnCount c) row)).

(** [n] cells, of the first [n] columns in order. *)
Definition row_ok (n : nat) (c : Chunk) (row : Z) (o : outcome rerr (list dvalue)) : Prop :=
  match o with
  | Ok vs => length vs = n /\ Forall2 (fun col dv => cell_ok (CType col) dv) (take n (cols c)) vs
  | Err e => row_error_ok n c row e
  | Panic => False
  end.

Section Cells.
Context (formatFloat : Z -> bytes).
Context (Hfloat : forall bits, isNaN bits = false -> isInf bits 1 = false -> isInf bits (-1) = false ->
                  json_number (formatFloat bits)).

Lemma cell_converted t v : typed false t v = true ->
  settled (cell_ok t) (maps_ok t = false) (toDriverValue formatFloat t v).
Proof.
  intros Hv. unfold toDriverValue, driverValueWith. destruct (nested (ID t)) eqn:En.
  - pose proof (typed_rendered formatFloat Hfloat false t v Hv) as Hr. unfold rendered in Hr.
    assert (Hj : v <> VNil -> settled (cell_ok t) (maps_ok t = false)
                   (let! b := appendJSON formatFloat t v in Ok (E := rerr) (DString b))).
    { intros _. eapply settled_bind; [exact Hr|]. intros j Hj. split; [cbn [driver_typed]; rewrite En; apply orb_true_r|].
      intros _ _. by exists j. }
    destruct v; try (by apply Hj). split; [done|]. intros _ H. by destruct H.
  - eapply settled_weaken; [by apply scalar_driver_typed| |done]. intros dv Hd. split; [done|]. by rewrite En.
Qed.

(** A row is converted column by column, up to the first that fails. *)
Lemma row_converted n c row : chunk_ok c -> 0 <= row < RowCount c -> row_ok n c row (rowValues formatFloat c row n).
Proof.
  intros Hc Hrow. unfold rowValues.
  assert (H : forall k i, (i + k = n)%nat -> (i <= length (cols c))%nat ->
    match omap_all (fun i => match Chunk_Value c (Z.of_nat i) row with
                             | Ok v => match cols c !! i with Some col => toDriverValue formatFloat (CType col) v | None => Panic end
                             | Err e => Err (ECell e)
                             | Panic => Panic
                             end) (seq i k) with
    | Ok vs => length vs = k /\ Forall2 (fun col dv => cell_ok (CType col) dv) (take k (drop i (cols c))) vs
    | Err e => row_error_ok n c row e
    | Panic => False
    end); [|apply (H n 0%nat); lia].
  induction k as [|k IH]; intros i Hi Hle; cbn [seq omap_all]; [by split|].
  pose proof (Chunk_Value_ok c (Z.of_nat i) row Hc) as Hv. rewrite Nat2Z.id in *.
  destruct (cols c !! i) as [col|] eqn:Hcol.
  - assert (Hin : col ∈ take n (cols c)).
    { apply list_elem_of_lookup. exists i. rewrite lookup_take_lt by lia. done. }
    pose proof (lookup_lt_Some _ _ _ Hcol) as Hlt. rewrite (drop_S _ _ _ Hcol).
    destruct (Chunk_Value c (Z.of_nat i) row) as [v|e|]; [| |done].
    + destruct Hv as (cl & [= <-] & _ & Ht). pose proof (cell_converted _ _ Ht) as Hcell.
      destruct (toDriverValue formatFloat (CType col) v) as [dv|e|]; [|right; left; by exists col|done].
      cbn [obind]. specialize (IH (S i)). destruct (omap_all _ _) as [vs|e|]; cbn [obind]; [|apply IH; lia..].
      destruct IH as [Hl Hf]; [lia..|]. split; [cbn; by rewrite Hl|by constructor].
    + destruct Hv as [(cl & [= <-] & He & Hu)|[_ Hr]].
      * left. by exists col, e.
      * exfalso. apply Hr. unfold ColumnCount. split; [lia|done].
  - apply lookup_ge_None in Hcol. assert (i = length (cols c)) as -> by lia.
    destruct (Chunk_Value c _ row) as [v|e|]; [by destruct Hv as (cl & ? & _)| |done].
    destruct Hv as [(cl & ? & _)|[-> _]]; [done|]. right. right. split; [lia|done].
Qed.

(** [Next], with the iteration at a row of [c]. *)
Lemma Next_row n chunks e c row closed : row < RowCount c ->
  (Next formatFloat (MkRows chunks e (Some c) row closed) n).1 = rowValues formatFloat c row n.
Proof.
  intros H. unfold Next. cbn [r_chunks r_end r_chunk r_row r_closed].
  assert (pull chunks e (Some c) row closed = (Ok c, MkRows chunks e (Some c) row closed)) as ->.
  { destruct chunks; cbn [pull]; by rewrite (proj2 (Z.ltb_lt _ _) H). }
  cbn [r_row]. by destruct (rowValues formatFloat c row n).
Qed.

(** Every row of the chunk, as [Next] gives it for a [dest] of [n] cells. *)
Definition rows_typed (n : nat) (c : Chunk) : Prop :=
  forall chunks e row closed, 0 <= row < RowCount c ->
    row_ok n c row (Next formatFloat (MkRows chunks e (Some c) row closed) n).1.

(** C8: from the wire to database/sql.  Whatever bytes a PREPARE_RESPONSE or
    FETCH_RESPONSE holds, if the decoder accepts them then [Next], at any row of
    their chunks and with a [dest] of any number of cells (database/sql passes
    one per column of the schema), does not panic: it gives that many cells,
    each NULL or a value of the driver type the type of the chunk's column has,
    and for a LIST, STRUCT, MAP or ARRAY one JSON text.  It fails only for one of
    these columns with a type the decoder does not support, with that column's
    error; for one with a MAP type without a key and a value field; and, as
    nothing ties a chunk's columns to the schema's, for a chunk with fewer
    columns, with the index error of [Chunk.Value]. *)
Theorem decoded_rows_typed body n :
  (forall p, DecodePrepare body = Ok p -> Forall (rows_typed n) (PChunks p)) /\
  (forall f, DecodeFetch body = Ok f -> Forall (rows_typed n) (FChunks f)).
Proof.
  assert (H : forall l, Forall result_chunk_ok l -> Forall (rows_typed n) l).
  { intros l Hl. apply (Forall_impl _ _ _ Hl). intros c [Hc _] chunks e row closed Hrow.
    rewrite Next_row by lia. by apply row_converted. }
  split; intros x Hx; apply H.
  - pose proof (decode_okP _ _ body prepareBody_ok) as Hp. unfold DecodePrepare in Hx. rewrite Hx in Hp. apply Hp.
  - pose proof (decode_okP _ _ body fetchBody_ok) as Hp. unfold DecodeFetch in Hx. rewrite Hx in Hp. apply Hp.
Qed.
End Cells.

(** The table of every type of CodecRoundtrip, through a FETCH_RESPONSE: its
    first row, with a [dest] of its width and with one cell more. *)
Lemma decoded_rows_typed_witness :
  exists w, EncodeFetchBody [sample_table] 3 = Ok w /\
    (forall n, Forall (rows_typed (fun _ => str "0.5") n) [chunk_of sample_table]) /\
    (exists vs, (Next (fun _ => str "0.5") (newRows [chunk_of sample_table] None) (length sample_table)).1 = Ok vs) /\
    (Next (fun _ => str "0.5") (newRows [chunk_of sample_table] None) (S (length sample_table))).1 =
      Err (ECell (EValueIndex (Z.of_nat (length sample_table)) 0)).
Proof.
  destruct (EncodeFetchBody [sample_table] 3) as [w|e|] eqn:E; [|vm_compute in E; discriminate E..].
  exists w. split; [reflexivity|]. split.
  - intros n.
    apply (proj2 (decoded_rows_typed (fun _ => str "0.5") (fun _ _ _ _ => ex_intro _ [] (ex_intro _ (str "0") (ex_intro _ (str ".5")
      (ex_intro _ [] (conj eq_refl (conj (or_introl eq_refl) (conj eq_refl (conj eq_refl eq_refl)))))))) w n)
      (MkFetchResult [chunk_of sample_table] 3)).
    vm_compute in E. injection E as <-. vm_compute. reflexivity.
  - split; [eexists; vm_compute; reflexivity|]. vm_compute. reflexivity.
Defined.
