(* ===== verification/Driver.v ===== *)
(** * driver: connections, statements and DSNs

    driver.go and dsn.go.  A connection operation maps the state of the wire
    client and the reply it would get to the message posted, the result and
    the client it leaves, as in [Client].  What [net/url] makes of a DSN, the
    environment and [time.ParseDuration] are parameters. *)

From S2P Require Import Prelude Qser QserLib LogicalType GoFmt Values Vector Chunk Messages Client Stream Interpolate Rows.

(** ** Connections *)

Inductive drverr : Type :=
  | EInterpolate (e : ierr)
  | EBadConn                   (** [driver.ErrBadConn] *)
  | EQuery (e : derr)
  | EReadOnly
  | ENoTransactions.

(** [errors.Is(err, wire.ErrConnectionExpired)] of an error of package duckcall. *)
Definition expired (e : derr) : bool :=
  match e with EWire e => isConnectionExpired e | _ => false end.

Section Connections.
Context (formatFloat : Z -> bytes).

Definition QueryContext (c : Conn) (query : bytes) (args : list NamedValue) (reply : http_reply)
  : option bytes * outcome drverr PrepareResult * Client :=
  match interpolate formatFloat query args with
  | Err e => (None, Err (EInterpolate e), w c)
  | Panic => (None, Panic, w c)
  | Ok sql =>
      let '(msg, res, cl) := Query c sql reply in
      (msg, match res with
            | Ok pr => Ok pr
            | Err e => if expired e then Err EBadConn else Err (EQuery e)
            | Panic => Panic
            end, cl)
  end.

(** [Exec] of a connection or a statement, and [Begin]. *)
Definition ExecContext (c : Conn) (query : bytes) (args : list NamedValue) : outcome drverr unit := Err EReadOnly.
Definition Begin (c : Conn) : outcome drverr unit := Err ENoTransactions.

Definition conn_Close (c : Conn) (reply : http_reply) : option bytes * outcome werr unit * Client :=
  let '(msg, res, cl) := Close (w c) reply in
  (msg, match res with
        | Err e => if isConnectionExpired e then Ok tt else Err e
        | r => r
        end, cl).

(** ** Statements *)

Record stmt := MkStmt { s_conn : Conn; s_query : bytes }.

Definition conn_Prepare (c : Conn) (query : bytes) : stmt := MkStmt c query.

Definition stmt_QueryContext (s : stmt) (args : list NamedValue) (reply : http_reply) :=
  QueryContext (s_conn s) (s_query s) args reply.

Definition stmt_Query (s : stmt) (args : list dvalue) (reply : http_reply) :=
  QueryContext (s_conn s) (s_query s) (MkNamed [] <$> args) reply.

Definition stmt_Exec (s : stmt) (args : list dvalue) : outcome drverr unit := Err EReadOnly.
Definition NumInput (s : stmt) : Z := -1.

End Connections.

(** ** DSNs *)

(** [strconv.Atoi]: an optional sign, digits, an int64. *)
Definition Atoi (s : bytes) : option Z :=
  let '(neg, d) := match s with
                   | c :: s' => if ub c =? 45 then (true, s') else if ub c =? 43 then (false, s') else (false, s)
                   | [] => (false, s)
                   end in
  if bool_decide (d = []) || negb (forallb is_digit d) then None
  else let v := if neg then - dec_value d else dec_value d in
       if in_sb 64 v then Some v else None.

(** What [url.Parse] gives: the query is [u.Query()] in the order its map is
    iterated in. *)
Record url := MkURL {
  u_scheme : bytes; u_host : bytes; u_user : bool; u_path : bytes; u_query : list (bytes * list bytes) }.

Inductive dsnerr : Type :=
  | EUnparseable
  | EScheme (s : bytes)
  | ENoHost
  | EUser
  | EEmptyEnv (name : bytes)
  | EBadParam (key v : bytes)
  | EUnknownParam (key : bytes).

(** [strings.TrimSuffix(s, "/")]. *)
Definition trim_slash (s : bytes) : bytes :=
  match last s with
  | Some c => if bool_decide (c = slash) then take (length s - 1) s else s
  | None => s
  end.

(** [strings.CutPrefix]. *)
Definition cut_prefix (s p : bytes) : option bytes :=
  if has_prefix p s then Some (drop (length p) s) else None.

Section DSN.
Context (parse : bytes -> option url) (getenv : bytes -> bytes) (parseDuration : bytes -> option Z).

Definition set_Token (v : bytes) (c : Config) : Config :=
  MkConfig (Endpoint c) v (FetchWorkers c) (ConnectTimeout c) (MaxRetries c) (RetryBaseDelay c).
Definition set_FetchWorkers (v : Z) (c : Config) : Config :=
  MkConfig (Endpoint c) (Token c) v (ConnectTimeout c) (MaxRetries c) (RetryBaseDelay c).
Definition set_ConnectTimeout (v : Z) (c : Config) : Config :=
  MkConfig (Endpoint c) (Token c) (FetchWorkers c) v (MaxRetries c) (RetryBaseDelay c).
Definition set_MaxRetries (v : Z) (c : Config) : Config :=
  MkConfig (Endpoint c) (Token c) (FetchWorkers c) (ConnectTimeout c) v (RetryBaseDelay c).

(** One turn of the loop over the parameters: the field it sets, or an error. *)
Definition dsnParam (key : bytes) (vals : list bytes) : outcome dsnerr (Config -> Config) :=
  match last vals with
  | None => Panic
  | Some v =>
      if bool_decide (key = str "token") then
        match cut_prefix v (str "env:") with
        | Some name =>
            let v := getenv name in
            if bool_decide (v = []) then Err (EEmptyEnv name) else Ok (set_Token v)
        | None => Ok (set_Token v)
        end
      else if bool_decide (key = str "fetch_workers") then
        match Atoi v with
        | Some n => if n <? 1 then Err (EBadParam key v) else Ok (set_FetchWorkers n)
        | None => Err (EBadParam key v)
        end
      else if bool_decide (key = str "connect_timeout") then
        match parseDuration v with
        | Some d => if d <=? 0 then Err (EBadParam key v) else Ok (set_ConnectTimeout d)
        | None => Err (EBadParam key v)
        end
      else if bool_decide (key = str "max_retries") then
        match Atoi v with
        | Some n => Ok (set_MaxRetries n)
        | None => Err (EBadParam key v)
        end
      else Err (EUnknownParam key)
  end.

Fixpoint dsnParams (cfg : Config) (q : list (bytes * list bytes)) : outcome dsnerr Config :=
  match q with
  | [] => Ok cfg
  | (key, vals) :: q => let! f := dsnParam key vals in dsnParams (f cfg) q
  end.

Definition ParseDSN (dsn : bytes) : outcome dsnerr Config :=
  match parse dsn with
  | None => Err EUnparseable
  | Some u =>
      let! scheme :=
        (if bool_decide (u_scheme u = str "quack") || bool_decide (u_scheme u = str "http") then Ok (str "http")
         else if bool_decide (u_scheme u = str "quacks") || bool_decide (u_scheme u = str "https") then Ok (str "https")
         else Err (EScheme (u_scheme u))) in
      if bool_decide (u_host u = []) then Err ENoHost
      else if u_user u then Err EUser
      else dsnParams
             (MkConfig (scheme ++ str "://" ++ u_host u ++ trim_slash (u_path u)) [] 0 0 0 0)
             (u_query u)
  end.

(** [OpenConnector] keeps the configuration; [Connect] dials it. *)
Definition OpenConnector (dsn : bytes) : outcome dsnerr Config := ParseDSN dsn.

Definition connector_Connect (url_scheme : bytes -> option bytes) (cfg : Config) (wld : world) (reply : http_reply)
  : option (outcome derr Conn) := Dial url_scheme cfg wld reply.

(** [Driver.Open]: a DSN error on the left. *)
Definition Open (url_scheme : bytes -> option bytes) (dsn : bytes) (wld : world) (reply : http_reply)
  : option (dsnerr + outcome derr Conn) :=
  match OpenConnector dsn with
  | Ok cfg => r ← connector_Connect url_scheme cfg wld reply; Some (inr r)
  | Err e => Some (inl e)
  | Panic => Some (inr Panic)
  end.

End DSN.

(** ** Queries and their errors *)

(** An HTTP response has a status line with a status of its own. *)
Definition status_ok (reply : http_reply) : Prop :=
  match reply with BadStatus code _ => code <> 0 | _ => True end.

(** The server's own statement that it does not know the session. *)
Definition answers_expired (token : bytes) (reply : http_reply) : Prop :=
  exists raw hdr body em, reply = OKBody raw /\ SplitEnvelope raw = Ok (hdr, body) /\
    Type_ hdr = MsgError /\ DecodeErrorMessage body = Ok em /\
    connectionExpired (redactToken token (Message em)) = true.

Lemma no_text_not_expired e : foreign_text e = [] -> isConnectionExpired e = false.
Proof. destruct e; cbn; try done. intros ->. apply andb_false_r. Qed.

Lemma error_not_expired body e : DecodeErrorMessage body = Err e -> isConnectionExpired e = false.
Proof. intros H. by eapply no_text_not_expired, error_message_no_text. Qed.

Lemma split_not_expired raw e : SplitEnvelope raw = Err e -> isConnectionExpired e = false.
Proof. intros H. by eapply no_text_not_expired, split_no_text. Qed.

(** A call fails as expired exactly when the server answers so. *)
Lemma call_expired token req want reply e : status_ok reply -> want <> MsgError ->
  call_result token req want reply = Err e -> isConnectionExpired e = true -> answers_expired token reply.
Proof.
  intros Hs Hw H He. unfold call_result in H. destruct reply as [text|code b|text|raw].
  - by injection H as <-.
  - injection H as <-. cbn in He, Hs. rewrite (proj2 (Z.eqb_neq _ _)) in He by done. done.
  - by injection H as <-.
  - destruct (SplitEnvelope raw) as [[hdr body]|e'|] eqn:Es; [|injection H as <-; by rewrite (split_not_expired _ _ Es) in He|done].
    destruct (Type_ hdr =? want); [done|]. destruct (Z.eqb_spec (Type_ hdr) MsgError) as [Et|]; [|by injection H as <-].
    destruct (DecodeErrorMessage body) as [em|e'|] eqn:Em; [|injection H as <-; by rewrite (error_not_expired _ _ Em) in He|done].
    injection H as <-. by exists raw, hdr, body, em.
Qed.

Lemma literal_not_panic formatFloat v : literal formatFloat v <> Panic.
Proof. by destruct v. Qed.

Lemma interpolate_not_panic formatFloat query args : interpolate formatFloat query args <> Panic.
Proof.
  assert (H : forall fuel q arg b, interpolate_loop formatFloat fuel args q arg b <> Panic).
  { induction fuel as [|fuel IH]; intros [|ch rest] arg b; cbn [interpolate_loop]; try done.
    case_bool_decide; [|destruct (region (ch :: rest)); apply IH].
    destruct (args !! arg) as [a|]; [|done]. destruct (literal formatFloat (NValue a)) eqn:E; [apply IH|done|].
    by apply literal_not_panic in E. }
  unfold interpolate. case_match; [done|]. case_match; [done|].
  destruct (interpolate_loop _ _ _ _ _ _) as [[arg b]|e|] eqn:E; [|done|by apply H in E]. cbn [obind]. by case_match.
Qed.

(** C22: [driver.ErrBadConn] is returned only for a query that was interpolated
    and posted and that the server itself answered with an error naming an
    unknown session, so that running it again on another connection is safe;
    and nothing is posted for a query whose arguments do not interpolate. *)
Theorem bad_conn_only_expired formatFloat (c : Conn) query args reply :
  status_ok reply ->
  match interpolate formatFloat query args with
  | Err e => QueryContext formatFloat c query args reply = (None, Err (EInterpolate e), w c)
  | Panic => False
  | Ok sql =>
      (QueryContext formatFloat c query args reply).1.1 = (Query c sql reply).1.1 /\
      ((QueryContext formatFloat c query args reply).1.2 = Err EBadConn ->
        closed (w c) = false /\ answers_expired (Token (cfg (w c))) reply) /\
      (forall pr, (QueryContext formatFloat c query args reply).1.2 = Ok pr <-> (Query c sql reply).1.2 = Ok pr)
  end.
Proof.
  intros Hs. unfold QueryContext. destruct (interpolate formatFloat query args) as [sql|e|] eqn:Ei; [|done|by apply interpolate_not_panic in Ei].
  destruct (Query c sql reply) as [[msg res] cl] eqn:Eq. cbn [fst snd]. split; [done|]. split.
  - destruct res as [pr|e|]; [done| |done]. destruct (expired e) eqn:Ee; [|done]. intros _.
    destruct (closed (w c)) eqn:Ec.
    { unfold Query, Prepare, call in Eq. rewrite Ec in Eq. injection Eq as _ <- _. by vm_compute in Ee. }
    split; [done|]. unfold Query, Prepare in Eq. rewrite (call_open _ _ _ _ _ Ec) in Eq. injection Eq as _ Hr _.
    destruct (call_result _ _ _ _) as [body|e'|] eqn:Er; [|injection Hr as <-|done].
    + destruct (DecodePrepare body); [done|by injection Hr as <-|done].
    + by apply (call_expired _ MsgPrepareRequest MsgPrepareResponse _ e').
  - intros pr. destruct res as [pr'|e|]; [by split; intros [= ->]| |by split]. by destruct (expired e).
Qed.

Definition sample_conn : Conn := MkConn sample_client 1.

Definition expired_reply : http_reply :=
  OKBody (EncodeEnvelope (MkHeader MsgError [] QueryIDAbsent)
            (ErrorMessage_Encode (MkErrorMessage (str "Invalid connection id")))).

Lemma bad_conn_only_expired_witness :
  (QueryContext no_float sample_conn (str "SELECT 1") [] expired_reply).1.2 = Err EBadConn /\
  answers_expired (Token (cfg (w sample_conn))) expired_reply.
Proof.
  assert (E : (QueryContext no_float sample_conn (str "SELECT 1") [] expired_reply).1.2 = Err EBadConn)
    by (vm_compute; reflexivity).
  split; [exact E|]. destruct (bad_conn_only_expired no_float sample_conn (str "SELECT 1") [] expired_reply I)
    as (_ & H & _). apply H, E.
Defined.

Definition acknowledged (reply : http_reply) : Prop :=
  exists raw hdr body, reply = OKBody raw /\ SplitEnvelope raw = Ok (hdr, body) /\ Type_ hdr = MsgSuccess.

(** What the answer to a goodbye makes of it. *)
Lemma close_result token reply : status_ok reply ->
  let res := (let! (hdr, body) := (roundTrip token reply).2 in
      if Type_ hdr =? MsgSuccess then Ok tt
      else if Type_ hdr =? MsgError then serverError token body
      else Err (EDisconnectAnswered (Type_ hdr))) in
  match res with Err e => if isConnectionExpired e then Ok tt else Err e | r => r end = Ok tt <->
  acknowledged reply \/ answers_expired token reply.
Proof.
  intros Hs. destruct reply as [text|code b|text|raw]; cbn [roundTrip snd obind redactErr isConnectionExpired].
  1-3: rewrite ?(proj2 (Z.eqb_neq code 0) Hs); cbn [andb]; split; [done|];
    intros [(? & ? & ? & ? & _)|(? & ? & ? & ? & ? & _)]; done.
  destruct (SplitEnvelope raw) as [[hdr body]|e|] eqn:Es; cbn [obind].
  - destruct (Z.eqb_spec (Type_ hdr) MsgSuccess) as [Et|Et].
    { split; [|done]. intros _. left. by exists raw, hdr, body. }
    destruct (Z.eqb_spec (Type_ hdr) MsgError) as [Em|Em].
    + unfold serverError. split.
      * intros H. right. destruct (DecodeErrorMessage body) as [em|e|] eqn:Ed; cbn [obind] in H; [| |done].
        -- exists raw, hdr, body, em. cbn in H. by destruct (connectionExpired _).
        -- by rewrite (error_not_expired _ _ Ed) in H.
      * intros [(? & ? & ? & [= <-] & Hsp & ?)|(? & ? & ? & em & [= <-] & Hsp & _ & Hd & Hx)]; rewrite Es in Hsp; injection Hsp as <- <-; [done|].
        rewrite Hd. cbn. by rewrite Hx.
    + cbn. split; [done|].
      intros [(? & ? & ? & [= <-] & Hsp & ?)|(? & ? & ? & em & [= <-] & Hsp & ? & _)]; rewrite Es in Hsp; by injection Hsp as <- <-.
  - rewrite (split_not_expired _ _ Es). split; [done|].
    intros [(? & ? & ? & [= <-] & Hsp & _)|(? & ? & ? & ? & [= <-] & Hsp & _)]; by rewrite Es in Hsp.
  - split; [done|]. intros [(? & ? & ? & [= <-] & Hsp & _)|(? & ? & ? & ? & [= <-] & Hsp & _)]; by rewrite Es in Hsp.
Qed.

(** C36: closing a connection is final and happens once: a closed one posts
    nothing and succeeds again; an open one posts one DISCONNECT, is closed
    whatever comes back, and succeeds exactly when the server acknowledges the
    message or says in its own words that it no longer knows the session. *)
Theorem conn_close_spec (c : Conn) reply : status_ok reply ->
  (closed (w c) = true -> conn_Close c reply = (None, Ok tt, w c)) /\
  (closed (w c) = false -> exists res cl,
     conn_Close c reply = (Some (EncodeEnvelope (MkHeader MsgDisconnect (connID (w c)) QueryIDAbsent) EncodeEmptyBody), res, cl) /\
     closed cl = true /\
     (res = Ok tt <-> acknowledged reply \/ answers_expired (Token (cfg (w c))) reply)).
Proof.
  intros Hs. unfold conn_Close, Close. split; intros ->; [done|].
  pose proof (close_result (Token (cfg (w c))) reply Hs) as H. cbv zeta in H.
  destruct (roundTrip _ _) as [st rt]. cbn [snd] in H. eexists _, _. split; [reflexivity|]. split; [done|]. exact H.
Qed.

Lemma conn_close_spec_witness :
  exists res cl, (conn_Close sample_conn expired_reply).1.2 = res /\ res = Ok tt /\ closed cl = true.
Proof.
  destruct (proj2 (conn_close_spec sample_conn expired_reply I) eq_refl) as (res & cl & E & Hc & Hr).
  exists res, cl. split; [rewrite E; reflexivity|]. split; [|exact Hc]. apply Hr. right.
  exists (EncodeEnvelope (MkHeader MsgError [] QueryIDAbsent) (ErrorMessage_Encode (MkErrorMessage (str "Invalid connection id")))),
    (MkHeader MsgError [] QueryIDAbsent), (ErrorMessage_Encode (MkErrorMessage (str "Invalid connection id"))),
    (MkErrorMessage (str "Invalid connection id")).
  split; [reflexivity|]. split; [vm_compute; reflexivity|]. split; [reflexivity|]. split; vm_compute; reflexivity.
Defined.

(** ** DSN parameters *)

Section DSNFacts.
Context (getenv : bytes -> bytes) (parseDuration : bytes -> option Z).

Abbreviation params := (dsnParams getenv parseDuration).
Abbreviation param := (dsnParam getenv parseDuration).

Fixpoint assoc (key : bytes) (q : list (bytes * list bytes)) : option (list bytes) :=
  match q with
  | [] => None
  | (k, vals) :: q => if bool_decide (k = key) then Some vals else assoc key q
  end.

(** The value of a parameter that is there: the last one given. *)
Definition given (key : bytes) (q : list (bytes * list bytes)) : option bytes :=
  match assoc key q with Some vals => last vals | None => None end.

(** The keys a DSN may have, with what each does to the configuration. *)
Definition known (key : bytes) : Prop :=
  key = str "token" \/ key = str "fetch_workers" \/ key = str "connect_timeout" \/ key = str "max_retries".

Definition token_of (v token : bytes) : Prop :=
  match cut_prefix v (str "env:") with
  | Some name => getenv name = token /\ token <> []
  | None => token = v
  end.

Definition param_ok (key v : bytes) (f : Config -> Config) : Prop :=
  (key = str "token" /\ exists t, token_of v t /\ f = set_Token t) \/
  (key = str "fetch_workers" /\ exists n, Atoi v = Some n /\ 1 <= n /\ f = set_FetchWorkers n) \/
  (key = str "connect_timeout" /\ exists d, parseDuration v = Some d /\ 0 < d /\ f = set_ConnectTimeout d) \/
  (key = str "max_retries" /\ exists n, Atoi v = Some n /\ f = set_MaxRetries n).

Lemma param_inv key vals f : param key vals = Ok f -> exists v, last vals = Some v /\ param_ok key v f.
Proof.
  unfold dsnParam. destruct (last vals) as [v|]; [|done]. intros H. exists v. split; [done|]. unfold param_ok, token_of.
  case_bool_decide as E1; [left|case_bool_decide as E2; [right; left|case_bool_decide as E3; [right; right; left|
    case_bool_decide as E4; [right; right; right|done]]]]; (split; [done|]).
  - destruct (cut_prefix v _) as [name|]; [|injection H as <-; by eexists].
    case_bool_decide; [done|]. injection H as <-. by eexists.
  - destruct (Atoi v) as [n|]; [|done]. destruct (Z.ltb_spec n 1); [done|]. injection H as <-. by eexists.
  - destruct (parseDuration v) as [d|]; [|done]. destruct (Z.leb_spec d 0); [done|]. injection H as <-.
    exists d. split; [done|]. split; [lia|done].
  - destruct (Atoi v) as [n|]; [|done]. injection H as <-. by eexists.
Qed.

(** Parameters with different keys set different fields. *)
Lemma param_commute k1 v1 f1 k2 v2 f2 c : k1 <> k2 -> param_ok k1 v1 f1 -> param_ok k2 v2 f2 -> f1 (f2 c) = f2 (f1 c).
Proof.
  intros Hk H1 H2. unfold param_ok in *.
  destruct H1 as [[-> (? & ? & ->)]|[[-> (? & ? & ? & ->)]|[[-> (? & ? & ? & ->)]|[-> (? & ? & ->)]]]];
    destruct H2 as [[-> (? & ? & ->)]|[[-> (? & ? & ? & ->)]|[[-> (? & ? & ? & ->)]|[-> (? & ? & ->)]]]]; done.
Qed.

Lemma params_permute q q' : q ≡ₚ q' -> NoDup q.*1 -> forall cfg c, params cfg q = Ok c -> params cfg q' = Ok c.
Proof.
  induction 1 as [|[k v] q q' Hp IH|[k1 v1] [k2 v2] q|q q' q'' H1 IH1 H2 IH2]; intros Hd cfg c H.
  - done.
  - cbn [fmap list_fmap fst] in Hd. apply NoDup_cons in Hd as [_ Hd]. cbn [dsnParams] in *.
    destruct (param k v); [|done..]. by apply IH.
  - cbn [fmap list_fmap fst] in Hd. apply NoDup_cons in Hd as [Hn _]. cbn [dsnParams] in *.
    destruct (param k2 v2) as [f2|e|] eqn:E2; [|done..]. cbn [obind] in *.
    destruct (param k1 v1) as [f1|e|] eqn:E1; [|done..]. cbn [obind] in *.
    apply param_inv in E1 as (w1 & _ & P1). apply param_inv in E2 as (w2 & _ & P2).
    assert (Hne : k2 <> k1) by (intros ->; apply Hn; left).
    rewrite (param_commute _ _ _ _ _ _ cfg Hne P2 P1).
    exact H.
  - apply IH2; [by rewrite <- H1|by apply IH1].
Qed.

(** What the parameters say, field by field. *)
Definition fields_of (cfg : Config) (q : list (bytes * list bytes)) (c : Config) : Prop :=
  Endpoint c = Endpoint cfg /\ RetryBaseDelay c = RetryBaseDelay cfg /\
  match assoc (str "token") q with
  | Some vals => exists v, last vals = Some v /\ token_of v (Token c)
  | None => Token c = Token cfg
  end /\
  match assoc (str "fetch_workers") q with
  | Some vals => exists v, last vals = Some v /\ Atoi v = Some (FetchWorkers c) /\ 1 <= FetchWorkers c
  | None => FetchWorkers c = FetchWorkers cfg
  end /\
  match assoc (str "connect_timeout") q with
  | Some vals => exists v, last vals = Some v /\ parseDuration v = Some (ConnectTimeout c) /\ 0 < ConnectTimeout c
  | None => ConnectTimeout c = ConnectTimeout cfg
  end /\
  match assoc (str "max_retries") q with
  | Some vals => exists v, last vals = Some v /\ Atoi v = Some (MaxRetries c)
  | None => MaxRetries c = MaxRetries cfg
  end.

Lemma assoc_absent key q : key ∉ q.*1 -> assoc key q = None.
Proof.
  induction q as [|[k v] q IH]; [done|]. intros H. cbn [assoc]. rewrite bool_decide_false.
  - apply IH. intros Hin. apply H. by right.
  - intros ->. apply H. left.
Qed.

Lemma params_spec q cfg c : NoDup q.*1 -> params cfg q = Ok c ->
  Forall known q.*1 /\ fields_of cfg q c.
Proof.
  revert cfg. induction q as [|[k vals] q IH]; intros cfg Hd H.
  - injection H as <-. split; [constructor|]. by repeat split.
  - cbn [fmap list_fmap fst] in *. apply NoDup_cons in Hd as [Hn Hd]. cbn [dsnParams] in H.
    destruct (param k vals) as [f|e|] eqn:E; [|done..]. cbn [obind] in H. apply IH in H as [Hk Hf]; [|done].
    apply param_inv in E as (v & Hv & Hp). pose proof (assoc_absent k q Hn) as Ha. unfold fields_of in *. cbn [assoc].
    destruct Hf as (He & Hr & Ht & Hw & Hc & Hm).
    destruct Hp as [[-> (t & Hx & ->)]|[[-> (n & Hx & Hn1 & ->)]|[[-> (d & Hx & Hd0 & ->)]|[-> (n & Hx & ->)]]]];
      (split; [constructor; [unfold known; auto|done]|]); rewrite Ha in *; cbn in He, Hr, Ht, Hw, Hc, Hm |- *;
      (split; [done|]); (split; [done|]).
    + split; [exists v; by rewrite Ht|]. done.
    + split; [done|]. split; [exists v; by rewrite Hw|]. done.
    + split; [done|]. split; [done|]. split; [exists v; by rewrite Hc|]. done.
    + split; [done|]. split; [done|]. split; [done|]. exists v. by rewrite Hm.
Qed.

End DSNFacts.

(** C35: an accepted DSN determines its configuration: the endpoint is http for
    the quack and http schemes and https for quacks and https, with the host
    and the path less one trailing slash; only known parameters occur, each
    field is what its parameter says (a token taken from the environment is not
    empty) and zero without one; and the order in which the parameters are
    visited, which Go leaves open, does not matter. *)
Theorem dsn_spec parse getenv parseDuration dsn u c :
  parse dsn = Some u -> NoDup (u_query u).*1 ->
  ParseDSN parse getenv parseDuration dsn = Ok c ->
  exists scheme,
    ((u_scheme u ∈ [str "quack"; str "http"] /\ scheme = str "http") \/
     (u_scheme u ∈ [str "quacks"; str "https"] /\ scheme = str "https")) /\
    u_host u <> [] /\ u_user u = false /\
    let cfg := MkConfig (scheme ++ str "://" ++ u_host u ++ trim_slash (u_path u)) [] 0 0 0 0 in
    Forall known (u_query u).*1 /\ fields_of getenv parseDuration cfg (u_query u) c /\
    forall q', u_query u ≡ₚ q' ->
      ParseDSN (fun _ => Some (MkURL (u_scheme u) (u_host u) (u_user u) (u_path u) q')) getenv parseDuration dsn = Ok c.
Proof.
  intros Hu Hd H. unfold ParseDSN in *. rewrite Hu in H. cbn [u_scheme u_host u_user u_path u_query].
  assert (Hs : exists scheme, ((u_scheme u ∈ [str "quack"; str "http"] /\ scheme = str "http") \/
     (u_scheme u ∈ [str "quacks"; str "https"] /\ scheme = str "https")) /\
    (if bool_decide (u_scheme u = str "quack") || bool_decide (u_scheme u = str "http") then Ok (str "http")
     else if bool_decide (u_scheme u = str "quacks") || bool_decide (u_scheme u = str "https") then Ok (str "https")
     else Err (EScheme (u_scheme u))) = Ok scheme).
  { assert (Hin : forall x y z : bytes, x = y \/ x = z -> x ∈ [y; z]) by (intros x y z [-> | ->]; [left|right; left]).
    repeat case_bool_decide; cbn [orb] in *; first [done | eexists; split; [|reflexivity]; (left + right); split; [apply Hin; auto|done]]. }
  destruct Hs as (scheme & Hs & E). exists scheme. rewrite E in *. cbn [obind] in *. split; [exact Hs|].
  destruct (bool_decide (u_host u = [])) eqn:Eh; [done|]. apply bool_decide_eq_false in Eh.
  destruct (u_user u); [done|]. split; [done|]. split; [done|]. cbv zeta.
  destruct (params_spec _ _ _ _ _ Hd H) as [Hk Hf]. split; [done|]. split; [done|].
  intros q' Hq. by apply (params_permute _ _ _ _ Hq Hd).
Qed.

Definition sample_url : url :=
  MkURL (str "quacks") (str "h:8888") false (str "/x/") [(str "max_retries", [str "-1"]); (str "token", [str "env:T"])].

Definition sample_getenv (name : bytes) : bytes := if bool_decide (name = str "T") then str "s3cret" else [].

Lemma dsn_spec_witness :
  ParseDSN (fun _ => Some sample_url) sample_getenv (fun _ => None) (str "dsn") =
    Ok (MkConfig (str "https://h:8888/x") (str "s3cret") 0 0 (-1) 0) /\
  exists scheme, u_scheme sample_url ∈ [str "quacks"; str "https"] /\ scheme = str "https".
Proof.
  split; [vm_compute; reflexivity|].
  destruct (dsn_spec (fun _ => Some sample_url) sample_getenv (fun _ => None) (str "dsn") sample_url
    (MkConfig (str "https://h:8888/x") (str "s3cret") 0 0 (-1) 0)) as (scheme & [[Hs _]|Hs] & _).
  - reflexivity.
  - apply (bool_decide_unpack _). vm_compute. exact I.
  - vm_compute. reflexivity.
  - exfalso. revert Hs. rewrite !elem_of_cons. intros [Hs|[Hs|Hs]]; [done|done|by apply elem_of_nil in Hs].
  - by exists scheme.
Defined.
