(* ===== verification/WireText.v ===== *)
(** * wire: the texts of its errors

    [Error] of the errors of packages qser and wire, as servers put them into
    their own replies (quackbouncer's "quackbouncer: ..." messages, quacktest's
    refusals); the text of a context's error is a parameter. *)

From S2P Require Import Prelude Qser GoFmt Messages Client.

Definition qerr_Error (e : qerr) : bytes :=
  match e with
  | ErrTruncated => str "qser: truncated input"
  | ErrOverflow => str "qser: varint overflow"
  | EUnexpectedField id => str "qser: unexpected field " ++ itoa id ++ str " where object should end"
  end.

Section Texts.
Context (ctx_text : bytes).

Definition werr_Error (e : werr) : bytes :=
  match e with
  | EHeaderNoType => str "wire: message header missing type"
  | EBad what e => str "wire: bad " ++ str what ++ str ": " ++ qerr_Error e
  | EServer status message => ServerError_Error status message
  | ErrClosed => str "wire: client is closed"
  | EConnectAnswered t => str "wire: connect answered with " ++ MessageType_String t
  | EMissingConnectionID => str "wire: connection response missing connection id"
  | EQuackVersion v =>
      str "wire: server speaks quack version " ++ itoa v ++ str ", this build speaks " ++
      itoa quackVersionMin ++ str ".." ++ itoa quackVersionMax
  | EDisconnectAnswered t => str "wire: disconnect answered with " ++ MessageType_String t
  | EAnswered req got => str "wire: " ++ MessageType_String req ++ str " answered with " ++ MessageType_String got
  | ETransport text => text
  | EContext => ctx_text
  | EEmptyEndpoint => str "wire: empty endpoint"
  | EBadEndpoint => str "wire: unparseable endpoint"
  | EEndpointScheme => str "wire: endpoint scheme must be http or https"
  end.

End Texts.
