(* ===== verification/Quacktest.v ===== *)
(** * internal/quacktest: the in-process server

    The server's state and its handlers, each a function from a request to the
    response, as the client's [http_reply], and the new state.  A handler runs
    in one step: each takes the mutex once for the state it touches.
    [strconv.Quote] is a parameter; a panic of an encoder becomes a dropped
    connection, which is what net/http makes of it. *)

From stdpp Require Import gmap.
From S2P Require Import Prelude Qser QserLib LogicalType GoFmt Values Vector Chunk CodecTypes CodecSafe Codectest.
From S2P Require Import CodecRoundtrip Messages Client Stream WireText.

#[export] Instance byte_countable : Countable byte.
Proof.
  refine (inj_countable' Byte.to_N (fun n => default Byte.x00 (Byte.of_N n)) _).
  intros b. by rewrite Byte.of_to_N.
Defined.

#[export] Instance hugeint_countable : Countable hugeint.
Proof. refine (inj_countable' (fun h => (Upper h, Lower h)) (fun p => Hugeint p.1 p.2) _). by intros []. Defined.

(** ** State *)

Record result := MkResult { rcols : list Col; batches : list (list (list Col)) }.
Record liveResult := MkLive { lres : result; next : nat }.

Record Server := MkServer {
  STok : bytes; SQuackVersion : Z; BatchChunks : Z; ConnectFails : Z; FetchFails : Z;
  results : gmap bytes result; conns : gmap bytes unit; live : gmap hugeint liveResult;
  nextID : Z; fetchCount : Z; activeConn : Z }.

Definition New (token : bytes) : Server := MkServer token 1 2 0 0 ∅ ∅ ∅ 0 0 0.

Definition set_results r s := MkServer (STok s) (SQuackVersion s) (BatchChunks s) (ConnectFails s) (FetchFails s)
  r (conns s) (live s) (nextID s) (fetchCount s) (activeConn s).
Definition set_conns c a s := MkServer (STok s) (SQuackVersion s) (BatchChunks s) (ConnectFails s) (FetchFails s)
  (results s) c (live s) (nextID s) (fetchCount s) a.
Definition set_live l s := MkServer (STok s) (SQuackVersion s) (BatchChunks s) (ConnectFails s) (FetchFails s)
  (results s) (conns s) l (nextID s) (fetchCount s) (activeConn s).
Definition set_nextID n s := MkServer (STok s) (SQuackVersion s) (BatchChunks s) (ConnectFails s) (FetchFails s)
  (results s) (conns s) (live s) n (fetchCount s) (activeConn s).
Definition set_fetchCount n s := MkServer (STok s) (SQuackVersion s) (BatchChunks s) (ConnectFails s) (FetchFails s)
  (results s) (conns s) (live s) (nextID s) n (activeConn s).
Definition set_ConnectFails n s := MkServer (STok s) (SQuackVersion s) (BatchChunks s) n (FetchFails s)
  (results s) (conns s) (live s) (nextID s) (fetchCount s) (activeConn s).
Definition set_FetchFails n s := MkServer (STok s) (SQuackVersion s) (BatchChunks s) (ConnectFails s) n
  (results s) (conns s) (live s) (nextID s) (fetchCount s) (activeConn s).

(** ** Registering results *)

(** The bounds [at, min(at+step, n)] of the loops of [AddResult]; a negative
    step makes the first slice expression panic; [None] when the fuel runs out,
    which for a step of zero it always does. *)
Fixpoint windows (fuel : nat) (at_ step n : Z) : option (outcome cerr (list (nat * nat))) :=
  if at_ <? n then
    match fuel with
    | O => None
    | S fuel =>
        let end_ := Z.min (at_ + step) n in
        if end_ <? at_ then Some Panic
        else ws ← windows fuel (at_ + step) step n;
             Some (let! ws := ws in Ok ((Z.to_nat at_, Z.to_nat end_) :: ws))
    end
  else Some (Ok []).

(** The columns [at, end). *)
Definition part (cols : list Col) (w : nat * nat) : outcome cerr (list Col) :=
  omapM (fun c => let! vs := slice (Vals c) w.1 w.2 in Ok (MkCol (ColName c) (ColType c) vs)) cols.

(** [AddResult]; [None] when a loop does not end. *)
Definition AddResult (s : Server) (sql : bytes) (cols : list Col) (chunkRows : Z)
  : option (outcome cerr Server) :=
  let rows := table_rows cols in
  ws ← windows rows 0 chunkRows (Z.of_nat rows);
  match (let! ws := ws in omapM (part cols) ws) with
  | Ok chunks =>
      bs ← windows (length chunks) 0 (BatchChunks s) (Z.of_nat (length chunks));
      Some (let! bs := bs in
            let! batches := omapM (fun w => slice chunks w.1 w.2) bs in
            Ok (set_results (<[sql := MkResult cols batches]> (results s)) s))
  | Err e => Some (Err e)
  | Panic => Some Panic
  end.

(** ** Handlers *)

Definition reply (hdr : Header) (body : bytes) : http_reply :=
  let hdr := if QueryID hdr =? 0 then MkHeader (Type_ hdr) (ConnectionID hdr) QueryIDAbsent else hdr in
  OKBody (EncodeEnvelope hdr body).

Definition errorReply (msg : bytes) : http_reply :=
  reply (MkHeader MsgError [] 0) (ErrorMessage_Encode (MkErrorMessage msg)).

(** A body an encoder gave, or the connection net/http drops when it panics. *)
Definition replyWith (hdr : Header) (body : outcome cerr bytes) : http_reply :=
  match body with Ok b => reply hdr b | _ => NoResponse (str "EOF") end.

Record request := MkRequest { Method : bytes; Path : bytes; Body : option bytes }.

Section Handlers.
Context (Quote : bytes -> bytes).

Definition handleConnect (s : Server) (body : bytes) : http_reply * Server :=
  match DecodeConnectionRequest body with
  | Err e => (errorReply (werr_Error [] e), s)
  | Panic => (NoResponse (str "EOF"), s)
  | Ok req =>
      if 0 <? ConnectFails s then (BadStatus 503 (str "transient" ++ [bz 10]), set_ConnectFails (ConnectFails s - 1) s)
      else if 1 <? MinVersion req
      then (errorReply (str "Unsupported Quack version - server only supports version 1 of quack"), s)
      else if negb (bool_decide (AuthString req = STok s))
      then (errorReply (str "Authentication failed for token " ++ AuthString req), s)
      else
        let s := set_nextID (nextID s + 1) s in
        let id := str "TESTCONN" ++ itoa (nextID s) in
        let s := set_conns (<[id := tt]> (conns s)) (activeConn s + 1) s in
        (reply (MkHeader MsgConnectionResponse id 0)
           (ConnectionResponse_Encode (MkConnectionResponse (str "v1.5.4-quacktest") (str "test") (SQuackVersion s))),
         s)
  end.

Definition handleDisconnect (s : Server) (hdr : Header) : http_reply * Server :=
  match conns s !! ConnectionID hdr with
  | Some _ => (reply (MkHeader MsgSuccess [] 0) EncodeEmptyBody,
               set_conns (delete (ConnectionID hdr) (conns s)) (activeConn s - 1) s)
  | None => (errorReply (str "Connection does not exist / already disconnected"), s)
  end.

Definition handlePrepare (s : Server) (hdr : Header) (body : bytes) : http_reply * Server :=
  match DecodePrepareRequest body with
  | Err e => (errorReply (werr_Error [] e), s)
  | Panic => (NoResponse (str "EOF"), s)
  | Ok req =>
      match results s !! SQL req with
      | None => (errorReply (str "Parser Error: no canned result for " ++ Quote (SQL req)), s)
      | Some res =>
          let s := set_nextID (nextID s + 1) s in
          let uuid := Hugeint 0x7e57 (u64 (nextID s)) in
          let inline := match batches res with b :: _ => b | [] => [] end in
          let needsMore := (1 <? length (batches res))%nat in
          let s := if needsMore then set_live (<[uuid := MkLive res 1]> (live s)) s else s in
          (replyWith (MkHeader MsgPrepareResponse [] (QueryID hdr))
             (EncodePrepareBody (rcols res) inline needsMore uuid), s)
      end
  end.

Definition handleFetch (s : Server) (body : bytes) : http_reply * Server :=
  match DecodeFetchRequest body with
  | Err e => (errorReply (werr_Error [] e), s)
  | Panic => (NoResponse (str "EOF"), s)
  | Ok req =>
      let s := set_fetchCount (fetchCount s + 1) s in
      if 0 <? FetchFails s then (BadStatus 503 (str "transient" ++ [bz 10]), set_FetchFails (FetchFails s - 1) s)
      else
        let '(batch, idx, s) :=
          match live s !! UUID req with
          | Some lr =>
              match batches (lres lr) !! next lr with
              | Some b => (b, Z.of_nat (next lr), set_live (<[UUID req := MkLive (lres lr) (S (next lr))]> (live s)) s)
              | None => ([], OptionalIdxAbsent, s)
              end
          | None => ([], OptionalIdxAbsent, s)
          end in
        (replyWith (MkHeader MsgFetchResponse [] 0) (EncodeFetchBody batch idx), s)
  end.

(** [withConn]. *)
Definition withConn (s : Server) (hdr : Header) (h : Server -> http_reply * Server) : http_reply * Server :=
  match conns s !! ConnectionID hdr with
  | Some _ => h s
  | None => (errorReply (str "Invalid connection id"), s)
  end.

Definition ServeHTTP (s : Server) (r : request) : http_reply * Server :=
  if negb (bool_decide (Method r = str "POST")) || negb (bool_decide (Path r = str "/quack"))
  then (BadStatus 404 (str "This is a DuckDB Quack RPC endpoint." ++ [bz 10]), s)
  else match Body r with
  | None => (BadStatus 400 (str "read failed" ++ [bz 10]), s)
  | Some raw =>
      match SplitEnvelope raw with
      | Err e => (errorReply (werr_Error [] e), s)
      | Panic => (NoResponse (str "EOF"), s)
      | Ok (hdr, body) =>
          if Type_ hdr =? MsgConnectionRequest then handleConnect s body
          else if Type_ hdr =? MsgPrepareRequest then withConn s hdr (fun s => handlePrepare s hdr body)
          else if Type_ hdr =? MsgFetchRequest then withConn s hdr (fun s => handleFetch s body)
          else if Type_ hdr =? MsgDisconnect then handleDisconnect s hdr
          else (errorReply (str "unhandled message type " ++ MessageType_String (Type_ hdr)), s)
      end
  end.

(** The request a client's message makes: a POST to [/quack]. *)
Definition posted (msg : bytes) : request := MkRequest (str "POST") (str "/quack") (Some msg).

Definition ExpireConnections (s : Server) : Server := set_conns ∅ 0 s.

Definition FetchCount (s : Server) : Z := fetchCount s.
Definition OpenConnections (s : Server) : Z := activeConn s.

End Handlers.

(** ** Splitting a table *)

(** The windows partition the rows: in order, without gaps, none empty and none
    longer than the step. *)
Lemma windows_spec fuel a step n : 0 < step -> 0 <= a -> n - a <= Z.of_nat fuel ->
  exists ws, windows fuel a step n = Some (Ok ws) /\
    Forall (fun w => (w.1 < w.2)%nat /\ Z.of_nat (w.2 - w.1) <= step /\ Z.of_nat w.2 <= n) ws /\
    forall A (l : list A), Z.of_nat (length l) = n ->
      concat ((fun w => take (w.2 - w.1) (drop w.1 l)) <$> ws) = drop (Z.to_nat a) l.
Proof.
  intros Hs. revert a. induction fuel as [|fuel IH]; intros a Ha Hf; cbn [windows].
  - rewrite (proj2 (Z.ltb_ge _ _)) by lia. exists []. split; [done|]. split; [constructor|].
    intros A l Hl. cbn. rewrite drop_ge by lia. done.
  - destruct (Z.ltb_spec a n).
    + rewrite (proj2 (Z.ltb_ge _ a)) by lia. destruct (IH (a + step)) as (ws & -> & Hw & Hc); [lia|lia|].
      cbn. eexists. split; [done|]. split.
      * constructor; [cbn; lia|done].
      * intros A l Hl. cbn [fmap list_fmap concat fst snd]. rewrite (Hc A l Hl).
        destruct (Z.le_gt_cases (a + step) n).
        { rewrite Z.min_l by lia. replace (Z.to_nat (a + step)) with (Z.to_nat a + (Z.to_nat (a + step) - Z.to_nat a))%nat at 2 by lia.
          by rewrite <- drop_drop, take_drop. }
        rewrite Z.min_r by lia. rewrite (drop_ge l (Z.to_nat (a + step))) by lia. rewrite app_nil_r, take_ge; [done|].
        rewrite length_drop. lia.
    + exists []. split; [done|]. split; [constructor|]. intros A l Hl. cbn. rewrite drop_ge by lia. done.
Qed.

Lemma omapM_slices {A} (l : list A) ws :
  Forall (fun w => (w.1 < w.2)%nat /\ (w.2 <= length l)%nat) ws ->
  omapM (fun w => slice l w.1 w.2) ws = Ok ((fun w => take (w.2 - w.1) (drop w.1 l)) <$> ws).
Proof.
  induction 1 as [|w ws [H1 H2] _ IH]; [done|]. cbn [omapM]. unfold slice at 1.
  rewrite (proj2 (Nat.leb_le _ _)), (proj2 (Nat.leb_le _ _)) by lia. cbn [andb obind]. by rewrite IH.
Qed.

(** The part of a table that one window selects. *)
Definition part_of (cols : list Col) (w : nat * nat) : list Col :=
  (fun c => MkCol (ColName c) (ColType c) (take (w.2 - w.1) (drop w.1 (Vals c)))) <$> cols.

Lemma part_ok cols w n : (forall c, c ∈ cols -> length (Vals c) = n) -> (w.1 < w.2)%nat -> (w.2 <= n)%nat ->
  part cols w = Ok (part_of cols w).
Proof.
  intros Hc H1 H2. unfold part, part_of. induction cols as [|c cols IH]; [done|]. cbn [omapM].
  unfold slice at 1. rewrite (Hc c) by left. rewrite (proj2 (Nat.leb_le _ _)), (proj2 (Nat.leb_le _ _)) by lia.
  cbn [andb obind]. rewrite IH; [done|]. intros c' Hin. apply Hc. by right.
Qed.

(** The rows of the chunks of a split table, column by column. *)
Definition column_rows (chunks : list (list Col)) (i : nat) : list any :=
  concat ((fun t => match t !! i with Some c => Vals c | None => [] end) <$> chunks).

(** C34: [AddResult] returns for positive chunk and batch sizes, and only splits:
    no batch is empty or too long, no chunk is empty or too long, every chunk
    has the table's columns, and column by column the chunks of the batches in
    order are the values registered. *)
Theorem add_result_splits s sql cols chunkRows :
  0 < chunkRows -> 0 < BatchChunks s -> (forall c, c ∈ cols -> length (Vals c) = table_rows cols) ->
  exists bs, AddResult s sql cols chunkRows =
      Some (Ok (set_results (<[sql := MkResult cols bs]> (results s)) s)) /\
    Forall (fun b => b <> [] /\ Z.of_nat (length b) <= BatchChunks s) bs /\
    Forall (fun t => (0 < table_rows t)%nat /\ Z.of_nat (table_rows t) <= chunkRows /\
                     (fun c => (ColName c, ColType c)) <$> t = (fun c => (ColName c, ColType c)) <$> cols) (concat bs) /\
    forall i c, cols !! i = Some c -> column_rows (concat bs) i = Vals c.
Proof.
  intros Hr Hb Hc. unfold AddResult. cbv zeta.
  destruct (windows_spec (table_rows cols) 0 chunkRows (Z.of_nat (table_rows cols))) as (ws & -> & Hw & Hcov); [done|done|lia|].
  cbn [mbind option_bind obind].
  assert (Hp : omapM (part cols) ws = Ok (part_of cols <$> ws)).
  { clear Hcov. induction Hw as [|w ws (H1 & _ & H2) _ IH]; [done|]. cbn [omapM fmap list_fmap].
    rewrite (part_ok cols w (table_rows cols)) by (done || lia). cbn [obind]. by rewrite IH. }
  rewrite Hp. set (chunks := part_of cols <$> ws).
  destruct (windows_spec (length chunks) 0 (BatchChunks s) (Z.of_nat (length chunks))) as (vs & -> & Hv & Hcov2); [done|done|lia|].
  cbn [mbind option_bind obind]. rewrite omapM_slices.
  2: { eapply Forall_impl; [exact Hv|]. cbn. lia. }
  set (bs := (fun w => take (w.2 - w.1) (drop w.1 chunks)) <$> vs). exists bs. split; [done|].
  assert (Hbs : concat bs = chunks) by (unfold bs; by rewrite (Hcov2 _ chunks)).
  split; [|rewrite Hbs; split].
  - unfold bs. apply Forall_fmap. eapply Forall_impl; [exact Hv|]. intros w (H1 & H2 & H3). cbn.
    assert (Hl : length (take (w.2 - w.1) (drop w.1 chunks)) = (w.2 - w.1)%nat) by (rewrite length_take, length_drop; lia).
    split; [intros E; rewrite E in Hl; cbn in Hl; lia|]. lia.
  - unfold chunks. apply Forall_fmap. eapply Forall_impl; [exact Hw|]. intros w (H1 & H2 & H3). cbn.
    split; [|split].
    + destruct cols as [|c cols]; [cbn in H3; lia|]. cbn [part_of fmap list_fmap table_rows Vals].
      rewrite length_take, length_drop. cbn [table_rows] in *. lia.
    + destruct cols as [|c cols]; [cbn in H3; lia|]. cbn [part_of fmap list_fmap table_rows Vals].
      rewrite length_take. lia.
    + unfold part_of. by rewrite <- list_fmap_compose.
  - intros i c Hi. unfold column_rows, chunks. rewrite <- list_fmap_compose.
    rewrite <- (drop_0 (Vals c)). change 0%nat with (Z.to_nat 0). rewrite <- (Hcov _ (Vals c)).
    2: { f_equal. apply Hc. by eapply list_elem_of_lookup_2. }
    f_equal. apply list_fmap_ext. intros j w _. cbn. unfold part_of. by rewrite list_lookup_fmap, Hi.
Qed.

(** ** A client against the server *)

Section Exchange.
Context (Quote : bytes -> bytes).

(** The reply the server gives to a posted message, and its new state. *)
Definition serve (s : Server) (msg : option bytes) : http_reply * Server :=
  match msg with
  | Some m => ServeHTTP Quote s (posted m)
  | None => (NoResponse [], s)
  end.

(** A query and a fetch carried out against the server.  What a client posts
    does not depend on the reply it gets. *)
Definition queryServer (c : Conn) (sql : bytes) (s : Server) : outcome derr PrepareResult * Client * Server :=
  let '(rep, s) := serve s (Query c sql (NoResponse [])).1.1 in
  let '(_, res, cl) := Query c sql rep in (res, cl, s).

Definition fetchServer (cl : Client) (uuid : hugeint) (s : Server) : outcome werr bytes * Client * Server :=
  let '(rep, s) := serve s (Fetch cl uuid (NoResponse [])).1.1 in
  let '(_, res, cl) := Fetch cl uuid rep in (res, cl, s).

(** [n] fetches, one after the other. *)
Fixpoint fetchAll (n : nat) (cl : Client) (uuid : hugeint) (s : Server) : list (outcome werr bytes) * Client * Server :=
  match n with
  | O => ([], cl, s)
  | S n =>
      let '(r, cl, s) := fetchServer cl uuid s in
      let '(rs, cl, s) := fetchAll n cl uuid s in
      (r :: rs, cl, s)
  end.

(** A client the server knows. *)
Definition session (cl : Client) (s : Server) : Prop :=
  closed cl = false /\ str_ok (connID cl) /\ conns s !! connID cl = Some tt.

Lemma serve_call cl req body s : session cl s -> in_u 8 req ->
  serve s (call cl req body 0 (NoResponse [])).1.1 =
  let hdr := MkHeader req (connID cl) (u64 (qid cl + 1)) in
  if req =? MsgConnectionRequest then handleConnect s body
  else if req =? MsgPrepareRequest then withConn s hdr (fun s => handlePrepare Quote s hdr body)
  else if req =? MsgFetchRequest then withConn s hdr (fun s => handleFetch s body)
  else if req =? MsgDisconnect then handleDisconnect s hdr
  else (errorReply (str "unhandled message type " ++ MessageType_String req), s).
Proof.
  intros (Ho & Hid & _) Hr. rewrite (call_open _ _ _ _ _ Ho). cbn [fst]. unfold serve, ServeHTTP, posted.
  cbn [Method Path Body]. rewrite split_encode; [reflexivity|]. split; [done|]. split; [done|]. by apply uwrap_in.
Qed.

Lemma reply_split hdr body : in_u 8 (Type_ hdr) -> str_ok (ConnectionID hdr) -> in_u 64 (QueryID hdr) ->
  exists raw h, reply hdr body = OKBody raw /\ SplitEnvelope raw = Ok (h, body) /\ Type_ h = Type_ hdr.
Proof.
  intros H1 H2 H3. unfold reply. cbv zeta.
  set (h := if QueryID hdr =? 0 then _ else hdr). exists (EncodeEnvelope h body), h. split; [done|].
  unfold h. rewrite split_encode; [split; [done|by destruct (QueryID hdr =? 0)]|].
  destruct (QueryID hdr =? 0); [|done]. split; [done|]. split; [done|]. by compute.
Qed.

(** The index of a fetched batch. *)
Definition batch_index (res : result) (k : nat) : Z :=
  match batches res !! k with Some _ => Z.of_nat k | None => OptionalIdxAbsent end.

(** The bodies the server sends for a result are byte slices. *)
Definition sizes_ok (res : result) (uuid : hugeint) : Prop :=
  (forall w, EncodePrepareBody (rcols res) (default [] (head (batches res))) (1 <? length (batches res))%nat uuid = Ok w ->
     go_len w) /\
  (forall k w, EncodeFetchBody (default [] (batches res !! k)) (batch_index res k) = Ok w -> go_len w).

(** A result whose tables the codec can carry. *)
Definition servable (res : result) (uuid : hugeint) : Prop :=
  (forall c, c ∈ rcols res -> encodable (S maxTypeDepth) (ColType c)) /\
  (forall b t, b ∈ batches res -> t ∈ b -> table_ok t) /\ Z.of_nat (length (batches res)) < 2 ^ 63 /\ sizes_ok res uuid.

Lemma prepare_served c sql s res : session (w c) s -> str_ok sql -> results s !! sql = Some res ->
  let uuid := Hugeint 0x7e57 (u64 (nextID s + 1)) in servable res uuid ->
  exists cl', (forall s', session (w c) s' -> session cl' s') /\
  queryServer c sql s =
    (Ok (MkPrepareResult (schema_of (rcols res)) (chunk_of <$> default [] (head (batches res)))
           (1 <? length (batches res))%nat uuid),
     cl',
     if (1 <? length (batches res))%nat
     then set_live (<[uuid := MkLive res 1]> (live s)) (set_nextID (nextID s + 1) s)
     else set_nextID (nextID s + 1) s).
Proof.
  intros Hsess Hsql Hres uuid (Hcols & Htabs & _ & Hsize & _). destruct Hsess as (Ho & Hid & Hconn).
  eexists. split; cycle 1.
  - unfold queryServer, Query, Prepare. rewrite !(call_open _ _ _ _ _ Ho). cbn [fst].
    pose proof (serve_call (w c) MsgPrepareRequest (PrepareRequest_Encode (MkPrepareRequest sql)) s) as E.
    rewrite (call_open _ _ _ _ _ Ho) in E. cbn [fst] in E. rewrite E by (done || by compute). clear E. cbn zeta.
    change (MsgPrepareRequest =? MsgConnectionRequest) with false. change (MsgPrepareRequest =? MsgPrepareRequest) with true.
    unfold withConn. cbn [ConnectionID]. rewrite Hconn. unfold handlePrepare.
    rewrite <- (app_nil_r (PrepareRequest_Encode _)), prepare_request_decodes by done. cbn [SQL]. rewrite Hres. cbv zeta.
    change (nextID (set_nextID (nextID s + 1) s)) with (nextID s + 1).
    replace (match batches res with [] => [] | b :: _ => b end) with (default [] (head (batches res))) by (by destruct (batches res)).
    destruct (prepare_decodes (rcols res) (default [] (head (batches res))) (1 <? length (batches res))%nat uuid) as (body & Eb & Hb).
    { done. }
    { intros t Ht. destruct (batches res) as [|b bs] eqn:E; [by apply elem_of_nil in Ht|]. apply (Htabs b); [left|done]. }
    { by compute. }
    { by apply uwrap_in. }
    fold uuid. rewrite Eb. unfold replyWith. cbv beta iota. cbn [QueryID].
    destruct (reply_split (MkHeader MsgPrepareResponse [] (u64 (qid (w c) + 1))) body) as (raw & h & -> & Hs & Ht);
      [by compute|by compute|by apply uwrap_in|].
    cbv beta iota zeta. rewrite (call_open _ _ _ _ _ Ho). unfold call_result. rewrite Hs, Ht. change (MsgPrepareResponse =? MsgPrepareResponse) with true.
    pose proof (Hb (Hsize _ Eb) []) as Hd. rewrite app_nil_r in Hd.
    cbn [Type_]. change (MsgPrepareResponse =? MsgPrepareResponse) with true. cbv iota. rewrite Hd. done.
  - by intros s' (? & ? & ?).
Qed.

Lemma fetch_served cl uuid s res k : session cl s -> in_s 64 (Upper uuid) -> in_u 64 (Lower uuid) ->
  FetchFails s <= 0 -> live s !! uuid = Some (MkLive res k) -> servable res uuid ->
  exists cl' body, (forall s', session cl s' -> session cl' s') /\
  (forall rest, DecodeFetch (body ++ rest) =
     Ok (MkFetchResult (chunk_of <$> default [] (batches res !! k)) (batch_index res k))) /\
  fetchServer cl uuid s =
    (Ok body, cl',
     match batches res !! k with
     | Some _ => set_live (<[uuid := MkLive res (S k)]> (live s)) (set_fetchCount (fetchCount s + 1) s)
     | None => set_fetchCount (fetchCount s + 1) s
     end).
Proof.
  intros Hsess Hu Hl Hff Hlive (Hcols & Htabs & Hlen & _ & Hsize). destruct Hsess as (Ho & Hid & Hconn).
  set (b := default [] (batches res !! k)).
  set (i := batch_index res k).
  assert (Hb : forall t, t ∈ b -> table_ok t).
  { intros t Ht. unfold b in Ht. destruct (batches res !! k) as [b'|] eqn:E; [|by apply elem_of_nil in Ht].
    apply (Htabs b'); [by eapply list_elem_of_lookup_2|done]. }
  assert (Hi : in_u 64 i).
  { unfold i, batch_index. destruct (batches res !! k) eqn:E; [|by compute]. apply lookup_lt_Some in E. unfold in_u. lia. }
  destruct (fetch_decodes b i Hb Hi) as (body & Eb & Hd).
  pose proof (Hsize k body Eb) as Hg.
  eexists _, body. split; [|split; [by apply Hd|]]; cycle 1.
  - unfold fetchServer, Fetch. rewrite !(call_open _ _ _ _ _ Ho). cbn [fst].
    pose proof (serve_call cl MsgFetchRequest (FetchRequest_Encode (MkFetchRequest uuid)) s) as E.
    rewrite (call_open _ _ _ _ _ Ho) in E. cbn [fst] in E. rewrite E by (done || by compute). clear E. cbn zeta.
    change (MsgFetchRequest =? MsgConnectionRequest) with false. change (MsgFetchRequest =? MsgPrepareRequest) with false.
    change (MsgFetchRequest =? MsgFetchRequest) with true.
    unfold withConn. cbn [ConnectionID]. rewrite Hconn. unfold handleFetch.
    rewrite <- (app_nil_r (FetchRequest_Encode _)), fetch_request_decodes by done. cbn [UUID]. cbv zeta.
    change (FetchFails (set_fetchCount (fetchCount s + 1) s)) with (FetchFails s).
    rewrite (proj2 (Z.ltb_ge _ _)) by lia. change (live (set_fetchCount (fetchCount s + 1) s)) with (live s).
    rewrite Hlive. cbn [lres next].
    destruct (reply_split (MkHeader MsgFetchResponse [] 0) body) as (raw & h & Er & Hs & Ht); [by compute..|].
    unfold b, i, batch_index in Eb. destruct (batches res !! k) as [b'|]; cbn [default from_option id] in Eb; rewrite Eb; unfold replyWith; cbv beta iota;
      rewrite Er; cbv beta iota zeta; rewrite (call_open _ _ _ _ _ Ho); unfold call_result; rewrite Hs, Ht; reflexivity.
  - by intros s' (? & ? & ?).
Qed.

(** Batch [k] of a result, or no chunks past the last, as a fetch gives it. *)
Definition holds_batch (res : result) (k : nat) (body : bytes) : Prop :=
  DecodeFetch body = Ok (MkFetchResult (chunk_of <$> default [] (batches res !! k)) (batch_index res k)).

Lemma holds_past_end res k k' body : batches res !! k = None -> (k <= k')%nat -> holds_batch res k body -> holds_batch res k' body.
Proof.
  unfold holds_batch, batch_index. intros Hk Hle. pose proof Hk as Hk'. apply lookup_ge_None in Hk'.
  by rewrite Hk, (proj2 (lookup_ge_None (batches res) k')) by lia.
Qed.

Lemma fetch_all_served n cl uuid s res k : session cl s -> in_s 64 (Upper uuid) -> in_u 64 (Lower uuid) ->
  FetchFails s <= 0 -> live s !! uuid = Some (MkLive res k) -> servable res uuid ->
  exists bodies cl' s', fetchAll n cl uuid s = (Ok <$> bodies, cl', s') /\ length bodies = n /\
    forall j body, bodies !! j = Some body -> holds_batch res (k + j) body.
Proof.
  revert cl s k. induction n as [|n IH]; intros cl s k Hs Hu Hl Hf Hlive Hres; [by exists [], cl, s|].
  destruct (fetch_served cl uuid s res k) as (cl' & body & Hsess & Hd & E); [done..|].
  cbn [fetchAll]. rewrite E. specialize (Hd []). rewrite app_nil_r in Hd.
  destruct (batches res !! k) as [b|] eqn:Eb.
  - destruct (IH cl' (set_live (<[uuid := MkLive res (S k)]> (live s)) (set_fetchCount (fetchCount s + 1) s)) (S k))
      as (bodies & cl2 & s2 & -> & Hlen & Hb); [by apply Hsess|done|done|done|by apply lookup_insert_eq|done|].
    exists (body :: bodies), cl2, s2. split; [done|]. split; [cbn; lia|].
    intros [|j] body' Hj; [injection Hj as <-; rewrite Nat.add_0_r; unfold holds_batch; by rewrite Eb|].
    rewrite Nat.add_succ_r. by apply Hb.
  - destruct (IH cl' (set_fetchCount (fetchCount s + 1) s) k)
      as (bodies & cl2 & s2 & -> & Hlen & Hb); [by apply Hsess|done..|].
    exists (body :: bodies), cl2, s2. split; [done|]. split; [cbn; lia|].
    intros [|j] body' Hj.
    + injection Hj as <-. rewrite Nat.add_0_r. unfold holds_batch. by rewrite Eb.
    + apply (holds_past_end res (k + j)); [|lia|by apply Hb]. apply lookup_ge_None. apply lookup_ge_None in Eb. lia.
Qed.

Lemma fetch_all_split n cl uuid s bodies cl3 s3 : fetchAll (S n) cl uuid s = (Ok <$> bodies, cl3, s3) ->
  exists bs drained cl2 s2, bodies = bs ++ [drained] /\ fetchAll n cl uuid s = (Ok <$> bs, cl2, s2) /\
    fetchServer cl2 uuid s2 = (Ok drained, cl3, s3).
Proof.
  revert cl s bodies. induction n as [|n IH]; intros cl s bodies H.
  - cbn [fetchAll] in H. destruct (fetchServer cl uuid s) as [[r cl'] s'] eqn:E. injection H as Hr -> ->.
    destruct bodies as [|b [|b' bodies]]; try done. injection Hr as ->. by exists [], b, cl, s.
  - change (fetchAll (S (S n)) cl uuid s) with
      (let '(r, cl, s) := fetchServer cl uuid s in
       let '(rs, cl, s) := fetchAll (S n) cl uuid s in (r :: rs, cl, s)) in H.
    cbn [fetchAll] in *. destruct (fetchServer cl uuid s) as [[r cl'] s'].
    destruct (let '(r, cl, s) := fetchServer cl' uuid s' in _) as [[rs cl4] s4] eqn:E.
    injection H as Hr -> ->. destruct bodies as [|b bodies]; [done|]. injection Hr as -> ->.
    destruct (IH cl' s' bodies E) as (bs & drained & cl2 & s2 & -> & E1 & E2).
    exists (b :: bs), drained, cl2, s2. rewrite E1. by split.
Qed.

(** The bodies of the batches after the first, as the stream sees them. *)
Lemma bodies_chunks bs bodies : Forall (fun b : list (list Col) => b <> []) bs -> length bodies = length bs ->
  (forall j body, bodies !! j = Some body ->
     exists i, DecodeFetch body = Ok (MkFetchResult (chunk_of <$> default [] (bs !! j)) i)) ->
  Forall good_body bodies /\ body_chunks <$> bodies = (fun b => chunk_of <$> b) <$> bs.
Proof.
  intros Hne. revert bodies. induction Hne as [|b bs Hb _ IH]; intros [|body bodies] Hl Hd; try done.
  destruct (IH bodies) as [H1 H2]; [by injection Hl|intros j; apply (Hd (S j))|].
  destruct (Hd 0%nat body eq_refl) as [i Hi]. cbn in Hi.
  assert (Hf : fetched body = Some (Chunks (chunk_of <$> b))).
  { unfold fetched. rewrite Hi. cbn [FChunks]. by destruct b. }
  split; [constructor; [by eexists|done]|]. cbn [fmap list_fmap]. rewrite H2. f_equal. unfold body_chunks. by rewrite Hf.
Qed.

(** A range over the first batch inline and the others to fetch: it can end
    silently, and if it does everything has been delivered. *)
Lemma range_complete needsMore n first rest bodies : (0 < n)%nat -> (needsMore = false -> bodies = []) ->
  Forall good_body bodies -> body_chunks <$> bodies = (fun b => chunk_of <$> b) <$> rest ->
  let start := start (chunk_of <$> first) bodies in
  (exists st, steps needsMore n start st /\ loop st = CEnd Silent /\ stop st = false) /\
  forall st, steps needsMore n start st -> loop st = CEnd Silent -> stop st = false ->
    exists order, rest ≡ₚ order /\ delivered st = chunk_of <$> first ++ concat order.
Proof.
  intros Hn Hneeds Hg Hbc s0. split; [by apply silent_run|]. intros st Hst Hend Hopen.
  pose proof (steps_inv _ n _ _ Hn Hneeds st Hg Hst) as Hinv.
  destruct (inv_silent _ _ _ _ Hinv Hend) as [?|(order & Ho & ->)]; [congruence|]. rewrite Hbc in Ho.
  apply Permutation_map_inv in Ho as (order' & -> & Hp). exists order'. split; [exact Hp|].
  rewrite fmap_app. f_equal. clear. induction order' as [|b l IH]; [done|]. cbn. rewrite fmap_app. by f_equal.
Qed.

(** The fetches of a result registered by a query: its batches after the
    first, and then no chunks. *)
Lemma remaining_served cl uuid s res : session cl s -> in_s 64 (Upper uuid) -> in_u 64 (Lower uuid) ->
  FetchFails s <= 0 -> (1 < length (batches res))%nat -> live s !! uuid = Some (MkLive res 1) -> servable res uuid ->
  exists bodies cl2 s2 drained cl3 s3,
    fetchAll (length (batches res) - 1) cl uuid s = (Ok <$> bodies, cl2, s2) /\
    length bodies = (length (batches res) - 1)%nat /\
    (forall j body, bodies !! j = Some body -> holds_batch res (S j) body) /\
    fetchServer cl2 uuid s2 = (Ok drained, cl3, s3) /\ DecodeFetch drained = Ok (MkFetchResult [] BatchIndexAbsent).
Proof.
  intros Hs Hu Hl Hff Hmore Hlive Hserv.
  destruct (fetch_all_served (S (length (batches res) - 1)) cl uuid s res 1) as (bodies & cl3 & s3 & Ef & Hlen & Hb); [done..|].
  destruct (fetch_all_split _ _ _ _ _ _ _ Ef) as (bs & drained & cl2 & s2 & -> & E1 & E2).
  rewrite length_app in Hlen. cbn [length] in Hlen.
  exists bs, cl2, s2, drained, cl3, s3. split; [done|]. split; [lia|]. split; [|split; [done|]].
  - intros j body Hj. apply Hb. rewrite lookup_app_l; [done|]. by eapply lookup_lt_Some.
  - specialize (Hb (length bs) drained). unfold holds_batch, batch_index in Hb.
    rewrite (proj2 (lookup_ge_None (batches res) _)) in Hb by lia. apply Hb. by rewrite lookup_app_r, Nat.sub_diag by lia.
Qed.

(** C4: end to end.  Against the fake server, a query on a live session gives
    the schema registered for its text and the first batch inline; the fetches
    of the result give the remaining batches, each whole, as registered and
    with its index, in order, and the next one no chunks; a range over the
    result's chunks can end silently, for any number of workers; and whenever
    it does, whatever the interleaving, without the result having been closed,
    it has delivered the first batch and then every other batch exactly once,
    each value as it was registered. *)
Theorem served_query_complete c sql s res n :
  session (w c) s -> str_ok sql -> results s !! sql = Some res ->
  servable res (Hugeint 0x7e57 (u64 (nextID s + 1))) ->
  Forall (fun b => b <> []) (batches res) -> FetchFails s <= 0 -> (0 < n)%nat ->
  exists pr cl s1 bodies cl2 s2,
    queryServer c sql s = (Ok pr, cl, s1) /\
    pr = MkPrepareResult (schema_of (rcols res)) (chunk_of <$> default [] (head (batches res)))
           (1 <? length (batches res))%nat (Hugeint 0x7e57 (u64 (nextID s + 1))) /\
    fetchAll (length (batches res) - 1) cl (ResultUUID pr) s1 = (Ok <$> bodies, cl2, s2) /\
    length bodies = (length (batches res) - 1)%nat /\
    (forall j body, bodies !! j = Some body -> exists b, batches res !! S j = Some b /\
       DecodeFetch body = Ok (MkFetchResult (chunk_of <$> b) (Z.of_nat (S j)))) /\
    ((1 < length (batches res))%nat -> exists drained cl3 s3,
       fetchServer cl2 (ResultUUID pr) s2 = (Ok drained, cl3, s3) /\
       DecodeFetch drained = Ok (MkFetchResult [] BatchIndexAbsent)) /\
    (exists st, steps (NeedsMoreFetch pr) n (start (PChunks pr) bodies) st /\ loop st = CEnd Silent /\ stop st = false) /\
    forall st, steps (NeedsMoreFetch pr) n (start (PChunks pr) bodies) st -> loop st = CEnd Silent -> stop st = false ->
      exists order, tail (batches res) ≡ₚ order /\
        delivered st = chunk_of <$> default [] (head (batches res)) ++ concat order.
Proof.
  intros Hs Hsql Hres Hserv Hne Hff Hn.
  destruct (prepare_served c sql s res Hs Hsql Hres Hserv) as (cl & Hcl & Eq). cbv zeta in Eq.
  set (uuid := Hugeint 32343 (u64 (nextID s + 1))) in *. rewrite Eq. clear Eq.
  set (pr := MkPrepareResult _ _ _ uuid).
  destruct (Nat.ltb_spec 1 (length (batches res))) as [Hmore|Hfew].
  - set (s1 := set_live _ _).
    destruct (remaining_served cl uuid s1 res) as (bodies & cl2 & s2 & dr & cl3 & s3 & E1 & Hlb & Hb & E2 & Hd);
      [by apply Hcl|by compute|by apply uwrap_in|done|done|by apply lookup_insert_eq|done|].
    exists pr, cl, s1, bodies, cl2, s2. split; [done|]. split; [done|]. split; [done|]. split; [done|].
    assert (Hb' : forall j body, bodies !! j = Some body -> exists b, batches res !! S j = Some b /\
       DecodeFetch body = Ok (MkFetchResult (chunk_of <$> b) (Z.of_nat (S j)))).
    { intros j body Hj. specialize (Hb j body Hj). apply lookup_lt_Some in Hj.
      destruct (lookup_lt_is_Some_2 (batches res) (S j)) as [b Eb]; [lia|]. exists b. split; [done|].
      unfold holds_batch, batch_index in Hb. by rewrite Eb in Hb. }
    split; [done|]. split; [intros _; by exists dr, cl3, s3|].
    destruct (batches res) as [|b0 rest]; [cbn in Hmore; lia|]. inversion_clear Hne as [|? ? _ Hrest].
    destruct (bodies_chunks rest bodies Hrest) as [Hg Hbc]; [cbn in Hlb; lia| |by apply range_complete].
    intros j body Hj. destruct (Hb' j body Hj) as (b & Eb & Ed). change (rest !! j = Some b) in Eb. rewrite Eb. by eexists.
  - exists pr, cl, (set_nextID (nextID s + 1) s), [], cl, (set_nextID (nextID s + 1) s).
    replace (length (batches res) - 1)%nat with 0%nat by lia.
    split; [done|]. split; [done|]. split; [done|]. split; [done|]. split; [done|]. split; [lia|].
    apply (range_complete false n); [done|done|constructor|].
    by destruct (batches res) as [|b0 [|b1 rest]]; [..|cbn in Hfew; lia].
Qed.

End Exchange.

(** ** A concrete run *)

Definition sample_result : result := MkResult sample_table [[sample_table]; [sample_table; sample_table]].

Definition sample_server : Server :=
  set_conns {[str "c1" := tt]} 1 (set_results {[str "SELECT *" := sample_result]} (New (str "s3cret"))).

Lemma sample_servable uuid : uuid = Hugeint 0x7e57 (u64 1) -> servable sample_result uuid.
Proof.
  intros ->. split; [intros c Hc; by apply sample_table_ok|]. split.
  { intros b t Hb Ht. assert (t = sample_table) as ->; [|apply sample_table_ok].
    cbn [batches sample_result] in Hb. rewrite !elem_of_cons in Hb. destruct Hb as [->|[->|Hb]]; [..|by apply elem_of_nil in Hb];
      rewrite !elem_of_cons in Ht; destruct Ht as [->|Ht]; try done; [by apply elem_of_nil in Ht|].
    destruct Ht as [->|Ht]; [done|by apply elem_of_nil in Ht]. }
  split; [by compute|]. split.
  - intros w H. vm_compute in H. injection H as <-. by compute.
  - intros [|[|k]] w H; [vm_compute in H; injection H as <-; by compute..|].
    assert (E : batches sample_result !! S (S k) = None) by done. unfold batch_index in H. rewrite E in H.
    vm_compute in H. injection H as <-. by compute.
Qed.

(** The second batch of the sample, two chunks, is fetched; a range with two
    workers delivers all three. *)
Lemma served_query_complete_witness :
  exists pr cl s1 body cl2 s2 st,
    queryServer (fun q => q) (MkConn sample_client 1) (str "SELECT *") sample_server = (Ok pr, cl, s1) /\
    Schema pr = schema_of sample_table /\ NeedsMoreFetch pr = true /\
    fetchAll (fun q => q) 1 cl (ResultUUID pr) s1 = ([Ok body], cl2, s2) /\
    DecodeFetch body = Ok (MkFetchResult [chunk_of sample_table; chunk_of sample_table] 1) /\
    steps true 2 (start (PChunks pr) [body]) st /\ loop st = CEnd Silent /\
    delivered st = [chunk_of sample_table; chunk_of sample_table; chunk_of sample_table].
Proof.
  destruct (served_query_complete (fun q => q) (MkConn sample_client 1) (str "SELECT *") sample_server sample_result 2)
    as (pr & cl & s1 & bodies & cl2 & s2 & E & Hpr & Ef & Hl & Hb & _ & (st & Hst & Hend & Hstop) & Hall).
  - split; [reflexivity|]. split; [by compute|]. vm_compute. reflexivity.
  - by compute.
  - vm_compute. reflexivity.
  - apply sample_servable. reflexivity.
  - repeat constructor; discriminate.
  - by compute.
  - lia.
  - destruct bodies as [|body [|body' bodies]]; [discriminate Hl| |discriminate Hl].
    destruct (Hb 0%nat body eq_refl) as (b & Eb & Ed). injection Eb as <-.
    destruct (Hall st Hst Hend Hstop) as (order & Hp & Hd). apply Permutation_singleton_l in Hp. subst order pr.
    exists (MkPrepareResult (schema_of sample_table) [chunk_of sample_table] true (Hugeint 0x7e57 (u64 1))), cl, s1, body, cl2, s2, st.
    split; [exact E|]. split; [reflexivity|]. split; [reflexivity|]. split; [exact Ef|]. split; [exact Ed|].
    split; [exact Hst|]. split; [exact Hend|]. exact Hd.
Defined.

Lemma add_result_splits_witness :
  exists bs, AddResult (New []) (str "q") [MkCol (str "i") (T TypeInteger) [VInt32 1; VNil; VInt32 3]] 2 =
      Some (Ok (set_results (<[str "q" := MkResult [MkCol (str "i") (T TypeInteger) [VInt32 1; VNil; VInt32 3]] bs]> ∅) (New []))) /\
    column_rows (concat bs) 0 = [VInt32 1; VNil; VInt32 3].
Proof.
  destruct (add_result_splits (New []) (str "q") [MkCol (str "i") (T TypeInteger) [VInt32 1; VNil; VInt32 3]] 2)
    as (bs & E & _ & _ & Hc).
  - lia.
  - by compute.
  - intros c Hc. apply list_elem_of_singleton in Hc. by rewrite Hc.
  - exists bs. split; [exact E|]. by rewrite (Hc 0%nat _ eq_refl).
Defined.
