(* ===== verification/Bouncer.v ===== *)
(** * cmd/quackbouncer: the pooling proxy

    pool.go, proxy.go, metrics.go and main.go up to the listening socket.
    Upstream clients are shared objects: the store [p_heap] maps a pointer to
    the client, and the pool and the table of virtual connections hold
    pointers.  The handlers are functions of the proxy and of what the upstream
    answers; [rand.Text] is the argument [vid].  The interleavings of their
    critical sections are the step relation of BouncerSteps. *)

From stdpp Require Import gmap.
From S2P Require Import Prelude Qser QserLib GoFmt Messages Client WireText Quacktest.

(** ** Token files *)

(** The encodings of the runes [unicode.IsSpace] accepts. *)
Definition spaces : list bytes :=
  fmap (fun z => [bz z]) [9; 10; 11; 12; 13; 32] ++
  [[bz 194; bz 133]; [bz 194; bz 160]; [bz 225; bz 154; bz 128]] ++
  fmap (fun z => [bz 226; bz 128; bz z]) [128; 129; 130; 131; 132; 133; 134; 135; 136; 137; 138; 168; 169; 175] ++
  [[bz 226; bz 129; bz 159]; [bz 227; bz 128; bz 128]].

(** What is left of [s] after one of [encs] at its head. *)
Fixpoint strip_one (encs : list bytes) (s : bytes) : option bytes :=
  match encs with
  | [] => None
  | e :: encs => if has_prefix e s then Some (drop (length e) s) else strip_one encs s
  end.

Fixpoint strip (fuel : nat) (encs : list bytes) (s : bytes) : bytes :=
  match fuel with
  | O => s
  | S fuel => match strip_one encs s with Some s' => strip fuel encs s' | None => s end
  end.

(** [strings.TrimSpace]; each turn removes a byte at least. *)
Definition trim_left (s : bytes) : bytes := strip (length s) spaces s.
Definition trim_right (s : bytes) : bytes := reverse (strip (length s) (reverse <$> spaces) (reverse s)).
Definition TrimSpace (s : bytes) : bytes := trim_right (trim_left s).

(** [strings.Cut]. *)
Definition Cut (s sep : bytes) : option (bytes * bytes) :=
  match index_of sep s with
  | Some i => Some (take i s, drop (i + length sep) s)
  | None => None
  end.

Inductive tokerr : Type :=
  | EOpen
  | EWant (line : Z)          (** [want name:token] *)
  | ETooLong                  (** [bufio.ErrTooLong] *)
  | ERead.                    (** the reader's own error, from [sc.Err] *)

(** The lines a [bufio.Scanner] gives, without their ends, each with whether
    it exceeds the scanner's buffer. *)
Fixpoint scan_lines (s cur : bytes) : list bytes :=
  match s with
  | [] => match cur with [] => [] | _ => [cur] end
  | c :: s => if bool_decide (c = bz 10) then cur :: scan_lines s [] else scan_lines s (cur ++ [c])
  end.

Definition MaxScanTokenSize : Z := 64 * 1024.

Definition drop_cr (s : bytes) : bytes :=
  match last s with
  | Some c => if bool_decide (c = bz 13) then take (length s - 1) s else s
  | None => s
  end.

Fixpoint loadLines (lines : list bytes) (line : Z) (tokens : gmap bytes bytes) : outcome tokerr (gmap bytes bytes) :=
  match lines with
  | [] => Ok tokens
  | raw :: lines =>
      if MaxScanTokenSize <=? Z.of_nat (length raw) then Err ETooLong
      else
        let line := line + 1 in
        let text := TrimSpace (drop_cr raw) in
        if bool_decide (text = []) || has_prefix (str "#") text then loadLines lines line tokens
        else match Cut text (str ":") with
        | Some (name, token) =>
            if bool_decide (name = []) || bool_decide (token = []) then Err (EWant line)
            else loadLines lines line (<[TrimSpace token := TrimSpace name]> tokens)
        | None => Err (EWant line)
        end
  end.

(** A file that can be opened: what can be read of it, and whether reading then
    fails instead of reaching the end. *)
Definition file := option (bytes * bool).

(** [loadTokens].  The scanner gives what it has read before an error as lines,
    the last one included, and then stops. *)
Definition loadTokens (f : file) : outcome tokerr (gmap bytes bytes) :=
  match f with
  | None => Err EOpen
  | Some (content, broken) =>
      let! tokens := loadLines (scan_lines content []) 0 ∅ in
      if broken : bool then Err ERead else Ok tokens
  end.

(** ** The proxy *)

Record proxy := MkProxy {
  tokens : gmap bytes bytes;
  upstream : Config;
  p_idle : list nat;
  p_max : Z;
  p_conns : gmap bytes nat;
  p_heap : gmap nat Client;
  counters : gmap bytes (gmap bytes Z) }.

Definition set_idle l p := MkProxy (tokens p) (upstream p) l (p_max p) (p_conns p) (p_heap p) (counters p).
Definition set_pconns c p := MkProxy (tokens p) (upstream p) (p_idle p) (p_max p) c (p_heap p) (counters p).
Definition set_heap h p := MkProxy (tokens p) (upstream p) (p_idle p) (p_max p) (p_conns p) h (counters p).
Definition set_counters c p := MkProxy (tokens p) (upstream p) (p_idle p) (p_max p) (p_conns p) (p_heap p) c.

Definition newProxy (toks : gmap bytes bytes) (up : Config) (max : Z) : proxy := MkProxy toks up [] max ∅ ∅ ∅.

(** ** Starting up *)

(** The flags of [main], as package flag leaves them. *)
Record flags := MkFlags {
  f_listen : bytes; f_upstream : bytes; f_tokens : bytes; f_poolSize : Z; f_tlsCert : bytes; f_tlsKey : bytes }.

(** How [main] goes on: it ends with the usage text and status 2, with a fatal
    log line, or it serves a proxy on an address, with or without TLS. *)
Inductive started : Type :=
  | UsageExit
  | TokenUnset
  | TokensFailed (e : tokerr)
  | Serving (addr : bytes) (tls : option (bytes * bytes)) (px : proxy).

(** [main], given the environment and the contents of the files. *)
Definition main (fl : flags) (getenv : bytes -> bytes) (read : bytes -> file) : outcome Empty_set started :=
  if bool_decide (f_upstream fl = []) || bool_decide (f_tokens fl = []) then Ok UsageExit
  else
    let upstreamToken := getenv (str "QUACKBOUNCER_UPSTREAM_TOKEN") in
    if bool_decide (upstreamToken = []) then Ok TokenUnset
    else match loadTokens (read (f_tokens fl)) with
    | Err e => Ok (TokensFailed e)
    | Panic => Panic
    | Ok tokenMap =>
        let px := newProxy tokenMap (MkConfig (f_upstream fl) upstreamToken 0 0 0 0) (f_poolSize fl) in
        Ok (Serving (f_listen fl)
              (if negb (bool_decide (f_tlsCert fl = [])) && negb (bool_decide (f_tlsKey fl = []))
               then Some (f_tlsCert fl, f_tlsKey fl) else None) px)
    end.

(** [c++] of a float64 that counts from 0: from 2^53 on it does not change. *)
Definition float_incr (v : Z) : Z := Z.min (v + 1) (2 ^ 53).

(** [metrics.inc]. *)
Definition inc (name labels : bytes) (p : proxy) : proxy :=
  let c := default ∅ (counters p !! name) in
  set_counters (<[name := <[labels := float_incr (default 0 (c !! labels))]> c]> (counters p)) p.

(** [%q] of a text without quotes, backslashes or unprintable characters. *)
Definition fmt_q (s : bytes) : bytes := [bz 34] ++ s ++ [bz 34].

Definition requests_total : bytes := str "quackbouncer_requests_total".

Definition request_labels (route : bytes) (code : Z) : bytes :=
  str "{route=" ++ fmt_q route ++ str ",code=" ++ fmt_q (itoa code) ++ str "}".

Definition count (route : bytes) (code : Z) (p : proxy) : proxy := inc requests_total (request_labels route code) p.

(** ** The pool *)

(** The critical section of [get]: the most recent idle session. *)
Definition pop_idle (p : proxy) : option (nat * proxy) :=
  match last (p_idle p) with
  | Some c => Some (c, set_idle (take (length (p_idle p) - 1) (p_idle p)) p)
  | None => None
  end.

(** A client the process has just allocated. *)
Definition alloc (c : Client) (p : proxy) : nat * proxy :=
  let up := fresh (dom (p_heap p)) in (up, set_heap (<[up := c]> (p_heap p)) p).

(** The critical section of [put]: whether the session was kept. *)
Definition push_idle (c : nat) (p : proxy) : bool * proxy :=
  if Z.of_nat (length (p_idle p)) <? p_max p then (true, set_idle (p_idle p ++ [c]) p) else (false, p).

(** The goodbye of a session that is not kept; its result is dropped. *)
Definition close_upstream (c : nat) (reply : http_reply) (p : proxy) : proxy :=
  match p_heap p !! c with
  | Some cl => set_heap (<[c := (Close cl reply).2]> (p_heap p)) p
  | None => p
  end.

Definition put (c : nat) (closing : http_reply) (p : proxy) : proxy :=
  let '(kept, p) := push_idle c p in if kept then p else close_upstream c closing p.

Definition idleCount (p : proxy) : Z := Z.of_nat (length (p_idle p)).

(** ** Metrics *)

(** Go's order of strings. *)
Fixpoint bytes_leb (a b : bytes) : bool :=
  match a, b with
  | [], _ => true
  | _, [] => false
  | x :: a, y :: b => (ub x <? ub y) || (ub x =? ub y) && bytes_leb a b
  end.

Fixpoint sorted_insert {A} (k : bytes * A) (l : list (bytes * A)) : list (bytes * A) :=
  match l with
  | [] => [k]
  | k' :: l => if bytes_leb k.1 k'.1 then k :: k' :: l else k' :: sorted_insert k l
  end.

(** [slices.Sorted(maps.Keys(m))], with the values. *)
Definition Sorted {A} (m : gmap bytes A) : list (bytes * A) := foldr sorted_insert [] (map_to_list m).

(** The gauges [newProxy] registers, sampled. *)
Definition gauges (p : proxy) : gmap bytes Z :=
  {[str "quackbouncer_active_connections" := Z.of_nat (size (p_conns p)); str "quackbouncer_pool_idle" := idleCount p]}.

(** [metrics.ServeHTTP]; [fmt_g] is the verb [%g] of a float64. *)
Definition metrics_text (fmt_g : Z -> bytes) (p : proxy) : bytes :=
  concat ((fun nc => str "# TYPE " ++ nc.1 ++ str " counter" ++ [bz 10] ++
             concat ((fun lv => nc.1 ++ lv.1 ++ str " " ++ fmt_g lv.2 ++ [bz 10]) <$> Sorted nc.2)) <$> Sorted (counters p)) ++
  concat ((fun nv => str "# TYPE " ++ nv.1 ++ str " gauge" ++ [bz 10] ++
             nv.1 ++ str " " ++ fmt_g nv.2 ++ [bz 10]) <$> Sorted (gauges p)).

Section Proxy.
(** [net/url]'s scheme of the upstream endpoint, and the text of a context's error. *)
Context (url_scheme : bytes -> option bytes) (ctx_text : bytes).

(** [get]: the session and whether it is reused; the upstream's side of a new
    handshake is [wld]. *)
Definition get (wld : world) (p : proxy) : option (outcome werr (nat * bool) * proxy) :=
  match pop_idle p with
  | Some (c, p) => Some (Ok (c, true), p)
  | None =>
      r ← Connect url_scheme (upstream p) wld;
      Some (match r with
            | Ok cl => let '(up, p) := alloc cl p in (Ok (up, false), p)
            | Err e => (Err e, p)
            | Panic => (Panic, p)
            end)
  end.

(** ** Handlers *)

Definition errorReply (route msg : bytes) (p : proxy) : http_reply * proxy :=
  (Quacktest.reply (MkHeader MsgError [] 0) (ErrorMessage_Encode (MkErrorMessage msg)), count route 200 p).

Definition dropped : http_reply := NoResponse (str "EOF").

Definition handleConnect (p : proxy) (hdr : Header) (body : bytes) (wld : world) (vid : bytes)
  : option (http_reply * proxy) :=
  match DecodeConnectionRequest body with
  | Err e => Some (errorReply (str "connect") (str "quackbouncer: " ++ werr_Error ctx_text e) p)
  | Panic => Some (dropped, p)
  | Ok req =>
      match tokens p !! AuthString req with
      | None => Some (errorReply (str "connect") (str "Authentication failed") p)
      | Some _ =>
          '(r, p) ← get wld p;
          Some (match r with
          | Err e => errorReply (str "connect")
                       (str "quackbouncer: upstream connect failed: " ++ werr_Error ctx_text e) p
          | Panic => (dropped, p)
          | Ok (up, reused) =>
              let p := if reused : bool then p else inc (str "quackbouncer_upstream_connects_total") [] p in
              let p := set_pconns (<[vid := up]> (p_conns p)) p in
              match p_heap p !! up with
              | None => (dropped, p)
              | Some cl =>
                  (Quacktest.reply (MkHeader MsgConnectionResponse vid (QueryID hdr))
                     (ConnectionResponse_Encode (MkConnectionResponse
                        (ServerVersion (server cl) ++ str " via quackbouncer")
                        (RespPlatform (server cl)) (QuackVersion (server cl)))),
                   count (str "connect") 200 p)
              end
          end)
      end
  end.

(** [closing] is the answer to a goodbye, if one is sent. *)
Definition handleDisconnect (p : proxy) (hdr : Header) (closing : http_reply) : http_reply * proxy :=
  match p_conns p !! ConnectionID hdr with
  | None => errorReply (str "disconnect") (str "Connection does not exist / already disconnected")
              (set_pconns (delete (ConnectionID hdr) (p_conns p)) p)
  | Some up =>
      let p := put up closing (set_pconns (delete (ConnectionID hdr) (p_conns p)) p) in
      (Quacktest.reply (MkHeader MsgSuccess [] (QueryID hdr)) EncodeEmptyBody, count (str "disconnect") 200 p)
  end.

(** [forward]: the message posted upstream, the client's reply, the proxy. *)
Definition forward (p : proxy) (hdr : Header) (body : bytes) (answer : http_reply)
  : option (nat * bytes) * http_reply * proxy :=
  match p_conns p !! ConnectionID hdr with
  | None => let '(r, p) := errorReply (str "forward") (str "Connection does not exist / already disconnected") p in
            (None, r, p)
  | Some up =>
      match p_heap p !! up with
      | None => (None, dropped, p)
      | Some cl =>
          let outHdr := MkHeader (Type_ hdr) (connID cl) (QueryID hdr) in
          let '(msg, res, cl') := RoundTripRaw cl (EncodeEnvelope outHdr body) answer in
          let p := set_heap (<[up := cl']> (p_heap p)) p in
          let posted := option_map (pair up) msg in
          match res with
          | Err e =>
              let '(r, p) := errorReply (str "forward")
                (str "quackbouncer: upstream request failed: " ++ werr_Error ctx_text e) p in (posted, r, p)
          | Panic => (posted, dropped, p)
          | Ok (respHdr, respBody) =>
              let respHdr := if bool_decide (ConnectionID respHdr = connID cl)
                             then MkHeader (Type_ respHdr) (ConnectionID hdr) (QueryID respHdr) else respHdr in
              (posted, Quacktest.reply respHdr respBody, count (str "forward") 200 p)
          end
      end
  end.

(** What the outside does during one request: the handshake a new session
    needs, the answer to a forwarded message, the answer to a goodbye, and the
    random text for a new connection. *)
Record outside := MkOutside { o_world : world; o_answer : http_reply; o_closing : http_reply; o_vid : bytes }.

Definition handleRPC (p : proxy) (raw : option bytes) (o : outside) : option (http_reply * proxy) :=
  match raw with
  | None => Some (BadStatus 400 (str "read failed" ++ [bz 10]), count (str "read") 400 p)
  | Some raw =>
      match SplitEnvelope raw with
      | Err e => Some (errorReply (str "garbled") (str "quackbouncer: " ++ werr_Error ctx_text e) p)
      | Panic => Some (dropped, p)
      | Ok (hdr, body) =>
          if Type_ hdr =? MsgConnectionRequest then handleConnect p hdr body (o_world o) (o_vid o)
          else if Type_ hdr =? MsgDisconnect then Some (handleDisconnect p hdr (o_closing o))
          else let '(_, r, p) := forward p hdr body (o_answer o) in Some (r, p)
      end
  end.

Definition ServeHTTP (fmt_g : Z -> bytes) (p : proxy) (r : request) (o : outside)
  : option (http_reply * proxy) :=
  if bool_decide (Path r = str "/metrics") then Some (OKBody (metrics_text fmt_g p), p)
  else if bool_decide (Method r = str "POST") && bool_decide (Path r = str "/quack") then handleRPC p (Body r) o
  else if bool_decide (Method r = str "GET") && bool_decide (Path r = str "/") then
    Some (OKBody (str "quackbouncer: a pooling proxy for DuckDB Quack endpoints." ++ [bz 10]), count (str "banner") 200 p)
  else Some (BadStatus 404 (str "no such endpoint" ++ [bz 10]), count (str "other") 404 p).

End Proxy.

(** A scrape after one connect. *)
Lemma metrics_scrape :
  metrics_text itoa (count (str "connect") 200 (newProxy ∅ sample_config 2)) =
  str "# TYPE quackbouncer_requests_total counter" ++ [bz 10] ++
  str "quackbouncer_requests_total{route=" ++ [bz 34] ++ str "connect" ++ [bz 34] ++ str ",code=" ++
  [bz 34] ++ str "200" ++ [bz 34] ++ str "} 1" ++ [bz 10] ++
  str "# TYPE quackbouncer_active_connections gauge" ++ [bz 10] ++ str "quackbouncer_active_connections 0" ++ [bz 10] ++
  str "# TYPE quackbouncer_pool_idle gauge" ++ [bz 10] ++ str "quackbouncer_pool_idle 0" ++ [bz 10].
Proof. by vm_compute. Qed.

(** ** Tokens *)

Lemma strip_one_some encs s s' : strip_one encs s = Some s' -> exists e, e ∈ encs /\ s = e ++ s'.
Proof.
  induction encs as [|e encs IH]; cbn [strip_one]; [done|]. destruct (has_prefix e s) eqn:E.
  - intros [= <-]. apply has_prefix_app in E as [t ->]. exists e. split; [left|]. by rewrite drop_app_length.
  - intros H. apply IH in H as (e' & He & ->). exists e'. split; [by right|done].
Qed.

Lemma strip_one_none encs s : strip_one encs s = None -> forall e, e ∈ encs -> has_prefix e s = false.
Proof.
  induction encs as [|e encs IH]; cbn [strip_one]; intros H x Hx; [by apply elem_of_nil in Hx|].
  destruct (has_prefix e s) eqn:E; [done|]. apply elem_of_cons in Hx as [->|Hx]; [done|by apply IH].
Qed.

(** [strip] removes whole encodings, and all of them if none is empty. *)
Lemma strip_spec encs fuel s : exists l, Forall (fun e => e ∈ encs) l /\ s = concat l ++ strip fuel encs s.
Proof.
  revert s. induction fuel as [|fuel IH]; intros s; cbn [strip]; [by exists []|].
  destruct (strip_one encs s) as [s'|] eqn:E; [|by exists []]. apply strip_one_some in E as (e & He & ->).
  destruct (IH s') as (l & Hl & H). exists (e :: l). split; [by constructor|]. cbn [concat]. rewrite <- app_assoc. by f_equal.
Qed.

Lemma strip_end encs fuel s e : [] ∉ encs -> (length s <= fuel)%nat -> e ∈ encs -> has_prefix e (strip fuel encs s) = false.
Proof.
  intros Hne. revert s. induction fuel as [|fuel IH]; intros s Hl He; cbn [strip].
  - destruct s; [|cbn in Hl; lia]. by destruct e.
  - destruct (strip_one encs s) as [s'|] eqn:E; [|by eapply strip_one_none].
    apply strip_one_some in E as (e' & He' & ->). apply IH; [|done]. rewrite length_app in Hl.
    destruct e'; [done|cbn in Hl; lia].
Qed.

Lemma spaces_nonempty : [] ∉ spaces /\ [] ∉ reverse <$> spaces.
Proof. split; by apply (bool_decide_unpack _); vm_compute. Qed.

(** A trimmed text does not end in a space. *)
Lemma trim_right_end s e : e ∈ spaces -> ~ exists t, trim_right s = t ++ e.
Proof.
  intros He [t Ht]. unfold trim_right in Ht. apply (f_equal reverse) in Ht. rewrite reverse_involutive, reverse_app in Ht.
  assert (Hp : has_prefix (reverse e) (strip (length s) (reverse <$> spaces) (reverse s)) = true)
    by (apply has_prefix_app; by eexists).
  rewrite strip_end in Hp; [done|apply spaces_nonempty|by rewrite length_reverse|by apply list_elem_of_fmap_2].
Qed.

(** A text of nothing but spaces is what trims to nothing. *)
Lemma trim_empty s : TrimSpace s = [] -> s <> [] -> exists t e, e ∈ spaces /\ s = t ++ e.
Proof.
  unfold TrimSpace, trim_left. intros H Hs. destruct (strip_spec spaces (length s) s) as (l & Hl & E).
  set (r := strip (length s) spaces s) in *. clearbody r. unfold trim_right in H.
  destruct (strip_spec (reverse <$> spaces) (length r) (reverse r)) as (l2 & Hl2 & E2).
  apply (f_equal reverse) in H. rewrite reverse_involutive in H. rewrite H, app_nil_r in E2.
  destruct l2 as [|e2 l2].
  - apply (f_equal reverse) in E2. rewrite reverse_involutive in E2. cbn in E2. subst r. rewrite app_nil_r in E.
    destruct l as [|e l _] using rev_ind; [done|]. apply Forall_app in Hl as [_ Hl]. inversion_clear Hl.
    exists (concat l), e. split; [done|]. rewrite E, concat_app. cbn [concat]. by rewrite app_nil_r.
  - inversion_clear Hl2 as [|? ? He _]. apply list_elem_of_fmap in He as (e & -> & He).
    apply (f_equal reverse) in E2. rewrite reverse_involutive in E2. cbn [concat] in E2.
    rewrite reverse_app, reverse_involutive in E2. exists (concat l ++ reverse (concat l2)), e. split; [done|].
    by rewrite <- app_assoc, <- E2.
Qed.

Lemma cut_suffix s sep a b : Cut s sep = Some (a, b) -> exists t, s = t ++ b.
Proof.
  unfold Cut. destruct (index_of sep s) as [i|]; [|done]. intros [= <- <-].
  exists (take (i + length sep) s). by rewrite take_drop.
Qed.

Lemma loadLines_empty lines line toks toks' : toks !! [] = None -> loadLines lines line toks = Ok toks' -> toks' !! [] = None.
Proof.
  revert line toks. induction lines as [|raw lines IH]; intros line toks Ht H; cbn [loadLines] in H; [by injection H as <-|].
  destruct (_ <=? _); [done|]. set (text := TrimSpace (drop_cr raw)) in *.
  destruct (_ || _); [by eapply IH|]. destruct (Cut text (str ":")) as [[name token]|] eqn:Ec; [|done].
  destruct (bool_decide (name = []) || bool_decide (token = [])) eqn:Eb; [done|].
  apply orb_false_iff in Eb as [_ Eb%bool_decide_eq_false]. apply IH in H; [done|].
  destruct (decide (TrimSpace token = [])) as [E|Hne]; [|by rewrite lookup_insert_ne].
  exfalso. destruct (trim_empty token E Eb) as (t & e & He & ->). apply cut_suffix in Ec as [t' Ht'].
  apply (trim_right_end (trim_left (drop_cr raw)) e He). exists (t' ++ t). by rewrite <- app_assoc.
Qed.

(** ** Handlers *)

Lemma reply_message hdr body : in_u 8 (Type_ hdr) -> str_ok (ConnectionID hdr) -> in_u 64 (QueryID hdr) ->
  exists raw, Quacktest.reply hdr body = OKBody raw /\
    SplitEnvelope raw = Ok (MkHeader (Type_ hdr) (ConnectionID hdr)
                              (if QueryID hdr =? 0 then QueryIDAbsent else QueryID hdr), body).
Proof.
  intros H1 H2 H3. unfold Quacktest.reply. cbv zeta. eexists. split; [done|].
  rewrite split_encode; [by destruct (QueryID hdr =? 0); [|destruct hdr]|].
  destruct (QueryID hdr =? 0); [|done]. split; [done|]. split; [done|]. by compute.
Qed.

(** Everything of the proxy but its counters. *)
Definition same_sessions (p p' : proxy) : Prop := exists c, p' = set_counters c p.

Lemma same_sessions_count p route code : same_sessions p (count route code p).
Proof. by eexists. Qed.

Lemma loadLines_total lines line toks : loadLines lines line toks <> Panic.
Proof.
  revert line toks. induction lines as [|raw lines IH]; intros line toks; cbn [loadLines]; [done|].
  destruct (_ <=? _); [done|]. destruct (_ || _); [done|]. destruct (Cut _ _) as [[name token]|]; [|done].
  by destruct (_ || _).
Qed.

(** What [main] serves: no session yet, an upstream credential, and no empty
    client credential. *)
Lemma main_serves fl getenv read : exists r, main fl getenv read = Ok r /\
  forall addr tls px, r = Serving addr tls px ->
    tokens px !! [] = None /\ Token (upstream px) <> [] /\ Endpoint (upstream px) <> [] /\
    px = newProxy (tokens px) (upstream px) (f_poolSize fl).
Proof.
  unfold main. destruct (_ || _) eqn:Eu; [by eexists|]. apply orb_false_iff in Eu as [Eu%bool_decide_eq_false _].
  case_bool_decide as Et; [by eexists|].
  destruct (loadTokens _) as [toks|e|] eqn:El; [|by eexists|].
  - eexists. split; [reflexivity|]. intros addr tls px [= _ _ <-]. split; [|done]. cbn.
    destruct (read _) as [[content broken]|]; [|done]. cbn [loadTokens] in El.
    destruct (loadLines _ _ _) as [toks'|e|] eqn:E; [|done..]. cbn [obind] in El. destruct broken; [done|].
    injection El as ->. exact (loadLines_empty _ _ _ _ (lookup_empty _) E).
  - destruct (read _) as [[content broken]|]; [|done]. cbn [loadTokens] in El.
    destruct (loadLines _ _ _) as [toks|e|] eqn:E; [by destruct broken|done|]. by apply loadLines_total in E.
Qed.

(** C33: a client without a registered token gets nothing: whatever its
    CONNECTION_REQUEST says, no session is taken or dialled, nothing but a
    counter changes, and the answer is one fixed error that does not depend on
    the credential.  [main] never fails otherwise than by exiting, and a proxy
    it serves has no session yet, a credential for upstream, and never the
    empty credential among its clients', so that a client that sends none is
    always refused. *)
Theorem connect_needs_token url_scheme ctx_text p hdr req body wld vid :
  DecodeConnectionRequest body = Ok req -> tokens p !! AuthString req = None ->
  handleConnect url_scheme ctx_text p hdr body wld vid =
    Some (Quacktest.reply (MkHeader MsgError [] 0) (ErrorMessage_Encode (MkErrorMessage (str "Authentication failed"))),
          count (str "connect") 200 p) /\
  same_sessions p (count (str "connect") 200 p) /\
  (forall fl getenv read, exists r, main fl getenv read = Ok r /\
     forall addr tls px, r = Serving addr tls px ->
       tokens px !! [] = None /\ Token (upstream px) <> [] /\ Endpoint (upstream px) <> [] /\
       px = newProxy (tokens px) (upstream px) (f_poolSize fl)).
Proof.
  intros Hd Ht. split; [unfold handleConnect; by rewrite Hd, Ht|]. split; [apply same_sessions_count|].
  intros fl getenv read. apply main_serves.
Qed.

Lemma connect_needs_token_witness :
  handleConnect (fun _ => None) [] (newProxy {[str "tok" := str "alice"]} sample_config 2)
    (MkHeader MsgConnectionRequest [] 0) (ConnectionRequest_Encode (MkConnectionRequest [] [] [] 1 1)) sample_world (str "V")
  = Some (Quacktest.reply (MkHeader MsgError [] 0) (ErrorMessage_Encode (MkErrorMessage (str "Authentication failed"))),
          count (str "connect") 200 (newProxy {[str "tok" := str "alice"]} sample_config 2)).
Proof.
  apply (connect_needs_token (fun _ => None) [] (newProxy {[str "tok" := str "alice"]} sample_config 2)
    (MkHeader MsgConnectionRequest [] 0) (MkConnectionRequest [] [] [] 1 1)); vm_compute; reflexivity.
Defined.

(** Forwarding leaves the client of the session as it was. *)
Lemma same_heap p up cl route code : p_heap p !! up = Some cl ->
  same_sessions p (count route code (set_heap (<[up := cl]> (p_heap p)) p)).
Proof. intros H. eexists. rewrite insert_id by done. by destruct p. Qed.

(** An in-band error of the proxy, with this text. *)
Definition in_band_error (r : http_reply) (msg : bytes) : Prop :=
  exists raw, r = OKBody raw /\
    SplitEnvelope raw = Ok (MkHeader MsgError [] QueryIDAbsent, ErrorMessage_Encode (MkErrorMessage msg)).

Lemma errorReply_in_band route msg p : in_band_error (errorReply route msg p).1 msg.
Proof.
  destruct (reply_message (MkHeader MsgError [] 0) (ErrorMessage_Encode (MkErrorMessage msg))) as (raw & E & Hs);
    [by compute..|]. by exists raw.
Qed.

(** What the client gets for an answer of the upstream server to a forwarded
    message: the answer's type and body, under the client's own connection id
    where the session's stood, with the absent query id where the answer has
    none; or the exchange's error. *)
Definition relayed (ctx_text : bytes) (hdr : Header) (cl : Client) (answer r : http_reply) : Prop :=
  match (roundTrip (Token (cfg cl)) answer).2 with
  | Ok (rh, rb) => header_ok rh -> exists raw, r = OKBody raw /\
      SplitEnvelope raw = Ok (MkHeader (Type_ rh)
        (if bool_decide (ConnectionID rh = connID cl) then ConnectionID hdr else ConnectionID rh)
        (if QueryID rh =? 0 then QueryIDAbsent else QueryID rh), rb)
  | Err e => in_band_error r (str "quackbouncer: upstream request failed: " ++ werr_Error ctx_text e)
  | Panic => False
  end.

(** C31: [forward] on every path.  A message on a registered connection goes
    upstream with the same type, query id and body, under the session's own
    connection id.  The client gets the answer's type and body unchanged, with
    its own connection id where the session's stood, and the query id absent
    where the answer has the query id 0; if the exchange fails, the client gets
    an in-band error with the failure's text, the same on a session that was
    closed, where nothing is sent.  A message on an unknown connection is
    answered with an in-band error that says so, which a client decodes, and
    nothing is sent.  No session changes hands. *)
Theorem forward_transparent ctx_text p hdr body answer :
  header_ok hdr ->
  let '(sent, r, p') := forward ctx_text p hdr body answer in
  match p_conns p !! ConnectionID hdr with
  | None => sent = None /\ same_sessions p p' /\
      in_band_error r (str "Connection does not exist / already disconnected") /\
      DecodeErrorMessage (ErrorMessage_Encode (MkErrorMessage (str "Connection does not exist / already disconnected"))) =
        Ok (MkErrorMessage (str "Connection does not exist / already disconnected"))
  | Some up => forall cl, p_heap p !! up = Some cl ->
      same_sessions p p' /\
      if closed cl
      then sent = None /\ in_band_error r (str "quackbouncer: upstream request failed: " ++ werr_Error ctx_text ErrClosed)
      else str_ok (connID cl) ->
        (exists msg, sent = Some (up, msg) /\
           SplitEnvelope msg = Ok (MkHeader (Type_ hdr) (connID cl) (QueryID hdr), body)) /\
        relayed ctx_text hdr cl answer r
  end.
Proof.
  intros (Ht & Hc & Hq). unfold forward. destruct (p_conns p !! ConnectionID hdr) as [up|] eqn:Eu.
  2: { cbn [errorReply]. split; [done|]. split; [apply same_sessions_count|].
       split; [apply (errorReply_in_band (str "forward") _ p)|by vm_compute]. }
  destruct (p_heap p !! up) as [cl0|] eqn:Eup; [|by intros ?].
  unfold RoundTripRaw. destruct (closed cl0) eqn:Ho; cbv zeta; cbn [option_map].
  { cbn [errorReply]. intros cl [= <-]. rewrite Ho. split; [by apply same_heap|]. split; [done|].
    apply (errorReply_in_band (str "forward") _ p). }
  destruct (roundTrip (Token (cfg cl0)) answer).2 as [[rh rb]|e|] eqn:Er.
  - intros cl [= <-]. rewrite Ho. split; [by apply same_heap|]. intros Hid.
    split; [eexists; split; [done|by apply split_encode]|]. unfold relayed. rewrite Er. intros (H1 & H2 & H3).
    case_bool_decide as E;
      [apply (reply_message (MkHeader (Type_ rh) (ConnectionID hdr) (QueryID rh)) rb)|apply (reply_message rh rb)]; done.
  - cbn [errorReply]. intros cl [= <-]. rewrite Ho. split; [by apply same_heap|]. intros Hid.
    split; [eexists; split; [done|by apply split_encode]|]. unfold relayed. rewrite Er.
    apply (errorReply_in_band (str "forward") _ p).
  - by apply roundTrip_total in Er.
Qed.

Definition sample_proxy : proxy :=
  set_heap {[0%nat := sample_client]} (set_idle [0%nat] (newProxy {[str "tok" := str "alice"]} sample_config 2)).

(** A fetch on the virtual connection V of the session c1, answered; and on a
    connection the proxy does not know. *)
Lemma forward_transparent_witness :
  let p := set_pconns {[str "V" := 0%nat]} sample_proxy in
  let answer := OKBody (EncodeEnvelope (MkHeader MsgFetchResponse (str "c1") 7) (str "rows")) in
  (exists msg raw, (forward [] p (MkHeader MsgFetchRequest (str "V") 7) (str "b") answer).1 = (Some (0%nat, msg), OKBody raw) /\
     SplitEnvelope msg = Ok (MkHeader MsgFetchRequest (str "c1") 7, str "b") /\
     SplitEnvelope raw = Ok (MkHeader MsgFetchResponse (str "V") 7, str "rows")) /\
  (forward [] p (MkHeader MsgFetchRequest (str "W") 7) (str "b") answer).1.1 = None /\
  in_band_error (forward [] p (MkHeader MsgFetchRequest (str "W") 7) (str "b") answer).1.2
    (str "Connection does not exist / already disconnected").
Proof.
  intros p answer.
  pose proof (forward_transparent [] p (MkHeader MsgFetchRequest (str "V") 7) (str "b") answer ltac:(repeat split; by compute)) as H.
  pose proof (forward_transparent [] p (MkHeader MsgFetchRequest (str "W") 7) (str "b") answer ltac:(repeat split; by compute)) as H'.
  cbn [ConnectionID] in H, H'. change (p_conns p !! str "V") with (Some 0%nat) in H.
  change (p_conns p !! str "W") with (@None nat) in H'.
  destruct (forward [] p (MkHeader MsgFetchRequest (str "V") 7) (str "b") answer) as [[sent r] p'].
  destruct (forward [] p (MkHeader MsgFetchRequest (str "W") 7) (str "b") answer) as [[sent' r'] p''].
  split; [|by destruct H' as (-> & _ & H' & _)].
  destruct (H sample_client eq_refl) as [_ [(msg & -> & Hm) Hr]]; [by compute|].
  destruct Hr as (raw & -> & Hraw); [by repeat split; compute|].
  exists msg, raw. split; [reflexivity|]. split; [exact Hm|exact Hraw].
Defined.

(** Any number of messages on one virtual connection, with any answers. *)
Fixpoint forwards (ctx_text : bytes) (p : proxy) (l : list (Header * bytes * http_reply)) : proxy :=
  match l with
  | [] => p
  | (hdr, body, answer) :: l => forwards ctx_text (forward ctx_text p hdr body answer).2 l
  end.

Lemma forwards_same ctx_text p l up cl vid :
  p_conns p !! vid = Some up -> p_heap p !! up = Some cl ->
  Forall (fun x => ConnectionID x.1.1 = vid) l -> same_sessions p (forwards ctx_text p l).
Proof.
  intros Hc Hh Hl. revert p Hc Hh. induction Hl as [|[[hdr body] answer] l Hv _ IH]; intros p Hc Hh; [exists (counters p); by destruct p|].
  cbn [forwards]. cbn in Hv. assert (Hs : same_sessions p (forward ctx_text p hdr body answer).2).
  { unfold forward. rewrite Hv, Hc, Hh. unfold RoundTripRaw.
    destruct (closed cl); cbv zeta; [|destruct (snd (roundTrip (Token (cfg cl)) answer)) as [[rh rb]|e|]];
      cbn; rewrite (insert_id (p_heap p) up cl) by done; by eexists. }
  destruct Hs as [c Hs]. rewrite Hs. destruct (IH (set_counters c p) Hc Hh) as [c' ->]. by exists c'.
Qed.

(** C39: the pool never learns that a session is dead.  A client that connects
    is given the most recent idle session without any message upstream, and when
    it disconnects, after any number of forwarded messages and whatever upstream
    answered to them, "Invalid connection id" included, the same session is put
    back on top of the pool: every later client gets it again. *)
Theorem dead_session_recycled url_scheme ctx_text p l up cl req name :
  p_idle p = l ++ [up] -> p_heap p !! up = Some cl -> Z.of_nat (length (p_idle p)) <= p_max p ->
  tokens p !! AuthString req = Some name ->
  forall hdr body wld vid, DecodeConnectionRequest body = Ok req -> p_conns p !! vid = None ->
  exists r p1, handleConnect url_scheme ctx_text p hdr body wld vid = Some (r, p1) /\
    p_conns p1 = <[vid := up]> (p_conns p) /\
    forall msgs dhdr closing, Forall (fun x => ConnectionID x.1.1 = vid) msgs -> ConnectionID dhdr = vid ->
      same_sessions p (handleDisconnect (forwards ctx_text p1 msgs) dhdr closing).2.
Proof.
  intros Hi Hh Hm Ht hdr body wld vid Hd Hv. unfold handleConnect. rewrite Hd, Ht. unfold get, pop_idle.
  rewrite Hi, last_snoc. cbn [mbind option_bind]. rewrite length_app. cbn [length].
  replace (length l + 1 - 1)%nat with (length l) by lia. rewrite take_app_length.
  cbn [set_idle set_pconns p_heap p_conns]. rewrite Hh. eexists _, _. split; [done|].
  split; [done|]. intros msgs dhdr closing Hmsgs Hdv.
  set (p1 := count (str "connect") 200 _).
  assert (Hc1 : p_conns p1 !! vid = Some up) by by apply lookup_insert_eq.
  destruct (forwards_same ctx_text p1 msgs up cl vid Hc1 Hh Hmsgs) as [c ->].
  unfold handleDisconnect. rewrite Hdv. cbn [p_conns set_counters]. rewrite Hc1.
  unfold put, push_idle. cbn. rewrite Hi, length_app in Hm. cbn [length] in Hm. rewrite (proj2 (Z.ltb_lt _ _)) by lia.
  rewrite delete_insert_id by done. eexists. unfold count, inc. cbn. rewrite <- Hi. by destruct p.
Qed.

Lemma dead_session_recycled_witness :
  exists r p1, handleConnect (fun _ => None) [] sample_proxy (MkHeader MsgConnectionRequest [] 0)
      (ConnectionRequest_Encode (MkConnectionRequest (str "tok") [] [] 1 1)) sample_world (str "V") = Some (r, p1) /\
    p_conns p1 = {[str "V" := 0%nat]} /\
    same_sessions sample_proxy (handleDisconnect
      (forwards [] p1 [(MkHeader MsgPrepareRequest (str "V") 1, str "q",
         OKBody (EncodeEnvelope (MkHeader MsgError [] QueryIDAbsent)
           (ErrorMessage_Encode (MkErrorMessage (str "Invalid connection id")))))])
      (MkHeader MsgDisconnect (str "V") 2) (NoResponse [])).2.
Proof.
  destruct (dead_session_recycled (fun _ => None) [] sample_proxy [] 0%nat sample_client
    (MkConnectionRequest (str "tok") [] [] 1 1) (str "alice")) with
    (hdr := MkHeader MsgConnectionRequest [] 0) (wld := sample_world) (vid := str "V")
    (body := ConnectionRequest_Encode (MkConnectionRequest (str "tok") [] [] 1 1)) as (r & p1 & E & Hc & H).
  - reflexivity.
  - reflexivity.
  - by compute.
  - vm_compute. reflexivity.
  - vm_compute. reflexivity.
  - reflexivity.
  - exists r, p1. split; [exact E|]. split; [exact Hc|]. apply H; [by repeat constructor|reflexivity].
Defined.
