(* ===== verification/BouncerSteps.v ===== *)
(** * cmd/quackbouncer under concurrency

    The handlers run in goroutines of their own and interleave at their
    critical sections.  A step is one section, performed with the same pool and
    table operations as the handlers of Bouncer; a task is what a handler that
    is between two sections holds. *)

From stdpp Require Import gmap relations.
From S2P Require Import Prelude Messages Client Quacktest Bouncer.

(** ** Steps *)

Inductive task : Type :=
  | Dialing                    (** [get] found the pool empty *)
  | Holding (up : nat)         (** a session from [get], not registered yet *)
  | Returning (up : nat)       (** a session off the table, not in the pool yet *)
  | Closing (up : nat)         (** a session the pool had no room for *)
  | Forwarding (up : nat).     (** a message on its way over a session *)

Record state := MkState { px : proxy; tasks : list task }.

Definition set_px p s := MkState p (tasks s).
Definition add_task t s := MkState (px s) (t :: tasks s).

(** Replacing one task by others. *)
Definition move_task (i : nat) (ts : list task) (s : state) : state := MkState (px s) (ts ++ delete i (tasks s)).

Section Steps.
(** [net/url]'s scheme of the upstream endpoint, as in Bouncer. *)
Context (url_scheme : bytes -> option bytes).

(** A section that only looks at the table or counts is no step of its own.
    The random text of a new virtual connection is taken to be one that is not
    in the table. *)
Inductive step : state -> state -> Prop :=
  (** handleConnect *)
  | TakeIdle s up p : pop_idle (px s) = Some (up, p) -> step s (add_task (Holding up) (set_px p s))
  | NoneIdle s : pop_idle (px s) = None -> step s (add_task Dialing s)
  | DialFails s i wld e : tasks s !! i = Some Dialing -> Connect url_scheme (upstream (px s)) wld = Some (Err e) ->
      step s (move_task i [] s)
  | DialSucceeds s i wld cl up p : tasks s !! i = Some Dialing ->
      Connect url_scheme (upstream (px s)) wld = Some (Ok cl) -> alloc cl (px s) = (up, p) ->
      step s (move_task i [Holding up] (set_px p s))
  | RegisterConn s i up vid : tasks s !! i = Some (Holding up) -> p_conns (px s) !! vid = None ->
      step s (move_task i [] (set_px (set_pconns (<[vid := up]> (p_conns (px s))) (px s)) s))
  (** handleDisconnect *)
  | Unregister s vid up : p_conns (px s) !! vid = Some up ->
      step s (add_task (Returning up) (set_px (set_pconns (delete vid (p_conns (px s))) (px s)) s))
  | PutBack s i up kept p : tasks s !! i = Some (Returning up) -> push_idle up (px s) = (kept, p) ->
      step s (move_task i (if kept : bool then [] else [Closing up]) (set_px p s))
  | Goodbye s i up answer : tasks s !! i = Some (Closing up) ->
      step s (move_task i [] (set_px (close_upstream up answer (px s)) s))
  (** forward *)
  | StartForward s vid up : p_conns (px s) !! vid = Some up -> step s (add_task (Forwarding up) s)
  | EndForward s i up cl msg answer : tasks s !! i = Some (Forwarding up) -> p_heap (px s) !! up = Some cl ->
      step s (move_task i [] (set_px (set_heap (<[up := (RoundTripRaw cl msg answer).2]> (p_heap (px s))) (px s)) s)).

Definition initial (toks : gmap bytes bytes) (up : Config) (max : Z) : state := MkState (newProxy toks up max) [].

(** ** Who has a session *)

(** The session a task has for itself; a forwarded message only uses one. *)
Definition held (t : task) : option nat :=
  match t with Holding up | Returning up | Closing up => Some up | Dialing | Forwarding _ => None end.

Definition holders (ts : list task) : list nat := omap held ts.

(** Every place a session can be: idle, registered, or in a handler's hands. *)
Definition owners (s : state) : list nat :=
  p_idle (px s) ++ (map_to_list (p_conns (px s))).*2 ++ holders (tasks s).

Definition is_open (s : state) (up : nat) : Prop :=
  exists cl, p_heap (px s) !! up = Some cl /\ closed cl = false.

Record invariant (s : state) : Prop := Invariant {
  inv_distinct : NoDup (owners s);
  inv_open : forall up, up ∈ owners s <-> is_open s up;
  inv_used : forall up, Forwarding up ∈ tasks s -> is_Some (p_heap (px s) !! up);
  inv_bound : Z.of_nat (length (p_idle (px s))) <= Z.max 0 (p_max (px s)) }.

(** ** The invariant is kept *)

Lemma holders_delete ts i t : ts !! i = Some t -> holders ts ≡ₚ option_list (held t) ++ holders (delete i ts).
Proof.
  intros H. rewrite <- (take_drop_middle ts i t H) at 1. rewrite delete_take_drop.
  unfold holders. rewrite !omap_app. cbn [omap list_omap]. destruct (held t); cbn; [by rewrite Permutation_middle|done].
Qed.

Lemma conns_insert (m : gmap bytes nat) vid up : m !! vid = None ->
  (map_to_list (<[vid := up]> m)).*2 ≡ₚ up :: (map_to_list m).*2.
Proof. intros H. by rewrite map_to_list_insert. Qed.

Lemma conns_delete (m : gmap bytes nat) vid up : m !! vid = Some up ->
  (map_to_list m).*2 ≡ₚ up :: (map_to_list (delete vid m)).*2.
Proof.
  intros H. rewrite <- (insert_delete_id m vid up H) at 1. rewrite map_to_list_insert; [done|]. by rewrite lookup_delete_eq.
Qed.

Lemma pop_idle_spec p up p' : pop_idle p = Some (up, p') -> exists l, p_idle p = l ++ [up] /\ p' = set_idle l p.
Proof.
  unfold pop_idle. intros H. destruct (p_idle p) as [|x l _] using rev_ind; [done|]. rewrite last_snoc in H.
  injection H as -> <-. exists l. split; [done|]. rewrite length_app. cbn [length].
  replace (length l + 1 - 1)%nat with (length l) by lia. by rewrite take_app_length.
Qed.

Lemma task_delete (ts : list task) i t : t ∈ delete i ts -> t ∈ ts.
Proof.
  rewrite delete_take_drop, elem_of_app. intros [H|H].
  - rewrite <- (take_drop i ts). apply elem_of_app. by left.
  - rewrite <- (take_drop (S i) ts). apply elem_of_app. by right.
Qed.

(** A step that moves sessions around without opening or closing any. *)
Lemma rearranged s s' : invariant s -> owners s' ≡ₚ owners s -> p_heap (px s') = p_heap (px s) ->
  (forall up, Forwarding up ∈ tasks s' -> Forwarding up ∈ tasks s \/ up ∈ owners s) ->
  Z.of_nat (length (p_idle (px s'))) <= Z.max 0 (p_max (px s')) -> invariant s'.
Proof.
  intros [H1 H2 H3 H4] Ho Hh Hf Hb. constructor; [by rewrite Ho| | |done].
  - intros up. rewrite Ho, H2. unfold is_open. by rewrite Hh.
  - intros up Hin. rewrite Hh. destruct (Hf up Hin) as [Hin'|Hin']; [by apply H3|].
    apply H2 in Hin' as (cl & -> & _). by eexists.
Qed.

Lemma closed_after_close cl reply : closed (Close cl reply).2 = true.
Proof. unfold Close. destruct (closed cl) eqn:E; [done|]. by destruct (roundTrip _ _). Qed.

Lemma raw_keeps_client cl msg answer : (RoundTripRaw cl msg answer).2 = cl.
Proof. unfold RoundTripRaw. by destruct (closed cl). Qed.

(** A step that opens a session for the one who asked for it. *)
Lemma session_opened s s' up cl : invariant s -> p_heap (px s) !! up = None -> closed cl = false ->
  p_heap (px s') = <[up := cl]> (p_heap (px s)) -> owners s' ≡ₚ up :: owners s ->
  (forall u, Forwarding u ∈ tasks s' -> Forwarding u ∈ tasks s) ->
  Z.of_nat (length (p_idle (px s'))) <= Z.max 0 (p_max (px s')) -> invariant s'.
Proof.
  intros [H1 H2 H3 H4] Hf Hcl Hh Ho Ht Hb.
  assert (Hn : up ∉ owners s) by (intros (c & Hc & _)%H2; congruence).
  constructor; [rewrite Ho; by constructor| | |done].
  - intros u. rewrite Ho, elem_of_cons, H2. unfold is_open. rewrite Hh.
    destruct (decide (u = up)) as [->|Hne]; [rewrite lookup_insert_eq; split; [by eexists|by left]|].
    rewrite lookup_insert_ne by done. split; [by intros [?|?]|by right].
  - intros u Hin%Ht. rewrite Hh, lookup_insert_is_Some'. right. by apply H3.
Qed.

(** A step that closes a session its owner gives up. *)
Lemma session_closed s s' up cl : invariant s -> closed cl = true ->
  p_heap (px s') = <[up := cl]> (p_heap (px s)) -> owners s ≡ₚ up :: owners s' ->
  (forall u, Forwarding u ∈ tasks s' -> Forwarding u ∈ tasks s) ->
  Z.of_nat (length (p_idle (px s'))) <= Z.max 0 (p_max (px s')) -> invariant s'.
Proof.
  intros [H1 H2 H3 H4] Hcl Hh Ho Ht Hb. rewrite Ho in H1. apply NoDup_cons in H1 as [Hn Hd].
  constructor; [done| | |done].
  - intros u. unfold is_open. rewrite Hh. destruct (decide (u = up)) as [->|Hne].
    + rewrite lookup_insert_eq. split; [done|]. intros (c & [= <-] & Hc). congruence.
    + rewrite lookup_insert_ne by done. rewrite <- (H2 u), Ho, elem_of_cons. split; [by right|by intros [?|?]].
  - intros u Hin%Ht. rewrite Hh, lookup_insert_is_Some'. right. by apply H3.
Qed.

(** The owners after a step, when task [Hi] changes hands; the messages being
    forwarded after it. *)
Ltac owned Hi :=
  unfold owners; cbn; rewrite ?(holders_delete _ _ _ Hi); cbn; rewrite <- ?app_assoc; cbn; by rewrite ?Permutation_middle.
Ltac forwarding :=
  let u := fresh in let Hin := fresh in
  intros u Hin; cbn in Hin; try left;
  repeat match type of Hin with _ ∈ _ :: _ => apply elem_of_cons in Hin as [?|Hin]; [done|] end;
  first [done|by eapply task_delete].

Lemma step_invariant s s' : step s s' -> invariant s -> invariant s'.
Proof.
  intros Hstep Hinv. pose proof Hinv as [_ H2 _ H4].
  destruct Hstep as [s up p Hp|s Hp|s i wld e Hi _|s i wld cl up p Hi Hcl%Connect_open Ha|s i up vid Hi Hv
    |s vid up Hv|s i up kept p Hi Hp|s i up answer Hi|s vid up Hv|s i up cl msg answer Hi Hh].
  - apply pop_idle_spec in Hp as (l & Hl & ->). apply (rearranged s); [done| |done|forwarding|].
    + unfold owners. cbn. rewrite Hl. cbn. rewrite <- !app_assoc. cbn. by rewrite <- Permutation_middle.
    + cbn. rewrite Hl, length_app in H4. cbn in H4. lia.
  - by apply (rearranged s); [..|forwarding|].
  - by apply (rearranged s); [|owned Hi| |forwarding|].
  - injection Ha as <- <-. eapply (session_opened s); [done| |done|done|owned Hi|forwarding|done].
    apply not_elem_of_dom, is_fresh.
  - apply (rearranged s); [done| |done|forwarding|done].
    unfold owners. cbn. rewrite (conns_insert _ _ _ Hv), (holders_delete _ _ _ Hi). cbn. by rewrite !Permutation_middle.
  - apply (rearranged s); [done| |done|forwarding|done].
    unfold owners. cbn. rewrite (conns_delete (p_conns (px s)) _ _ Hv). cbn. by rewrite !Permutation_middle.
  - unfold push_idle in Hp. destruct (Z.ltb_spec (Z.of_nat (length (p_idle (px s)))) (p_max (px s))); injection Hp as <- <-.
    + apply (rearranged s); [done|owned Hi|done|forwarding|]. cbn. rewrite length_app. cbn. lia.
    + by apply (rearranged s); [|owned Hi| |forwarding|].
  - assert (Hop : up ∈ owners s) by (unfold owners; rewrite (holders_delete _ _ _ Hi), !elem_of_app; do 2 right; left; left).
    apply H2 in Hop as (cl & Hcl & _). unfold close_upstream. rewrite Hcl.
    apply (session_closed s _ up (Close cl answer).2); [done|apply closed_after_close|done|owned Hi|forwarding|done].
  - apply (rearranged s); [done..| |done]. intros u Hin. cbn in Hin.
    apply elem_of_cons in Hin as [[= ->]|?]; [right|by left]. unfold owners. rewrite !elem_of_app. right. left.
    apply list_elem_of_fmap. exists (vid, up). split; [done|]. by apply elem_of_map_to_list.
  - apply (rearranged s); [done|owned Hi| |forwarding|done]. cbn. rewrite raw_keeps_client. by apply insert_id.
Qed.

Lemma initial_invariant toks up max : invariant (initial toks up max).
Proof.
  constructor; unfold owners; cbn.
  - rewrite map_to_list_empty. constructor.
  - intros u. rewrite map_to_list_empty. cbn. split; [intros H; by apply elem_of_nil in H|].
    intros (cl & H & _). cbn in H. by rewrite lookup_empty in H.
  - intros u H. by apply elem_of_nil in H.
  - lia.
Qed.

(** A table whose values are distinct is injective. *)
Lemma conns_injective (m : gmap bytes nat) v1 v2 u :
  NoDup (map_to_list m).*2 -> m !! v1 = Some u -> m !! v2 = Some u -> v1 = v2.
Proof.
  intros Hd H1 H2. destruct (decide (v1 = v2)) as [|Hne]; [done|]. exfalso.
  rewrite (conns_delete m v1 u H1) in Hd. apply NoDup_cons in Hd as [Hn _]. apply Hn.
  apply list_elem_of_fmap. exists (v2, u). split; [done|]. apply elem_of_map_to_list. by rewrite lookup_delete_ne.
Qed.

(** C7: whatever the interleaving of the handlers, an upstream session belongs
    to one place at a time: no two virtual connections share one, none is both
    idle and in use, and none is handed out twice; no session is lost, every
    open one being idle, registered, or in the hands of a running handler; only
    sessions in none of these places are closed; and the pool keeps to its
    bound. *)
Theorem sessions_exclusive toks up max s : rtc step (initial toks up max) s ->
  NoDup (owners s) /\
  (forall u, u ∈ owners s <-> is_open s u) /\
  (forall v1 v2 u, p_conns (px s) !! v1 = Some u -> p_conns (px s) !! v2 = Some u -> v1 = v2) /\
  (forall v u, p_conns (px s) !! v = Some u -> u ∉ p_idle (px s)) /\
  Z.of_nat (length (p_idle (px s))) <= Z.max 0 (p_max (px s)).
Proof.
  intros Hs. assert (Hinv : invariant s).
  { remember (initial toks up max) as s0 eqn:E. assert (H0 : invariant s0) by (rewrite E; apply initial_invariant).
    clear E. induction Hs as [|s1 s2 s3 H _ IH]; [done|]. apply IH. by eapply step_invariant. }
  destruct Hinv as [H1 H2 H3 H4]. split; [done|]. split; [done|].
  unfold owners in H1. apply NoDup_app in H1 as (_ & Hdisj & H1). apply NoDup_app in H1 as (Hc & _ & _). split; [|split; [|done]].
  - intros v1 v2 u E1 E2. by eapply conns_injective.
  - intros v u E Hin. apply (Hdisj u Hin). apply elem_of_app. left. apply list_elem_of_fmap. exists (v, u).
    split; [done|]. by apply elem_of_map_to_list.
Qed.

End Steps.

(** Two clients connect at the same time, one finding the pool empty before the
    other's session is registered; then the first disconnects. *)
Lemma sessions_exclusive_witness :
  exists s, rtc (step (fun _ => Some (str "http"))) (initial ∅ sample_config 2) s /\
    p_conns (px s) = {[str "W" := 1%nat]} /\ p_idle (px s) = [0%nat] /\ NoDup (owners s).
Proof.
  assert (H : exists s, rtc (step (fun _ => Some (str "http"))) (initial ∅ sample_config 2) s /\
    p_conns (px s) = {[str "W" := 1%nat]} /\ p_idle (px s) = [0%nat]).
  { eexists. split.
    - eapply rtc_l; [apply NoneIdle; reflexivity|]. eapply rtc_l; [apply NoneIdle; reflexivity|].
      eapply rtc_l; [eapply (DialSucceeds _ _ 0 sample_world sample_client); [reflexivity|vm_compute; reflexivity|reflexivity]|].
      eapply rtc_l; [eapply (DialSucceeds _ _ 1 sample_world sample_client); [reflexivity|vm_compute; reflexivity|reflexivity]|].
      eapply rtc_l; [eapply (RegisterConn _ _ 1 _ (str "V")); reflexivity|].
      eapply rtc_l; [eapply (RegisterConn _ _ 0 _ (str "W")); reflexivity|].
      eapply rtc_l; [eapply (Unregister _ _ (str "V")); reflexivity|].
      eapply rtc_l; [eapply (PutBack _ _ 0); reflexivity|]. apply rtc_refl.
    - split; vm_compute; reflexivity. }
  destruct H as (s & Hs & Hc & Hi). exists s. split; [exact Hs|]. split; [exact Hc|]. split; [exact Hi|].
  exact (proj1 (sessions_exclusive (fun _ => Some (str "http")) ∅ sample_config 2 s Hs)).
Defined.
