(* ===== verification/BouncerCount.v ===== *)
(** * cmd/quackbouncer: every request is answered and counted

    Every request gets a result, and no handler panics on it, as long as the
    pool and the table only hold sessions that exist, which every request preserves; and each
    request but a scrape of the metrics moves exactly one series of
    [quackbouncer_requests_total]: the one with the status it was answered with. *)

From stdpp Require Import gmap.
From S2P Require Import Prelude Qser QserLib GoFmt Messages Client WireText Quacktest Bouncer.

(** ** The sessions the proxy points at *)

(** The pool and the table hold pointers to clients. *)
Definition wf (p : proxy) : Prop :=
  (forall up, up ∈ p_idle p -> is_Some (p_heap p !! up)) /\
  (forall vid up, p_conns p !! vid = Some up -> is_Some (p_heap p !! up)).

Lemma wf_new toks up max : wf (newProxy toks up max).
Proof. split; [intros u Hu; by apply elem_of_nil in Hu|intros v u Hu; cbn in Hu; by rewrite lookup_empty in Hu]. Qed.

(** The series of the counter of requests. *)
Definition requests (p : proxy) : gmap bytes Z := default ∅ (counters p !! requests_total).

(** The status line of a reply. *)
Definition status_of (r : http_reply) : Z :=
  match r with OKBody _ => 200 | BadStatus code _ => code | _ => 0 end.

(** An answer, with a status line, that moved the counter of its own status, and
    that one only; a handler that panics gives none. *)
Definition counted (p p' : proxy) (r : http_reply) : Prop :=
  status_of r ∈ [200; 400; 404] /\ exists route, requests p' =
    <[request_labels route (status_of r) := float_incr (default 0 (requests p !! request_labels route (status_of r)))]> (requests p).

Lemma wf_counters p c : wf (set_counters c p) <-> wf p.
Proof. done. Qed.

Lemma requests_count p route code :
  requests (count route code p) =
  <[request_labels route code := float_incr (default 0 (requests p !! request_labels route code))]> (requests p).
Proof. unfold requests, count, inc. cbn [counters set_counters]. by rewrite lookup_insert_eq. Qed.

Lemma counted_count p p' route code r : requests p' = requests p -> status_of r = code ->
  code ∈ [200; 400; 404] -> counted p (count route code p') r.
Proof. intros Hr <- Hc. split; [done|]. exists route. by rewrite requests_count, Hr. Qed.

Lemma in_200 : 200 ∈ [200; 400; 404]. Proof. left. Qed.
Lemma in_400 : 400 ∈ [200; 400; 404]. Proof. right. left. Qed.
Lemma in_404 : 404 ∈ [200; 400; 404]. Proof. right. right. left. Qed.
#[local] Hint Resolve in_200 in_400 in_404 : core.

(** A handler's result. *)
Definition handled (p : proxy) (x : http_reply * proxy) : Prop := wf x.2 /\ counted p x.2 x.1.

Lemma errorReply_handled p p' route msg : wf p' -> requests p' = requests p -> handled p (errorReply route msg p').
Proof. intros Hw Hr. split; [done|]. by apply counted_count. Qed.

Lemma wf_set_heap p up cl : wf p -> wf (set_heap (<[up := cl]> (p_heap p)) p).
Proof.
  intros [H1 H2]. assert (H : forall u, is_Some (p_heap p !! u) -> is_Some (<[up := cl]> (p_heap p) !! u)).
  { intros u Hu. destruct (decide (u = up)) as [->|]; [by rewrite lookup_insert_eq|by rewrite lookup_insert_ne]. }
  split; cbn; [intros u Hu; by apply H, H1|intros v u Hv; by apply H, (H2 v)].
Qed.

Section Handlers.
Context (url_scheme : bytes -> option bytes) (ctx_text : bytes).

Lemma pop_wf p up p' : wf p -> pop_idle p = Some (up, p') -> wf p' /\ is_Some (p_heap p' !! up) /\ counters p' = counters p.
Proof.
  intros [H1 H2] H. unfold pop_idle in H. destruct (last (p_idle p)) as [c|] eqn:E; [|done]. injection H as -> <-.
  apply last_Some in E as [l El]. split; [|split; [|done]].
  - split; cbn; [|exact H2]. intros u Hu. apply H1. rewrite El, length_app in *. cbn [length] in Hu.
    replace (length l + 1 - 1)%nat with (length l) in Hu by lia. rewrite take_app_length in Hu. apply elem_of_app. by left.
  - cbn. apply H1. rewrite El. apply elem_of_app. right. left.
Qed.

Lemma get_spec wld p r p' : wf p -> get url_scheme wld p = Some (r, p') ->
  wf p' /\ counters p' = counters p /\
  match r with Ok (up, _) => is_Some (p_heap p' !! up) | Err _ => True | Panic => False end.
Proof.
  intros Hw H. unfold get in H. destruct (pop_idle p) as [[up p1]|] eqn:E.
  - injection H as <- <-. by destruct (pop_wf _ _ _ Hw E) as (? & ? & ?).
  - destruct (Connect _ _ _) as [[cl|e|]|] eqn:Ec; cbn in H; [| | |done].
    + injection H as <- <-. split; [by apply wf_set_heap|]. split; [done|]. cbn. by rewrite lookup_insert_eq.
    + by injection H as <- <-.
    + by apply Connect_total in Ec.
Qed.

Lemma wf_register p vid up : wf p -> is_Some (p_heap p !! up) -> wf (set_pconns (<[vid := up]> (p_conns p)) p).
Proof.
  intros [H1 H2] Hu. split; cbn; [exact H1|]. intros v u Hv. destruct (decide (v = vid)) as [->|].
  - rewrite lookup_insert_eq in Hv. by injection Hv as <-.
  - rewrite lookup_insert_ne in Hv by done. by apply (H2 v).
Qed.

(** A session or an error, always. *)
Lemma get_returns wld p : exists x, get url_scheme wld p = Some x.
Proof.
  unfold get. destruct (pop_idle p) as [[c p']|]; [by eexists|].
  destruct (Connect_returns url_scheme (upstream p) wld) as [r ->]. by eexists.
Qed.

Lemma handleConnect_returns p hdr body wld vid : exists x, handleConnect url_scheme ctx_text p hdr body wld vid = Some x.
Proof.
  unfold handleConnect. destruct (DecodeConnectionRequest body) as [req|e|]; [|by eexists..].
  destruct (tokens p !! AuthString req); [|by eexists]. destruct (get_returns wld p) as [[r p'] ->]. by eexists.
Qed.

Lemma handleConnect_handled p hdr body wld vid x : wf p ->
  handleConnect url_scheme ctx_text p hdr body wld vid = Some x -> handled p x.
Proof.
  intros Hw H. unfold handleConnect in H. pose proof (DecodeConnectionRequest_total body) as Hd.
  destruct (DecodeConnectionRequest body) as [req|e|]; [|by injection H as <-; apply errorReply_handled|done].
  destruct (tokens p !! AuthString req); [|by injection H as <-; apply errorReply_handled].
  destruct (get url_scheme wld p) as [[r p1]|] eqn:Eg; [|done]. cbn [mbind option_bind] in H. injection H as <-.
  apply get_spec in Eg as (Hw1 & Hc & Hr); [|done].
  destruct r as [[up reused]|e|]; [|apply errorReply_handled; [done|by unfold requests; rewrite Hc]|done].
  cbv zeta. set (p2 := if reused : bool then p1 else _).
  assert (Hp2 : wf p2 /\ requests p2 = requests p /\ p_heap p2 = p_heap p1).
  { unfold p2. destruct reused; (split; [done|split; [unfold requests; cbn; rewrite ?lookup_insert_ne by done; by rewrite Hc|done]]). }
  destruct Hp2 as (Hw2 & Hr2 & Hh). cbn [p_heap set_pconns]. rewrite Hh. destruct (Hr) as [cl Hcl]. rewrite Hcl. split.
  - apply wf_counters, wf_register; [done|by rewrite Hh].
  - by apply counted_count.
Qed.

Lemma handleDisconnect_handled p hdr closing : wf p -> handled p (handleDisconnect p hdr closing).
Proof.
  intros [H1 H2]. unfold handleDisconnect.
  assert (Hw : wf (set_pconns (delete (ConnectionID hdr) (p_conns p)) p)).
  { split; cbn; [done|]. intros v u Hv. apply lookup_delete_Some in Hv as [_ Hv]. by apply (H2 v). }
  destruct (p_conns p !! ConnectionID hdr) as [up|] eqn:Eu; [|by apply errorReply_handled].
  set (p1 := set_pconns _ _) in *. split; [|apply counted_count; [|done|apply in_200]]; cbn [fst snd]; unfold put, push_idle.
  - apply wf_counters. destruct (_ <? _).
    + destruct Hw as [Hw1 Hw2]. split; [|exact Hw2]. intros u Hu. cbn in Hu. apply elem_of_app in Hu as [Hu|Hu]; [by apply Hw1|].
      apply list_elem_of_singleton in Hu as ->. by apply (H2 (ConnectionID hdr)).
    + unfold close_upstream. destruct (p_heap p1 !! up); [by apply wf_set_heap|done].
  - destruct (_ <? _); [done|]. unfold close_upstream. by destruct (p_heap p1 !! up).
Qed.

Lemma forward_handled p hdr body ans : wf p ->
  handled p ((forward ctx_text p hdr body ans).1.2, (forward ctx_text p hdr body ans).2).
Proof.
  intros Hw. unfold forward. destruct (p_conns p !! ConnectionID hdr) as [up|] eqn:Eu; [|by apply errorReply_handled].
  destruct (proj2 Hw _ _ Eu) as [cl Hcl]. rewrite Hcl. unfold RoundTripRaw.
  destruct (closed cl); cbv zeta.
  - apply errorReply_handled; [by apply wf_set_heap|done].
  - pose proof (roundTrip_total (Token (cfg cl)) ans). destruct (roundTrip _ _).2 as [[rh rb]|e|]; [| |done].
    + split; [by apply wf_counters, wf_set_heap|]. by apply counted_count.
    + apply errorReply_handled; [by apply wf_set_heap|done].
Qed.

Lemma handleRPC_returns p raw o : exists x, handleRPC url_scheme ctx_text p raw o = Some x.
Proof.
  unfold handleRPC. destruct raw as [raw|]; [|by eexists]. destruct (SplitEnvelope raw) as [[hdr body]|e|]; [|by eexists..].
  destruct (_ =? MsgConnectionRequest); [apply handleConnect_returns|]. destruct (_ =? MsgDisconnect); [by eexists|].
  destruct (forward _ _ _ _ _) as [[posted r] p']. by eexists.
Qed.

Lemma handleRPC_handled p raw o x : wf p -> handleRPC url_scheme ctx_text p raw o = Some x -> handled p x.
Proof.
  intros Hw H. unfold handleRPC in H. destruct raw as [raw|]; [|injection H as <-; split; [done|by apply counted_count]].
  pose proof (SplitEnvelope_total raw). destruct (SplitEnvelope raw) as [[hdr body]|e|]; [|by injection H as <-; apply errorReply_handled|done].
  destruct (_ =? MsgConnectionRequest); [by eapply handleConnect_handled|].
  destruct (_ =? MsgDisconnect); [injection H as <-; by apply handleDisconnect_handled|].
  pose proof (forward_handled p hdr body (o_answer o) Hw) as Hf.
  destruct (forward ctx_text p hdr body (o_answer o)) as [[posted r] p']. by injection H as <-.
Qed.

End Handlers.

(** C32: whatever a client sends and whatever upstream does, every handler
    returns, with an HTTP answer and not with a panic; the pool and the table
    keep pointing at sessions that exist, as those of a new proxy do; a scrape
    of the metrics changes nothing, and every other request adds one to exactly
    one series of the request counter, the one of its route and of the HTTP
    status it was answered with. *)
Theorem requests_counted url_scheme ctx_text fmt_g p r o : wf p ->
  exists rep p', ServeHTTP url_scheme ctx_text fmt_g p r o = Some (rep, p') /\ wf p' /\
    if bool_decide (Path r = str "/metrics") then p' = p /\ rep = OKBody (metrics_text fmt_g p) else counted p p' rep.
Proof.
  intros Hw. unfold ServeHTTP. case_bool_decide; [by eexists _, _|]. case_match.
  - destruct (handleRPC_returns url_scheme ctx_text p (Body r) o) as [[rep p'] E]. exists rep, p'. split; [done|].
    by apply handleRPC_handled in E.
  - case_match; (eexists _, _; split; [done|]; split; [done|]; by apply counted_count).
Qed.

(** A connect that finds the pool empty: the handshake goes through, a session
    is registered and the request counted; then an unknown route. *)
Lemma requests_counted_witness :
  let serve := ServeHTTP (fun _ => Some (str "http")) [] itoa in
  let o := MkOutside sample_world (NoResponse []) (NoResponse []) (str "V") in
  let connect := EncodeEnvelope (MkHeader MsgConnectionRequest [] 1)
                   (ConnectionRequest_Encode (MkConnectionRequest (str "tok") [] [] 1 1)) in
  exists rep p' rep' p'',
    serve (newProxy {[str "tok" := str "alice"]} sample_config 2) (MkRequest (str "POST") (str "/quack") (Some connect)) o
      = Some (rep, p') /\
    map_to_list (p_conns p') = [(str "V", 0%nat)] /\
    map_to_list (requests p') = [(request_labels (str "connect") 200, 1)] /\
    serve p' (MkRequest (str "GET") (str "/nowhere") None) o = Some (rep', p'') /\ counted p' p'' rep'.
Proof.
  intros serve o connect.
  destruct (requests_counted (fun _ => Some (str "http")) [] itoa (newProxy {[str "tok" := str "alice"]} sample_config 2)
    (MkRequest (str "POST") (str "/quack") (Some connect)) o (wf_new _ _ _)) as (rep & p' & E & Hw & _).
  destruct (requests_counted (fun _ => Some (str "http")) [] itoa p' (MkRequest (str "GET") (str "/nowhere") None) o Hw)
    as (rep' & p'' & E' & _ & Hc).
  assert (V : option_map (fun x => (map_to_list (p_conns x.2), map_to_list (requests x.2)))
      (serve (newProxy {[str "tok" := str "alice"]} sample_config 2) (MkRequest (str "POST") (str "/quack") (Some connect)) o)
    = Some ([(str "V", 0%nat)], [(request_labels (str "connect") 200, 1)])) by (vm_compute; reflexivity).
  subst serve. cbv beta in V. rewrite E in V. injection V as V1 V2.
  exists rep, p', rep', p''. split; [exact E|]. split; [exact V1|]. split; [exact V2|]. split; [exact E'|exact Hc].
Defined.
