(* ===== verification/Proxied.v ===== *)
(** * cmd/quackbouncer in front of a server

    The proxy and the server behind it as one endpoint, against the server
    alone.  An endpoint is what answers the messages a client posts; the
    refinement is proved for every endpoint that keeps the law of its class, and
    the fake server of internal/quacktest is shown to keep it. *)

From stdpp Require Import gmap.
From S2P Require Import Prelude Qser QserLib GoFmt Messages Client WireText Driver Quacktest Bouncer.

(** ** Endpoints *)

(** An HTTP endpoint for Quack messages: the reply to a posted message and the
    state it leaves. *)
Class Endpoint (S : Type) := answer : S -> bytes -> http_reply * S.

(** What the proxy relies on: a response with status 200 to a message on a
    session is a message itself, and any other response has a status. *)
Class LawfulEndpoint (S : Type) `{Endpoint S} := Lawful {
  in_band : forall s hdr body raw, header_ok hdr -> Type_ hdr <> MsgConnectionRequest ->
    (answer s (EncodeEnvelope hdr body)).1 = OKBody raw ->
    exists rh rb, SplitEnvelope raw = Ok (rh, rb) /\ header_ok rh;
  has_status : forall s m, status_ok (answer s m).1 }.

(** One call of a client and a sequence of calls, carried out against an
    endpoint.  What a client posts does not depend on the reply. *)
Definition call_on {S} `{Endpoint S} (cl : Client) (x : Z * bytes * Z) (s : S) : outcome werr bytes * Client * S :=
  let '(req, body, want) := x in
  match (call cl req body want (NoResponse [])).1.1 with
  | Some m =>
      let '(rep, s) := answer s m in
      let '(_, res, cl) := call cl req body want rep in (res, cl, s)
  | None => let '(_, res, cl) := call cl req body want (NoResponse []) in (res, cl, s)
  end.

Fixpoint calls_on {S} `{Endpoint S} (cl : Client) (l : list (Z * bytes * Z)) (s : S)
  : list (outcome werr bytes) * Client * S :=
  match l with
  | [] => ([], cl, s)
  | x :: l =>
      let '(r, cl, s) := call_on cl x s in
      let '(rs, cl, s) := calls_on cl l s in
      (r :: rs, cl, s)
  end.

(** ** The proxy in front of an endpoint *)

Record proxied (S : Type) := MkProxied { front : proxy; back : S }.
Arguments MkProxied {S}. Arguments front {S}. Arguments back {S}.

Section Behind.
Context {S : Type} `{LawfulEndpoint S}.
Context (url_scheme : bytes -> option bytes) (ctx_text : bytes) (fmt_g : Z -> bytes).

(** The rest of the outside: handshakes, goodbyes and random texts. *)
Context (o : outside).

(** What a message makes the proxy post upstream. *)
Definition forwarded (p : proxy) (m : bytes) : option bytes :=
  match SplitEnvelope m with
  | Ok (hdr, body) =>
      if (Type_ hdr =? MsgConnectionRequest) || (Type_ hdr =? MsgDisconnect) then None
      else option_map snd (forward ctx_text p hdr body (NoResponse [])).1.1
  | _ => None
  end.

#[export] Instance proxied_endpoint : Endpoint (proxied S) := fun ps m =>
  let '(ans, s) := match forwarded (front ps) m with
                   | Some m' => answer (back ps) m'
                   | None => (NoResponse [], back ps)
                   end in
  match Bouncer.ServeHTTP url_scheme ctx_text fmt_g (front ps) (posted m)
          (MkOutside (o_world o) ans (o_closing o) (o_vid o)) with
  | Some (r, p) => (r, MkProxied p s)
  | None => (NoResponse [], MkProxied (front ps) s)
  end.

(** ** One message *)

(** The client's side of the proxy's reply to a forwarded message. *)
Definition relayed (cl : Client) (vid : bytes) (ans : http_reply) (p : proxy) : http_reply :=
  match (roundTrip (Token (cfg cl)) ans).2 with
  | Ok (rh, rb) =>
      Quacktest.reply (if bool_decide (ConnectionID rh = connID cl)
                       then MkHeader (Type_ rh) vid (QueryID rh) else rh) rb
  | Err e => (errorReply (str "forward") (str "quackbouncer: upstream request failed: " ++ werr_Error ctx_text e) p).1
  | Panic => dropped
  end.

Lemma forward_live p hdr body ans up cl :
  p_conns p !! ConnectionID hdr = Some up -> p_heap p !! up = Some cl -> closed cl = false ->
  exists p', forward ctx_text p hdr body ans =
    (Some (up, EncodeEnvelope (MkHeader (Type_ hdr) (connID cl) (QueryID hdr)) body),
     relayed cl (ConnectionID hdr) ans p', p') /\ same_sessions p p'.
Proof.
  intros Hc Hh Ho. unfold forward. rewrite Hc, Hh. unfold RoundTripRaw. rewrite Ho. cbv zeta. cbn [option_map].
  rewrite (insert_id (p_heap p) up cl) by done. unfold relayed.
  destruct (roundTrip (Token (cfg cl)) ans).2 as [[rh rb]|e|]; (eexists; split; [reflexivity|]; eexists; by destruct p).
Qed.

(** A client of the proxy and the client it stands for: the same but for the
    connection id, which is the session's own. *)
Record stands_for (p : proxy) (up : nat) (cl d : Client) : Prop := StandsFor {
  sf_open : closed cl = false;
  sf_id : str_ok (connID cl);
  sf_conn : p_conns p !! connID cl = Some up;
  sf_session : exists ucl, p_heap p !! up = Some ucl /\ closed ucl = false /\ str_ok (connID ucl) /\
                 d = MkClient (cfg cl) (connID ucl) (server cl) (qid cl) false }.

Definition call_ok (x : Z * bytes * Z) : Prop :=
  let '(req, _, want) := x in
  in_u 8 req /\ req <> MsgConnectionRequest /\ req <> MsgDisconnect /\ want <> MsgError.

(** A failure of the transport: there was no message to answer with. *)
Definition out_of_band (r : outcome werr bytes) : Prop :=
  match r with Err (ETransport _) => True | Err (EServer code _) => code <> 0 | _ => False end.

(** What the client of the proxy is told, given what the client of the endpoint
    is told. *)
Definition relayed_result (direct through : outcome werr bytes) : Prop :=
  through = direct \/ (out_of_band direct /\ exists e, through = Err e).

Lemma call_result_error cl raw h b req want : want <> MsgError -> SplitEnvelope raw = Ok (h, b) -> Type_ h = MsgError ->
  exists e, call_result (Token (cfg cl)) req want (OKBody raw) = Err e.
Proof.
  intros Hw Hs Ht. unfold call_result. rewrite Hs, Ht. rewrite (proj2 (Z.eqb_neq _ _)) by congruence.
  change (MsgError =? MsgError) with true. cbv iota. pose proof (DecodeErrorMessage_total b).
  destruct (DecodeErrorMessage b); [by eexists|by eexists|done].
Qed.

(** The reply the client of the proxy gets, against the one the client of the
    endpoint gets. *)
Lemma relayed_refines cl ucl ans p req want : want <> MsgError -> str_ok (connID cl) -> status_ok ans ->
  (forall raw, ans = OKBody raw -> exists rh rb, SplitEnvelope raw = Ok (rh, rb) /\ header_ok rh) ->
  relayed_result (call_result (Token (cfg cl)) req want ans)
    (call_result (Token (cfg cl)) req want (relayed ucl (connID cl) ans p)).
Proof.
  intros Hw Hid Hst Hin. unfold relayed.
  assert (Herr : forall text, exists e, call_result (Token (cfg cl)) req want (errorReply (str "forward") text p).1 = Err e).
  { intros text. cbn [fst errorReply].
    destruct (reply_message (MkHeader MsgError [] 0) (ErrorMessage_Encode (MkErrorMessage text))) as (raw & -> & Hs);
      [by compute..|]. by eapply call_result_error. }
  destruct ans as [text|code b|text|raw]; cbn [roundTrip snd redactErr].
  - right. split; [done|apply Herr].
  - right. split; [exact Hst|apply Herr].
  - right. split; [done|apply Herr].
  - left. destruct (Hin raw eq_refl) as (rh & rb & Hs & Ht & Hc & Hq). rewrite Hs.
    set (h := if bool_decide (ConnectionID rh = connID ucl) then _ else rh).
    assert (Hh : in_u 8 (Type_ h) /\ str_ok (ConnectionID h) /\ in_u 64 (QueryID h) /\ Type_ h = Type_ rh)
      by (unfold h; by case_bool_decide).
    destruct Hh as (H1 & H2 & H3 & E). destruct (reply_message h rb) as (raw' & -> & Hs'); [done..|].
    unfold call_result. by rewrite Hs, Hs', E.
Qed.

(** ** Calls *)

Lemma serve_forwarded p up cl d req body want s : stands_for p up cl d -> call_ok (req, body, want) ->
  let q := u64 (qid cl + 1) in
  let m := EncodeEnvelope (MkHeader req (connID cl) q) body in
  let ans := answer s (EncodeEnvelope (MkHeader req (connID d) q) body) in
  exists ucl p', p_heap p !! up = Some ucl /\ same_sessions p p' /\
    answer (MkProxied p s) m = (relayed ucl (connID cl) ans.1 p', MkProxied p' ans.2).
Proof.
  intros [Ho Hid Hc (ucl & Hu & Huo & Huid & ->)] (Hreq & Hnc & Hnd & _). cbv zeta. cbn [connID].
  set (hdr := MkHeader req (connID cl) (u64 (qid cl + 1))).
  assert (Hs : SplitEnvelope (EncodeEnvelope hdr body) = Ok (hdr, body)).
  { apply split_encode. split; [done|]. split; [done|]. by apply uwrap_in. }
  unfold answer at 1. unfold proxied_endpoint. cbn [front back]. unfold forwarded. rewrite Hs.
  change (Type_ hdr) with req. rewrite (proj2 (Z.eqb_neq _ _) Hnc), (proj2 (Z.eqb_neq _ _) Hnd). cbn [orb].
  destruct (forward_live p hdr body (NoResponse []) up ucl) as (p0 & E0 & _); [done..|]. rewrite E0. cbn [fst snd option_map].
  change (Type_ hdr) with req. change (QueryID hdr) with (u64 (qid cl + 1)).
  set (rep := answer s _). destruct rep as [ans s'] eqn:Er. cbn [fst snd].
  destruct (forward_live p hdr body ans up ucl) as (p' & E' & Hp'); [done..|].
  exists ucl, p'. split; [done|]. split; [done|]. unfold Bouncer.ServeHTTP, posted. cbn [Path Method Body o_answer].
  change (bool_decide (str "/quack" = str "/metrics")) with false. change (bool_decide (str "POST" = str "POST")) with true.
  change (bool_decide (str "/quack" = str "/quack")) with true. cbn [andb].
  unfold handleRPC. rewrite Hs. change (Type_ hdr) with req. rewrite (proj2 (Z.eqb_neq _ _) Hnc), (proj2 (Z.eqb_neq _ _) Hnd).
  cbn [o_answer]. by rewrite E'.
Qed.

Lemma same_sessions_trans p1 p2 p3 : same_sessions p1 p2 -> same_sessions p2 p3 -> same_sessions p1 p3.
Proof. intros [c ->] [c' ->]. by exists c'. Qed.

(** One call: the same state behind the proxy, and a relayed result. *)
Lemma call_refines p up cl d x s : stands_for p up cl d -> call_ok x ->
  let '(rd, d', sd) := call_on d x s in
  exists rp cl' p', call_on cl x (MkProxied p s) = (rp, cl', MkProxied p' sd) /\
    relayed_result rd rp /\ same_sessions p p' /\ stands_for p' up cl' d'.
Proof.
  destruct x as [[req body] want]. intros Hst Hx.
  destruct (serve_forwarded p up cl d req body want s Hst Hx) as (ucl & p' & Hu & Hp & E). cbv zeta in E.
  destruct Hst as [Ho Hid Hc (ucl' & Hu' & Huo & Huid & ->)]. rewrite Hu in Hu'. injection Hu' as <-.
  destruct Hx as (Hreq & Hnc & Hnd & Hw). unfold call_on. cbn [connID] in E.
  rewrite !(call_open _ _ _ _ _ Ho), !call_open by done. cbn [fst snd connID qid cfg server closed]. rewrite E.
  set (m := EncodeEnvelope (MkHeader req (connID ucl) (u64 (qid cl + 1))) body) in *.
  pose proof (has_status s m) as Hstat.
  pose proof (fun raw => in_band s (MkHeader req (connID ucl) (u64 (qid cl + 1))) body raw) as Hband. fold m in Hband.
  destruct (answer s m) as [ans s']. cbn [fst snd] in *. rewrite !call_open by done. cbn [fst snd connID qid cfg server closed].
  eexists _, _, p'. split; [reflexivity|]. split; [|split; [done|]].
  - apply relayed_refines; [done..|]. intros raw ->. apply (Hband raw); [|done..].
    split; [done|]. split; [done|]. by apply uwrap_in.
  - destruct Hp as [c ->]. constructor; cbn [connID closed cfg server qid]; [done..|]. by exists ucl.
Qed.

(** C5: the proxy refines the server behind it.  For any endpoint that answers
    messages with messages, a client on a virtual connection of the proxy and a
    client on the upstream session itself, making the same calls in the same
    order, leave the endpoint in the same state and get the same results, call
    by call, except that where the endpoint gave no message at all to the one,
    the other gets an error of the proxy; and the proxy's sessions and tables are
    as before. *)
Theorem proxy_refines p up cl d l s : stands_for p up cl d -> Forall call_ok l ->
  let '(rd, d', sd) := calls_on d l s in
  let '(rp, cl', ps) := calls_on cl l (MkProxied p s) in
  back ps = sd /\ Forall2 relayed_result rd rp /\ same_sessions p (front ps) /\ stands_for (front ps) up cl' d'.
Proof.
  intros Hst Hl. revert p cl d s Hst. induction Hl as [|x l Hx _ IH]; intros p cl d s Hst; cbn [calls_on].
  { split; [done|]. split; [done|]. split; [by exists (counters p); destruct p|done]. }
  pose proof (call_refines p up cl d x s Hst Hx) as H1.
  destruct (call_on d x s) as [[rd d1] s1]. destruct H1 as (rp & cl1 & p1 & -> & Hr & Hp & Hst1).
  specialize (IH p1 cl1 d1 s1 Hst1). destruct (calls_on d1 l s1) as [[rds d2] s2].
  destruct (calls_on cl1 l (MkProxied p1 s1)) as [[rps cl2] ps]. destruct IH as (Hb & Hrs & Hp' & Hst').
  split; [done|]. split; [by constructor|]. split; [by eapply same_sessions_trans|done].
Qed.

End Behind.

(** ** The fake server keeps the law *)

Section FakeServer.
Context (Quote : bytes -> bytes).

#[export] Instance server_endpoint : Endpoint Quacktest.Server := fun s m => Quacktest.ServeHTTP Quote s (posted m).

Definition lawful_reply (r : http_reply) : Prop :=
  status_ok r /\ forall raw, r = OKBody raw -> exists rh rb, SplitEnvelope raw = Ok (rh, rb) /\ header_ok rh.

Lemma lawful_message hdr body : header_ok hdr -> lawful_reply (Quacktest.reply hdr body).
Proof.
  intros (H1 & H2 & H3). destruct (reply_message hdr body H1 H2 H3) as (raw & E & Hs). rewrite E. split; [done|].
  intros raw' [= <-]. eexists _, _. split; [exact Hs|]. split; [done|]. split; [done|]. cbn. by destruct (_ =? _).
Qed.

Lemma lawful_error msg : lawful_reply (Quacktest.errorReply msg).
Proof. apply lawful_message. by split; [|split]; compute. Qed.

Lemma lawful_with hdr body : header_ok hdr -> lawful_reply (replyWith hdr body).
Proof. intros H. destruct body; [by apply lawful_message|by split..]. Qed.

Lemma lawful_status code body : code <> 0 -> lawful_reply (BadStatus code body).
Proof. by split. Qed.

Lemma lawful_prepare s hdr body : header_ok hdr -> lawful_reply (handlePrepare Quote s hdr body).1.
Proof.
  intros (_ & _ & Hq). unfold handlePrepare. destruct (DecodePrepareRequest body); [|apply lawful_error|by split].
  destruct (results s !! SQL a); [|apply lawful_error]. cbv zeta. cbn [fst]. apply lawful_with. by split; [compute|split; [compute|]].
Qed.

Lemma lawful_fetch s body : lawful_reply (handleFetch s body).1.
Proof.
  unfold handleFetch. destruct (DecodeFetchRequest body); [|apply lawful_error|by split]. cbv zeta.
  destruct (0 <? _); [by apply lawful_status|].
  destruct (match live _ !! UUID a with Some lr => _ | None => _ end) as [[batch idx] s']. cbn [fst].
  apply lawful_with. by split; [|split]; compute.
Qed.

Lemma lawful_disconnect s hdr : lawful_reply (Quacktest.handleDisconnect s hdr).1.
Proof.
  unfold Quacktest.handleDisconnect. destruct (conns s !! _); [|apply lawful_error].
  apply lawful_message. by split; [|split]; compute.
Qed.

Lemma lawful_conn s hdr h : (forall s, lawful_reply (h s).1) -> lawful_reply (withConn s hdr h).1.
Proof. intros Hh. unfold withConn. destruct (conns s !! _); [apply Hh|apply lawful_error]. Qed.

Lemma server_lawful s hdr body : header_ok hdr -> Type_ hdr <> MsgConnectionRequest ->
  lawful_reply (answer s (EncodeEnvelope hdr body)).1.
Proof.
  intros Hh Hn. unfold answer, server_endpoint, Quacktest.ServeHTTP, posted. cbn [Method Path Body].
  change (negb (bool_decide (str "POST" = str "POST")) || negb (bool_decide (str "/quack" = str "/quack"))) with false.
  cbv iota. rewrite split_encode, (proj2 (Z.eqb_neq _ _) Hn) by done.
  destruct (_ =? MsgPrepareRequest); [apply lawful_conn; intros; by apply lawful_prepare|].
  destruct (_ =? MsgFetchRequest); [apply lawful_conn; intros; apply lawful_fetch|].
  destruct (_ =? MsgDisconnect); [apply lawful_disconnect|apply lawful_error].
Qed.

#[export] Instance server_lawful_endpoint : LawfulEndpoint Quacktest.Server.
Proof.
  constructor.
  - intros s hdr body raw Hh Hn E. by apply (server_lawful s hdr body Hh Hn).
  - intros s m. unfold answer, server_endpoint, Quacktest.ServeHTTP, posted. cbn [Method Path Body].
    change (negb (bool_decide (str "POST" = str "POST")) || negb (bool_decide (str "/quack" = str "/quack"))) with false.
    cbv iota. destruct (SplitEnvelope m) as [[hdr body]|e|]; [|done|done].
    destruct (_ =? MsgConnectionRequest).
    + unfold Quacktest.handleConnect. repeat case_match; done.
    + destruct (_ =? MsgPrepareRequest); [unfold withConn, handlePrepare, replyWith; repeat case_match; done|].
      destruct (_ =? MsgFetchRequest); [unfold withConn, handleFetch, replyWith; repeat case_match; done|].
      destruct (_ =? MsgDisconnect); [unfold Quacktest.handleDisconnect; by case_match|done].
Qed.

End FakeServer.

(** ** A concrete run *)

Definition sample_front : proxy := set_pconns {[str "V" := 0%nat]} sample_proxy.

Definition sample_virtual : Client := MkClient (cfg sample_client) (str "V") (server sample_client) 0 false.

(** A query the server knows, one it does not, and a fetch. *)
Definition sample_calls : list (Z * bytes * Z) :=
  [(MsgPrepareRequest, PrepareRequest_Encode (MkPrepareRequest (str "SELECT *")), MsgPrepareResponse);
   (MsgPrepareRequest, PrepareRequest_Encode (MkPrepareRequest (str "SELECT 2")), MsgPrepareResponse);
   (MsgFetchRequest, FetchRequest_Encode (MkFetchRequest (Hugeint 0x7e57 1)), MsgFetchResponse)].

Lemma proxy_refines_witness :
  let endpoint := server_endpoint (fun q => q) in
  let front_endpoint := proxied_endpoint (fun _ => None) [] itoa (MkOutside sample_world (NoResponse []) (NoResponse []) []) in
  let d := MkClient (cfg sample_client) (connID sample_client) (server sample_client) 0 false in
  (back (calls_on sample_virtual sample_calls (MkProxied sample_front sample_server)).2
   = (calls_on d sample_calls sample_server).2) /\
  Forall2 relayed_result (calls_on d sample_calls sample_server).1.1
    (calls_on sample_virtual sample_calls (MkProxied sample_front sample_server)).1.1.
Proof.
  intros endpoint front_endpoint d.
  pose proof (proxy_refines (S := Quacktest.Server) (fun _ => None) [] itoa (MkOutside sample_world (NoResponse []) (NoResponse []) [])
    sample_front 0%nat sample_virtual d sample_calls sample_server) as H.
  cbv zeta in H. fold endpoint in H. fold front_endpoint in H.
  destruct (calls_on d sample_calls sample_server) as [[rd d'] sd].
  destruct (calls_on sample_virtual sample_calls (MkProxied sample_front sample_server)) as [[rp c'] ps].
  destruct H as (Hb & Hr & _).
  - constructor; [reflexivity|by compute|reflexivity|]. exists sample_client. by split; [|split; [|split; [compute|]]].
  - repeat constructor; by compute.
  - split; [exact Hb|exact Hr].
Defined.
